(* ===== verification/_CoqProject ===== *)
-Q . S2P
Prelude.v
Bip.v
Dlist.v
Cstr.v
Numbers.v
Sha.v
Rsa.v
Base64.v
Rwx.v
Terminal.v
Framebuffer.v
Packet.v
Pump.v
Fdevent.v
Jdwp.v
Connect.v
DeviceServices.v
SyncService.v
SyncClient.v
AuthKeys.v
AuthClient.v
World.v
Transport.v
Trackers.v
TransportLife.v
Sockets.v
SocketsInv.v
SocketsClose.v
SocketsData.v
SocketsSmart.v
SocketsEvents.v
SocketsOpen.v
SocketsEnd.v
Listeners.v
HandlePacket.v
Sends.v
DaemonPump.v
PacketSafe.v
HostRequest.v
AdbClient.v
Commands.v
CommandLines.v
AuthGate.v
Streams.v
Demo.v
