(* ===== verification/Prelude.v ===== *)
(** * The Android Debug Bridge, with its Bluetooth transport

    A verification of the core of ADB as it is in src/android/system/core/adb,
    with the parts of libmincrypt and bionic that it computes with.  ADB is three
    programs in one: the daemon on the device (adbd), the server on the host
    and the client that asks the server.  The daemon and the server run one
    event loop in one thread ([main] of adb.c), over descriptors, sockets (the
    [asocket] of sockets.c, which are not those of the system) and transports
    (a device or a host at the other end of usb, TCP or Bluetooth); two more
    threads per transport move packets between its descriptor and the device.

    ** Files

    Foundations.
    - Prelude: results of C code ([res]: a value, undefined behaviour, the end
      of the process, a call that never returns), machine integers, bytes.
    - Dlist: the intrusive rings of all lists, as pointer writes.  The other
      files use lists of addresses for them, except TransportLife, which keeps
      the pointers.
    - Cstr, Numbers: the string functions and conversions of the C library
      (libc/stdlib/strtoul.c of bionic).
    - Rwx: descriptors with a schedule of answers of the system, and the loops
      [readx], [writex] and those of usb_linux_client.c.
    - Bip: the circular buffers between two threads with which
      sysdeps_win32.c emulates socket pairs, under every interleaving.

    Cryptography of authentication.
    - Sha, Rsa (libmincrypt), Base64 (bionic): the digests against FIPS 180, the
      Montgomery exponentiation against numbers, the encoding of keys.
    - AuthKeys: the files of keys and [adb_auth_verify]; AuthClient: the
      framework that is asked for unknown keys (adb_auth_client.c).

    Packets and events.
    - Packet: messages on the wire, [check_header], [check_data],
      [send_packet], the readers and writers of transport_local.c and
      transport_usb.c.
    - Pump: the two threads of a transport and the main thread, as one system
      with the packets between them; the main thread is the class
      [Dispatcher], which DaemonPump implements with [handle_packet] (Sends
      shows that it keeps what was sent).
    - Fdevent: fdevent.c, with the class [FdEvents] of what it promises to its
      clients ([FdEventsLaws]); the components below are proved against the
      class, and Fdevent is an instance.

    The daemon.
    - World: the memory that is shared (sockets, transports, descriptors,
      packets that were sent), by address; an access to an address without an
      object is undefined behaviour.
    - Sockets: the three methods of local, remote and smart sockets and their
      events; SocketsInv (the invariant), SocketsClose, SocketsData,
      SocketsSmart, SocketsEvents, SocketsOpen, SocketsEnd: what they do.
    - HandlePacket: [handle_packet] and its messages; PacketSafe, AuthGate,
      Streams: what a remote can and cannot do with it.
    - SyncService, SyncClient: the file service, and the host side of it.
    - Jdwp: the java processes of the device, their descriptors, and the
      clients that follow them (jdwp_service.c).
    - DeviceServices: which descriptor, thread and process a service gets
      ([service_to_fd]) and the services themselves (services.c,
      backup_service.c, remount_service.c, log_service.c); Framebuffer: the
      screenshots (framebuffer_service.c).

    The host.
    - Transport: the choice of a transport for a request and the listing of
      devices; TransportLife: the registration, the threads and the end of a
      transport, under every interleaving; Trackers: the clients that follow
      the listing; Connect: [adb connect], [adb btconnect] and the table of
      emulators (services.c, transport_local.c).
    - Listeners: forwarded ports (adb.c).
    - HostRequest: the requests to the server ([handle_host_request] and the
      part of [smart_socket_enqueue] that recognises them).
    - AdbClient: how a command asks the server (adb_client.c).
    - Commands: the command line (commandline.c); CommandLines: what its
      commands mean to the shell, the services and the server that get them;
      Terminal: its copies between the terminal, files and a service.
    - Demo: the theorems on a concrete daemon and server.

    A definition has the name of the C function that it translates, or of the
    place in it when a function is cut into pieces; the states are records with
    the fields of the C structures, less the links of rings and what is only
    printed.  [int] and [unsigned] are [Z], with [u32], [u16] and [s32] where
    they wrap around.

    ** What is shown

    - No memory fault and no endless call: [PacketSafe.packet_safe] for every
      message of a remote, [SocketsEvents.event_safe] and
      [SocketsClose.close_safe] for the events and the closing of sockets,
      [HostRequest.request_safe] for every request to the server,
      [TransportLife.life_safe] for the threads of transports,
      [Connect.ports_kept] and [Jdwp.descriptors_kept_once] for any sequence
      of what happens to these components, [SyncService.service_returns],
      [Fdevent.turn_returns], [SocketsEnd.disconnects_end].  The hypotheses of
      these theorems name what the code does not check, and for most of it a
      theorem below shows the fault.
    - Descriptors and files: [DeviceServices.services_own] (what a service
      opens has one owner), [CommandLines.install_cleans] (an installation
      leaves nothing behind).
    - Security: [AuthGate.auth_gate] (nothing happens until a signature
      verifies for the token that was asked to be signed last),
      [AuthKeys.auth_verify_spec] (against the format of the files of keys),
      [Rsa.verify_decides], [Sha.hashes_fips] (against FIPS 180, with constants
      from the roots of primes), [AuthClient.auth_request_comes].
    - Data arrives: [Streams.wrte_in_order], [Streams.open_connects],
      [SyncClient.push_agrees] and [SyncClient.pull_agrees] (the client and the
      service composed), [AdbClient.query_agrees] and
      [AdbClient.device_service] (the client against the smart socket of the
      server), the round trips of Packet, Base64, AuthKeys, AuthGate and
      HostRequest, [Framebuffer.screenshot_sent], [Terminal.stdin_forwards],
      [Terminal.download_exact], [DeviceServices.remount_finds].
    - A command means at its other end what was typed:
      [CommandLines.shell_commands] (against a reading of shell words),
      [CommandLines.backup_arguments_arrive] (against [backup_service]) and,
      where it does not, [CommandLines.norebind_refused] (against
      [handle_host_request]).
    - Refinement of an abstract state: [Listeners.listeners_simulate] (a table
      of forwards), [Trackers.update_reaches_all] (a list of trackers),
      [Transport.acquire_unique], [Pump.pump_streams] (the threads of a
      transport are a queue in each direction), [Bip.bip_queue] (a circular
      buffer is a queue).
    - What ends: [TransportLife.transport_ends], [Pump.pump_ends],
      [DeviceServices.waiters_end], and [Bip.bip_wakes] (nobody waits for
      what has happened).
    - Where the code does not do what it means to, a theorem shows the run that
      goes wrong: among them [Fdevent.set_beyond_fd_set],
      [Fdevent.table_half_cleared], [Demo.stray_write_crashes],
      [Demo.local_peers_uaf], [Listeners.listing_without_serial],
      [SyncClient.link_target_unterminated], [CommandLines.bu_args_overruns],
      [Terminal.keys_lost], [TransportLife.disconnect_frees_early],
      [TransportLife.descriptor_closed_twice], [Connect.emulator_freed_in_table],
      [Connect.port_not_read], [Jdwp.negative_pid_spins],
      [Jdwp.restore_closes_twice], [HostRequest.bluetooth_serial_cut],
      [HostRequest.long_listing_overruns], [Listeners.smart_socket_removed],
      [AdbClient.console_port_after_free], [AdbClient.long_serial_cut],
      [CommandLines.port_forgotten], [DeviceServices.shell_without_process],
      [DeviceServices.backup_descriptor_taken].

    ** Fuel

    Loops over descriptors have as fuel the number of answers that the schedule
    of the descriptor still has, plus one: every iteration takes one, and a
    schedule that runs out is a call that never returns ([Blocked]), which the
    theorems exclude by a hypothesis on the schedule.  Calls of socket methods
    are nested at most [exec_depth] = 8 deep (SocketsInv).  Walks of lists have
    the number of nodes; conversions of numbers the digits of a word; the
    doubling of the event table eight steps, up to the limit of the code.
    A command that waits for a device looks [patience] times for it, and one
    that calls the command line again does so [depth] deep, which is twice;
    [CommandLines.install_cleans] gives the numbers that are enough.  Threads
    that interleave (Pump, Bip, TransportLife) are relations without fuel.

    ** Not modelled

    - [malloc] does not fail, except where the code ends the process; what is
      printed and the trace output are left out.
    - System calls are arguments: connecting, accepting and binding sockets,
      files (the class [Os]), properties, threads (as steps that interleave),
      [send_auth_request] when no random token can be read ([None]).
    - The table of emulators is in Connect only.
    - What a forked child does before its [exec] is its list of arguments; the
      room that [alloca] leaves for it is a field of the [kernel].
    - The trackers of devices and the clients of Jdwp know their peers, not the
      sockets themselves.
    - The text of the help, the usb interfaces, the emulation of descriptors
      on Windows other than its circular buffers, [main], and what opens
      Bluetooth and network sockets: calls of an operating system without a
      state of their own.  The rest of the repository is a C library, OpenSSL, a toolchain
      and headers that ADB is built with. *)

From Stdlib Require Export ZArith Lia Strings.Byte.
From stdpp Require Export base tactics decidable numbers strings option gmap sets list.
#[global] Open Scope Z_scope.
#[global] Arguments Nat.min : simpl never.
#[global] Arguments Nat.max : simpl never.

(** ** Results of C code *)

(** A call of C code ends in a value, in undefined behaviour (an access to
    freed or uninitialised memory), in the end of the process ([fatal],
    [abort], [exit]), or does not end because the operating system never
    answers the call it waits for. *)
Inductive res (A : Type) : Type :=
  | Ok (a : A)
  | Ub
  | Exit
  | Blocked.
Arguments Ok {A} a.
Arguments Ub {A}.
Arguments Exit {A}.
Arguments Blocked {A}.

Definition res_bind {A B} (m : res A) (k : A -> res B) : res B :=
  match m with
  | Ok a => k a
  | Ub => Ub
  | Exit => Exit
  | Blocked => Blocked
  end.

Declare Scope adb_scope.
Delimit Scope adb_scope with adb.
Notation "'let*' x := m 'in' k" := (res_bind m (fun x => k))
  (at level 10, x name, m at level 200, k at level 200) : adb_scope.
Notation "'let*' ' p := m 'in' k" := (res_bind m (fun p => k))
  (at level 10, p strict pattern, m at level 200, k at level 200) : adb_scope.
#[global] Open Scope adb_scope.

(** The value of an option that stands for a memory access. *)
Definition access {A} (o : option A) : res A :=
  match o with Some a => Ok a | None => Ub end.

(** A call that meets [Q]: it returns with [Q] or ends the process; it is
    defined, and it returns. *)
Definition ensures {A} (m : res A) (Q : A -> Prop) : Prop :=
  match m with
  | Ok a => Q a
  | Exit => True
  | Ub | Blocked => False
  end.

(** What holds of the value of a call, if there is one. *)
Definition onwards {A} (m : res A) (P : A -> Prop) : Prop := match m with Ok a => P a | _ => True end.

(** A call that returns with [Q]. *)
Definition returns {A} (m : res A) (Q : A -> Prop) : Prop := exists a, m = Ok a /\ Q a.

(** ** Machine integers *)

Definition u32 (z : Z) : Z := z mod 2 ^ 32.
Definition u16 (z : Z) : Z := z mod 2 ^ 16.
Definition s32 (z : Z) : Z := (z + 2 ^ 31) mod 2 ^ 32 - 2 ^ 31.

(** ** Bytes and C strings *)

Abbreviation bytes := (list byte).

#[export] Instance byte_eq_dec : EqDecision byte := Byte.byte_eq_dec.

Definition ub (b : byte) : Z := Z.of_N (Byte.to_N b).
Definition bz (z : Z) : byte :=
  match Byte.of_N (Z.to_N (z mod 256)) with Some b => b | None => Byte.x00 end.

(** The characters of a literal, without the terminating NUL. *)
Definition lit (s : string) : bytes := String.list_byte_of_string s.

(** The bytes of a 32-bit word in memory on a little-endian machine. *)
Definition le32 (w : Z) : bytes :=
  [bz w; bz (w / 2 ^ 8); bz (w / 2 ^ 16); bz (w / 2 ^ 24)].
Definition of_le32 (b0 b1 b2 b3 : byte) : Z :=
  ub b0 + ub b1 * 2 ^ 8 + ub b2 * 2 ^ 16 + ub b3 * 2 ^ 24.

(** The first [k] words of a buffer. *)
Fixpoint le_words (k : nat) (p : bytes) : list Z :=
  match k, p with
  | S k, b0 :: b1 :: b2 :: b3 :: p => of_le32 b0 b1 b2 b3 :: le_words k p
  | _, _ => []
  end.

Definition words_in (s : list Z) : Prop := Forall (fun x => 0 <= x < 2 ^ 32) s.

(** * Lemmas *)

Create HintDb adb.
Create Rewrite HintDb adb_bytes.

(** ** Results *)

Lemma res_bind_ok {A B} (m : res A) (k : A -> res B) b :
  res_bind m k = Ok b <-> exists a, m = Ok a /\ k a = Ok b.
Proof. split; [destruct m; simpl; eauto; discriminate|]. intros (a & -> & H). exact H. Qed.

Lemma access_ok {A} (o : option A) a : access o = Ok a <-> o = Some a.
Proof. destruct o; simpl; split; congruence. Qed.

(** Split hypotheses that say a sequence of calls returned. *)
Ltac inv_ok :=
  repeat match goal with
    | H : res_bind _ _ = Ok _ |- _ =>
        apply res_bind_ok in H; destruct H as (? & ? & H)
    | H : access _ = Ok _ |- _ => apply access_ok in H
    | H : Ok _ = Ok _ |- _ => injection H as H
    | H : Ub = Ok _ |- _ => discriminate H
    | H : Exit = Ok _ |- _ => discriminate H
    | H : Blocked = Ok _ |- _ => discriminate H
    end.

(** ** Calls that meet a postcondition *)

Lemma ensures_bind {A B} (m : res A) (k : A -> res B) Q :
  ensures m (fun a => ensures (k a) Q) -> ensures (res_bind m k) Q.
Proof. destruct m; simpl; auto. Qed.

Lemma ensures_mono {A} (m : res A) (P Q : A -> Prop) :
  (forall a, P a -> Q a) -> ensures m P -> ensures m Q.
Proof. destruct m; simpl; auto. Qed.

Lemma ensures_and {A} (m : res A) (P Q : A -> Prop) :
  ensures m P -> ensures m Q -> ensures m (fun a => P a /\ Q a).
Proof. destruct m; simpl; auto. Qed.

Lemma returns_ok {A} (a : A) (Q : A -> Prop) : Q a -> returns (Ok a) Q.
Proof. by exists a. Qed.

Lemma returns_bind {A B} (m : res A) (k : A -> res B) P Q :
  returns m P -> (forall a, P a -> returns (k a) Q) -> returns (res_bind m k) Q.
Proof. intros (a & -> & Ha) H. exact (H a Ha). Qed.

Lemma returns_mono {A} (m : res A) (P Q : A -> Prop) : (forall a, P a -> Q a) -> returns m P -> returns m Q.
Proof. intros H (a & -> & Ha). exists a. auto. Qed.

Lemma onwards_bind {A B} (m : res A) (k : A -> res B) Q :
  onwards m (fun a => onwards (k a) Q) -> onwards (res_bind m k) Q.
Proof. by destruct m. Qed.

Lemma onwards_mono {A} (m : res A) (P Q : A -> Prop) : onwards m P -> (forall a, P a -> Q a) -> onwards m Q.
Proof. destruct m; cbn; auto. Qed.

Lemma onwards_all {A} (m : res A) (Q : A -> Prop) : (forall a, m = Ok a -> Q a) -> onwards m Q.
Proof. destruct m; cbn; auto. Qed.

Lemma ensures_ok {A} (m : res A) (Q : A -> Prop) a : ensures m Q -> m = Ok a -> Q a.
Proof. intros H ->. exact H. Qed.

(** ** Machine integers *)

(** Linear arithmetic with divisions by the powers of two of machine words. *)
Ltac zdiv :=
  change (2 ^ 8) with 256 in *; change (2 ^ 16) with 65536 in *;
  change (2 ^ 24) with 16777216 in *; change (2 ^ 32) with 4294967296 in *;
  Z.to_euclidean_division_equations; lia.

Lemma u32_range z : 0 <= u32 z < 2 ^ 32.
Proof. apply Z.mod_pos_bound. lia. Qed.

Lemma u32_small z : 0 <= z < 2 ^ 32 -> u32 z = z.
Proof. apply Z.mod_small. Qed.

Lemma u32_add a b : u32 (u32 a + b) = u32 (a + b).
Proof. apply Zplus_mod_idemp_l. Qed.

(** A shifted number and bits below it. *)
Lemma lor_shiftl_add a b k : 0 <= k -> 0 <= b < 2 ^ k -> Z.lor (Z.shiftl a k) b = a * 2 ^ k + b.
Proof.
  intros Hk Hb. rewrite <-Z.add_nocarry_lor; [by rewrite Z.shiftl_mul_pow2 by lia|].
  apply Z.bits_inj'. intros i Hi. rewrite Z.land_spec, Z.bits_0.
  destruct (decide (i < k)); [by rewrite Z.shiftl_spec_low by lia|].
  replace b with (b mod 2 ^ k) by (apply Z.mod_small; lia).
  by rewrite Z.mod_pow2_bits_high, andb_false_r by lia.
Qed.

(** ** Bytes *)

Lemma ub_range b : 0 <= ub b < 256.
Proof. unfold ub. pose proof (Byte.to_N_bounded b). lia. Qed.

Lemma ub_bz z : ub (bz z) = z mod 256.
Proof.
  unfold ub, bz. pose proof (Z.mod_pos_bound z 256 eq_refl) as Hb.
  destruct (Byte.of_N _) as [b|] eqn:E.
  - apply Byte.to_of_N in E. rewrite E. lia.
  - apply Byte.of_N_None_iff in E. lia.
Qed.

Lemma ub_inj a b : ub a = ub b -> a = b.
Proof.
  unfold ub. intros H. apply N2Z.inj in H.
  pose proof (Byte.of_to_N a). pose proof (Byte.of_to_N b). congruence.
Qed.

Lemma bz_ub b : bz (ub b) = b.
Proof. apply ub_inj. rewrite ub_bz. apply Z.mod_small, ub_range. Qed.

Lemma of_le32_le32 w : 0 <= w < 2 ^ 32 ->
  of_le32 (bz w) (bz (w / 2 ^ 8)) (bz (w / 2 ^ 16)) (bz (w / 2 ^ 24)) = w.
Proof.
  intros H. unfold of_le32. rewrite !ub_bz. zdiv.
Qed.

Lemma of_le32_range b0 b1 b2 b3 : 0 <= of_le32 b0 b1 b2 b3 < 2 ^ 32.
Proof.
  unfold of_le32. pose proof (ub_range b0). pose proof (ub_range b1).
  pose proof (ub_range b2). pose proof (ub_range b3). lia.
Qed.

Lemma le32_of_le32 b0 b1 b2 b3 : le32 (of_le32 b0 b1 b2 b3) = [b0; b1; b2; b3].
Proof.
  unfold le32, of_le32. pose proof (ub_range b0). pose proof (ub_range b1).
  pose proof (ub_range b2). pose proof (ub_range b3).
  repeat f_equal; apply ub_inj; rewrite ub_bz; zdiv.
Qed.

Lemma words_in_app l k : words_in (l ++ k) <-> words_in l /\ words_in k.
Proof. apply Forall_app. Qed.

Lemma le_words_le32 l k rest : words_in l -> k = length l -> le_words k (concat (map le32 l) ++ rest) = l.
Proof.
  intros H ->. induction H as [|x l Hx _ IH]; [done|]. cbn [length map concat le32 app le_words].
  by rewrite of_le32_le32, IH.
Qed.

#[export] Hint Resolve u32_range ub_range of_le32_range : adb.
#[export] Hint Rewrite @bz_ub ub_bz : adb_bytes.

(** ** Lists *)

Lemma NoDup_middle {A} (l1 : list A) x l2 :
  NoDup (l1 ++ x :: l2) <-> x ∉ l1 ++ l2 /\ NoDup (l1 ++ l2).
Proof. rewrite <-NoDup_cons. f_equiv. symmetry. apply Permutation_middle. Qed.

(** A prefix in two pieces. *)
Lemma take_take_drop {A} (l : list A) i j : take i l ++ take j (drop i l) = take (i + j) l.
Proof. revert i. induction l as [|x l IH]; intros [|i]; simpl; rewrite ?take_nil, ?IH; done. Qed.

(** Filters that keep everything, or nothing. *)
Lemma filter_same {A} (P : A -> Prop) `{!forall x, Decision (P x)} (l : list A) : (forall x, x ∈ l -> P x) -> filter P l = l.
Proof.
  induction l as [|x l IH]; [done|]. intros Hl. rewrite filter_cons, decide_True by (apply Hl; by apply elem_of_cons; left).
  f_equal. apply IH. intros y Hy. apply Hl. by apply elem_of_cons; right.
Qed.

Lemma filter_none {A} (P : A -> Prop) `{!forall x, Decision (P x)} (l : list A) : (forall x, x ∈ l -> ~ P x) -> filter P l = [].
Proof.
  induction l as [|x l IH]; [done|]. intros Hl. rewrite filter_cons, decide_False by (apply Hl; by apply elem_of_cons; left).
  apply IH. intros y Hy. apply Hl. by apply elem_of_cons; right.
Qed.

(** A sublist that is not shorter is the whole list. *)
Lemma sublist_full {A} (l k : list A) : l `sublist_of` k -> (length k <= length l)%nat -> l = k.
Proof.
  induction 1 as [|x l k H IH|x l k H IH]; cbn; intros Hl; [done|by rewrite IH by lia|].
  apply sublist_length in H. lia.
Qed.
