(* ===== verification/Bip.v ===== *)
(** * The buffers of emulated socket pairs (sysdeps_win32.c)

    Windows has no socket pairs that the event loop could wait for, so ADB makes
    them of two ring buffers, a [BipBuffer] for each direction, which a thread
    writes and another one reads.

    The body of a call between [EnterCriticalSection] and
    [LeaveCriticalSection] is a function of the buffer; the assignments of the
    flags and events that [bip_buffer_close] looks at without the lock come last
    in it, and are kept as a list of [signal]s, to be made one at a time.
    [System] interleaves a reader, a writer and any number of threads that close
    the buffer.  [fdin] and [fdout] are only printed. *)

From S2P Require Import Prelude.

Definition BIP_BUFFER_SIZE : Z := 4096.

Record BipBuffer := Bip {
  a_start : Z;
  a_end : Z;
  b_end : Z;
  closed : bool;
  can_write : bool;
  evt_write : bool;
  can_read : bool;
  evt_read : bool;
  buff : bytes
}.

Definition with_region (s e b : Z) (x : BipBuffer) : BipBuffer :=
  Bip s e b (closed x) (can_write x) (evt_write x) (can_read x) (evt_read x) (buff x).
Definition with_buff (m : bytes) (x : BipBuffer) : BipBuffer :=
  Bip (a_start x) (a_end x) (b_end x) (closed x) (can_write x) (evt_write x) (can_read x) (evt_read x) m.
Definition with_closed (x : BipBuffer) : BipBuffer :=
  Bip (a_start x) (a_end x) (b_end x) true (can_write x) (evt_write x) (can_read x) (evt_read x) (buff x).

(** ** Flags and events *)

Inductive signal :=
  | CanWrite (v : bool)
  | EvtWrite (v : bool)
  | CanRead (v : bool)
  | EvtRead (v : bool).

Definition raise (o : signal) (x : BipBuffer) : BipBuffer :=
  match o with
  | CanWrite v => Bip (a_start x) (a_end x) (b_end x) (closed x) v (evt_write x) (can_read x) (evt_read x) (buff x)
  | EvtWrite v => Bip (a_start x) (a_end x) (b_end x) (closed x) (can_write x) v (can_read x) (evt_read x) (buff x)
  | CanRead v => Bip (a_start x) (a_end x) (b_end x) (closed x) (can_write x) (evt_write x) v (evt_read x) (buff x)
  | EvtRead v => Bip (a_start x) (a_end x) (b_end x) (closed x) (can_write x) (evt_write x) (can_read x) v (buff x)
  end.

Definition raise_all (os : list signal) (x : BipBuffer) : BipBuffer := foldl (fun x o => raise o x) x os.

(** ** Copies

    [memcpy] between the buffer and the memory of the caller, undefined outside
    of the buffer. *)

Definition copy_out (m : bytes) (off n : Z) : res bytes :=
  if bool_decide (0 <= off /\ 0 <= n /\ off + n <= Z.of_nat (length m))
  then Ok (take (Z.to_nat n) (drop (Z.to_nat off) m)) else Ub.

Definition copy_in (m : bytes) (off : Z) (d : bytes) : res bytes :=
  if bool_decide (0 <= off /\ off + Z.of_nat (length d) <= Z.of_nat (length m))
  then Ok (take (Z.to_nat off) m ++ d ++ drop (Z.to_nat off + length d) m) else Ub.

(** [assert] ends the process. *)
Definition assert_pos (n : Z) : res unit := if bool_decide (0 < n) then Ok tt else Exit.

(** ** The operations *)

Definition bip_buffer_init (m : bytes) : BipBuffer := Bip 0 0 0 false true true false false m.

(** The rest of a write after the copy: what is left to signal. *)
Definition written (full : bool) (x : BipBuffer) : list signal :=
  (if full then [CanWrite false; EvtWrite false] else [])
  ++ (if can_read x then [] else [CanRead true; EvtRead true]).

(** [bip_buffer_write] with the lock and [can_write]; the count, and the
    signals.  First what is left after region A was filled. *)
Definition write_b (src : bytes) (count : Z) (x : BipBuffer) : res (Z * BipBuffer * list signal) :=
  if bool_decide (src = []) then
    let* _ := assert_pos count in Ok (count, x, written false x)
  else
    let avail := a_start x - b_end x in
    let* _ := assert_pos avail in
    let avail := Z.min avail (Z.of_nat (length src)) in
    let* m := copy_in (buff x) (b_end x) (take (Z.to_nat avail) src) in
    let x := with_region (a_start x) (a_end x) (b_end x + avail) (with_buff m x) in
    let* _ := assert_pos (count + avail) in
    Ok (count + avail, x, written (bool_decide (b_end x = a_start x)) x).

Definition write_locked (src : bytes) (x : BipBuffer) : res (Z * BipBuffer * list signal) :=
  let avail := BIP_BUFFER_SIZE - a_end x in
  if bool_decide (0 < avail) then
    let avail := Z.min avail (Z.of_nat (length src)) in
    let* m := copy_in (buff x) (a_end x) (take (Z.to_nat avail) src) in
    let x := with_region (a_start x) (a_end x + avail) (b_end x) (with_buff m x) in
    if bool_decide (a_end x = BIP_BUFFER_SIZE /\ a_start x = 0) then
      let* _ := assert_pos avail in Ok (avail, x, written true x)
    else write_b (drop (Z.to_nat avail) src) avail x
  else write_b src 0 x.

Definition did_read (empty : bool) (x : BipBuffer) : list signal :=
  (if empty then [CanRead false; EvtRead false] else [])
  ++ (if can_write x then [] else [CanWrite true; EvtWrite true]).

(** [bip_buffer_read] with the lock and [can_read]; the bytes read, and the
    signals. *)
Definition read_locked (len : Z) (x : BipBuffer) : res (bytes * BipBuffer * list signal) :=
  let avail := a_end x - a_start x in
  let* _ := assert_pos avail in
  let avail := Z.min avail len in
  let* d := copy_out (buff x) (a_start x) avail in
  let x := with_region (a_start x + avail) (a_end x) (b_end x) x in
  if bool_decide (a_start x < a_end x) then
    let* _ := assert_pos avail in Ok (d, x, did_read false x)
  else
    let x := with_region 0 (b_end x) 0 x in
    if bool_decide (0 < a_end x) then
      let more := Z.min (a_end x) (len - avail) in
      let* d' := copy_out (buff x) 0 more in
      let x := with_region more (a_end x) (b_end x) x in
      let* _ := assert_pos (avail + more) in
      if bool_decide (a_start x < a_end x) then Ok (d ++ d', x, did_read false x)
      else let x := with_region 0 0 (b_end x) x in Ok (d ++ d', x, did_read true x)
    else
      let* _ := assert_pos avail in Ok (d, x, did_read true x).

(** The calls of one thread that is alone; the other one would have to run where
    it waits. *)
Definition bip_buffer_write (src : bytes) (x : BipBuffer) : res (Z * BipBuffer) :=
  if bool_decide (src = []) then Ok (0, x)
  else if can_write x then let* ' (n, x, os) := write_locked src x in Ok (n, raise_all os x)
  else if closed x then Ok (-1, x) else Blocked.

Definition bip_buffer_read (len : Z) (x : BipBuffer) : res (Z * bytes * BipBuffer) :=
  if bool_decide (len <= 0) then Ok (0, [], x)
  else if can_read x then
    let* ' (d, x, os) := read_locked len x in Ok (Z.of_nat (length d), d, raise_all os x)
  else if closed x then Ok (-1, [], x) else Blocked.

Definition bip_buffer_close (x : BipBuffer) : BipBuffer :=
  let x := with_closed x in
  let x := if can_read x then x else raise (EvtRead true) x in
  if can_write x then x else raise (EvtWrite true) x.

(** * The queue *)

Definition slice (m : bytes) (s e : Z) : bytes := take (Z.to_nat (e - s)) (drop (Z.to_nat s) m).

Definition contents (x : BipBuffer) : bytes := slice (buff x) (a_start x) (a_end x) ++ slice (buff x) 0 (b_end x).

Definition room (x : BipBuffer) : Z := BIP_BUFFER_SIZE - Z.of_nat (length (contents x)).

(** The regions as the comment of the source describes them. *)
Record regions (x : BipBuffer) : Prop := Regions {
  r_len : Z.of_nat (length (buff x)) = BIP_BUFFER_SIZE;
  r_a : 0 <= a_start x <= a_end x /\ a_end x <= BIP_BUFFER_SIZE;
  r_b : 0 <= b_end x <= a_start x;
  r_wrapped : b_end x = 0 \/ a_end x = BIP_BUFFER_SIZE;
  r_empty : a_start x = a_end x -> a_end x = 0
}.

(** Everything but the regions and the memory. *)
Definition same_flags (x y : BipBuffer) : Prop :=
  closed y = closed x /\ can_write y = can_write x /\ evt_write y = evt_write x
  /\ can_read y = can_read x /\ evt_read y = evt_read x.

(** ** Slices *)

Lemma slice_length m s e : 0 <= s <= e -> e <= Z.of_nat (length m) -> Z.of_nat (length (slice m s e)) = e - s.
Proof. intros. unfold slice. rewrite length_take, length_drop. lia. Qed.

Lemma slice_app m s k e : 0 <= s <= k -> k <= e -> slice m s e = slice m s k ++ slice m k e.
Proof.
  intros. unfold slice. replace (Z.to_nat k) with (Z.to_nat s + Z.to_nat (k - s))%nat by lia.
  rewrite <-drop_drop, take_take_drop. f_equal. lia.
Qed.

Lemma slice_nil m s : slice m s s = [].
Proof. unfold slice. by rewrite Z.sub_diag. Qed.

Lemma copy_out_slice m off n : 0 <= off -> 0 <= n -> off + n <= Z.of_nat (length m) -> copy_out m off n = Ok (slice m off (off + n)).
Proof. intros. unfold copy_out, slice. rewrite bool_decide_true by lia. do 2 f_equal. lia. Qed.

(** What [copy_in] does to the slices of the memory. *)
Lemma copy_in_slices m off d : 0 <= off -> off + Z.of_nat (length d) <= Z.of_nat (length m) ->
  exists m', copy_in m off d = Ok m' /\ length m' = length m
    /\ slice m' off (off + Z.of_nat (length d)) = d
    /\ (forall s e, 0 <= s -> e <= off -> slice m' s e = slice m s e)
    /\ (forall s e, off + Z.of_nat (length d) <= s -> slice m' s e = slice m s e).
Proof.
  intros H1 H2. unfold copy_in. rewrite bool_decide_true by lia. eexists; split; [done|].
  assert (Hl : length (take (Z.to_nat off) m) = Z.to_nat off) by (rewrite length_take; lia).
  split_and!.
  - rewrite !length_app, Hl, length_drop. lia.
  - unfold slice. rewrite drop_app_length' by done. rewrite take_app_length'; [done|lia].
  - intros s e Hs He. unfold slice. destruct (decide (e <= s)).
    { by replace (Z.to_nat (e - s)) with 0%nat by lia. }
    rewrite drop_app_le by lia. rewrite take_app_le by (rewrite length_drop, Hl; lia).
    rewrite skipn_firstn_comm, take_take. f_equal. lia.
  - intros s e Hs. unfold slice. f_equal. rewrite app_assoc, drop_app_ge by (rewrite length_app, Hl; lia).
    rewrite drop_drop. f_equal. rewrite length_app, Hl. lia.
Qed.

(** ** The operations on the queue *)

Lemma size_pos : 0 < BIP_BUFFER_SIZE.
Proof. done. Qed.

Ltac blia := pose proof size_pos; lia.

Lemma contents_length x : regions x -> Z.of_nat (length (contents x)) = (a_end x - a_start x) + b_end x.
Proof.
  intros []. unfold contents. rewrite length_app, Nat2Z.inj_add, !slice_length by lia. lia.
Qed.

Lemma same_refl x : same_flags x x.
Proof. by split_and!. Qed.

Lemma take_split {A} (l : list A) (i j : Z) : 0 <= i -> 0 <= j ->
  take (Z.to_nat (i + j)) l = take (Z.to_nat i) l ++ take (Z.to_nat j) (drop (Z.to_nat i) l).
Proof. intros. rewrite take_take_drop. f_equal. lia. Qed.

(** Appending to region A. *)
Lemma append_a x d : regions x -> d <> [] -> Z.of_nat (length d) <= BIP_BUFFER_SIZE - a_end x -> b_end x = 0 ->
  exists m, copy_in (buff x) (a_end x) d = Ok m
    /\ let y := with_region (a_start x) (a_end x + Z.of_nat (length d)) (b_end x) (with_buff m x) in
       regions y /\ contents y = contents x ++ d.
Proof.
  intros [L A B W V] Hd Hl Hb. destruct (copy_in_slices (buff x) (a_end x) d ltac:(blia) ltac:(blia)) as (m & -> & Hm & H1 & H2 & _).
  exists m. split; [done|]. cbv zeta. unfold contents. cbn. rewrite Hb, !slice_nil, !app_nil_r.
  assert (0 < length d)%nat by (destruct d; [done|cbn; blia]).
  split; [constructor; cbn; rewrite ?Hm; try blia|].
  rewrite (slice_app m (a_start x) (a_end x)), H1, H2 by blia. done.
Qed.

(** Appending to region B. *)
Lemma append_b x d : regions x -> d <> [] -> a_end x = BIP_BUFFER_SIZE -> Z.of_nat (length d) <= a_start x - b_end x ->
  exists m, copy_in (buff x) (b_end x) d = Ok m
    /\ let y := with_region (a_start x) (a_end x) (b_end x + Z.of_nat (length d)) (with_buff m x) in
       regions y /\ contents y = contents x ++ d.
Proof.
  intros [L A B W V] Hd Ha Hl. destruct (copy_in_slices (buff x) (b_end x) d ltac:(blia) ltac:(blia)) as (m & -> & Hm & H1 & H2 & H3).
  exists m. split; [done|]. cbv zeta. unfold contents. cbn.
  assert (0 < length d)%nat by (destruct d; [done|cbn; blia]).
  split; [constructor; cbn; rewrite ?Hm; try blia|].
  rewrite (slice_app m 0 (b_end x)), H1, (H2 0 (b_end x)), H3, app_assoc by blia. done.
Qed.

Lemma assert_pos_ok n : 0 < n -> assert_pos n = Ok tt.
Proof. intros. unfold assert_pos. by rewrite bool_decide_true. Qed.

Lemma take_min_length (d : bytes) k : 0 <= k -> Z.of_nat (length (take (Z.to_nat (Z.min k (Z.of_nat (length d)))) d)) = Z.min k (Z.of_nat (length d)).
Proof. intros. rewrite length_take. blia. Qed.

(** [write_b] after [count] bytes went to region A. *)
Lemma write_b_ok src count x : regions x -> a_end x = BIP_BUFFER_SIZE -> 0 <= count -> src <> [] \/ 0 < count -> 0 < room x ->
  let n := Z.min (Z.of_nat (length src)) (room x) in
  exists y, write_b src count x = Ok (count + n, y, written (bool_decide (room y = 0)) y)
    /\ regions y /\ same_flags x y /\ contents y = contents x ++ take (Z.to_nat n) src.
Proof.
  intros R Ha Hc Hs Hr n. pose proof (contents_length x R) as Hl. unfold room in Hr. unfold write_b.
  destruct (decide (src = [])) as [->|Hne].
  { rewrite bool_decide_true by done. rewrite assert_pos_ok by (destruct Hs; [done|blia]). exists x.
    unfold room. rewrite (bool_decide_false (BIP_BUFFER_SIZE - _ = 0)) by blia. rewrite take_nil, app_nil_r.
    replace (count + n) with count by (unfold n, room; cbn; blia). split_and!; auto using same_refl. }
  rewrite bool_decide_false by done. assert (0 < length src)%nat by (destruct src; [done|cbn; blia]).
  assert (Hn : n = Z.min (a_start x - b_end x) (Z.of_nat (length src))) by (unfold n, room; blia).
  rewrite assert_pos_ok by blia. cbn [res_bind]. cbv zeta. rewrite <-Hn.
  assert (Hd : Z.of_nat (length (take (Z.to_nat n) src)) = n) by (rewrite Hn; apply take_min_length; blia).
  destruct (append_b x (take (Z.to_nat n) src) R) as (m & -> & R' & C'); [intros E; rewrite E in Hd; cbn in Hd; blia|done|blia|].
  cbn [res_bind]. rewrite assert_pos_ok by blia. cbn [res_bind]. cbv zeta in C', R'. rewrite Hd in *. eexists. split; [|split; [exact R'|split; [done|exact C']]].
  do 3 f_equal. apply bool_decide_ext. unfold room. rewrite (contents_length _ R'). cbn. blia.
Qed.

Lemma write_locked_ok src x : regions x -> src <> [] -> 0 < room x ->
  let n := Z.min (Z.of_nat (length src)) (room x) in
  exists y, write_locked src x = Ok (n, y, written (bool_decide (room y = 0)) y)
    /\ regions y /\ same_flags x y /\ contents y = contents x ++ take (Z.to_nat n) src.
Proof.
  intros R Hs Hr n. pose proof (contents_length x R) as Hl. pose proof R as [L A B W V].
  assert (0 < length src)%nat by (destruct src; [done|cbn; blia]). unfold write_locked.
  case_bool_decide as Ha.
  2:{ apply (write_b_ok src 0 x); auto; blia. }
  cbv zeta. set (k := Z.min _ _). assert (Hk : Z.of_nat (length (take (Z.to_nat k) src)) = k) by (apply take_min_length; blia).
  destruct (append_a x (take (Z.to_nat k) src) R) as (m & -> & R' & C'); [intros E; rewrite E in Hk; cbn in Hk; blia|blia|blia|].
  cbn [res_bind]. cbv zeta in C', R'. rewrite Hk in *. set (y := with_region _ _ _ _) in *.
  pose proof (contents_length y R') as Hy. unfold room in *. case_bool_decide as Hf; cbn in Hf, Hy.
  - rewrite assert_pos_ok by blia. cbn [res_bind]. exists y. rewrite bool_decide_true by blia.
    replace n with k by (unfold n; blia). split; [done|]. split; [done|]. split; [done|exact C'].
  - destruct (decide (a_end y = BIP_BUFFER_SIZE)) as [Hy'|Hy']; cbn in Hy'.
    + destruct (write_b_ok (drop (Z.to_nat k) src) k y R' Hy' ltac:(blia) ltac:(right; blia) ltac:(unfold room; blia)) as (z & E & Rz & Fz & Cz).
      unfold room in E, Cz. rewrite length_drop in E, Cz. exists z. replace n with (k + Z.min (Z.of_nat (length src - Z.to_nat k)) (BIP_BUFFER_SIZE - Z.of_nat (length (contents y)))) by (unfold n; blia).
      split; [exact E|]. split; [done|]. split; [done|]. rewrite Cz, take_split, app_assoc, <-C' by blia. done.
    + replace (drop _ src) with (@nil byte) by (symmetry; apply drop_ge; blia). unfold write_b. rewrite bool_decide_true by done.
      rewrite assert_pos_ok by blia. cbn [res_bind]. exists y. rewrite bool_decide_false by blia.
      replace n with k by (unfold n; blia). split; [done|]. split; [done|]. split; [done|exact C'].
Qed.

Lemma read_locked_ok len x : regions x -> 0 < len -> contents x <> [] ->
  exists y, read_locked len x = Ok (take (Z.to_nat len) (contents x), y, did_read (bool_decide (contents y = [])) y)
    /\ regions y /\ same_flags x y /\ contents y = drop (Z.to_nat len) (contents x).
Proof.
  intros R Hn Hc. pose proof (contents_length x R) as Hl. pose proof R as [L A B W V].
  assert (0 < Z.of_nat (length (contents x))) by (destruct (contents x); [done|cbn; blia]).
  assert (Hp : a_start x < a_end x) by blia. unfold read_locked. rewrite assert_pos_ok by blia. cbn [res_bind]. cbv zeta.
  set (k := Z.min _ len). rewrite copy_out_slice by blia. cbn [res_bind]. cbn [with_region a_start a_end b_end].
  case_bool_decide as Hk.
  - rewrite assert_pos_ok by blia. cbn [res_bind]. set (y := with_region _ _ _ _). exists y.
    assert (Ry : regions y) by (constructor; cbn; blia). pose proof (contents_length y Ry) as Hy. cbn in Hy.
    rewrite (bool_decide_false (contents y = [])) by (intros E; rewrite E in Hy; cbn in Hy; blia).
    assert (E : contents x = slice (buff x) (a_start x) (a_start x + k) ++ contents y).
    { unfold contents. cbn. rewrite (slice_app _ _ (a_start x + k) (a_end x)), app_assoc by blia. done. }
    assert (Hs : length (slice (buff x) (a_start x) (a_start x + k)) = Z.to_nat len)
      by (pose proof (slice_length (buff x) (a_start x) (a_start x + k)); blia).
    rewrite E, take_app_length', drop_app_length' by done. split_and!; [done|done|by repeat split|done].
  - assert (Hk' : k = a_end x - a_start x) by blia. replace (a_start x + k) with (a_end x) by blia.
    assert (Hs : Z.of_nat (length (slice (buff x) (a_start x) (a_end x))) = k) by (rewrite slice_length; blia).
    case_bool_decide as Hb.
    + set (j := Z.min (b_end x) (len - k)). change (buff (with_region _ _ _ _)) with (buff x). rewrite copy_out_slice by blia. cbn [res_bind]. rewrite assert_pos_ok by blia.
      cbn [res_bind]. rewrite Z.add_0_l.
      assert (Hj : Z.of_nat (length (slice (buff x) 0 j)) = j) by (rewrite slice_length; blia).
      assert (E : contents x = (slice (buff x) (a_start x) (a_end x) ++ slice (buff x) 0 j) ++ slice (buff x) j (b_end x)).
      { unfold contents. rewrite (slice_app _ 0 j (b_end x)), app_assoc by blia. done. }
      case_bool_decide as Hj2.
      * set (y := with_region _ _ _ _). exists y. assert (Ry : regions y) by (constructor; cbn; blia).
        assert (Cy : contents y = slice (buff x) j (b_end x)) by (unfold contents; cbn; by rewrite slice_nil, app_nil_r).
        pose proof (contents_length y Ry) as Hy. cbn in Hy.
        rewrite (bool_decide_false (contents y = [])) by (intros E'; rewrite E' in Hy; cbn in Hy; blia).
        rewrite E, <-Cy, take_app_length', drop_app_length' by (rewrite length_app; blia). split_and!; [done|done|by repeat split|done].
      * set (y := with_region _ _ _ _). exists y. assert (Ry : regions y) by (constructor; cbn; blia).
        assert (Cy : contents y = []) by (unfold contents; cbn; by rewrite !slice_nil).
        rewrite Cy, bool_decide_true by done. assert (k + b_end x <= len) by blia. replace j with (b_end x) in * by blia. rewrite slice_nil, app_nil_r in E.
        rewrite <-E, take_ge, drop_ge by blia. split_and!; [done|done|by repeat split|done].
    + rewrite assert_pos_ok by blia. cbn [res_bind]. set (y := with_region _ _ _ _). exists y.
      assert (Ry : regions y) by (constructor; cbn; blia). assert (Hb0 : b_end x = 0) by blia.
      assert (Cy : contents y = []) by (unfold contents; cbn; by rewrite Hb0, !slice_nil).
      assert (E : contents x = slice (buff x) (a_start x) (a_end x)).
      { unfold contents. by rewrite Hb0, slice_nil, app_nil_r. }
      rewrite Cy, bool_decide_true, E, take_ge, drop_ge by (done || blia). split_and!; [done|done|by repeat split|done].
Qed.

(** * The threads *)

Inductive thread := Reader | Writer.

(** Where a call of [bip_buffer_read] or [bip_buffer_write] is: before the
    lock, at the test of [closed] after [LeaveCriticalSection], at
    [WaitForSingleObject], at the test after it, and in the section with the
    buffer done and signals left. *)
Inductive call (A R : Type) :=
  | Idle
  | Enters (a : A)
  | Checks (a : A)
  | Waits (a : A)
  | Woken (a : A)
  | Leaving (r : R).
Arguments Idle {A R}.
Arguments Enters {A R} a.
Arguments Checks {A R} a.
Arguments Waits {A R} a.
Arguments Woken {A R} a.
Arguments Leaving {A R} r.

(** Where a call of [bip_buffer_close] is, with [closed] set. *)
Inductive closer := Marked | SetsRead | TestsWrite | SetsWrite | Closes.

#[export] Instance closer_eq_dec : EqDecision closer.
Proof. solve_decision. Defined.

(** What the calls returned, in the order of their sections. *)
Inductive event :=
  | Got (len : Z) (d : bytes)
  | Accepted (src : bytes) (n : Z)
  | ReadPipe
  | WritePipe
  | Shut.

Record system := System {
  s_buf : BipBuffer;
  s_lock : option (thread * list signal);
  s_read : call Z bytes;
  s_write : call bytes Z;
  s_closers : list closer;
  s_log : list event
}.

Section Call.
Context {A R : Type} (me : thread) (ready signaled : BipBuffer -> bool).
Context (section : A -> BipBuffer -> res (R * BipBuffer * list signal)) (took : A -> R -> event) (pipe : event).

Definition call_step (c : call A R) (x : BipBuffer) (lock : option (thread * list signal))
    : res (call A R * BipBuffer * option (thread * list signal) * list event) :=
  match c with
  | Idle => Blocked
  | Enters a =>
      match lock with
      | Some _ => Blocked
      | None =>
          if ready x then let* ' (r, x, os) := section a x in Ok (Leaving r, x, Some (me, os), [took a r])
          else Ok (Checks a, x, None, [])
      end
  | Checks a => if closed x then Ok (Idle, x, lock, [pipe]) else Ok (Waits a, x, lock, [])
  | Waits a => if signaled x then Ok (Woken a, x, lock, []) else Blocked
  | Woken a => if closed x then Ok (Idle, x, lock, [pipe]) else Ok (Enters a, x, lock, [])
  | Leaving r =>
      match lock with
      | None => Ub
      | Some (_, []) => Ok (Idle, x, None, [])
      | Some (t, o :: os) => Ok (Leaving r, raise o x, Some (t, os), [])
      end
  end.
End Call.

Definition read_step (c : call Z bytes) :=
  call_step Reader can_read evt_read read_locked Got ReadPipe c.
Definition write_step (c : call bytes Z) :=
  call_step Writer can_write evt_write write_locked Accepted WritePipe c.

Definition close_step (c : closer) (x : BipBuffer) : res (closer * BipBuffer) :=
  match c with
  | Marked => Ok (if can_read x then TestsWrite else SetsRead, x)
  | SetsRead => Ok (TestsWrite, raise (EvtRead true) x)
  | TestsWrite => Ok (if can_write x then Closes else SetsWrite, x)
  | SetsWrite => Ok (Closes, raise (EvtWrite true) x)
  | Closes => Blocked
  end.

(** A call that returns at once, with nothing to move, is no call here. *)
Inductive action :=
  | StartRead (len : Z)
  | StartWrite (src : bytes)
  | StartClose
  | ReadStep
  | WriteStep
  | CloseStep (i : nat).

Definition step (a : action) (s : system) : res system :=
  let '(System x lock r w cs log) := s in
  match a with
  | StartRead len =>
      match r with
      | Idle => if bool_decide (len <= 0) then Blocked else Ok (System x lock (Enters len) w cs log)
      | _ => Blocked
      end
  | StartWrite src =>
      match w with
      | Idle => if bool_decide (src = []) then Blocked else Ok (System x lock r (Enters src) cs log)
      | _ => Blocked
      end
  | StartClose => Ok (System (with_closed x) lock r w (cs ++ [Marked]) (log ++ [Shut]))
  | ReadStep => let* ' (r, x, lock, e) := read_step r x lock in Ok (System x lock r w cs (log ++ e))
  | WriteStep => let* ' (w, x, lock, e) := write_step w x lock in Ok (System x lock r w cs (log ++ e))
  | CloseStep i =>
      match cs !! i with
      | Some c => let* ' (c, x) := close_step c x in Ok (System x lock r w (<[i:=c]> cs) log)
      | None => Blocked
      end
  end.

(** A schedule; what cannot run at its time does not. *)
Fixpoint run (acts : list action) (s : system) : res system :=
  match acts with
  | [] => Ok s
  | a :: acts => let* s := match step a s with Blocked => Ok s | r => r end in run acts s
  end.

Definition start (m : bytes) : system := System (bip_buffer_init m) None Idle Idle [] [].

(** ** The queue that the buffer is *)

Record fifo := Fifo { queue : bytes; shut : bool }.

Definition fifo_event (f : fifo) (e : event) : option fifo :=
  match e with
  | Got len d =>
      if bool_decide (queue f <> [] /\ 0 < len /\ d = take (Z.to_nat len) (queue f))
      then Some (Fifo (drop (Z.to_nat len) (queue f)) (shut f)) else None
  | Accepted src n =>
      let left := BIP_BUFFER_SIZE - Z.of_nat (length (queue f)) in
      if bool_decide (0 < left /\ src <> [] /\ n = Z.min (Z.of_nat (length src)) left)
      then Some (Fifo (queue f ++ take (Z.to_nat n) src) (shut f)) else None
  | ReadPipe | WritePipe => if shut f then Some f else None
  | Shut => Some (Fifo (queue f) true)
  end.

Definition fifo_run (es : list event) (f : fifo) : option fifo :=
  foldl (fun f e => f ≫= fun f => fifo_event f e) (Some f) es.

(** * The invariant *)

Definition pending (s : system) : list signal := default [] (snd <$> s_lock s).

(** The buffer when the lock is given back. *)
Definition settled (s : system) : BipBuffer := raise_all (pending s) (s_buf s).

Definition reader_signal (o : signal) : bool :=
  match o with CanRead false | EvtRead false | CanWrite true | EvtWrite true => true | _ => false end.
Definition writer_signal (o : signal) : bool :=
  match o with CanWrite false | EvtWrite false | CanRead true | EvtRead true => true | _ => false end.

Definition is_leaving {A R} (c : call A R) : bool := match c with Leaving _ => true | _ => false end.
Definition waits {A R} (c : call A R) : bool := match c with Waits _ => true | _ => false end.
Definition woken {A R} (c : call A R) : bool := match c with Woken _ => true | _ => false end.
Definition asked {A R} (P : A -> Prop) (c : call A R) : Prop :=
  match c with Enters a | Checks a | Waits a | Woken a => P a | _ => True end.

(** Who has the lock, and what it may still signal. *)
Definition lock_ok (s : system) : Prop :=
  match s_lock s with
  | None => is_leaving (s_read s) = false /\ is_leaving (s_write s) = false
  | Some (Reader, os) => is_leaving (s_read s) = true /\ is_leaving (s_write s) = false /\ Forall (fun o => reader_signal o = true) os
  | Some (Writer, os) => is_leaving (s_read s) = false /\ is_leaving (s_write s) = true /\ Forall (fun o => writer_signal o = true) os
  end.

Record sys_ok (s : system) : Prop := SysOk {
  k_regions : regions (s_buf s);
  k_lock : lock_ok s;
  k_can_read : can_read (settled s) = bool_decide (contents (s_buf s) <> []);
  k_can_write : can_write (settled s) = bool_decide (0 < room (s_buf s));
  k_evt_read : can_read (settled s) = true -> evt_read (settled s) = true;
  k_evt_write : can_write (settled s) = true -> evt_write (settled s) = true;
  k_raise_read : EvtRead true ∈ pending s -> can_read (settled s) = true;
  k_raise_write : EvtWrite true ∈ pending s -> can_write (settled s) = true;
  k_end_read : evt_read (settled s) = true -> can_read (settled s) = true \/ closed (s_buf s) = true;
  k_end_write : evt_write (settled s) = true -> can_write (settled s) = true \/ closed (s_buf s) = true;
  k_sync_read : is_leaving (s_read s) = false -> evt_read (s_buf s) = true \/ woken (s_read s) = true ->
    can_read (settled s) = true \/ closed (s_buf s) = true;
  k_sync_write : is_leaving (s_write s) = false -> evt_write (s_buf s) = true \/ woken (s_write s) = true ->
    can_write (settled s) = true \/ closed (s_buf s) = true;
  k_wait_read : waits (s_read s) = true -> closed (s_buf s) = true ->
    evt_read (settled s) = true \/ Marked ∈ s_closers s \/ SetsRead ∈ s_closers s;
  k_wait_write : waits (s_write s) = true -> closed (s_buf s) = true ->
    evt_write (settled s) = true \/ Exists (fun c => c <> Closes) (s_closers s);
  k_closers : s_closers s <> [] -> closed (s_buf s) = true;
  k_len : asked (fun n => 0 < n) (s_read s);
  k_src : asked (fun src => src <> []) (s_write s);
  k_log : fifo_run (s_log s) (Fifo [] false) = Some (Fifo (contents (s_buf s)) (closed (s_buf s)))
}.

#[local] Arguments fifo_run : simpl never.
#[local] Arguments contents : simpl never.
#[local] Arguments room : simpl never.
#[local] Arguments raise_all : simpl never.

(** ** Signals *)

Definition of_can_read (o : signal) : option bool := match o with CanRead v => Some v | _ => None end.
Definition of_can_write (o : signal) : option bool := match o with CanWrite v => Some v | _ => None end.
Definition of_evt_read (o : signal) : option bool := match o with EvtRead v => Some v | _ => None end.
Definition of_evt_write (o : signal) : option bool := match o with EvtWrite v => Some v | _ => None end.

(** The last value that a list of signals gives to a flag. *)
Definition last_of (sel : signal -> option bool) (os : list signal) (v : bool) : bool :=
  foldl (fun v o => default v (sel o)) v os.

Lemma raise_all_flags os x :
  can_read (raise_all os x) = last_of of_can_read os (can_read x)
  /\ can_write (raise_all os x) = last_of of_can_write os (can_write x)
  /\ evt_read (raise_all os x) = last_of of_evt_read os (evt_read x)
  /\ evt_write (raise_all os x) = last_of of_evt_write os (evt_write x).
Proof.
  revert x. induction os as [|o os IH]; intros x; [done|].
  unfold raise_all, last_of in *. cbn [foldl]. destruct (IH (raise o x)) as (-> & -> & -> & ->). by destruct o.
Qed.

(** Signals that only raise a flag keep it raised; others that only lower it
    cannot raise it. *)
Lemma last_of_up sel os v : Forall (fun o => sel o <> Some false) os -> v = true -> last_of sel os v = true.
Proof.
  intros H. revert v. induction H as [|o os Ho _ IH]; intros v Hv; [done|]. apply IH.
  destruct (sel o) as [[]|]; done.
Qed.

Lemma last_of_down sel os v : Forall (fun o => sel o <> Some true) os -> last_of sel os v = true -> v = true.
Proof.
  intros H. revert v. induction H as [|o os Ho _ IH]; intros v Hv; [done|]. apply IH in Hv.
  destruct (sel o) as [[]|]; done.
Qed.

Lemma last_of_mono sel os v : last_of sel os v = true -> last_of sel os true = true.
Proof. revert v. induction os as [|o os IH]; intros v H; [done|]. unfold last_of in *. cbn in *. destruct (sel o); eauto. Qed.

Lemma signals_sel (P : signal -> bool) (sel : signal -> option bool) v os :
  (forall o, P o = true -> sel o <> Some v) -> Forall (fun o => P o = true) os -> Forall (fun o => sel o <> Some v) os.
Proof. intros HP H. by apply (Forall_impl _ _ _ H). Qed.

Lemma raise_frame o x : regions x -> regions (raise o x) /\ contents (raise o x) = contents x /\ closed (raise o x) = closed x.
Proof. intros []. by destruct o. Qed.

Lemma contents_room x y : contents x = contents y -> room x = room y.
Proof. unfold room. by intros ->. Qed.

Lemma fifo_snoc es e f g : fifo_run es f = Some g -> fifo_run (es ++ [e]) f = fifo_event g e.
Proof. unfold fifo_run. intros H. by rewrite foldl_app, H. Qed.

(** ** Every step keeps the invariant *)

(** A step that only moves the reader. *)
Lemma moved_reader x lock r r' w cs log : sys_ok (System x lock r w cs log) ->
  is_leaving r = false -> is_leaving r' = false -> asked (fun n => 0 < n) r' ->
  (woken r' = true -> evt_read x = true \/ woken r = true) ->
  (waits r' = true -> closed x = true -> waits r = true) ->
  sys_ok (System x lock r' w cs log).
Proof.
  intros [] Hr Hr' Ha Hw Hc. constructor; cbn in *; auto.
  - unfold lock_ok in *. cbn in *. rewrite Hr in *. by rewrite Hr'.
  - intros _ [H|H]; auto.
Qed.

Lemma moved_writer x lock r w w' cs log : sys_ok (System x lock r w cs log) ->
  is_leaving w = false -> is_leaving w' = false -> asked (fun src => src <> []) w' ->
  (woken w' = true -> evt_write x = true \/ woken w = true) ->
  (waits w' = true -> closed x = true -> waits w = true) ->
  sys_ok (System x lock r w' cs log).
Proof.
  intros [] Hr Hr' Ha Hw Hc. constructor; cbn in *; auto.
  - unfold lock_ok in *. cbn in *. rewrite Hr in *. by rewrite Hr'.
  - intros _ [H|H]; auto.
Qed.

(** A call that finds the buffer closed. *)
Lemma logged_pipe x lock r w cs log e : sys_ok (System x lock r w cs log) -> e = ReadPipe \/ e = WritePipe ->
  closed x = true -> sys_ok (System x lock r w cs (log ++ [e])).
Proof.
  intros [] He Hc. constructor; cbn in *; auto. rewrite (fifo_snoc _ _ _ _ k_log0). by destruct He as [-> | ->]; cbn; rewrite Hc.
Qed.

(** The lock is given back. *)
Lemma released x t r w cs log : sys_ok (System x (Some (t, [])) r w cs log) ->
  sys_ok (System x None (match t with Reader => Idle | Writer => r end) (match t with Reader => w | Writer => Idle end) cs log).
Proof.
  intros [kr kl]. unfold settled, pending, lock_ok in *. cbn in *. destruct t; destruct kl as (Hr & Hw & _); constructor; cbn in *; auto;
    intros; try solve [destruct r, w; try done; tauto]; match goal with H : _ \/ _ |- _ => destruct H; [by auto|done] end.
Qed.

(** One signal is made. *)
Lemma signalled x t o os r w cs log : sys_ok (System x (Some (t, o :: os)) r w cs log) ->
  sys_ok (System (raise o x) (Some (t, os)) r w cs log).
Proof.
  intros [kr kl]. unfold settled, pending, lock_ok in *. cbn in *. destruct (raise_frame o x kr) as (Hr & Hc & Hd).
  constructor; cbn; unfold settled, pending; cbn; rewrite ?Hd, ?Hc, ?(contents_room _ _ Hc); auto.
  - unfold lock_ok. cbn. destruct t; destruct kl as (? & ? & HF); inversion HF; auto.
  - intros H. apply k_raise_read0. by right.
  - intros H. apply k_raise_write0. by right.
  - intros Hl [H|H]; [|by auto]. destruct o as [| | |[]]; cbn in H; auto; try done. left. apply k_raise_read0. by left.
  - intros Hl [H|H]; [|by auto]. destruct o as [|[]| |]; cbn in H; auto; try done. left. apply k_raise_write0. by left.
Qed.

Lemma read_section x n w cs log : sys_ok (System x None (Enters n) w cs log) -> can_read x = true ->
  exists d y os, read_locked n x = Ok (d, y, os) /\ (length os <= 4)%nat /\ can_write (raise_all os y) = true
    /\ sys_ok (System y (Some (Reader, os)) (Leaving d) w cs (log ++ [Got n d])).
Proof.
  intros [] Hr. unfold lock_ok, settled, pending in *. cbn in *. change (raise_all [] x) with x in *. destruct k_lock0 as [_ Hw].
  assert (Hc : contents x <> []) by (rewrite Hr in *; symmetry in k_can_read0, k_can_write0; by apply bool_decide_eq_true in k_can_read0).
  destruct (read_locked_ok n x k_regions0 k_len0 Hc) as (y & E & Ry & (F1 & F2 & F3 & F4 & F5) & Cy).
  do 3 eexists. split; [exact E|].
  assert (Hroom : 0 < room y).
  { unfold room. rewrite Cy, length_drop. pose proof (contents_length x k_regions0). destruct k_regions0.
    assert (0 < length (contents x))%nat by (destruct (contents x); [done|cbn; lia]). lia. }
  assert (Hlog : fifo_run (log ++ [Got n (take (Z.to_nat n) (contents x))]) (Fifo [] false) = Some (Fifo (contents y) (closed y))).
  { rewrite (fifo_snoc _ _ _ _ k_log0). cbn. rewrite bool_decide_true by done. by rewrite Cy, F1. }
  split; [unfold did_read; by destruct (bool_decide (contents y = [])), (can_write y); cbn; lia|].
  split; [unfold did_read, raise_all; destruct (bool_decide (contents y = [])), (can_write y) eqn:E'; cbn; congruence|].
  constructor; unfold lock_ok, settled, pending, did_read, raise_all; cbn; rewrite ?F1, ?F2; auto.
  all: destruct (bool_decide (contents y = [])) eqn:Hb, (can_write x) eqn:Hcw; cbn; rewrite ?F2, ?F3, ?F4, ?F5; auto.
  all: rewrite ?bool_decide_eq_true, ?bool_decide_eq_false in Hb; cbn in *; auto.
  all: rewrite ?F1, ?Hr; auto.
  all: try (symmetry; first [apply bool_decide_eq_true_2 | apply bool_decide_eq_false_2]; (done || lia || tauto)).
  all: try (intros Hin; repeat (apply elem_of_cons in Hin as [Hin|Hin]; [discriminate|]); by apply elem_of_nil in Hin).
  all: try (rewrite <-F1; done).
  all: split_and!; auto; repeat constructor.
Qed.

Lemma write_section x src r cs log : sys_ok (System x None r (Enters src) cs log) -> can_write x = true ->
  exists n y os, write_locked src x = Ok (n, y, os) /\ (length os <= 4)%nat /\ can_read (raise_all os y) = true
    /\ sys_ok (System y (Some (Writer, os)) r (Leaving n) cs (log ++ [Accepted src n])).
Proof.
  intros [] Hr. unfold lock_ok, settled, pending in *. cbn in *. change (raise_all [] x) with x in *. destruct k_lock0 as [Hw _].
  assert (Hc : 0 < room x) by (rewrite Hr in *; symmetry in k_can_read0, k_can_write0; by apply bool_decide_eq_true in k_can_write0).
  destruct (write_locked_ok src x k_regions0 k_src0 Hc) as (y & E & Ry & (F1 & F2 & F3 & F4 & F5) & Cy).
  do 3 eexists. split; [exact E|].
  assert (Hne : contents y <> []).
  { rewrite Cy. destruct src as [|b src]; [done|]. cbn [length].
    replace (Z.to_nat _) with (S (Z.to_nat (Z.min (Z.of_nat (S (length src))) (room x) - 1))) by lia.
    cbn [take]. by destruct (contents x). }
  assert (Hle : 0 <= room y).
  { unfold room. rewrite (contents_length y Ry). destruct Ry. lia. }
  assert (Hlog : fifo_run (log ++ [Accepted src (Z.min (Z.of_nat (length src)) (room x))]) (Fifo [] false) = Some (Fifo (contents y) (closed y))).
  { rewrite (fifo_snoc _ _ _ _ k_log0). cbn. rewrite bool_decide_true by (unfold room in *; auto). by rewrite Cy, F1. }
  split; [unfold written; by destruct (bool_decide (room y = 0)), (can_read y); cbn; lia|].
  split; [unfold written, raise_all; destruct (bool_decide (room y = 0)), (can_read y) eqn:E'; cbn; congruence|].
  constructor; unfold lock_ok, settled, pending, written, raise_all; cbn; rewrite ?F1, ?F2; auto.
  all: destruct (bool_decide (room y = 0)) eqn:Hb, (can_read x) eqn:Hcw; cbn; rewrite ?F2, ?F3, ?F4, ?F5; cbn; rewrite ?F2, ?F3, ?F4, ?F5; auto.
  all: rewrite ?bool_decide_eq_true, ?bool_decide_eq_false in Hb; cbn in *; auto.
  all: rewrite ?F1, ?Hr; auto.
  all: try (symmetry; first [apply bool_decide_eq_true_2 | apply bool_decide_eq_false_2]; (done || lia || tauto)).
  all: try (intros Hin; repeat (apply elem_of_cons in Hin as [Hin|Hin]; [discriminate|]); by apply elem_of_nil in Hin).
  all: try (rewrite <-F1; done).
  all: split_and!; auto; repeat constructor.
Qed.


(** *** Closing *)

Lemma can_read_raise os x : can_read (raise_all os x) = last_of of_can_read os (can_read x).
Proof. apply raise_all_flags. Qed.
Lemma can_write_raise os x : can_write (raise_all os x) = last_of of_can_write os (can_write x).
Proof. apply raise_all_flags. Qed.
Lemma evt_read_raise os x : evt_read (raise_all os x) = last_of of_evt_read os (evt_read x).
Proof. apply raise_all_flags. Qed.
Lemma evt_write_raise os x : evt_write (raise_all os x) = last_of of_evt_write os (evt_write x).
Proof. apply raise_all_flags. Qed.

Ltac flags := unfold settled, pending in *; cbn in *;
  rewrite ?can_read_raise, ?can_write_raise, ?evt_read_raise, ?evt_write_raise in *; cbn in *.

Lemma in_insert {A} (l : list A) i c c' y : l !! i = Some c -> y ∈ l -> y <> c -> y ∈ <[i:=c']> l.
Proof.
  intros Hi Hy Hn. apply list_elem_of_lookup_1 in Hy as (j & Hj). apply (list_elem_of_lookup_2 _ j).
  rewrite list_lookup_insert_ne; [done|]. intros ->. congruence.
Qed.

Lemma in_inserted {A} (l : list A) i c c' : l !! i = Some c -> c' ∈ <[i:=c']> l.
Proof. intros Hi. apply (list_elem_of_lookup_2 _ i), list_lookup_insert_eq. by apply lookup_lt_Some in Hi. Qed.

(** A thread that goes on closing. *)
Lemma still_closing cs i c c' : cs !! i = Some c -> c' <> Closes -> Exists (fun c => c <> Closes) (<[i:=c']> cs).
Proof. intros Hi Hc. apply Exists_exists. exists c'. split; [by eapply in_inserted|done]. Qed.

(** A thread that waits has no signal left of its own. *)
Lemma waits_up x lock r w cs log v : lock_ok (System x lock r w cs log) ->
  waits r = true -> v = true -> last_of of_can_read (pending (System x lock r w cs log)) v = true
  /\ last_of of_evt_read (pending (System x lock r w cs log)) v = true.
Proof.
  unfold lock_ok, pending. cbn. intros Hl Hr Hv. destruct lock as [[[] os]|]; cbn; [| |done].
  - destruct r, Hl; done.
  - destruct Hl as (_ & _ & Hf). split; (apply last_of_up; [|done]); (apply (signals_sel writer_signal); [intros [[]|[]|[]|[]]; done|done]).
Qed.

Lemma waits_up_write x lock r w cs log v : lock_ok (System x lock r w cs log) ->
  waits w = true -> v = true -> last_of of_can_write (pending (System x lock r w cs log)) v = true
  /\ last_of of_evt_write (pending (System x lock r w cs log)) v = true.
Proof.
  unfold lock_ok, pending. cbn. intros Hl Hr Hv. destruct lock as [[[] os]|]; cbn; [| |done].
  - destruct Hl as (_ & _ & Hf). split; (apply last_of_up; [|done]); (apply (signals_sel reader_signal); [intros [[]|[]|[]|[]]; done|done]).
  - destruct w, Hl as (? & ? & ?); done.
Qed.

Lemma close_started x lock r w cs log : sys_ok (System x lock r w cs log) ->
  sys_ok (System (with_closed x) lock r w (cs ++ [Marked]) (log ++ [Shut])).
Proof.
  intros [kr]. assert (Hr : regions (with_closed x)) by (destruct kr; by constructor).
  constructor; flags; auto.
  - intros Hw _. right. left. by apply elem_of_app; right; left.
  - intros Hw _. right. apply Exists_app. right. by apply Exists_cons_hd.
  - by rewrite (fifo_snoc _ _ _ _ k_log0).
Qed.

Lemma close_step_ok x lock r w cs log i c : sys_ok (System x lock r w cs log) -> cs !! i = Some c -> c <> Closes ->
  exists c' y, close_step c x = Ok (c', y) /\ sys_ok (System y lock r w (<[i:=c']> cs) log).
Proof.
  intros [kr] Hi Hc. assert (Hcl : closed x = true) by (apply k_closers0; cbn; intros ->; by destruct i).
  destruct c; try done; cbn; do 2 eexists; (split; [done|]).
  - constructor; flags; auto; intros Hw _; [|right; eapply still_closing; [done|by destruct (can_read x)]].
    destruct (can_read x) eqn:E; [|right; right; by eapply in_inserted].
    left. apply k_evt_read0. by eapply (waits_up x lock r w cs log).
  - constructor; flags; auto; eauto using last_of_mono.
    + by destruct kr.
    + intros Hw _. left. by eapply (waits_up x lock r w cs log).
    + intros Hw _. right. by eapply still_closing.
  - constructor; flags; auto.
    + intros Hw _. destruct k_wait_read0 as [|[|]]; auto; right; [left|right]; by eapply in_insert.
    + intros Hw _. destruct (can_write x) eqn:E; [|right; by eapply still_closing].
      left. apply k_evt_write0. by eapply (waits_up_write x lock r w cs log).
  - constructor; flags; auto; eauto using last_of_mono.
    + by destruct kr.
    + intros Hw _. destruct k_wait_read0 as [|[|]]; auto; right; [left|right]; by eapply in_insert.
    + intros Hw _. left. by eapply (waits_up_write x lock r w cs log).
Qed.

(** *** Calls *)

(** What a step is allowed: to wait, or to keep the invariant. *)
Definition keeps (s : system) (m : res system) : Prop :=
  match m with
  | Ok s' => sys_ok s'
  | Blocked => True
  | Ub | Exit => False
  end.

Lemma read_step_keeps x lock r w cs log : sys_ok (System x lock r w cs log) ->
  keeps (System x lock r w cs log) (step ReadStep (System x lock r w cs log)).
Proof.
  intros H. pose proof H as []. cbn in k_len0. destruct r as [|n|n|n|n|d]; cbn.
  - done.
  - destruct lock; [done|]. destruct (can_read x) eqn:E; cbn.
    + destruct (read_section x n w cs log H E) as (d & y & os & -> & _ & _ & Hs). exact Hs.
    + rewrite app_nil_r. by apply (moved_reader _ _ (Enters n)).
  - destruct (closed x) eqn:E; cbn.
    + apply logged_pipe; auto. by apply (moved_reader _ _ (Checks n)).
    + rewrite app_nil_r. apply (moved_reader _ _ (Checks n)); try done. congruence.
  - destruct (evt_read x) eqn:E; cbn; [|done]. rewrite app_nil_r. apply (moved_reader _ _ (Waits n)); auto.
  - destruct (closed x) eqn:E; cbn.
    + apply logged_pipe; auto. by apply (moved_reader _ _ (Woken n)).
    + rewrite app_nil_r. by apply (moved_reader _ _ (Woken n)).
  - destruct lock as [[t [|o os]]|]; cbn; rewrite ?app_nil_r.
    + pose proof (released _ _ _ _ _ _ H). destruct t; [done|]. by destruct k_lock0.
    + by apply signalled.
    + by destruct k_lock0.
Qed.

Lemma write_step_keeps x lock r w cs log : sys_ok (System x lock r w cs log) ->
  keeps (System x lock r w cs log) (step WriteStep (System x lock r w cs log)).
Proof.
  intros H. pose proof H as []. cbn in k_src0. destruct w as [|n|n|n|n|d]; cbn.
  - done.
  - destruct lock; [done|]. destruct (can_write x) eqn:E; cbn.
    + destruct (write_section x n r cs log H E) as (d & y & os & -> & _ & _ & Hs). exact Hs.
    + rewrite app_nil_r. by apply (moved_writer _ _ _ (Enters n)).
  - destruct (closed x) eqn:E; cbn.
    + apply logged_pipe; auto. by apply (moved_writer _ _ _ (Checks n)).
    + rewrite app_nil_r. apply (moved_writer _ _ _ (Checks n)); try done. congruence.
  - destruct (evt_write x) eqn:E; cbn; [|done]. rewrite app_nil_r. apply (moved_writer _ _ _ (Waits n)); auto.
  - destruct (closed x) eqn:E; cbn.
    + apply logged_pipe; auto. by apply (moved_writer _ _ _ (Woken n)).
    + rewrite app_nil_r. by apply (moved_writer _ _ _ (Woken n)).
  - destruct lock as [[t [|o os]]|]; cbn; rewrite ?app_nil_r.
    + pose proof (released _ _ _ _ _ _ H). destruct t; [|done]. by destruct k_lock0 as (_ & ? & _).
    + by apply signalled.
    + by destruct k_lock0.
Qed.

Lemma system_step_keeps a s : sys_ok s -> keeps s (step a s).
Proof.
  destruct s as [x lock r w cs log]. intros H. destruct a as [len|src| | | |i].
  - cbn. destruct r; try done. case_bool_decide; [done|]. apply (moved_reader _ _ Idle); try done. cbn. lia.
  - cbn. destruct w; try done. case_bool_decide; [done|]. by apply (moved_writer _ _ _ Idle).
  - by apply close_started.
  - by apply read_step_keeps.
  - by apply write_step_keeps.
  - cbn. destruct (cs !! i) as [c|] eqn:Hi; [|done]. destruct (decide (c = Closes)) as [->|Hc]; [done|].
    destruct (close_step_ok _ _ _ _ _ _ _ _ H Hi Hc) as (c' & y & -> & Hs). exact Hs.
Qed.

Lemma system_run_keeps acts : forall s, sys_ok s -> returns (run acts s) sys_ok.
Proof.
  induction acts as [|a acts IH]; intros s H; [by apply returns_ok|]. cbn. pose proof (system_step_keeps a s H) as Hk.
  destruct (step a s); cbn in *; auto; done.
Qed.

Lemma system_start_ok m : Z.of_nat (length m) = BIP_BUFFER_SIZE -> sys_ok (start m).
Proof. intros Hm. constructor; cbn; try done; auto; try (by constructor; cbn; lia); intros; try tauto. all: try set_solver. Qed.

(** ** No call goes on for ever *)

Definition continues (a : action) : bool :=
  match a with ReadStep | WriteStep | CloseStep _ => true | _ => false end.

Definition call_rank {A R} (left : nat) (ready : bool) (c : call A R) : nat :=
  match c with
  | Idle => 0
  | Leaving _ => S left
  | Enters _ => if ready then 6 else 10
  | Woken _ => 7
  | Waits _ => 8
  | Checks _ => 9
  end.

Definition closer_rank (c : closer) : nat :=
  match c with Marked => 4 | SetsRead => 3 | TestsWrite => 2 | SetsWrite => 1 | Closes => 0 end.

Definition closers_rank (cs : list closer) : nat := foldr (fun c n => closer_rank c + n)%nat 0%nat cs.

#[local] Arguments closers_rank : simpl never.

Definition rank (s : system) : nat :=
  call_rank (length (pending s)) (can_read (settled s)) (s_read s)
  + call_rank (length (pending s)) (can_write (settled s)) (s_write s)
  + closers_rank (s_closers s).

(** A path: every step can run. *)
Fixpoint path (acts : list action) (s : system) : res system :=
  match acts with
  | [] => Ok s
  | a :: acts => let* s := step a s in path acts s
  end.

Lemma closers_rank_insert cs i c c' : cs !! i = Some c -> (closer_rank c' < closer_rank c)%nat ->
  (closers_rank (<[i:=c']> cs) < closers_rank cs)%nat.
Proof.
  unfold closers_rank. intros Hi Hr. revert i Hi. induction cs as [|c0 cs IH]; intros [|i] Hi; [done|done| |].
  - injection Hi as ->. cbn. lia.
  - specialize (IH i Hi). change (<[S i:=c']> (c0 :: cs)) with (c0 :: <[i:=c']> cs). cbn [foldr]. lia.
Qed.

Lemma call_rank_up {A R} n b (c : call A R) : is_leaving c = false -> (call_rank n true c <= call_rank 0 b c)%nat.
Proof. destruct c, b; cbn; try done; lia. Qed.

Lemma read_ranks s s' : sys_ok s -> step ReadStep s = Ok s' -> (rank s' < rank s)%nat.
Proof.
  destruct s as [x lock r w cs log]. intros H E. pose proof H as []. cbn in *. destruct r as [|n|n|n|n|d]; cbn in E.
  - done.
  - destruct lock; [done|]. destruct (can_read x) eqn:Er.
    + destruct (read_section x n w cs log H Er) as (d & y & os & Es & Hl & Hw & _). rewrite Es in E. cbn in E. simplify_eq.
      unfold rank, settled, pending in *. cbn in *. change (raise_all [] x) with x. rewrite Er, Hw.
      destruct k_lock0 as [_ Hv]. cbn in Hv. pose proof (call_rank_up (length os) (can_write x) w Hv). lia.
    + cbn in E. simplify_eq. unfold rank, settled, pending. cbn. change (raise_all [] x) with x. rewrite Er. lia.
  - destruct (closed x); cbn in E; simplify_eq; unfold rank, settled, pending; cbn; lia.
  - destruct (evt_read x); cbn in E; simplify_eq; unfold rank, settled, pending; cbn; lia.
  - destruct (closed x) eqn:Ec; cbn in E; simplify_eq; unfold rank, settled, pending; cbn; [lia|].
    destruct k_sync_read0 as [Hr|Hr]; auto; [|congruence]. unfold settled, pending in *. cbn in *. rewrite Hr. lia.
  - destruct lock as [[t [|o os]]|]; [| |done]; cbn in E; simplify_eq; unfold rank, settled, pending; cbn.
    + lia.
    + unfold raise_all. cbn. destruct t; cbn in k_lock0; destruct k_lock0 as (? & Hw & _); [|done]. destruct w; cbn in *; lia || done.
Qed.

Lemma write_ranks s s' : sys_ok s -> step WriteStep s = Ok s' -> (rank s' < rank s)%nat.
Proof.
  destruct s as [x lock r w cs log]. intros H E. pose proof H as []. cbn in *. destruct w as [|n|n|n|n|d]; cbn in E.
  - done.
  - destruct lock; [done|]. destruct (can_write x) eqn:Er.
    + destruct (write_section x n r cs log H Er) as (d & y & os & Es & Hl & Hw & _). rewrite Es in E. cbn in E. simplify_eq.
      unfold rank, settled, pending in *. cbn in *. change (raise_all [] x) with x. rewrite Er, Hw.
      destruct k_lock0 as [Hv _]. cbn in Hv. pose proof (call_rank_up (length os) (can_read x) r Hv). lia.
    + cbn in E. simplify_eq. unfold rank, settled, pending. cbn. change (raise_all [] x) with x. rewrite Er. lia.
  - destruct (closed x); cbn in E; simplify_eq; unfold rank, settled, pending; cbn; lia.
  - destruct (evt_write x); cbn in E; simplify_eq; unfold rank, settled, pending; cbn; lia.
  - destruct (closed x) eqn:Ec; cbn in E; simplify_eq; unfold rank, settled, pending; cbn; [lia|].
    destruct k_sync_write0 as [Hr|Hr]; auto; [|congruence]. unfold settled, pending in *. cbn in *. rewrite Hr. lia.
  - destruct lock as [[t [|o os]]|]; [| |done]; cbn in E; simplify_eq; unfold rank, settled, pending; cbn.
    + lia.
    + unfold raise_all. cbn. destruct t; cbn in k_lock0; destruct k_lock0 as (Hw & ? & _); [done|]. destruct r; cbn in *; lia || done.
Qed.

Lemma step_ranks a s s' : sys_ok s -> continues a = true -> step a s = Ok s' -> (rank s' < rank s)%nat.
Proof.
  intros H Ha E. destruct a as [| | | | |i]; try done; [by eapply read_ranks|by eapply write_ranks|].
  destruct s as [x lock r w cs log]. cbn in E. destruct (cs !! i) as [c|] eqn:Hi; [|done].
  assert (Hf : forall c' y, close_step c x = Ok (c', y) -> (closer_rank c' < closer_rank c)%nat
    /\ can_read (raise_all (default [] (snd <$> lock)) y) = can_read (raise_all (default [] (snd <$> lock)) x)
    /\ can_write (raise_all (default [] (snd <$> lock)) y) = can_write (raise_all (default [] (snd <$> lock)) x)).
  { intros c' y Hc. rewrite !can_read_raise, !can_write_raise. destruct c; cbn in Hc; simplify_eq; cbn; split_and!; try done; try lia.
    - destruct (can_read y); cbn; lia.
    - destruct (can_write y); cbn; lia. }
  destruct (close_step c x) as [[c' y]| | |]; [|done..]. destruct (Hf c' y eq_refl) as (H1 & H2 & H3). cbn in E. simplify_eq.
  unfold rank, settled, pending. cbn. rewrite H2, H3. pose proof (closers_rank_insert cs i c c' Hi H1). lia.
Qed.

(** What waits, waits for something that is still to come. *)
Record quiet (s : system) : Prop := Quiet {
  q_lock : s_lock s = None;
  q_read : s_read s = Idle \/ (exists n, s_read s = Waits n) /\ contents (s_buf s) = [] /\ closed (s_buf s) = false;
  q_write : s_write s = Idle \/ (exists src, s_write s = Waits src) /\ room (s_buf s) = 0 /\ closed (s_buf s) = false;
  q_closers : Forall (fun c => c = Closes) (s_closers s)
}.

Lemma blocked_quiet s : sys_ok s -> (forall a, continues a = true -> step a s = Blocked) -> quiet s.
Proof.
  destruct s as [x lock r w cs log]. intros H Hb. pose proof H as [].
  pose proof (Hb ReadStep eq_refl) as HR. pose proof (Hb WriteStep eq_refl) as HW. cbn in *.
  assert (Hcs : Forall (fun c => c = Closes) cs).
  { apply Forall_lookup. intros i c Hi. destruct (decide (c = Closes)) as [|Hc]; [done|].
    destruct (close_step_ok _ _ _ _ _ _ _ _ H Hi Hc) as (c' & y & E & _). specialize (Hb (CloseStep i) eq_refl). cbn in Hb. by rewrite Hi, E in Hb. }
  assert (Hl : lock = None).
  { destruct lock as [[t os]|]; [|done]. destruct t; cbn in k_lock0; destruct k_lock0 as (H1 & H2 & _).
    - destruct r; try done. by destruct os.
    - destruct w; try done. by destruct os. }
  subst lock. destruct k_lock0 as [Hr Hw]. unfold settled, pending in *. cbn in *. change (raise_all [] x) with x in *.
  pose proof (contents_length x k_regions0) as Hlen.
  constructor; cbn; auto.
  - destruct r as [|n|n|n|n|d]; cbn in HR; auto; try done.
    + destruct (can_read x) eqn:E; [|done]. by destruct (read_section x n w cs log H E) as (? & ? & ? & Es & _); rewrite Es in HR.
    + by destruct (closed x).
    + right. split; [by eexists|]. destruct (evt_read x) eqn:E; [done|].
      assert (Hc : can_read x = false) by (apply not_true_is_false; intros Hx; by apply k_evt_read0 in Hx).
      split; [rewrite Hc in k_can_read0; symmetry in k_can_read0; apply bool_decide_eq_false in k_can_read0; by apply dec_stable|].
      destruct (closed x); [|done]. destruct k_wait_read0 as [|[Hin|Hin]]; auto; try done;
        rewrite Forall_forall in Hcs; by specialize (Hcs _ Hin).
    + by destruct (closed x).
  - destruct w as [|n|n|n|n|d]; cbn in HW; auto; try done.
    + destruct (can_write x) eqn:E; [|done]. by destruct (write_section x n r cs log H E) as (? & ? & ? & Es & _); rewrite Es in HW.
    + by destruct (closed x).
    + right. split; [by eexists|]. destruct (evt_write x) eqn:E; [done|].
      assert (Hc : can_write x = false) by (apply not_true_is_false; intros Hx; by apply k_evt_write0 in Hx).
      split; [rewrite Hc in k_can_write0; symmetry in k_can_write0; apply bool_decide_eq_false in k_can_write0;
        unfold room in *; destruct k_regions0; lia|].
      destruct (closed x); [|done]. destruct k_wait_write0 as [|Hin]; auto; try done.
      apply Exists_exists in Hin as (c & Hin & Hc'). rewrite Forall_forall in Hcs. by specialize (Hcs _ Hin).
    + by destruct (closed x).
Qed.

Lemma path_ranks more : forall s s', sys_ok s -> Forall (fun a => continues a = true) more -> path more s = Ok s' ->
  (length more + rank s' <= rank s)%nat.
Proof.
  induction more as [|a more IH]; intros s s' H Hc E; cbn in *; [simplify_eq; lia|].
  inversion_clear Hc as [|? ? Ha Hm]. destruct (step a s) as [s1| | |] eqn:E1; try done. cbn in E.
  pose proof (step_ranks a s s1 H Ha E1). pose proof (system_step_keeps a s H) as Hk. rewrite E1 in Hk.
  specialize (IH s1 s' Hk Hm E). lia.
Qed.

Lemma step_or_quiet s : sys_ok s -> (exists a s', continues a = true /\ step a s = Ok s') \/ quiet s.
Proof.
  intros H. pose proof (fun a => system_step_keeps a s H) as Hk.
  destruct (step ReadStep s) as [s'| | |] eqn:ER; [left; by exists ReadStep, s'|by specialize (Hk ReadStep); rewrite ER in Hk..|].
  destruct (step WriteStep s) as [s'| | |] eqn:EW; [left; by exists WriteStep, s'|by specialize (Hk WriteStep); rewrite EW in Hk..|].
  destruct (decide (Forall (fun c => c = Closes) (s_closers s))) as [Hf|Hf].
  - right. apply blocked_quiet; [done|]. intros [] Ha; try done. destruct s as [x lock r w cs log]. cbn in *.
    destruct (cs !! i) as [c|] eqn:Hi; [|done]. rewrite Forall_lookup in Hf. by rewrite (Hf _ _ Hi).
  - left. apply not_Forall_Exists, Exists_exists in Hf as (c & Hc & Hn); [|intros; apply _].
    apply list_elem_of_lookup_1 in Hc as (i & Hi). destruct s as [x lock r w cs log]. cbn in Hi.
    destruct (close_step_ok _ _ _ _ _ _ _ _ H Hi Hn) as (c' & y & E & _). exists (CloseStep i). cbn. rewrite Hi, E. by eexists.
Qed.

Lemma quiet_comes n : forall s, (rank s <= n)%nat -> sys_ok s ->
  exists more s', Forall (fun a => continues a = true) more /\ path more s = Ok s' /\ quiet s'.
Proof.
  induction n as [n IH] using lt_wf_ind. intros s Hn H. destruct (step_or_quiet s H) as [(a & s1 & Ha & E)|Hq].
  - pose proof (step_ranks a s s1 H Ha E) as Hr. pose proof (system_step_keeps a s H) as Hk. rewrite E in Hk.
    destruct (IH (rank s1) ltac:(lia) s1 ltac:(lia) Hk) as (more & s' & Hm & Ep & Hq).
    exists (a :: more), s'. split; [by constructor|]. split; [|done]. cbn. by rewrite E.
  - exists [], s. auto.
Qed.

(** * Properties *)

(** C16: Under every interleaving of a thread that reads, one that writes and any
    number that close, the calls on a buffer are those of a queue of at most
    [BIP_BUFFER_SIZE] bytes, in the order of their sections: a write takes as
    many bytes as there is room for and at least one, a read gives the oldest
    bytes and at least one, and [EPIPE] comes only after a close.  No assertion
    fails, and no copy leaves the buffer, whose regions are as the comment of
    the source describes them. *)
Theorem bip_queue m acts : Z.of_nat (length m) = BIP_BUFFER_SIZE ->
  returns (run acts (start m)) (fun s =>
    fifo_run (s_log s) (Fifo [] false) = Some (Fifo (contents (s_buf s)) (closed (s_buf s)))
    /\ regions (s_buf s)).
Proof.
  intros Hm. eapply returns_mono; [|apply system_run_keeps, system_start_ok, Hm]. intros s []. auto.
Qed.

(** C17: No wake-up is lost.  Whatever happened before, the calls that were made
    return or wait after at most [rank] further steps, of which there is always
    one that can be taken until nobody has the lock, a reader that waits finds
    the buffer empty and open, and a writer that waits finds it full and open. *)
Theorem bip_wakes m acts s : Z.of_nat (length m) = BIP_BUFFER_SIZE -> run acts (start m) = Ok s ->
  (forall more s', Forall (fun a => continues a = true) more -> path more s = Ok s' -> (length more <= rank s)%nat)
  /\ (exists more s', Forall (fun a => continues a = true) more /\ path more s = Ok s' /\ quiet s')
  /\ ((forall a, continues a = true -> step a s = Blocked) -> quiet s).
Proof.
  intros Hm E. destruct (system_run_keeps acts _ (system_start_ok m Hm)) as (s0 & E0 & H). rewrite E in E0. simplify_eq. split_and!.
  - intros more s' Hc Ep. pose proof (path_ranks more s0 s' H Hc Ep). lia.
  - by apply (quiet_comes (rank s0)).
  - by apply blocked_quiet.
Qed.

(** ** On a concrete buffer *)

Definition a_buffer : bytes := replicate 4096 Byte.x00.

(** A reader waits; three bytes are written, and two read. *)
Definition read_then_write : list action :=
  [StartRead 2; ReadStep; ReadStep; StartWrite (lit "abc"); ReadStep; WriteStep; WriteStep; WriteStep; WriteStep; ReadStep; ReadStep; ReadStep; ReadStep].

Lemma bip_queue_witness : returns (run read_then_write (start a_buffer)) (fun s =>
    s_log s = [Accepted (lit "abc") 3; Got 2 (lit "ab")] /\ contents (s_buf s) = lit "c"
    /\ fifo_run (s_log s) (Fifo [] false) = Some (Fifo (lit "c") false)).
Proof.
  destruct (bip_queue a_buffer read_then_write ltac:(by vm_compute)) as (s & E & H & _). exists s. split; [done|].
  assert (Hs : s_log s = [Accepted (lit "abc") 3; Got 2 (lit "ab")] /\ contents (s_buf s) = lit "c" /\ closed (s_buf s) = false).
  { assert (Hr : Ok s = run read_then_write (start a_buffer)) by done. vm_compute in Hr. injection Hr as ->. by vm_compute. }
  destruct Hs as (H1 & H2 & H3). rewrite H2, H3 in H. auto.
Defined.

Lemma bip_wakes_witness : exists s more s', run [StartRead 1; ReadStep; ReadStep; StartWrite (lit "x")] (start a_buffer) = Ok s
  /\ path more s = Ok s' /\ quiet s'.
Proof.
  destruct (system_run_keeps [StartRead 1; ReadStep; ReadStep; StartWrite (lit "x")] (start a_buffer)) as (s & E & _); [by apply system_start_ok; vm_compute|].
  destruct (bip_wakes a_buffer [StartRead 1; ReadStep; ReadStep; StartWrite (lit "x")] s ltac:(by vm_compute) E) as (_ & (more & s' & _ & H1 & H2) & _).
  by exists s, more, s'.
Defined.

(** A reader that waits is woken by a write, and finds the buffer closed before
    it has looked at it: it returns [EPIPE], with the byte that was written
    still in the buffer. *)
Lemma closed_reader_drops :
  returns (run [StartRead 1; ReadStep; ReadStep; StartWrite (lit "x"); WriteStep; WriteStep; WriteStep; WriteStep; ReadStep; StartClose; ReadStep]
    (start a_buffer))
    (fun s => s_read s = Idle /\ s_log s = [Accepted (lit "x") 1; Shut; ReadPipe] /\ contents (s_buf s) = lit "x").
Proof. eexists. split; [vm_compute; reflexivity|]. by vm_compute. Qed.
