(* ===== verification/Dlist.v ===== *)
(** * Intrusive circular doubly-linked lists

    Every list of ADB is built the same way: a node holds its own [next] and
    [prev] pointers, and a static sentinel node closes the ring.  The local and
    closing lists of sockets (sockets.c), the pending and master lists of
    transports and the disconnect callbacks of a transport (transport.c), the
    listeners (adb.c), the pending file-descriptor events (fdevent.c) and the
    JDWP processes (jdwp_service.c) are all such rings.

    The definitions perform the pointer writes of the code on a heap of nodes,
    an access to an address that holds no node being undefined behaviour.  The
    theorems relate them to plain lists of addresses, so that the other files
    may keep such a list as the state of a ring. *)

From S2P Require Import Prelude.

Abbreviation addr := nat (only parsing).

Record node := Node { nd_next : addr; nd_prev : addr }.
Abbreviation heap := (gmap addr node).

(** The null pointer. *)
Definition NULL : addr := 0%nat.

(** ** Pointer accesses *)

Definition rd_next (h : heap) (a : addr) : res addr := access (nd_next <$> h !! a).
Definition rd_prev (h : heap) (a : addr) : res addr := access (nd_prev <$> h !! a).
Definition wr_next (h : heap) (a v : addr) : res heap :=
  let* n := access (h !! a) in Ok (<[a := Node v (nd_prev n)]> h).
Definition wr_prev (h : heap) (a v : addr) : res heap :=
  let* n := access (h !! a) in Ok (<[a := Node (nd_next n) v]> h).

(** ** Insertions before the sentinel [list] *)

Definition insert_local_socket (h : heap) (s list : addr) : res heap :=
  let* h := wr_next h s list in
  let* nx := rd_next h s in
  let* pv := rd_prev h nx in
  let* h := wr_prev h s pv in
  let* pv := rd_prev h s in
  let* h := wr_next h pv s in
  let* nx := rd_next h s in
  wr_prev h nx s.

Definition fdevent_plist_enqueue (h : heap) (nd list : addr) : res heap :=
  let* h := wr_next h nd list in
  let* pv := rd_prev h list in
  let* h := wr_prev h nd pv in
  let* pv := rd_prev h nd in
  let* h := wr_next h pv nd in
  wr_prev h list nd.

(** The insertion written out in [register_socket_transport],
    [register_usb_transport], [transport_registration_func] and
    [install_listener]: the two writes to the neighbours come in the other
    order. *)
Definition insert_tail (h : heap) (t list : addr) : res heap :=
  let* h := wr_next h t list in
  let* pv := rd_prev h list in
  let* h := wr_prev h t pv in
  let* nx := rd_next h t in
  let* h := wr_prev h nx t in
  let* pv := rd_prev h t in
  wr_next h pv t.

(** ** Removals *)

(** The two writes shared by every removal. *)
Definition unlink (h : heap) (s : addr) : res heap :=
  let* pv := rd_prev h s in
  let* nx := rd_next h s in
  let* h := wr_next h pv nx in
  let* nx := rd_next h s in
  let* pv := rd_prev h s in
  wr_prev h nx pv.

(** The same with the writes in the other order, as the removals from the
    lists of transports make them. *)
Definition unlink_transport (h : heap) (t : addr) : res heap :=
  let* nx := rd_next h t in
  let* pv := rd_prev h t in
  let* h := wr_prev h nx pv in
  let* pv := rd_prev h t in
  let* nx := rd_next h t in
  wr_next h pv nx.

(** [remove_socket] works only on a node that is in a list, and resets it; the
    result tells whether it did anything. *)
Definition remove_socket (h : heap) (s : addr) : res (bool * heap) :=
  let* pv := rd_prev h s in
  let* nx := rd_next h s in
  if bool_decide (pv = NULL \/ nx = NULL) then Ok (false, h)
  else
    let* h := unlink h s in
    let* h := wr_next h s NULL in
    let* h := wr_prev h s NULL in
    Ok (true, h).

Definition fdevent_plist_remove (h : heap) (nd : addr) : res heap :=
  let* h := unlink h nd in
  let* h := wr_next h nd NULL in
  wr_prev h nd NULL.

Definition remove_transport_disconnect (h : heap) (dis : addr) : res heap :=
  let* h := unlink h dis in
  let* h := wr_prev h dis dis in
  wr_next h dis dis.

(** The first node of the list, taken out; [None] when the list is empty. *)
Definition fdevent_plist_dequeue (h : heap) (list : addr) : res (option addr * heap) :=
  let* nd := rd_next h list in
  if bool_decide (nd = list) then Ok (None, h)
  else
    let* nx := rd_next h nd in
    let* h := wr_next h list nx in
    let* nx := rd_next h list in
    let* h := wr_prev h nx list in
    let* h := wr_next h nd NULL in
    let* h := wr_prev h nd NULL in
    Ok (Some nd, h).

(** The traversal [for (s = list.next; s != &list; s = s->next)], cut at the
    first node that satisfies [p]; [fuel] bounds the number of nodes. *)
Fixpoint find_from (fuel : nat) (h : heap) (p : addr -> bool) (s list : addr)
    : res (option addr) :=
  match fuel with
  | O => Blocked
  | S fuel =>
      if bool_decide (s = list) then Ok None
      else if p s then Ok (Some s)
      else let* nx := rd_next h s in find_from fuel h p nx list
  end.

(** ** What a ring is *)

(** [seg h a l b]: following [next] from [a] visits [l] and then [b], and the
    [prev] pointers of [l] and [b] lead back. *)
Fixpoint seg (h : heap) (a : addr) (l : list addr) (b : addr) : Prop :=
  match l with
  | [] => (exists n, h !! a = Some n /\ nd_next n = b)
          /\ (exists n, h !! b = Some n /\ nd_prev n = a)
  | x :: l => (exists n, h !! a = Some n /\ nd_next n = x)
              /\ (exists n, h !! x = Some n /\ nd_prev n = a) /\ seg h x l b
  end.

(** The nodes of the ring closed by [hd] are [l], in this order. *)
Definition ring (h : heap) (hd : addr) (l : list addr) : Prop :=
  NoDup (hd :: l) /\ NULL ∉ hd :: l /\ seg h hd l hd.

(** A node outside every list, as [calloc] leaves it. *)
Definition detached (h : heap) (s : addr) : Prop := h !! s = Some (Node NULL NULL).

(** ** What the operations do to the nodes *)

(** What an insertion of [s] before the sentinel [hd] does to each node. *)
Definition appended (h h' : heap) (hd s : addr) : Prop :=
  exists z, nd_prev <$> h !! hd = Some z /\
    forall x, h' !! x =
      if decide (x = s) then Some (Node hd z)
      else (fun n => Node (if decide (x = z) then s else nd_next n)
                          (if decide (x = hd) then s else nd_prev n)) <$> h !! x.

(** What a removal of [s] does to the other nodes of the heap. *)
Definition unlinked (h h' : heap) (s : addr) : Prop :=
  exists n, h !! s = Some n /\
    forall x, x <> s -> h' !! x =
      (fun m => Node (if decide (x = nd_prev n) then nd_next n else nd_next m)
                     (if decide (x = nd_next n) then nd_prev n else nd_prev m)) <$> h !! x.

(** Only the node itself may differ between two heaps. *)
Definition same_but (s : addr) (h h' : heap) : Prop := forall x, x <> s -> h' !! x = h !! x.

(** The three ways the code writes the insertion all append. *)
Inductive insertion : (heap -> addr -> addr -> res heap) -> Prop :=
  | ins_socket : insertion insert_local_socket
  | ins_pending : insertion fdevent_plist_enqueue
  | ins_tail : insertion insert_tail.

(** A ring of two nodes, 2 and 3, closed by the sentinel 1, and a node outside. *)
Definition two_ring : heap :=
  list_to_map [(1, Node 2 3); (2, Node 3 1); (3, Node 1 2); (4, Node 0 0)]%nat.

(** * Theorems *)

Lemma wr_next_ok h a n v : h !! a = Some n ->
  wr_next h a v = Ok (<[a := Node v (nd_prev n)]> h).
Proof. intros H. unfold wr_next. rewrite H. reflexivity. Qed.

Lemma wr_prev_ok h a n v : h !! a = Some n ->
  wr_prev h a v = Ok (<[a := Node (nd_next n) v]> h).
Proof. intros H. unfold wr_prev. rewrite H. reflexivity. Qed.

Lemma rd_next_ok h a n : h !! a = Some n -> rd_next h a = Ok (nd_next n).
Proof. intros H. unfold rd_next. rewrite H. reflexivity. Qed.

Lemma rd_prev_ok h a n : h !! a = Some n -> rd_prev h a = Ok (nd_prev n).
Proof. intros H. unfold rd_prev. rewrite H. reflexivity. Qed.

(** Run the next pointer access of a goal whose heap is known at the node. *)
Ltac heap_step :=
  first
    [ erewrite rd_next_ok by (simplify_map_eq; eauto)
    | erewrite rd_prev_ok by (simplify_map_eq; eauto)
    | erewrite wr_next_ok by (simplify_map_eq; eauto)
    | erewrite wr_prev_ok by (simplify_map_eq; eauto) ]; cbn [res_bind nd_next nd_prev].

(** The segment only depends on the [next] of its sources and the [prev] of
    its targets. *)
Lemma seg_frame h h' a l b :
  (forall x n, x = a \/ x ∈ l -> h !! x = Some n ->
     exists n', h' !! x = Some n' /\ nd_next n' = nd_next n) ->
  (forall x n, x ∈ l \/ x = b -> h !! x = Some n ->
     exists n', h' !! x = Some n' /\ nd_prev n' = nd_prev n) ->
  seg h a l b -> seg h' a l b.
Proof.
  revert a. induction l as [|x l IH]; intros a; cbn [seg]; intros Hn Hp.
  - intros [(n & Ha & Hnx) (m & Hb & Hpv)]. split.
    + destruct (Hn a n) as (n' & ? & ?); [by left|done|]. exists n'. by split; [|congruence].
    + destruct (Hp b m) as (m' & ? & ?); [by right|done|]. exists m'. by split; [|congruence].
  - intros ((n & Ha & Hnx) & (m & Hx & Hpv) & Hs). split; [|split].
    + destruct (Hn a n) as (n' & ? & ?); [by left|done|]. exists n'. by split; [|congruence].
    + destruct (Hp x m) as (m' & ? & ?); [left; set_solver|done|]. exists m'. by split; [|congruence].
    + apply IH; [intros; apply Hn; set_solver | intros; apply Hp; set_solver | done].
Qed.

Lemma seg_app h a l1 x l2 b :
  seg h a (l1 ++ x :: l2) b <-> seg h a l1 x /\ seg h x l2 b.
Proof. revert a. induction l1 as [|y l1 IH]; simpl; intros a; [|rewrite IH]; naive_solver. Qed.

(** Both ends of a segment are live nodes. *)
Lemma seg_source h a l b : seg h a l b -> is_Some (h !! a).
Proof. destruct l; simpl; naive_solver. Qed.
Lemma seg_target h a l b : seg h a l b -> is_Some (h !! b).
Proof. revert a. induction l; simpl; naive_solver. Qed.

(** The node before the target, and the one after the source. *)
Lemma seg_prev h a l b : seg h a l b ->
  exists n, h !! b = Some n /\ nd_prev n = default a (last l).
Proof.
  revert a. induction l as [|x l IH]; simpl; intros a; [intros [_ H]; exact H|].
  intros (_ & _ & Hs). destruct (IH _ Hs) as (n & Hn & Hl). exists n. split; [done|].
  rewrite Hl, last_cons. by destruct (last l).
Qed.
Lemma seg_next h a l b : seg h a l b ->
  exists n, h !! a = Some n /\ nd_next n = default b (head l).
Proof. destruct l; simpl; [intros [H _]; exact H|intros (H & _); exact H]. Qed.

(** *** The ring as a list *)

Lemma ring_live h hd l x : ring h hd l -> x ∈ hd :: l -> is_Some (h !! x).
Proof.
  intros (_ & _ & Hs) [->|Hin]%elem_of_cons; [by eapply seg_source|].
  apply list_elem_of_split in Hin as (l1 & l2 & ->).
  apply seg_app in Hs as [_ Hs]. by eapply seg_source.
Qed.

(** A node of the ring, its neighbours and the two halves of the ring. *)
Lemma ring_split h hd l1 s l2 : ring h hd (l1 ++ s :: l2) ->
  h !! s = Some (Node (default hd (head l2)) (default hd (last l1)))
  /\ seg h hd l1 s /\ seg h s l2 hd.
Proof.
  intros (_ & _ & Hs). apply seg_app in Hs as [H1 H2]. split; [|done].
  destruct (seg_prev _ _ _ _ H1) as (n & Hn & Hp), (seg_next _ _ _ _ H2) as (m & Hm & Hq).
  destruct n as [nx pv]. simplify_eq/=. done.
Qed.

(** The traversal finds the first node that satisfies the test, within as many
    steps as the ring has nodes. *)
Lemma find_from_spec h p hd l fuel a :
  seg h a l hd -> hd ∉ l -> (length l < fuel)%nat ->
  (let* s := rd_next h a in find_from fuel h p s hd) = Ok (List.find p l).
Proof.
  revert a fuel. induction l as [|x l IH]; intros a fuel Hs Hhd Hf.
  - destruct (seg_next _ _ _ _ Hs) as (n & Hn & Hnx).
    erewrite rd_next_ok by done. rewrite Hnx. destruct fuel; [simpl in Hf; lia|]. simpl.
    by rewrite bool_decide_true.
  - destruct (seg_next _ _ _ _ Hs) as (n & Hn & Hnx).
    erewrite rd_next_ok by done. rewrite Hnx. destruct Hs as (_ & _ & Hs).
    change (default hd (head (x :: l))) with x.
    destruct fuel as [|fuel]; [simpl in Hf; lia|]. cbn [res_bind find_from].
    rewrite bool_decide_false by set_solver.
    cbn [List.find]. destruct (p x); [done|].
    apply IH; [done | set_solver | simpl in Hf; lia].
Qed.

(** *** Insertion appends *)

(** Membership facts about distinct nodes, as a flat list of (dis)equalities. *)
Ltac flat :=
  repeat match goal with
    | H : NoDup (_ :: _) |- _ => apply NoDup_cons in H as [? H]
    | H : NoDup (_ ++ _) |- _ => apply NoDup_app in H as (H & ? & ?)
    | H : NoDup [] |- _ => clear H
    | H : _ ∉ _ :: _ |- _ => apply not_elem_of_cons in H as [? H]
    | H : _ ∉ _ ++ _ |- _ => apply not_elem_of_app in H as [H ?]
    | H : _ ∉ [] |- _ => clear H
    | H : forall x, x ∈ ?l -> x ∉ _ :: _ |- _ =>
        assert (forall x, x ∈ l -> ~ x ∈ @nil addr) by set_solver;
        setoid_rewrite elem_of_cons in H; setoid_rewrite elem_of_nil in H
    | H : _ ∈ _ :: _ |- _ => apply elem_of_cons in H
    | H : _ ∈ _ ++ _ |- _ => apply elem_of_app in H
    end.
(** Disequality of two nodes known from [flat]. *)
Ltac ne := first [assumption | congruence | intros ?; subst; intuition (congruence || eauto)].

Lemma appended_ring h h' hd l s : ring h hd l -> s ∉ hd :: l -> s <> NULL ->
  appended h h' hd s -> ring h' hd (l ++ [s]).
Proof.
  intros (Hnd & Hnull & Hs) Hfresh Hs0 (z & Hz & Hh').
  destruct (seg_prev _ _ _ _ Hs) as (nh & Hnh & Hlast).
  assert (z = default hd (last l)) as -> by (rewrite Hnh in Hz; simpl in Hz; congruence).
  split; [|split; [set_solver|]].
  { rewrite app_comm_cons. apply NoDup_app. split; [done|]. split; [set_solver|apply NoDup_singleton]. }
  apply seg_app.
  assert (hd <> s) as Hne by set_solver.
  assert (seg h' s [] hd) as Hend.
  { split; eexists.
    - split; [rewrite Hh', decide_True by done; done|done].
    - split; [rewrite Hh', decide_False, Hnh by done; done|]. simpl. by rewrite decide_True. }
  split; [|exact Hend]. clear Hend.
  destruct l as [|y l _] using rev_ind; simpl in *.
  - split; eexists.
    + split; [rewrite Hh', decide_False, Hnh by done; done|]. simpl. by rewrite decide_True.
    + split; [rewrite Hh', decide_True by done; done|done].
  - rewrite last_snoc in Hh'. simpl in Hh'. apply seg_app in Hs as [H1 H2].
    destruct (seg_source _ _ _ _ H2) as [ny Hny].
    assert (y ∉ hd :: l) as Hy.
    { rewrite app_comm_cons in Hnd. apply NoDup_app in Hnd as (_ & Hnd & _). set_solver. }
    flat. apply seg_app. split.
    + eapply seg_frame; [| |exact H1]; intros x n Hx Hn; eexists;
        (split; [rewrite Hh', decide_False, Hn by ne; done|]); simpl;
        rewrite decide_False by ne; done.
    + split; eexists.
      * split; [rewrite Hh', decide_False, Hny by ne; done|]. simpl. by rewrite decide_True.
      * split; [rewrite Hh', decide_True by done; done|done].
Qed.

(** Decide the updates of a lookup, the addresses being known apart. *)
Ltac lookups :=
  repeat (rewrite lookup_insert || case_decide); simplify_eq/=; try congruence; auto.

(** Close a pointwise description of a heap. *)
Ltac node_done :=
  match goal with
  | H : ?h !! ?x = Some _ |- _ = _ <$> ?h !! ?x => rewrite H; done
  | |- _ = _ <$> ?h !! ?x => destruct (h !! x) as [[]|]; done
  end.

(** The nodes an insertion touches. *)
Lemma insert_nodes h hd l s : ring h hd l -> s ∉ hd :: l -> is_Some (h !! s) ->
  exists ns nh nz, h !! s = Some ns /\ h !! hd = Some nh /\ h !! nd_prev nh = Some nz
    /\ s <> hd /\ s <> nd_prev nh.
Proof.
  intros Hr Hfresh [ns Hs]. pose proof Hr as (_ & _ & Hseg).
  destruct (seg_prev _ _ _ _ Hseg) as (nh & Hnh & Hlast).
  assert (nd_prev nh ∈ hd :: l) as Hin.
  { rewrite Hlast. destruct (last l) eqn:E; simpl; [|set_solver].
    apply last_Some in E as [l' ->]. set_solver. }
  destruct (ring_live _ _ _ _ Hr Hin) as [nz Hz].
  exists ns, nh, nz. set_solver.
Qed.

(** Run an insertion [f] on a ring; its two cases are an empty and a non-empty
    list. *)
Ltac run_insertion f :=
  intros Hr Hf Hs;
  destruct (insert_nodes _ _ _ _ Hr Hf Hs) as (ns & nh & nz & Hns & Hnh & Hnz & N1 & N2);
  unfold f; repeat heap_step;
  match goal with H : _ !! ?hd = Some nh |- _ =>
    destruct (decide (nd_prev nh = hd)) as [E|E] end; repeat heap_step;
  (eexists; split; [reflexivity|]); exists (nd_prev nh);
  (split; [by rewrite Hnh|]); intros x; lookups; node_done.

Lemma insert_local_socket_appended h hd l s : ring h hd l -> s ∉ hd :: l ->
  is_Some (h !! s) -> exists h', insert_local_socket h s hd = Ok h' /\ appended h h' hd s.
Proof. run_insertion insert_local_socket. Qed.
Lemma fdevent_plist_enqueue_appended h hd l s : ring h hd l -> s ∉ hd :: l ->
  is_Some (h !! s) -> exists h', fdevent_plist_enqueue h s hd = Ok h' /\ appended h h' hd s.
Proof. run_insertion fdevent_plist_enqueue. Qed.
Lemma insert_tail_appended h hd l s : ring h hd l -> s ∉ hd :: l ->
  is_Some (h !! s) -> exists h', insert_tail h s hd = Ok h' /\ appended h h' hd s.
Proof. run_insertion insert_tail. Qed.

(** every insertion of the code puts the node at the end of the list. *)
Theorem insertion_appends ins h hd l s :
  insertion ins -> ring h hd l -> s ∉ hd :: l -> s <> NULL -> is_Some (h !! s) ->
  exists h', ins h s hd = Ok h' /\ ring h' hd (l ++ [s]) /\
    (forall x, x ∉ s :: hd :: l -> h' !! x = h !! x).
Proof.
  intros Hi Hr Hf Hs0 Hs.
  assert (exists h', ins h s hd = Ok h' /\ appended h h' hd s) as (h' & Hh' & Ha)
    by (destruct Hi; eauto using insert_local_socket_appended,
          fdevent_plist_enqueue_appended, insert_tail_appended).
  exists h'. split; [done|]. split; [by eapply appended_ring|].
  intros x Hx. pose proof Hr as (_ & _ & Hseg).
  destruct (seg_prev _ _ _ _ Hseg) as (nh & Hnh & Hlast), Ha as (z & Hz & Ha).
  rewrite Hnh in Hz. injection Hz as <-. rewrite Ha, decide_False by set_solver.
  assert (x <> nd_prev nh).
  { rewrite Hlast. destruct (last l) eqn:E; simpl; [|set_solver].
    apply last_Some in E as [l' ->]. set_solver. }
  destruct (h !! x) as [[]|]; simpl; [|done]. by rewrite !decide_False by set_solver.
Qed.

(** *** Removal takes one node out *)

(** Non-membership goals of a path without repetitions: its elements are known
    apart one by one, or by the half they belong to. *)
Ltac apart :=
  rewrite ?not_elem_of_cons; repeat split; first [assumption | congruence | set_solver].
Ltac halves H :=
  rewrite app_comm_cons in H;
  let A := fresh "A" in let D := fresh "D" in apply NoDup_app in H as (A & D & H);
  rewrite !NoDup_cons in A; rewrite !NoDup_cons in H; destruct_and?; first [assumption | set_solver | intros ->; set_solver].

(** Frame one of the two halves of a ring whose middle node went. *)
Lemma seg_unlinked h h' s n a l b :
  h !! s = Some n ->
  (forall x, x <> s -> h' !! x =
      (fun m => Node (if decide (x = nd_prev n) then nd_next n else nd_next m)
                     (if decide (x = nd_next n) then nd_prev n else nd_prev m)) <$> h !! x) ->
  s ∉ a :: l -> s <> b -> nd_prev n ∉ a :: l -> nd_next n ∉ l -> nd_next n <> b ->
  seg h a l b -> seg h' a l b.
Proof.
  intros Hs Hh' Ha Hb Hp Hn1 Hn2. flat. apply seg_frame; intros x m Hx Hm; eexists;
    (split; [rewrite Hh', Hm by ne; done|]); simpl; rewrite decide_False by ne; done.
Qed.

Lemma unlinked_ring h h' hd l1 s l2 :
  ring h hd (l1 ++ s :: l2) -> unlinked h h' s -> ring h' hd (l1 ++ l2).
Proof.
  intros Hr (n & Hs & Hh'). destruct (ring_split _ _ _ _ _ Hr) as (Hs' & H1 & H2).
  rewrite Hs in Hs'. injection Hs' as ->. simpl in Hh'.
  destruct Hr as (Hnd & Hnull & _).
  assert (NoDup (hd :: l1 ++ l2)) as Hnd'.
  { by apply (NoDup_middle (hd :: l1)) in Hnd as [_ ?]. }
  split; [done|]. split; [set_solver|].
  assert (forall a b, a <> s -> b <> s -> is_Some (h !! a) -> is_Some (h !! b) ->
     a = default hd (last l1) -> b = default hd (head l2) -> seg h' a [] b) as Hlink.
  { intros a b Ha Hb [na Hna] [nb Hnb] -> ->. split; eexists; (split; [rewrite Hh' by done|]).
    { by rewrite Hna. }
    { simpl. by rewrite decide_True. }
    { by rewrite Hnb. }
    { simpl. by rewrite decide_True. } }
  assert (is_Some (h !! hd)) as Hhd by (eapply seg_source; done).
  destruct l1 as [|z l1 _] using rev_ind; destruct l2 as [|y l2]; simpl in *;
    rewrite ?last_snoc in *; simpl in *; rewrite ?app_nil_r, <-?app_assoc in *; simpl in *.
  - flat. apply Hlink; done.
  - apply (seg_app h s [] y l2 hd) in H2 as [Hy H2].
    assert (is_Some (h !! y)) by (eapply seg_source; done).
    apply (seg_app h' hd [] y l2 hd). split; [apply Hlink; done || (flat; ne)|].
    eapply seg_unlinked; [exact Hs|exact Hh'|..|exact H2]; simpl; clear -Hnd; flat; apart.
  - apply seg_app in H1 as [H1 Hz].
    assert (is_Some (h !! z)) by (eapply seg_source; done).
    apply (seg_app h' hd l1 z [] hd). split; [|apply Hlink; done || (clear -Hnd; flat; ne)].
    eapply seg_unlinked; [exact Hs|exact Hh'|..|exact H1]; simpl; clear -Hnd; halves Hnd.
  - apply seg_app in H1 as [H1 Hz]. apply (seg_app h s [] y l2 hd) in H2 as [Hy H2].
    assert (is_Some (h !! z)) by (eapply seg_source; done).
    assert (is_Some (h !! y)) by (eapply seg_source; done).
    apply seg_app. split; [|apply (seg_app h' z [] y l2 hd); split].
    + eapply seg_unlinked; [exact Hs|exact Hh'|..|exact H1]; simpl; clear -Hnd; halves Hnd.
    + apply Hlink; done || (clear -Hnd; flat; ne).
    + eapply seg_unlinked; [exact Hs|exact Hh'|..|exact H2]; simpl; clear -Hnd; halves Hnd.
Qed.

(** The two writes of a removal, on a node of a ring. *)
Lemma unlink_ok h hd l1 s l2 : ring h hd (l1 ++ s :: l2) ->
  exists h' n, unlink h s = Ok h' /\ h !! s = Some n /\ h' !! s = Some n
    /\ unlinked h h' s /\ nd_next n ∈ hd :: l1 ++ l2 /\ nd_prev n ∈ hd :: l1 ++ l2.
Proof.
  intros Hr. destruct (ring_split _ _ _ _ _ Hr) as (Hs & H1 & H2).
  assert (default hd (head l2) ∈ hd :: l1 ++ l2) as Hin2
    by (destruct l2; simpl; set_solver).
  assert (default hd (last l1) ∈ hd :: l1 ++ l2) as Hin1.
  { destruct (last l1) eqn:E; simpl; [|set_solver].
    apply last_Some in E as [l' ->]. set_solver. }
  assert (s ∉ hd :: l1 ++ l2) as Hout.
  { destruct Hr as (Hnd & _). by apply (NoDup_middle (hd :: l1)) in Hnd as [? _]. }
  set (pv := default hd (last l1)) in *. set (nx := default hd (head l2)) in *.
  destruct (ring_live _ _ _ nx Hr) as [nn Hnn]; [set_solver|].
  destruct (ring_live _ _ _ pv Hr) as [np Hnp]; [set_solver|].
  assert (s <> nx) by set_solver. assert (s <> pv) by set_solver.
  unfold unlink. rewrite (rd_prev_ok _ _ _ Hs), (rd_next_ok _ _ _ Hs). cbn [res_bind nd_next nd_prev].
  clearbody pv nx. repeat heap_step.
  destruct (decide (pv = nx)) as [->|Hne]; repeat heap_step;
    (eexists _, _; split; [reflexivity|]; split; [exact Hs|]; split; [lookups|]);
    (split; [|done]); eexists; (split; [exact Hs|]); intros x Hx; simpl; lookups; node_done.
Qed.

Lemma unlinked_same_but h h1 h2 s : unlinked h h1 s -> same_but s h1 h2 -> unlinked h h2 s.
Proof. intros (n & Hs & Hn) Hb. exists n. split; [done|]. intros x Hx. rewrite Hb; auto. Qed.

(** every removal of the code takes exactly the node out of the list, in
    whatever place, and leaves the order of the others; a socket and a pending
    event end up detached, a disconnect callback linked to itself. *)
Theorem removal_removes h hd l1 s l2 :
  ring h hd (l1 ++ s :: l2) ->
  (exists h', remove_socket h s = Ok (true, h') /\ ring h' hd (l1 ++ l2) /\ detached h' s) /\
  (exists h', fdevent_plist_remove h s = Ok h' /\ ring h' hd (l1 ++ l2) /\ detached h' s) /\
  (exists h', remove_transport_disconnect h s = Ok h' /\ ring h' hd (l1 ++ l2)
     /\ h' !! s = Some (Node s s)).
Proof.
  intros Hr. destruct (unlink_ok _ _ _ _ _ Hr) as (h1 & n & Hu & Hs & Hs1 & Hun & Hn & Hp).
  assert (NULL ∉ hd :: l1 ++ l2) as Hnull by (destruct Hr as (_ & Hnull & _); set_solver).
  assert (forall v w, ring (<[s := Node v w]> h1) hd (l1 ++ l2)) as Hring.
  { intros v w. eapply unlinked_ring; [exact Hr|]. eapply unlinked_same_but; [exact Hun|].
    intros x Hx. by rewrite lookup_insert_ne. }
  unfold remove_socket, fdevent_plist_remove, remove_transport_disconnect.
  rewrite (rd_prev_ok _ _ _ Hs), (rd_next_ok _ _ _ Hs), Hu. cbn [res_bind].
  rewrite bool_decide_false by (intros [E|E]; rewrite E in *; done).
  repeat split; repeat heap_step; rewrite ?insert_insert_eq;
    (eexists; split; [reflexivity|]; split; [apply Hring|]);
    unfold detached; by rewrite lookup_insert_eq.
Qed.

(** Removing twice is harmless for the two removals that reset the node, and
    nothing else: [remove_socket] does nothing to a detached node, and
    [remove_transport_disconnect] nothing to one linked to itself. *)
Lemma removal_again h s :
  (detached h s -> remove_socket h s = Ok (false, h)) /\
  (h !! s = Some (Node s s) -> remove_transport_disconnect h s = Ok h).
Proof.
  split; intros Hs.
  - unfold remove_socket. rewrite (rd_prev_ok _ _ _ Hs), (rd_next_ok _ _ _ Hs). done.
  - unfold remove_transport_disconnect, unlink.
    repeat heap_step. by rewrite !insert_insert_eq, insert_id.
Qed.

(** On a node of a ring the order of the two writes does not matter. *)
Lemma unlink_transport_same h hd l1 s l2 : ring h hd (l1 ++ s :: l2) ->
  unlink_transport h s = unlink h s.
Proof.
  intros Hr. destruct (unlink_ok _ _ _ _ _ Hr) as (h' & n & Hu & Hs & _ & _ & Hn & Hp).
  assert (s ∉ hd :: l1 ++ l2) as Hout.
  { destruct Hr as (Hnd & _). by apply (NoDup_middle (hd :: l1)) in Hnd as [? _]. }
  assert (forall x, x ∈ hd :: l1 ++ l2 -> is_Some (h !! x)) as Hlive.
  { intros x Hx. eapply ring_live; [exact Hr|]. set_solver. }
  destruct (Hlive _ Hn) as [nn Hnn], (Hlive _ Hp) as [np Hnp].
  assert (s <> nd_next n) by (intros E; rewrite <-E in Hn; done).
  assert (s <> nd_prev n) by (intros E; rewrite <-E in Hp; done).
  clear Hu Hlive Hn Hp. destruct n as [nx pv]. simpl in *.
  unfold unlink_transport, unlink. repeat heap_step.
  destruct (decide (pv = nx)) as [->|Hne]; repeat heap_step.
  - by rewrite !insert_insert_eq.
  - by rewrite insert_insert_ne by done.
Qed.

(** A node that was only unlinked keeps its pointers: unlinking it again, once
    the node that followed it has been freed, writes to freed memory. *)
Theorem stale_unlink h a b l1 l2 hd h1 h2 :
  ring h hd (l1 ++ a :: b :: l2) -> unlink_transport h a = Ok h1 ->
  unlink_transport h1 b = Ok h2 -> unlink_transport (delete b h2) a = Ub.
Proof.
  intros Hr Ha Hb. destruct (ring_split _ _ _ _ _ Hr) as (Hna & _ & _). simpl in Hna.
  rewrite (unlink_transport_same _ _ _ _ _ Hr) in Ha.
  assert (a ∉ hd :: l1 ++ b :: l2) as Hout.
  { destruct Hr as (Hnd & _). by apply (NoDup_middle (hd :: l1)) in Hnd as [Hnd _]. }
  assert (a <> b) as Hab by (intros ->; apply Hout; set_solver).
  destruct (unlink_ok _ _ _ _ _ Hr) as (h1' & n & Ha' & Hn & Hn1 & Hun & _ & _).
  assert (h1' = h1) as -> by congruence.
  assert (n = Node b (default hd (last l1))) as -> by congruence.
  pose proof (unlinked_ring _ _ _ _ _ _ Hr Hun) as Hr1.
  rewrite (unlink_transport_same _ _ _ _ _ Hr1) in Hb.
  destruct (unlink_ok _ _ _ _ _ Hr1) as (h2' & m & Hb' & Hm & _ & (m' & Hm' & Hun2) & Hin1 & Hin2).
  assert (h2' = h2) as -> by congruence. assert (m' = m) as -> by congruence.
  assert (delete b h2 !! a = Some (Node b (default hd (last l1)))) as Hda.
  { rewrite lookup_delete_ne, Hun2, Hn1 by done. simpl.
    rewrite !decide_False; [done|intros ->; set_solver..]. }
  unfold unlink_transport. rewrite (rd_prev_ok _ _ _ Hda), (rd_next_ok _ _ _ Hda).
  cbn [res_bind nd_next nd_prev]. unfold wr_prev. by rewrite lookup_delete_eq.
Qed.

(** taking the first node of the pending list returns the head of the
    list and leaves its tail, and leaves an empty list as it is. *)
Theorem dequeue_takes_first h hd l : ring h hd l ->
  exists h', fdevent_plist_dequeue h hd = Ok (head l, h') /\ ring h' hd (tail l)
    /\ (forall s, head l = Some s -> detached h' s).
Proof.
  intros Hr. pose proof Hr as (Hnd & Hnull & Hs).
  destruct (seg_next _ _ _ _ Hs) as (nh & Hnh & Hnx).
  unfold fdevent_plist_dequeue. rewrite (rd_next_ok _ _ _ Hnh), Hnx. cbn [res_bind].
  destruct l as [|s l]; simpl in *.
  { rewrite bool_decide_true by done. exists h. split; [done|]. split; done. }
  destruct (ring_split h hd [] s l Hr) as (Hns & _ & H2). simpl in Hns.
  destruct (unlink_ok h hd [] s l Hr) as (h1 & n & Hu & Hn & Hn1 & Hun & _ & _).
  assert (hd <> s) as Hne by (flat; done).
  rewrite bool_decide_false by done.
  unfold unlink in Hu. rewrite (rd_prev_ok _ _ _ Hns), (rd_next_ok _ _ _ Hns) in *.
  cbn [res_bind nd_next nd_prev] in *.
  destruct (wr_next h hd (default hd (head l))) as [h0| | |] eqn:E0; try done. cbn [res_bind] in *.
  rewrite (wr_next_ok _ _ _ _ Hnh) in E0. injection E0 as <-.
  assert (<[hd:=Node (default hd (head l)) (nd_prev nh)]> h !! s = Some (Node (default hd (head l)) hd)) as Hs0
    by (by rewrite lookup_insert_ne).
  rewrite (rd_next_ok _ _ _ Hs0), (rd_prev_ok _ _ _ Hs0) in Hu. cbn [res_bind nd_next nd_prev] in Hu.
  erewrite rd_next_ok by apply lookup_insert_eq. cbn [res_bind nd_next].
  rewrite Hu. cbn [res_bind]. rewrite (wr_next_ok _ _ _ _ Hn1). cbn [res_bind].
  erewrite wr_prev_ok by apply lookup_insert_eq. cbn [res_bind nd_next]. rewrite insert_insert_eq.
  eexists. split; [reflexivity|]. split.
  - apply (unlinked_ring _ _ _ [] s l Hr). eapply unlinked_same_but; [exact Hun|].
    intros x Hx. by rewrite lookup_insert_ne.
  - intros ? [= <-]. apply lookup_insert_eq.
Qed.

(** *** Concrete rings *)

Lemma two_ring_ok : ring two_ring 1 [2; 3]%nat.
Proof.
  split; [|split]; [apply (bool_decide_unpack _); vm_compute; exact I..|].
  cbn [seg]. repeat split; eexists; (split; [vm_compute; reflexivity|reflexivity]).
Defined.

Lemma insertion_appends_witness :
  exists h, insert_local_socket two_ring 4 1 = Ok h /\ ring h 1 [2; 3; 4]%nat.
Proof.
  destruct (insertion_appends insert_local_socket two_ring 1 [2; 3]%nat 4 ins_socket two_ring_ok)
    as (h & Hh & Hr & _);
    [apply (bool_decide_unpack _); vm_compute; exact I | discriminate | eexists; vm_compute; reflexivity |].
  exists h. exact (conj Hh Hr).
Defined.

Lemma removal_removes_witness :
  exists h, remove_socket two_ring 2 = Ok (true, h) /\ ring h 1 [3]%nat.
Proof.
  destruct (removal_removes two_ring 1 [] 2 [3]%nat two_ring_ok) as ((h & Hh & Hr & _) & _).
  exists h. exact (conj Hh Hr).
Defined.

Lemma dequeue_takes_first_witness :
  exists h, fdevent_plist_dequeue two_ring 1 = Ok (Some 2%nat, h) /\ ring h 1 [3]%nat.
Proof.
  destruct (dequeue_takes_first two_ring 1 [2; 3]%nat two_ring_ok) as (h & Hh & Hr & _).
  exists h. exact (conj Hh Hr).
Defined.

(** The transport that [unregister_transport] takes out of the list while its
    registration is still pending, once its successor in the list is gone. *)
Lemma stale_unlink_witness :
  exists h1 h2, unlink_transport two_ring 2 = Ok h1 /\ unlink_transport h1 3 = Ok h2
    /\ unlink_transport (delete 3%nat h2) 2 = Ub.
Proof.
  destruct (unlink_transport two_ring 2) as [h1| | |] eqn:E1; [|discriminate E1..].
  destruct (unlink_transport h1 3) as [h2| | |] eqn:E2.
  - exists h1, h2. split; [done|]. split; [done|].
    exact (stale_unlink two_ring 2 3 [] [] 1 h1 h2 two_ring_ok E1 E2).
  - exfalso. revert E2. injection E1 as <-. vm_compute. discriminate.
  - exfalso. revert E2. injection E1 as <-. vm_compute. discriminate.
  - exfalso. revert E2. injection E1 as <-. vm_compute. discriminate.
Defined.
