(* ===== verification/Cstr.v ===== *)
(** * C strings

    The functions of the C library on strings that ADB uses, on the list of
    the characters before the terminating NUL, and the two conversions of
    four hexadecimal digits of sockets.c ([unhex]) and of the replies. *)

From S2P Require Import Prelude.

(** The string at the start of an array of initialised bytes; reading past the
    last of them is undefined. *)
Fixpoint c_string (buf : bytes) : res bytes :=
  match buf with
  | [] => Ub
  | Byte.x00 :: _ => Ok []
  | b :: buf => let* s := c_string buf in Ok (b :: s)
  end.

(** [!strncmp(s, p, strlen(p))] *)
Fixpoint starts_with (p s : bytes) : bool :=
  match p, s with
  | [], _ => true
  | x :: p, y :: s => bool_decide (x = y) && starts_with p s
  | _ :: _, [] => false
  end.

(** [strchr(s, c)] for a character other than NUL: what precedes it and what
    follows it. *)
Fixpoint strchr (s : bytes) (c : byte) : option (bytes * bytes) :=
  match s with
  | [] => None
  | b :: s => if bool_decide (b = c) then Some ([], s)
              else match strchr s c with Some (l, r) => Some (b :: l, r) | None => None end
  end.

(** [strrchr(s, c)]: what precedes the last one and what follows it. *)
Fixpoint strrchr (s : bytes) (c : byte) : option (bytes * bytes) :=
  match s with
  | [] => None
  | b :: s =>
      match strrchr s c with
      | Some (l, r) => Some (b :: l, r)
      | None => if bool_decide (b = c) then Some ([], s) else None
      end
  end.

(** The tokens that successive calls of [strtok_r] return for one separator:
    the maximal runs of other characters. *)
Fixpoint tokens_from (s : bytes) (sep : byte) (cur : bytes) : list bytes :=
  match s with
  | [] => if bool_decide (cur = []) then [] else [cur]
  | b :: s => if bool_decide (b = sep)
              then if bool_decide (cur = []) then tokens_from s sep [] else cur :: tokens_from s sep []
              else tokens_from s sep (cur ++ [b])
  end.
Definition strtok_r (s : bytes) (sep : byte) : list bytes := tokens_from s sep [].

(** *** Numbers *)

(** [n = (n << 4) | c] on [unsigned]; [None] is the return of 0xffffffff. *)
Definition hex_digit (b : byte) : option Z :=
  let c := ub b in
  if bool_decide (48 <= c <= 57) then Some (c - 48)
  else if bool_decide (97 <= c <= 102) then Some (c - 97 + 10)
  else if bool_decide (65 <= c <= 70) then Some (c - 65 + 10)
  else None.

(** [unhex(s, len)]: the first [len] bytes at [s]. *)
Fixpoint unhex_from (n : Z) (s : bytes) (len : nat) {struct len} : res Z :=
  match len with
  | O => Ok n
  | S len =>
      match s with
      | [] => Ub
      | b :: s =>
          match hex_digit b with
          | None => Ok 0xffffffff
          | Some c => unhex_from (u32 (Z.lor (Z.shiftl n 4) c)) s len
          end
      end
  end.
Definition unhex (s : bytes) (len : nat) : res Z := unhex_from 0 s len.

(** A digit of [%x]. *)
Definition hex_char (d : Z) : byte := bz (if bool_decide (d < 10) then 48 + d else 87 + d).

(** [%04x] of a number below 0x10000. *)
Definition hex4 (n : Z) : bytes :=
  [hex_char (Z.land (Z.shiftr n 12) 15); hex_char (Z.land (Z.shiftr n 8) 15);
   hex_char (Z.land (Z.shiftr n 4) 15); hex_char (Z.land n 15)].

Definition digit_of (b : byte) : option Z :=
  if bool_decide (48 <= ub b <= 57) then Some (ub b - 48) else None.
Definition is_space (b : byte) : bool := bool_decide (ub b = 32 \/ 9 <= ub b <= 13).

Fixpoint digits (n : Z) (s : bytes) : Z :=
  match s with
  | [] => n
  | b :: s => match digit_of b with Some d => digits (n * 10 + d) s | None => n end
  end.

(** [atoi] *)
Fixpoint atoi (s : bytes) : Z :=
  match s with
  | [] => 0
  | b :: s' =>
      if is_space b then atoi s'
      else if bool_decide (b = Byte.x2d) then s32 (- digits 0 s')
      else if bool_decide (b = Byte.x2b) then s32 (digits 0 s')
      else s32 (digits 0 s)
  end.

(** * Theorems *)

(** An array whose string is known. *)
Lemma c_string_spec buf s : c_string buf = Ok s <->
  Byte.x00 ∉ s /\ exists rest, buf = s ++ Byte.x00 :: rest.
Proof.
  revert s. induction buf as [|b buf IH]; intros s.
  - split; [done|]. intros (_ & rest & H). by destruct s.
  - destruct (decide (b = Byte.x00)) as [->|Hb].
    + split.
      * intros [= <-]. split; [apply not_elem_of_nil|]. by exists buf.
      * intros (Hn & rest & H). destruct s as [|x s]; [done|]. simpl in H. injection H as <- _.
        exfalso. apply Hn. by left.
    + assert (c_string (b :: buf) = let* s := c_string buf in Ok (b :: s)) as -> by (by destruct b).
      split.
      * intros H. inv_ok. subst s. apply IH in H0 as (Hn & rest & ->). split; [|by exists rest].
        apply not_elem_of_cons. auto.
      * intros (Hn & rest & H). destruct s as [|x s]; [by injection H as ->|].
        injection H as <- H. assert (c_string buf = Ok s) as ->; [|done].
        apply IH. split; [by apply not_elem_of_cons in Hn as [_ ?]|by exists rest].
Qed.

(** Reading a string that its sender terminated. *)
Lemma c_string_snoc s rest : Byte.x00 ∉ s -> c_string (s ++ Byte.x00 :: rest) = Ok s.
Proof. intros H. apply c_string_spec. eauto. Qed.

(** Whatever the bytes, a NUL among them bounds the reading. *)
Lemma c_string_nul a : exists s, (length s <= length a)%nat /\ forall rest, c_string (a ++ Byte.x00 :: rest) = Ok s.
Proof.
  induction a as [|b a (s & Hs & IH)]; [by exists []|].
  destruct (decide (b = Byte.x00)) as [->|Hb]; [exists []; split; [cbn; lia|done]|].
  exists (b :: s). cbn [app length]. split; [lia|]. intros rest.
  transitivity (let* s := c_string (a ++ Byte.x00 :: rest) in Ok (b :: s)).
  - by destruct b.
  - by rewrite IH.
Qed.

(** Reading digits that are there. *)
Lemma unhex_from_ok len : forall n s, 0 <= n < 2 ^ 32 -> (len <= length s)%nat ->
  exists v, unhex_from n s len = Ok v /\ 0 <= v < 2 ^ 32.
Proof.
  induction len as [|len IH]; intros n [|b s] Hn Hs; cbn in *; try lia; [by exists n..|].
  destruct (hex_digit b); [|eexists; split; [done|lia]].
  apply IH; [apply u32_range|lia].
Qed.

Lemma starts_with_spec p s : starts_with p s = true <-> exists rest, s = p ++ rest.
Proof.
  revert s. induction p as [|x p IH]; intros s; cbn [starts_with]; [split; [eauto|done]|].
  destruct s as [|y s]; [split; [done|by intros [? ?]]|].
  rewrite andb_true_iff, bool_decide_eq_true, IH. split.
  - intros (-> & rest & ->). by exists rest.
  - intros (rest & [= <- ->]). split; [done|by exists rest].
Qed.

Lemma hex_char_digit d : 0 <= d < 16 -> hex_digit (hex_char d) = Some d.
Proof.
  intros H. unfold hex_char, hex_digit. rewrite ub_bz.
  destruct (decide (d < 10)).
  - rewrite (bool_decide_true (d < 10)), Z.mod_small, bool_decide_true by lia. f_equal. lia.
  - rewrite (bool_decide_false (d < 10)), Z.mod_small, bool_decide_false, bool_decide_true by lia.
    f_equal. lia.
Qed.

(** The length that a reply announces is the one its reader decodes. *)
Lemma unhex_hex4 n rest : 0 <= n < 2 ^ 16 -> unhex (hex4 n ++ rest) 4 = Ok n.
Proof.
  intros Hn.
  assert (forall k, 0 <= Z.land (Z.shiftr n k) 15 < 16) as Hr.
  { intros k. change 15 with (Z.ones 4). rewrite Z.land_ones by lia. apply Z.mod_pos_bound. lia. }
  assert (Z.land n 15 = Z.land (Z.shiftr n 0) 15) as E0 by (by rewrite Z.shiftr_0_r).
  unfold unhex, hex4. rewrite E0. cbn [app]. do 4 (cbn [unhex_from]; rewrite hex_char_digit by apply Hr).
  cbn [unhex_from]. f_equal.
  change 15 with (Z.ones 4). rewrite !Z.land_ones, !Z.shiftr_div_pow2 by lia.
  assert (forall a b, 0 <= a < 2 ^ 28 -> 0 <= b < 16 -> u32 (Z.lor (Z.shiftl a 4) b) = a * 16 + b) as Hstep.
  { intros a b Ha Hb. rewrite lor_shiftl_add by lia. apply u32_small. change (2 ^ 28) with 268435456 in *; lia. }
  change (2 ^ 4) with 16 in *. change (2 ^ 12) with 4096. change (2 ^ 8) with 256. change (2 ^ 0) with 1.
  change (2 ^ 28) with 268435456 in *. change (2 ^ 16) with 65536 in *.
  assert (0 <= n / 4096 mod 16 < 16 /\ 0 <= n / 256 mod 16 < 16 /\ 0 <= n / 16 mod 16 < 16 /\ 0 <= n mod 16 < 16
    /\ n = ((n / 4096 mod 16 * 16 + n / 256 mod 16) * 16 + n / 16 mod 16) * 16 + n mod 16)
    as (H3 & H2 & H1 & H0 & Hsum) by (Z.to_euclidean_division_equations; lia).
  rewrite Z.div_1_r. revert H3 H2 H1 H0 Hsum.
  generalize (n / 4096 mod 16), (n / 256 mod 16), (n / 16 mod 16), (n mod 16). intros d3 d2 d1 d0 ? ? ? ? ->.
  rewrite (Hstep 0 d3), (Hstep (0 * 16 + d3) d2), (Hstep ((0 * 16 + d3) * 16 + d2) d1), Hstep; [|lia..].
  destruct rest; cbn [unhex_from]; f_equal; lia.
Qed.

Lemma strrchr_none s c : c ∉ s -> strrchr s c = None.
Proof.
  induction s as [|b s IH]; [done|]. rewrite not_elem_of_cons. intros [Hb Hs]. cbn [strrchr]. rewrite IH by done.
  by rewrite bool_decide_false.
Qed.

Lemma strrchr_last l r c : c ∉ r -> strrchr (l ++ c :: r) c = Some (l, r).
Proof.
  intros Hr. induction l as [|b l IH]; cbn [app strrchr]; [|by rewrite IH].
  by rewrite strrchr_none, bool_decide_true.
Qed.

(** ** Searching *)

Lemma strchr_found l r c : c ∉ l -> strchr (l ++ c :: r) c = Some (l, r).
Proof.
  induction l as [|b l IH]; intros Hc; cbn [strchr app]; [by rewrite bool_decide_true|].
  apply not_elem_of_cons in Hc as [? ?]. rewrite bool_decide_false by (by apply not_eq_sym). by rewrite IH.
Qed.

Lemma strchr_some s c l r : strchr s c = Some (l, r) -> s = l ++ c :: r /\ c ∉ l.
Proof.
  revert l. induction s as [|b s IH]; intros l; cbn [strchr]; [done|]. case_bool_decide as Hb; [intros [= <- <-]; subst; split; [done|apply not_elem_of_nil]|].
  destruct (strchr s c) as [[l' r']|]; [|done]. intros [= <- <-]. destruct (IH l' eq_refl) as [-> Hl]. split; [done|].
  apply not_elem_of_cons. split; [by apply not_eq_sym|done].
Qed.

Lemma strchr_none s c : c ∉ s -> strchr s c = None.
Proof.
  induction s as [|b s IH]; [done|]. intros [Hb Hs]%not_elem_of_cons. cbn [strchr]. rewrite bool_decide_false by (by apply not_eq_sym). by rewrite IH.
Qed.

(** *** Tokens *)

Lemma tokens_run x s sep cur : sep ∉ x -> tokens_from (x ++ s) sep cur = tokens_from s sep (cur ++ x).
Proof.
  revert cur. induction x as [|b x IH]; intros cur Hx; cbn [app tokens_from]; [by rewrite app_nil_r|].
  apply not_elem_of_cons in Hx as [Hb Hx]. rewrite bool_decide_false by congruence.
  by rewrite IH, <-app_assoc.
Qed.

(** A token, and the separator that ends it. *)
Lemma strtok_cons x s sep : x <> [] -> sep ∉ x -> strtok_r (x ++ sep :: s) sep = x :: strtok_r s sep.
Proof.
  intros Hx Hs. unfold strtok_r. rewrite tokens_run by done. cbn [app tokens_from].
  by rewrite bool_decide_true, bool_decide_false.
Qed.
