(* ===== verification/Numbers.v ===== *)
(** * Numbers in text

    [strtoul] with base 0 and 16, as bionic has it (libc/stdlib/strtoul.c) where
    [unsigned long] has 32 bits, the decimal conversion of [printf] and the
    conversion [%04x] of [sscanf]. *)

From S2P Require Import Prelude Cstr.

Definition ULONG_MAX : Z := 2 ^ 32 - 1.

(** The value of a character as a digit, in any base up to 36. *)
Definition digit_value (b : byte) : option Z :=
  let c := ub b in
  if bool_decide (48 <= c <= 57) then Some (c - 48)
  else if bool_decide (65 <= c <= 90) then Some (c - (65 - 10))
  else if bool_decide (97 <= c <= 122) then Some (c - (97 - 10))
  else None.

(** The loop over the digits: [acc] and [any], and whether [errno] was set. *)
Fixpoint strtoul_loop (base acc any : Z) (erange : bool) (s : bytes) : Z * Z * bool :=
  match s with
  | [] => (acc, any, erange)
  | b :: s =>
      match digit_value b with
      | None => (acc, any, erange)
      | Some c =>
          let cutoff := ULONG_MAX / base in
          let cutlim := ULONG_MAX mod base in
          if bool_decide (c >= base) then (acc, any, erange)
          else if bool_decide (any < 0) then strtoul_loop base acc any erange s
          else if bool_decide (acc > cutoff \/ acc = cutoff /\ c > cutlim)
          then strtoul_loop base ULONG_MAX (-1) true s
          else strtoul_loop base (u32 (acc * base + c)) 1 erange s
      end
  end.

Fixpoint drop_spaces (s : bytes) : bytes :=
  match s with [] => [] | b :: s' => if is_space b then drop_spaces s' else s end.

(** The sign, and the base that the first digits ask for. *)
Definition take_sign (s : bytes) : bool * bytes :=
  match s with
  | Byte.x2d :: s => (true, s)
  | Byte.x2b :: s => (false, s)
  | _ => (false, s)
  end.
Definition take_base (s : bytes) : Z * bytes :=
  match s with
  | Byte.x30 :: Byte.x78 :: s | Byte.x30 :: Byte.x58 :: s => (16, s)
  | Byte.x30 :: _ => (8, s)
  | _ => (10, s)
  end.

(** [strtoul(s, NULL, 0)], and whether it sets [errno]. *)
Definition strtoul (s : bytes) : Z * bool :=
  let '(neg, s) := take_sign (drop_spaces s) in
  let '(base, s) := take_base s in
  let '(acc, any, erange) := strtoul_loop base 0 0 false s in
  (if neg && bool_decide (any > 0) then u32 (- acc) else acc, erange).

(** [%d] of a number that is not negative and has at most ten digits. *)
Fixpoint dec_digits (fuel : nat) (n : Z) (rest : bytes) : bytes :=
  match fuel with
  | O => rest
  | S fuel =>
      let rest := bz (48 + n mod 10) :: rest in
      if bool_decide (n < 10) then rest else dec_digits fuel (n / 10) rest
  end.
Definition print_dec (n : Z) : bytes := dec_digits 10 n [].

(** [strtoul(s, 0, 16)], of which only the value is used. *)
Definition drop_0x (s : bytes) : bytes :=
  match s with Byte.x30 :: Byte.x78 :: s | Byte.x30 :: Byte.x58 :: s => s | _ => s end.
Definition strtoul16 (s : bytes) : Z :=
  let '(neg, s) := take_sign (drop_spaces s) in
  let '(acc, any, _) := strtoul_loop 16 0 0 false (drop_0x s) in
  if neg && bool_decide (any > 0) then u32 (- acc) else acc.

(** [sscanf(s, "%04x", &n)]: at most four characters are converted.  What is
    behind the bytes that were read counts as a NUL. *)
Definition scan_04x (s : bytes) : option Z :=
  let s := take 4 (drop_spaces s) in
  match head (drop_0x (take_sign s).2) ≫= hex_digit with
  | Some _ => Some (strtoul16 s)
  | None => match (take_sign s).2 with Byte.x30 :: _ => Some 0 | _ => None end
  end.

(** * Theorems *)

Definition is_digit (b : byte) : Prop := 48 <= ub b <= 57.
Definition decimal : Z -> bytes -> Z := foldl (fun n b => n * 10 + (ub b - 48)).

Lemma ub_digit d : 0 <= d < 10 -> ub (bz (48 + d)) = 48 + d.
Proof. intros H. rewrite ub_bz. apply Z.mod_small. lia. Qed.

Lemma decimal_app n a b : decimal n (a ++ b) = decimal (decimal n a) b.
Proof. apply foldl_app. Qed.

Lemma decimal_grows ds : Forall is_digit ds -> forall n, 0 <= n -> n <= decimal n ds.
Proof.
  induction 1 as [|b ds Hb _ IH]; intros n Hn; cbn; [lia|]. unfold is_digit in Hb.
  etransitivity; [|apply IH; lia]. lia.
Qed.

(** The digits of [n]: they read back as [n], and only 0 begins with 0. *)
Lemma dec_digits_spec fuel : forall n rest, 0 <= n < 10 ^ Z.of_nat fuel -> (0 < fuel)%nat ->
  exists b ds, dec_digits fuel n rest = b :: ds ++ rest /\ Forall is_digit (b :: ds)
    /\ decimal 0 (b :: ds) = n /\ (ub b = 48 -> n = 0).
Proof.
  induction fuel as [|fuel IH]; intros n rest Hn Hf; [lia|]. cbn [dec_digits].
  pose proof (Z.mod_pos_bound n 10 ltac:(lia)) as Hm.
  case_bool_decide as Hlt.
  - rewrite Z.mod_small by lia. exists (bz (48 + n)), []. unfold is_digit. cbn. rewrite ub_digit by lia.
    split_and!; [done|repeat constructor; rewrite ub_digit by lia; lia|lia|lia].
  - rewrite Nat2Z.inj_succ, Z.pow_succ_r in Hn by lia.
    assert (1 < 10 ^ Z.of_nat fuel) as Hp by (destruct fuel; cbn in *; lia).
    destruct (IH (n / 10) (bz (48 + n mod 10) :: rest)) as (b & ds & Heq & Hds & Hv & Hz).
    { split; [apply Z.div_pos; lia|apply Z.div_lt_upper_bound; lia]. }
    { destruct fuel; [cbn in Hp; lia|lia]. }
    exists b, (ds ++ [bz (48 + n mod 10)]). rewrite Heq, <-app_assoc.
    pose proof (Z.div_mod n 10 ltac:(lia)) as Hdm. split_and!; [done| | |].
    + change (Forall is_digit ((b :: ds) ++ [bz (48 + n mod 10)])). apply Forall_app. split; [done|].
      repeat constructor; unfold is_digit; rewrite ub_digit by lia; lia.
    + change (decimal 0 ((b :: ds) ++ [bz (48 + n mod 10)]) = n). rewrite decimal_app, Hv. cbn.
      rewrite ub_digit by lia. lia.
    + intros Hb. specialize (Hz Hb). pose proof (Z.div_str_pos n 10). lia.
Qed.

Lemma digit_value_digit b : is_digit b -> digit_value b = Some (ub b - 48).
Proof. unfold is_digit, digit_value. intros H. by rewrite bool_decide_true. Qed.

(** Digits whose number fits are read without overflow. *)
Lemma strtoul_loop_digits ds : Forall is_digit ds -> forall acc any, 0 <= acc -> 0 <= any ->
  decimal acc ds <= ULONG_MAX -> strtoul_loop 10 acc any false ds = (decimal acc ds, if decide (ds = []) then any else 1, false).
Proof.
  induction 1 as [|b ds Hb Hds IH]; intros acc any Hacc Hany Hmax; [done|]. cbn [strtoul_loop].
  rewrite digit_value_digit by done. pose proof Hb as Hb'. unfold is_digit in Hb'.
  rewrite (bool_decide_false (ub b - 48 >= 10)), (bool_decide_false (any < 0)) by lia.
  cbn [decimal foldl] in *. fold (decimal (acc * 10 + (ub b - 48)) ds) in *.
  pose proof (decimal_grows ds Hds (acc * 10 + (ub b - 48)) ltac:(lia)).
  assert (acc * 10 + (ub b - 48) <= ULONG_MAX) as Hle by lia.
  rewrite bool_decide_false.
  - rewrite u32_small by (unfold ULONG_MAX in Hle; lia). rewrite IH by lia. by destruct (decide (ds = [])).
  - unfold ULONG_MAX in *. change ((2 ^ 32 - 1) / 10) with 429496729. change ((2 ^ 32 - 1) mod 10) with 5. lia.
Qed.

Lemma leading_digit b s : 49 <= ub b <= 57 ->
  take_sign (drop_spaces (b :: s)) = (false, b :: s) /\ take_base (b :: s) = (10, b :: s).
Proof. destruct b; intros H; try (exfalso; revert H; vm_compute; intuition congruence); by split. Qed.

(** What [%d] prints, [strtoul] reads back, with no error. *)
Lemma strtoul_print_dec n : 0 <= n < 2 ^ 32 -> strtoul (print_dec n) = (n, false).
Proof.
  intros Hn. destruct (decide (n = 0)) as [->|Hz]; [reflexivity|]. unfold print_dec.
  destruct (dec_digits_spec 10 n []) as (b & ds & Heq & Hds & Hv & Hb); [lia..|]. rewrite app_nil_r in Heq.
  rewrite Heq. pose proof (Forall_inv Hds) as Hdig. unfold is_digit in Hdig.
  destruct (leading_digit b ds) as [Hs Hbase]; [destruct (decide (ub b = 48)) as [H48|]; [by destruct (Hz (Hb H48))|lia]|].
  unfold strtoul. rewrite Hs, Hbase, strtoul_loop_digits; [|done|lia..|unfold ULONG_MAX; lia].
  by rewrite Hv.
Qed.

(** No character of it is a comma. *)
Lemma print_dec_digits n : 0 <= n < 2 ^ 32 -> Forall is_digit (print_dec n) /\ (length (print_dec n) <= 10)%nat.
Proof.
  intros Hn. split.
  - destruct (dec_digits_spec 10 n []) as (b & ds & Heq & Hds & _); [lia..|]. rewrite app_nil_r in Heq.
    unfold print_dec. by rewrite Heq.
  - unfold print_dec. assert (forall fuel n rest, (length (dec_digits fuel n rest) <= fuel + length rest)%nat) as H.
    { induction fuel as [|fuel IH]; intros m rest; cbn [dec_digits]; [lia|]. case_bool_decide; cbn [length]; [lia|].
      etransitivity; [apply IH|cbn [length]; lia]. }
    etransitivity; [apply H|cbn; lia].
Qed.

(** ** Numbers of four digits *)

Lemma hex_char_value d : 0 <= d < 16 -> digit_value (hex_char d) = Some d /\ is_space (hex_char d) = false
  /\ hex_char d <> Byte.x2d /\ hex_char d <> Byte.x2b /\ hex_char d <> Byte.x78 /\ hex_char d <> Byte.x58.
Proof.
  intros H. assert (d = 0 \/ d = 1 \/ d = 2 \/ d = 3 \/ d = 4 \/ d = 5 \/ d = 6 \/ d = 7 \/ d = 8 \/ d = 9 \/ d = 10 \/ d = 11 \/ d = 12 \/ d = 13
    \/ d = 14 \/ d = 15) as Hd by lia. repeat destruct Hd as [->|Hd]; try subst d; by vm_compute.
Qed.

Lemma hex_loop_step d acc any s : 0 <= d < 16 -> 0 <= acc < 2 ^ 16 -> 0 <= any ->
  strtoul_loop 16 acc any false (hex_char d :: s) = strtoul_loop 16 (acc * 16 + d) 1 false s.
Proof.
  intros Hd Ha Hany. cbn [strtoul_loop]. rewrite (proj1 (hex_char_value d Hd)). change (ULONG_MAX / 16) with 268435455. change (ULONG_MAX mod 16) with 15.
  rewrite !bool_decide_false by lia. by rewrite u32_small by lia.
Qed.

Lemma strtoul16_digits a b c d : 0 <= a < 16 -> 0 <= b < 16 -> 0 <= c < 16 -> 0 <= d < 16 ->
  strtoul16 [hex_char a; hex_char b; hex_char c; hex_char d] = ((a * 16 + b) * 16 + c) * 16 + d.
Proof.
  intros Ha Hb Hc Hd. destruct (hex_char_value a Ha) as (_ & Hsp & Hm & Hp & _), (hex_char_value b Hb) as (_ & _ & _ & _ & Hx & HX).
  unfold strtoul16. cbn [drop_spaces]. rewrite Hsp. assert (forall x s, x <> Byte.x2d -> x <> Byte.x2b -> take_sign (x :: s) = (false, x :: s)) as Hsign by (by intros []).
  rewrite Hsign by done. assert (forall x y s, y <> Byte.x78 -> y <> Byte.x58 -> drop_0x (x :: y :: s) = x :: y :: s) as H0x.
  { intros x y s Hy HY. destruct x; try reflexivity. by destruct y. }
  rewrite H0x by done. rewrite !hex_loop_step by lia. reflexivity.
Qed.

Lemma strtoul16_hex4 n : 0 <= n < 2 ^ 16 -> strtoul16 (hex4 n) = n.
Proof.
  intros Hn. assert (forall k, 0 <= k -> 0 <= Z.land (Z.shiftr n k) 15 < 16) as Hr.
  { intros k _. change 15 with (Z.ones 4). rewrite Z.land_ones by lia. apply Z.mod_pos_bound. lia. }
  unfold hex4. pose proof (Hr 0 ltac:(lia)) as H0. rewrite Z.shiftr_0_r in H0. rewrite strtoul16_digits by (auto with lia).
  change 15 with (Z.ones 4). rewrite !Z.land_ones, !Z.shiftr_div_pow2 by lia. change (2 ^ 4) with 16. change (2 ^ 12) with 4096. change (2 ^ 8) with 256.
  change (2 ^ 16) with 65536 in Hn. Z.to_euclidean_division_equations; lia.
Qed.
