(* ===== verification/Sha.v ===== *)
(** * SHA-1 and SHA-256 (libmincrypt)

    The hashes behind the signatures of authentication: sha.c and sha256.c with
    their context, which takes a message in pieces and keeps the last
    incomplete block in a buffer.  The reference is FIPS 180: the whole message
    padded, cut into blocks and folded over the compression function. *)

From S2P Require Import Prelude Cstr.

(** ** Words *)

(** [*p++ << 24 | *p++ << 16 | *p++ << 8 | *p++] *)
Definition be_word (b0 b1 b2 b3 : byte) : Z :=
  Z.lor (Z.lor (Z.lor (Z.shiftl (ub b0) 24) (Z.shiftl (ub b1) 16)) (Z.shiftl (ub b2) 8)) (ub b3).

(** The four stores of [tmp >> 24] to [tmp >> 0]. *)
Definition be_bytes (w : Z) : bytes := [bz (Z.shiftr w 24); bz (Z.shiftr w 16); bz (Z.shiftr w 8); bz w].

Fixpoint be_words (n : nat) (p : bytes) : list Z :=
  match n, p with
  | S n, b0 :: b1 :: b2 :: b3 :: p => be_word b0 b1 b2 b3 :: be_words n p
  | _, _ => []
  end.

(** [x[i]] of an array of words. *)
Definition word (W : list Z) (i : nat) : Z := nth i W 0.

(** ** hash-internal.h *)

Record HASH_CTX := HashCtx { count : Z; buf : bytes; state : list Z }.

Section Hash.
Context (Transform : HASH_CTX -> HASH_CTX).

(** The loop of [SHA_update] and [SHA256_update]; [i] is the next free place of
    the buffer. *)
Fixpoint update_loop (ctx : HASH_CTX) (i : nat) (p : bytes) : HASH_CTX :=
  match p with
  | [] => ctx
  | b :: p =>
      let ctx := HashCtx (count ctx) (<[i := b]> (buf ctx)) (state ctx) in
      if bool_decide (S i = 64)%nat then update_loop (Transform ctx) 0 p else update_loop ctx (S i) p
  end.

Definition hash_update (ctx : HASH_CTX) (data : bytes) : HASH_CTX :=
  let i := Z.to_nat (Z.land (count ctx) 63) in
  update_loop (HashCtx ((count ctx + Z.of_nat (length data)) mod 2 ^ 64) (buf ctx) (state ctx)) i data.

(** [while ((ctx->count & 63) != 56)]: at most 63 turns. *)
Fixpoint pad_zeros (fuel : nat) (ctx : HASH_CTX) : res HASH_CTX :=
  if bool_decide (Z.land (count ctx) 63 = 56) then Ok ctx
  else match fuel with
       | O => Blocked
       | S fuel => pad_zeros fuel (hash_update ctx [Byte.x00])
       end.

(** The eight bytes of the length. *)
Fixpoint put_length (n : nat) (cnt : Z) (ctx : HASH_CTX) : HASH_CTX :=
  match n with
  | O => ctx
  | S n => put_length n cnt (hash_update ctx [bz (Z.shiftr cnt (8 * Z.of_nat n))])
  end.

(** The digest has [words] words, and overwrites the start of the buffer. *)
Definition hash_final (words : nat) (ctx : HASH_CTX) : res HASH_CTX :=
  let cnt := (count ctx * 8) mod 2 ^ 64 in
  let ctx := hash_update ctx [Byte.x80] in
  let* ctx := pad_zeros 64 ctx in
  let ctx := put_length 8 cnt ctx in
  Ok (HashCtx (count ctx) (concat (map be_bytes (take words (state ctx))) ++ drop (4 * words) (buf ctx)) (state ctx)).

End Hash.

(** ** sha.c *)

Module Sha1.

Definition SHA_DIGEST_SIZE : nat := 20.

Definition rol (bits value : Z) : Z := Z.lor (u32 (Z.shiftl value bits)) (Z.shiftr value (32 - bits)).

(** The loop that extends [W] from 16 to 80 words. *)
Fixpoint extend (n : nat) (W : list Z) : list Z :=
  match n with
  | O => W
  | S n =>
      let t := length W in
      let x := Z.lxor (Z.lxor (Z.lxor (word W (t - 3)) (word W (t - 8))) (word W (t - 14))) (word W (t - 16)) in
      extend n (W ++ [rol 1 x])
  end.

Definition round (W : list Z) (s : Z * Z * Z * Z * Z) (t : nat) : Z * Z * Z * Z * Z :=
  let '(A, B, C, D, E) := s in
  let tmp := u32 (rol 5 A + E + word W t) in
  let tmp :=
    if bool_decide (t < 20)%nat then u32 (tmp + (Z.lxor D (Z.land B (Z.lxor C D)) + 0x5A827999))
    else if bool_decide (t < 40)%nat then u32 (tmp + (Z.lxor (Z.lxor B C) D + 0x6ED9EBA1))
    else if bool_decide (t < 60)%nat then u32 (tmp + (Z.lor (Z.land B C) (Z.land D (Z.lor B C)) + 0x8F1BBCDC))
    else u32 (tmp + (Z.lxor (Z.lxor B C) D + 0xCA62C1D6)) in
  (tmp, A, rol 30 B, C, D).

Definition compress (s : list Z) (block : bytes) : list Z :=
  let W := extend 64 (be_words 16 block) in
  let '(A, B, C, D, E) := foldl (round W) (word s 0, word s 1, word s 2, word s 3, word s 4) (seq 0 80) in
  [u32 (word s 0 + A); u32 (word s 1 + B); u32 (word s 2 + C); u32 (word s 3 + D); u32 (word s 4 + E)].

(** The context has room for eight words, of which SHA-1 uses five. *)
Definition SHA1_Transform (ctx : HASH_CTX) : HASH_CTX :=
  HashCtx (count ctx) (buf ctx) (compress (state ctx) (buf ctx) ++ drop 5 (state ctx)).

Definition SHA_iv : list Z := [0x67452301; 0xEFCDAB89; 0x98BADCFE; 0x10325476; 0xC3D2E1F0].

Definition SHA_init (ctx : HASH_CTX) : HASH_CTX := HashCtx 0 (buf ctx) (SHA_iv ++ drop 5 (state ctx)).
Definition SHA_update : HASH_CTX -> bytes -> HASH_CTX := hash_update SHA1_Transform.
Definition SHA_final : HASH_CTX -> res HASH_CTX := hash_final SHA1_Transform 5.

(** [ctx] is the uninitialised context on the stack. *)
Definition SHA_hash (ctx : HASH_CTX) (data digest : bytes) : res bytes :=
  let* ctx := SHA_final (SHA_update (SHA_init ctx) data) in
  Ok (take SHA_DIGEST_SIZE (buf ctx) ++ drop SHA_DIGEST_SIZE digest).

End Sha1.

(** ** sha256.c *)

Module Sha256.

Definition SHA256_DIGEST_SIZE : nat := 32.

Definition ror (value bits : Z) : Z := Z.lor (Z.shiftr value bits) (u32 (Z.shiftl value (32 - bits))).
Definition shr (value bits : Z) : Z := Z.shiftr value bits.

Fixpoint hex_words (n : nat) (s : bytes) : list Z :=
  match n with
  | O => []
  | S n => foldl (fun w b => w * 16 + default 0 (hex_digit b)) 0 (take 8 s) :: hex_words n (drop 8 s)
  end.

(** The table of constants, eight hexadecimal digits each. *)
Definition K : list Z := Eval vm_compute in hex_words 64 (lit (
  "428a2f9871374491b5c0fbcfe9b5dba53956c25b59f111f1923f82a4ab1c5ed5" ++
  "d807aa9812835b01243185be550c7dc372be5d7480deb1fe9bdc06a7c19bf174" ++
  "e49b69c1efbe47860fc19dc6240ca1cc2de92c6f4a7484aa5cb0a9dc76f988da" ++
  "983e5152a831c66db00327c8bf597fc7c6e00bf3d5a7914706ca635114292967" ++
  "27b70a852e1b21384d2c6dfc53380d13650a7354766a0abb81c2c92e92722c85" ++
  "a2bfe8a1a81a664bc24b8b70c76c51a3d192e819d6990624f40e3585106aa070" ++
  "19a4c1161e376c082748774c34b0bcb5391c0cb34ed8aa4a5b9cca4f682e6ff3" ++
  "748f82ee78a5636f84c878148cc7020890befffaa4506cebbef9a3f7c67178f2")).

Fixpoint extend (n : nat) (W : list Z) : list Z :=
  match n with
  | O => W
  | S n =>
      let t := length W in
      let w15 := word W (t - 15) in
      let w2 := word W (t - 2) in
      let s0 := Z.lxor (Z.lxor (ror w15 7) (ror w15 18)) (shr w15 3) in
      let s1 := Z.lxor (Z.lxor (ror w2 17) (ror w2 19)) (shr w2 10) in
      extend n (W ++ [u32 (word W (t - 16) + s0 + word W (t - 7) + s1)])
  end.

Definition round (W : list Z) (s : Z * Z * Z * Z * (Z * Z * Z * Z)) (t : nat) : Z * Z * Z * Z * (Z * Z * Z * Z) :=
  let '(A, B, C, D, (E, F, G, H)) := s in
  let s0 := Z.lxor (Z.lxor (ror A 2) (ror A 13)) (ror A 22) in
  let maj := Z.lxor (Z.lxor (Z.land A B) (Z.land A C)) (Z.land B C) in
  let t2 := u32 (s0 + maj) in
  let s1 := Z.lxor (Z.lxor (ror E 6) (ror E 11)) (ror E 25) in
  let ch := Z.lxor (Z.land E F) (Z.land (u32 (Z.lnot E)) G) in
  let t1 := u32 (H + s1 + ch + word K t + word W t) in
  (u32 (t1 + t2), A, B, C, (u32 (D + t1), E, F, G)).

Definition compress (s : list Z) (block : bytes) : list Z :=
  let W := extend 48 (be_words 16 block) in
  let '(A, B, C, D, (E, F, G, H)) :=
    foldl (round W) (word s 0, word s 1, word s 2, word s 3, (word s 4, word s 5, word s 6, word s 7)) (seq 0 64) in
  [u32 (word s 0 + A); u32 (word s 1 + B); u32 (word s 2 + C); u32 (word s 3 + D);
   u32 (word s 4 + E); u32 (word s 5 + F); u32 (word s 6 + G); u32 (word s 7 + H)].

Definition SHA256_Transform (ctx : HASH_CTX) : HASH_CTX :=
  HashCtx (count ctx) (buf ctx) (compress (state ctx) (buf ctx)).

Definition SHA256_iv : list Z :=
  [0x6a09e667; 0xbb67ae85; 0x3c6ef372; 0xa54ff53a; 0x510e527f; 0x9b05688c; 0x1f83d9ab; 0x5be0cd19].

Definition SHA256_init (ctx : HASH_CTX) : HASH_CTX := HashCtx 0 (buf ctx) SHA256_iv.
Definition SHA256_update : HASH_CTX -> bytes -> HASH_CTX := hash_update SHA256_Transform.
Definition SHA256_final : HASH_CTX -> res HASH_CTX := hash_final SHA256_Transform 8.
Definition SHA256_hash (ctx : HASH_CTX) (data digest : bytes) : res bytes :=
  let* ctx := SHA256_final (SHA256_update (SHA256_init ctx) data) in
  Ok (take SHA256_DIGEST_SIZE (buf ctx) ++ drop SHA256_DIGEST_SIZE digest).

End Sha256.

(** ** FIPS 180 *)

(** The message followed by a one bit, zeros up to eight bytes short of a block,
    and its length in bits. *)
Definition be64 (n : Z) : bytes := map (fun k => bz (n / 2 ^ (8 * Z.of_nat (7 - k)))) (seq 0 8).
Definition be32 (n : Z) : bytes := map (fun k => bz (n / 2 ^ (8 * Z.of_nat (3 - k)))) (seq 0 4).
Definition padding_zeros (len : Z) : nat := Z.to_nat ((55 - len) mod 64).
Definition padded (m : bytes) : bytes :=
  let len := Z.of_nat (length m) in
  m ++ [Byte.x80] ++ repeat Byte.x00 (padding_zeros len) ++ be64 (8 * len).

Fixpoint blocks (n : nat) (m : bytes) : list bytes :=
  match n with O => [] | S n => take 64 m :: blocks n (drop 64 m) end.

Definition fips_digest (compress : list Z -> bytes -> list Z) (iv : list Z) (m : bytes) : bytes :=
  concat (map be32 (foldl compress iv (blocks (length (padded m) / 64) (padded m)))).

Module Fips.

Definition ROTL (n x : Z) : Z := Z.lor (u32 (Z.shiftl x n)) (Z.shiftr x (32 - n)).
Definition Ch (x y z : Z) : Z := Z.lxor (Z.land x y) (Z.ldiff z x).
Definition Parity (x y z : Z) : Z := Z.lxor (Z.lxor x y) z.
Definition Maj (x y z : Z) : Z := Z.lxor (Z.lxor (Z.land x y) (Z.land x z)) (Z.land y z).

Definition f (t : nat) : Z -> Z -> Z -> Z :=
  if bool_decide (t < 20)%nat then Ch else if bool_decide (t < 40)%nat then Parity
  else if bool_decide (t < 60)%nat then Maj else Parity.

(** The constants are the first bits of roots: of 2, 3, 5 and 10 for SHA-1, of
    the first primes for SHA-256. *)
Definition K1 (t : nat) : Z := Z.sqrt (2 ^ 60 *
  (if bool_decide (t < 20)%nat then 2 else if bool_decide (t < 40)%nat then 3 else if bool_decide (t < 60)%nat then 5 else 10)).

(** [r] and the bits below [2 ^ k] that keep its cube below [n]. *)
Fixpoint cube_root (k : nat) (r n : Z) : Z :=
  match k with
  | O => r
  | S k => let r' := r + 2 ^ Z.of_nat k in cube_root k (if bool_decide (r' * r' * r' <= n) then r' else r) n
  end.
Definition is_prime (n : nat) : bool := forallb (fun d => negb (bool_decide (n mod d = 0)%nat)) (seq 2 (n - 2)).
Definition primes : list Z := map Z.of_nat (filter (fun n => is_prime n = true) (seq 2 310)).

Definition K256 : list Z := Eval vm_compute in map (fun p => cube_root 35 0 (p * 2 ^ 96) mod 2 ^ 32) (take 64 primes).
Definition IV256 : list Z := Eval vm_compute in map (fun p => Z.sqrt (p * 2 ^ 64) mod 2 ^ 32) (take 8 primes).

(** The words of a block are big-endian numbers. *)
Definition number (b : bytes) : Z := foldl (fun n x => 256 * n + ub x) 0 b.

(** The initial value of SHA-1: the hexadecimal digits up and down, little-endian. *)
Definition IV1 : list Z := Eval vm_compute in map (fun b => number (rev (map bz b)))
  [[0x01; 0x23; 0x45; 0x67]; [0x89; 0xab; 0xcd; 0xef]; [0xfe; 0xdc; 0xba; 0x98]; [0x76; 0x54; 0x32; 0x10]; [0xf0; 0xe1; 0xd2; 0xc3]].
Fixpoint block_words (n : nat) (b : bytes) : list Z :=
  match n with O => [] | S n => number (take 4 b) :: block_words n (drop 4 b) end.

(** The message schedule, the latest word first: [W_t] is made of the words 3,
    8, 14 and 16 before it. *)
Fixpoint schedule (n : nat) (recent : list Z) : list Z :=
  match n with
  | O => recent
  | S n =>
      let x := Z.lxor (Z.lxor (Z.lxor (nth 2 recent 0) (nth 7 recent 0)) (nth 13 recent 0)) (nth 15 recent 0) in
      schedule n (ROTL 1 x :: recent)
  end.

Definition step (s : Z * Z * Z * Z * Z) (tW : nat * Z) : Z * Z * Z * Z * Z :=
  let '(a, b, c, d, e) := s in
  let '(t, W) := tW in
  (u32 (ROTL 5 a + f t b c d + e + K1 t + W), a, ROTL 30 b, c, d).

Definition sha1 (h : list Z) (block : bytes) : list Z :=
  let W := rev (schedule 64 (rev (block_words 16 block))) in
  let '(a, b, c, d, e) := foldl step (nth 0 h 0, nth 1 h 0, nth 2 h 0, nth 3 h 0, nth 4 h 0) (zip (seq 0 80) W) in
  [u32 (nth 0 h 0 + a); u32 (nth 1 h 0 + b); u32 (nth 2 h 0 + c); u32 (nth 3 h 0 + d); u32 (nth 4 h 0 + e)].

Definition ROTR (n x : Z) : Z := Z.lor (Z.shiftr x n) (u32 (Z.shiftl x (32 - n))).
Definition SHR (n x : Z) : Z := Z.shiftr x n.
Definition Sigma0 x := Z.lxor (Z.lxor (ROTR 2 x) (ROTR 13 x)) (ROTR 22 x).
Definition Sigma1 x := Z.lxor (Z.lxor (ROTR 6 x) (ROTR 11 x)) (ROTR 25 x).
Definition sigma0 x := Z.lxor (Z.lxor (ROTR 7 x) (ROTR 18 x)) (SHR 3 x).
Definition sigma1 x := Z.lxor (Z.lxor (ROTR 17 x) (ROTR 19 x)) (SHR 10 x).

Fixpoint schedule256 (n : nat) (recent : list Z) : list Z :=
  match n with
  | O => recent
  | S n => schedule256 n (u32 (sigma1 (nth 1 recent 0) + nth 6 recent 0 + sigma0 (nth 14 recent 0) + nth 15 recent 0) :: recent)
  end.

Definition step256 (s : Z * Z * Z * Z * (Z * Z * Z * Z)) (tW : nat * Z) : Z * Z * Z * Z * (Z * Z * Z * Z) :=
  let '(a, b, c, d, (e, f, g, h)) := s in
  let T1 := h + Sigma1 e + Ch e f g + nth tW.1 K256 0 + tW.2 in
  let T2 := Sigma0 a + Maj a b c in
  (u32 (T1 + T2), a, b, c, (u32 (d + T1), e, f, g)).

Definition sha256 (s : list Z) (block : bytes) : list Z :=
  let W := rev (schedule256 48 (rev (block_words 16 block))) in
  let '(a, b, c, d, (e, f, g, h)) :=
    foldl step256 (nth 0 s 0, nth 1 s 0, nth 2 s 0, nth 3 s 0, (nth 4 s 0, nth 5 s 0, nth 6 s 0, nth 7 s 0))
      (zip (seq 0 64) W) in
  [u32 (nth 0 s 0 + a); u32 (nth 1 s 0 + b); u32 (nth 2 s 0 + c); u32 (nth 3 s 0 + d);
   u32 (nth 4 s 0 + e); u32 (nth 5 s 0 + f); u32 (nth 6 s 0 + g); u32 (nth 7 s 0 + h)].

(** The two hashes. *)
Definition SHA_1 : bytes -> bytes := fips_digest sha1 IV1.
Definition SHA_256 : bytes -> bytes := fips_digest sha256 IV256.

End Fips.

(** * Theorems *)

(** ** Words *)

Lemma be_word_sum b0 b1 b2 b3 :
  be_word b0 b1 b2 b3 = ub b0 * 2 ^ 24 + ub b1 * 2 ^ 16 + ub b2 * 2 ^ 8 + ub b3.
Proof.
  pose proof (ub_range b0). pose proof (ub_range b1). pose proof (ub_range b2). pose proof (ub_range b3).
  unfold be_word. rewrite <-!Z.lor_assoc, (lor_shiftl_add (ub b2) (ub b3) 8) by lia.
  rewrite (lor_shiftl_add (ub b1) _ 16) by lia. rewrite (lor_shiftl_add _ _ 24) by lia. lia.
Qed.

Lemma be_word_range b0 b1 b2 b3 : 0 <= be_word b0 b1 b2 b3 < 2 ^ 32.
Proof.
  pose proof (ub_range b0). pose proof (ub_range b1). pose proof (ub_range b2). pose proof (ub_range b3).
  rewrite be_word_sum. lia.
Qed.

Lemma be_words_numbers n p : length p = (4 * n)%nat -> be_words n p = Fips.block_words n p.
Proof.
  revert p. induction n as [|n IH]; intros p Hp; [done|].
  destruct p as [|b0 [|b1 [|b2 [|b3 p]]]]; cbn in Hp; try lia.
  cbn [be_words Fips.block_words take drop]. rewrite IH by lia. f_equal.
  rewrite be_word_sum, take_0. unfold Fips.number. cbn [foldl]. lia.
Qed.

Lemma length_be_words n p : length p = (4 * n)%nat -> length (be_words n p) = n.
Proof.
  revert p. induction n as [|n IH]; intros p Hp; [done|].
  destruct p as [|b0 [|b1 [|b2 [|b3 p]]]]; cbn in Hp; try lia. cbn. by rewrite IH by lia.
Qed.

(** [W[t-k]] is the word [k] back. *)
Lemma word_back W k : (k < length W)%nat -> word W (length W - S k) = nth k (rev W) 0.
Proof. intros H. unfold word. by rewrite rev_nth. Qed.

Lemma foldl_pointwise {A B} (f g : A -> B -> A) l s : (forall s x, f s x = g s x) -> foldl f s l = foldl g s l.
Proof. intros H. revert s. induction l as [|x l IH]; intros s; cbn; [done|]. by rewrite H, IH. Qed.

(** Folding with the index, and with the words themselves. *)
Lemma foldl_words {A} (g : A -> nat -> Z -> A) W s :
  foldl (fun s t => g s t (word W t)) s (seq 0 (length W)) = foldl (fun s tW => g s tW.1 tW.2) s (zip (seq 0 (length W)) W).
Proof.
  assert (forall l k s, (forall i, word W (k + i) = nth i l 0) ->
    foldl (fun s t => g s t (word W t)) s (seq k (length l)) = foldl (fun s tW => g s tW.1 tW.2) s (zip (seq k (length l)) l)) as H.
  { induction l as [|x l IH]; intros k s0 Hk; [done|]. cbn [length seq zip zip_with foldl fst snd].
    rewrite <-(Nat.add_0_r k) at 2. rewrite Hk. apply IH. intros i.
    specialize (Hk (S i)). cbn [nth] in Hk. rewrite <-Hk. f_equal. lia. }
  by apply H.
Qed.

(** ** The compression functions *)

(** The tables of the code are the roots. *)
Lemma constants : Sha256.K = Fips.K256 /\ Sha256.SHA256_iv = Fips.IV256 /\ Sha1.SHA_iv = Fips.IV1.
Proof. by vm_compute. Qed.

Lemma K1_values t : Fips.K1 t = if bool_decide (t < 20)%nat then 0x5A827999 else if bool_decide (t < 40)%nat then 0x6ED9EBA1
  else if bool_decide (t < 60)%nat then 0x8F1BBCDC else 0xCA62C1D6.
Proof. unfold Fips.K1. by repeat case_bool_decide. Qed.

Lemma be_bytes_be32 w : be_bytes w = be32 w.
Proof.
  unfold be_bytes, be32. rewrite !Z.shiftr_div_pow2 by lia.
  rewrite <-(Z.div_1_r w) at 4. reflexivity.
Qed.
Lemma digest_bytes l : concat (map be_bytes l) = concat (map be32 l).
Proof. f_equal. apply map_ext. apply be_bytes_be32. Qed.

Ltac bitwise :=
  let i := fresh "i" in let Hi := fresh "Hi" in
  apply Z.bits_inj'; intros i Hi;
  rewrite ?Z.lxor_spec, ?Z.land_spec, ?Z.lor_spec, ?Z.lxor_spec, ?Z.land_spec, ?Z.lor_spec, ?Z.ldiff_spec, ?Z.lxor_spec;
  repeat match goal with |- context [Z.testbit ?x i] => destruct (Z.testbit x i) end; reflexivity.

Lemma choose_Ch b c d : Z.lxor d (Z.land b (Z.lxor c d)) = Fips.Ch b c d.
Proof. unfold Fips.Ch. bitwise. Qed.

Lemma majority_Maj b c d : Z.lor (Z.land b c) (Z.land d (Z.lor b c)) = Fips.Maj b c d.
Proof. unfold Fips.Maj. bitwise. Qed.

Lemma ldiff_complement x y : 0 <= y < 2 ^ 32 -> Z.land (u32 (Z.lnot x)) y = Z.ldiff y x.
Proof.
  intros Hy. unfold u32. rewrite <-Z.land_ones by lia.
  assert (Z.land y (Z.ones 32) = y) as Hm by (rewrite Z.land_ones by lia; by apply Z.mod_small).
  rewrite <-Hm at 2. apply Z.bits_inj'. intros i Hi.
  rewrite Z.ldiff_spec, !Z.land_spec, Z.lnot_spec by done.
  destruct (Z.testbit x i), (Z.testbit y i), (Z.testbit (Z.ones 32) i); reflexivity.
Qed.

Lemma u32_plus a b : u32 (u32 a + u32 b) = u32 (a + b).
Proof. symmetry. apply Zplus_mod. Qed.
Lemma u32_add_r a b : u32 (a + u32 b) = u32 (a + b).
Proof. apply Zplus_mod_idemp_r. Qed.
Lemma u32_idem a : u32 (u32 a) = u32 a.
Proof. apply Zmod_mod. Qed.
Lemma be_word_u32 b0 b1 b2 b3 : u32 (be_word b0 b1 b2 b3) = be_word b0 b1 b2 b3.
Proof. apply u32_small, be_word_range. Qed.

Lemma extend_schedule n W : (16 <= length W)%nat -> Sha1.extend n W = rev (Fips.schedule n (rev W)).
Proof.
  revert W. induction n as [|n IH]; intros W Hl; cbn [Sha1.extend Fips.schedule]; [by rewrite rev_involutive|].
  rewrite IH by (rewrite length_app; cbn; lia). rewrite rev_app_distr. cbn [rev app].
  by rewrite !word_back by lia.
Qed.

Lemma extend_schedule256 n W : (16 <= length W)%nat -> Sha256.extend n W = rev (Fips.schedule256 n (rev W)).
Proof.
  revert W. induction n as [|n IH]; intros W Hl; cbn [Sha256.extend Fips.schedule256]; [by rewrite rev_involutive|].
  rewrite IH by (rewrite length_app; cbn; lia). rewrite rev_app_distr. cbn [rev app].
  rewrite !word_back by lia. do 3 f_equal. unfold u32. f_equal.
  unfold Fips.sigma1, Fips.sigma0, Fips.ROTR, Fips.SHR, Sha256.ror, Sha256.shr. lia.
Qed.

Lemma length_extend n W : length (Sha1.extend n W) = (n + length W)%nat.
Proof. revert W. induction n as [|n IH]; intros W; cbn; [done|]. rewrite IH, length_app. cbn. lia. Qed.
Lemma length_extend256 n W : length (Sha256.extend n W) = (n + length W)%nat.
Proof. revert W. induction n as [|n IH]; intros W; cbn; [done|]. rewrite IH, length_app. cbn. lia. Qed.

Lemma round_step W s t : Sha1.round W s t = Fips.step s (t, word W t).
Proof.
  destruct s as [[[[a b] c] d] e]. unfold Sha1.round, Fips.step, Fips.f. rewrite K1_values.
  rewrite choose_Ch, majority_Maj. repeat case_bool_decide; rewrite u32_add; do 4 f_equal; unfold Sha1.rol, Fips.ROTL, Fips.Parity; f_equal; lia.
Qed.

Lemma compress_fips s b : length b = 64%nat -> Sha1.compress s b = Fips.sha1 s b.
Proof.
  intros Hb. unfold Sha1.compress, Fips.sha1. pose proof (length_be_words 16 b Hb) as Hl.
  rewrite (be_words_numbers 16 b Hb) in *. rewrite extend_schedule by lia.
  set (W := rev (Fips.schedule 64 _)). assert (length W = 80%nat) as HW.
  { unfold W. rewrite <-extend_schedule, length_extend by lia. lia. }
  assert (forall s0, foldl (Sha1.round W) s0 (seq 0 80) = foldl Fips.step s0 (zip (seq 0 80) W)) as ->; [|done].
  intros s0. pose proof (foldl_words (fun s t x => Fips.step s (t, x)) W s0) as H. rewrite HW in H.
  transitivity (foldl (fun s t => Fips.step s (t, word W t)) s0 (seq 0 80)).
  - apply foldl_pointwise. intros. apply round_step.
  - rewrite H. apply foldl_pointwise. by intros ? [t x].
Qed.

(** The words of SHA-256 that are complemented stay below [2 ^ 32]. *)
Definition masked (s : Z * Z * Z * Z * (Z * Z * Z * Z)) : Prop :=
  let '(_, _, _, _, (e, f, g, _)) := s in words_in [e; f; g].

Lemma round_step256 W s t : masked s -> Sha256.round W s t = Fips.step256 s (t, word W t) /\ masked (Sha256.round W s t).
Proof.
  destruct s as [[[[a b] c] d] [[[e f] g] h]]. unfold masked, words_in. rewrite !Forall_cons. intros (He & Hf & Hg & _). split.
  - unfold Sha256.round, Fips.step256. cbn [fst snd]. rewrite (ldiff_complement e g Hg).
    rewrite u32_plus, u32_add_r. reflexivity.
  - cbn. rewrite !Forall_cons. split; [apply u32_range|]. auto.
Qed.

Lemma foldl_round256 W l s : masked s ->
  foldl (Sha256.round W) s l = foldl (fun s t => Fips.step256 s (t, word W t)) s l.
Proof.
  revert s. induction l as [|t l IH]; intros s Hs; [done|]. cbn [foldl].
  destruct (round_step256 W s t Hs) as [<- Hm]. by apply IH.
Qed.

Lemma word_in s i : words_in s -> 0 <= word s i < 2 ^ 32.
Proof.
  intros H. unfold word. destruct (decide (i < length s)%nat) as [Hi|Hi]; [|rewrite nth_overflow; lia].
  apply (nth_In s 0), list_elem_of_In in Hi. by apply (proj1 (Forall_forall _ _) H).
Qed.

Lemma compress_fips256 s b : words_in s -> length b = 64%nat -> Sha256.compress s b = Fips.sha256 s b.
Proof.
  intros Hs Hb. unfold Sha256.compress, Fips.sha256. pose proof (length_be_words 16 b Hb) as Hl.
  rewrite (be_words_numbers 16 b Hb) in *. rewrite extend_schedule256 by lia.
  set (W := rev (Fips.schedule256 48 _)). assert (length W = 64%nat) as HW.
  { unfold W. rewrite <-extend_schedule256, length_extend256 by lia. lia. }
  rewrite foldl_round256 by (unfold masked, words_in; rewrite !Forall_cons; auto using word_in).
  pose proof (foldl_words (fun s t x => Fips.step256 s (t, x)) W) as H. rewrite HW in H. rewrite H.
  assert (forall s0 l, foldl (fun s tW => Fips.step256 s (tW.1, tW.2)) s0 l = foldl Fips.step256 s0 l) as ->; [|done].
  intros s0 l. apply foldl_pointwise. by intros ? [t x].
Qed.

(** ** Taking a message in pieces *)

Section Incremental.
Context (Transform : HASH_CTX -> HASH_CTX) (words : nat) (compress : list Z -> bytes -> list Z) (iv : list Z).
Context (ok : list Z -> Prop).
Hypothesis transform_ok : forall ctx, ok (take words (state ctx)) -> length (buf ctx) = 64%nat ->
  count (Transform ctx) = count ctx /\ buf (Transform ctx) = buf ctx
  /\ take words (state (Transform ctx)) = compress (take words (state ctx)) (buf ctx)
  /\ ok (compress (take words (state ctx)) (buf ctx)).

(** The context holds the blocks [bs] in its state and [tail] in its buffer. *)
Definition holds (bs : list bytes) (tail : bytes) (ctx : HASH_CTX) : Prop :=
  Forall (fun b => length b = 64%nat) bs /\ (length tail < 64)%nat /\ take (length tail) (buf ctx) = tail
  /\ length (buf ctx) = 64%nat /\ take words (state ctx) = foldl compress iv bs /\ ok (take words (state ctx)).

(** It has taken the message [m]. *)
Definition absorbed (m : bytes) (ctx : HASH_CTX) : Prop :=
  count ctx = Z.of_nat (length m) mod 2 ^ 64 /\ exists bs tail, m = concat bs ++ tail /\ holds bs tail ctx.

Lemma take_insert_snoc (l : bytes) i b : (i < length l)%nat -> take (S i) (<[i := b]> l) = take i l ++ [b].
Proof.
  intros H. assert ((<[i := b]> l) !! i = Some b) as Hi by (by apply list_lookup_insert_eq).
  rewrite (take_S_r _ _ b Hi). f_equal. by rewrite take_insert_ge by lia.
Qed.

Lemma update_loop_holds p : forall bs tail ctx, holds bs tail ctx ->
  count (update_loop Transform ctx (length tail) p) = count ctx /\
  exists bs' tail', concat bs ++ tail ++ p = concat bs' ++ tail' /\ holds bs' tail' (update_loop Transform ctx (length tail) p).
Proof.
  induction p as [|b p IH]; intros bs tail ctx H.
  { cbn. split; [done|]. exists bs, tail. by rewrite app_nil_r. }
  destruct H as (Hbs & Hl & Ht & Hb & Hs & Hok). cbn [update_loop].
  set (c := HashCtx (count ctx) (<[length tail := b]> (buf ctx)) (state ctx)).
  assert (take (S (length tail)) (buf c) = tail ++ [b]) as Htake
    by (unfold c; cbn [buf]; rewrite take_insert_snoc by lia; by rewrite Ht).
  assert (length (buf c) = 64%nat) as Hbuf by (unfold c; cbn [buf]; by rewrite length_insert).
  case_bool_decide as Hfull.
  - destruct (transform_ok c Hok Hbuf) as (T1 & T2 & T3 & T4).
    assert (buf c = tail ++ [b]) as Hwhole by (rewrite <-Htake, Hfull, <-Hbuf; by rewrite firstn_all).
    destruct (IH (bs ++ [tail ++ [b]]) [] (Transform c)) as (Hc & bs' & tail' & He & Hh).
    { split_and!.
      - apply Forall_app. split; [done|]. constructor; [|constructor]. by rewrite <-Hwhole.
      - cbn. lia.
      - done.
      - by rewrite T2.
      - rewrite T3, foldl_app, <-Hs. cbn [foldl]. by rewrite Hwhole.
      - by rewrite T3. }
    cbn [length] in *. split; [by rewrite Hc, T1|]. exists bs', tail'. split; [|done].
    rewrite <-He, concat_app. cbn [concat]. by rewrite app_nil_r, <-!app_assoc.
  - replace (S (length tail)) with (length (tail ++ [b])) by (rewrite length_app; cbn; lia).
    destruct (IH bs (tail ++ [b]) c) as (Hc & bs' & tail' & He & Hh).
    { split_and!; try done; rewrite length_app; cbn [length]; [lia|]. by rewrite Nat.add_1_r. }
    split; [done|]. exists bs', tail'. split; [|done]. by rewrite <-He, <-app_assoc.
Qed.

Lemma land63 n : Z.land n 63 = n mod 64.
Proof. change 63 with (Z.ones 6). by rewrite Z.land_ones by lia. Qed.

Lemma length_concat_blocks bs : Forall (fun b : bytes => length b = 64%nat) bs -> length (concat bs) = (64 * length bs)%nat.
Proof. induction 1 as [|b bs Hb _ IH]; cbn; [done|]. rewrite length_app, Hb, IH. lia. Qed.

(** The place in the buffer, from the count. *)
Lemma absorbed_place m ctx : absorbed m ctx -> Z.land (count ctx) 63 = Z.of_nat (length m) mod 64.
Proof.
  intros (Hc & _). rewrite land63, Hc. change (2 ^ 64) with (64 * 2 ^ 58).
  rewrite Z.rem_mul_r by lia. rewrite (Z.mul_comm 64 (_ mod _)), Z.mod_add by lia. by apply Z.mod_mod.
Qed.

Lemma update_absorbs m p ctx : absorbed m ctx -> absorbed (m ++ p) (hash_update Transform ctx p).
Proof.
  intros A. pose proof (absorbed_place m ctx A) as Hp. destruct A as (Hc & bs & tail & -> & H).
  unfold hash_update. assert (Z.to_nat (Z.land (count ctx) 63) = length tail) as ->.
  { rewrite Hp. destruct H as (Hbs & Hl & _). rewrite length_app, (length_concat_blocks bs Hbs).
    replace (Z.of_nat (64 * length bs + length tail)) with (Z.of_nat (length tail) + Z.of_nat (length bs) * 64) by lia.
    rewrite Z.mod_add by lia. rewrite Z.mod_small by lia. lia. }
  set (c := HashCtx _ _ _). destruct (update_loop_holds p bs tail c H) as (Hc' & bs' & tail' & He & Hh).
  split.
  - rewrite Hc'. cbn [c count]. rewrite Hc, Zplus_mod_idemp_l, !length_app. f_equal. lia.
  - exists bs', tail'. by rewrite <-He, <-app_assoc.
Qed.

Lemma pad_zeros_absorbs fuel : forall m ctx, absorbed m ctx -> (padding_zeros (Z.of_nat (length m) - 1) <= fuel)%nat ->
  exists ctx', pad_zeros Transform fuel ctx = Ok ctx'
    /\ absorbed (m ++ repeat Byte.x00 (padding_zeros (Z.of_nat (length m) - 1))) ctx'.
Proof.
  unfold padding_zeros. induction fuel as [|fuel IH]; intros m ctx A Hf; cbn [pad_zeros]; rewrite (absorbed_place m ctx A).
  - rewrite bool_decide_true by (Z.to_euclidean_division_equations; lia). exists ctx. split; [done|].
    replace (Z.to_nat _) with 0%nat by lia. by rewrite app_nil_r.
  - case_bool_decide as H56.
    + exists ctx. split; [done|]. replace (Z.to_nat _) with 0%nat by (Z.to_euclidean_division_equations; lia). by rewrite app_nil_r.
    + pose proof (update_absorbs m [Byte.x00] ctx A) as A'.
      assert (Z.to_nat ((55 - (Z.of_nat (length m) - 1)) mod 64)
        = S (Z.to_nat ((55 - (Z.of_nat (length (m ++ [Byte.x00])) - 1)) mod 64))) as Hn.
      { rewrite length_app. cbn [length]. Z.to_euclidean_division_equations; lia. }
      destruct (IH _ _ A') as (ctx' & He & Ha); [lia|]. exists ctx'. split; [done|].
      rewrite Hn. cbn [repeat]. by rewrite <-app_assoc in Ha.
Qed.

(** The eight stores write the length from its highest byte on. *)
Lemma put_length_absorbs n cnt : forall m ctx, absorbed m ctx ->
  absorbed (m ++ map (fun k => bz (Z.shiftr cnt (8 * Z.of_nat k))) (rev (seq 0 n))) (put_length Transform n cnt ctx).
Proof.
  induction n as [|n IH]; intros m ctx A; cbn [put_length]; [by rewrite app_nil_r|].
  rewrite seq_S, rev_app_distr. cbn [rev app map].
  pose proof (IH _ _ (update_absorbs m [bz (Z.shiftr cnt (8 * Z.of_nat n))] ctx A)) as H. by rewrite <-app_assoc in H.
Qed.

Lemma blocks_concat bs : Forall (fun b : bytes => length b = 64%nat) bs -> blocks (length bs) (concat bs) = bs.
Proof.
  induction 1 as [|b bs Hb _ IH]; [done|]. cbn [length blocks concat].
  by rewrite take_app_length', drop_app_length', IH by done.
Qed.

Lemma mod8 n k : 0 <= k < 8 -> bz (Z.shiftr (n mod 2 ^ 64) (8 * k)) = bz (n / 2 ^ (8 * k)).
Proof.
  intros Hk. apply ub_inj. rewrite !ub_bz, Z.shiftr_div_pow2 by lia.
  change 256 with (2 ^ 8). apply Z.bits_inj'. intros i Hi.
  destruct (decide (i < 8)).
  - rewrite !Z.mod_pow2_bits_low, <-!Z.shiftr_div_pow2, !Z.shiftr_spec by lia. rewrite Z.mod_pow2_bits_low by lia. done.
  - by rewrite !Z.mod_pow2_bits_high by lia.
Qed.

Lemma be64_shifts n : map (fun k => bz (Z.shiftr (n mod 2 ^ 64) (8 * Z.of_nat k))) (rev (seq 0 8)) = be64 n.
Proof. unfold be64. cbn [seq rev app map]. by repeat (rewrite mod8 by lia). Qed.

Hypothesis ok_length : forall s, ok s -> length s = words.
Hypothesis words_small : (4 * words <= 64)%nat.

(** Whatever pieces the message came in, the digest is that of FIPS 180. *)
Lemma final_digest m ctx : absorbed m ctx -> exists ctx', hash_final Transform words ctx = Ok ctx'
  /\ take (4 * words) (buf ctx') = fips_digest compress iv m /\ length (buf ctx') = 64%nat.
Proof.
  intros A. unfold hash_final. pose proof (update_absorbs m [Byte.x80] ctx A) as A1.
  destruct (pad_zeros_absorbs 64 _ _ A1) as (ctx2 & -> & A2).
  { unfold padding_zeros. Z.to_euclidean_division_equations; lia. }
  cbn [res_bind]. pose proof (put_length_absorbs 8 ((count ctx * 8) mod 2 ^ 64) _ _ A2) as A3.
  set (ctx3 := put_length _ _ _ _) in *. eexists. split; [done|]. cbn [buf].
  assert ((m ++ [Byte.x80]) ++ repeat Byte.x00 (padding_zeros (Z.of_nat (length (m ++ [Byte.x80])) - 1))
    ++ map (fun k => bz (Z.shiftr ((count ctx * 8) mod 2 ^ 64) (8 * Z.of_nat k))) (rev (seq 0 8)) = padded m) as Hpad.
  { destruct A as (Hc & _). rewrite Hc, Zmult_mod_idemp_l, be64_shifts. unfold padded.
    rewrite <-app_assoc, length_app. cbn [length]. do 3 f_equal; [do 2 f_equal; lia|f_equal; lia]. }
  rewrite <-app_assoc in A3. rewrite Hpad in A3. destruct A3 as (_ & bs & tail & Hm & Hbs & Hl & _ & Hb & Hs & Hok).
  assert (length (padded m) mod 64 = 0)%nat as Hmod.
  { unfold padded, padding_zeros, be64. rewrite !length_app, repeat_length, length_map, length_seq. cbn [length].
    apply Nat2Z.inj. rewrite Nat2Z.inj_mod. Z.to_euclidean_division_equations; lia. }
  assert (tail = []) as ->.
  { apply length_zero_iff_nil. rewrite Hm, length_app, (length_concat_blocks bs Hbs) in Hmod.
    rewrite Nat.add_comm, Nat.mul_comm, Nat.Div0.mod_add, Nat.mod_small in Hmod by lia. done. }
  rewrite app_nil_r in Hm. unfold fips_digest. rewrite <-digest_bytes, Hm, (length_concat_blocks bs Hbs).
  rewrite (Nat.mul_comm 64), Nat.div_mul by lia. rewrite (blocks_concat bs Hbs).
  assert (length (concat (map be_bytes (take words (state ctx3)))) = 4 * words)%nat as Hlen.
  { rewrite <-(ok_length _ Hok) at 2. generalize (take words (state ctx3)). intros l. induction l as [|x l IH]; [done|].
    cbn [map concat]. rewrite length_app, IH. cbn. lia. }
  split; [by rewrite Hs in *; rewrite take_app_length'|].
  rewrite length_app, length_drop, Hlen, Hb. lia.
Qed.

End Incremental.

(** ** The two hashes *)

Definition context (ctx : HASH_CTX) : Prop := length (buf ctx) = 64%nat /\ length (state ctx) = 8%nat.

Lemma take_word (s : list Z) n i : (i < n)%nat -> word (take n s) i = word s i.
Proof. intros Hi. unfold word. rewrite !nth_lookup. by rewrite lookup_take_lt. Qed.

Lemma compress_take5 s b : Sha1.compress (take 5 s) b = Sha1.compress s b.
Proof. unfold Sha1.compress. by rewrite !take_word by lia. Qed.

Lemma length_compress s b : length (Sha1.compress s b) = 5%nat.
Proof. unfold Sha1.compress. by destruct (foldl _ _ _) as [[[[? ?] ?] ?] ?]. Qed.

Lemma compress256_take8 s b : Sha256.compress (take 8 s) b = Sha256.compress s b.
Proof. unfold Sha256.compress. by rewrite !take_word by lia. Qed.

Lemma compress256_in s b : words_in (Sha256.compress s b) /\ length (Sha256.compress s b) = 8%nat.
Proof.
  unfold Sha256.compress. destruct (foldl _ _ _) as [[[[? ?] ?] ?] [[[? ?] ?] ?]].
  split; [|done]. repeat (constructor; [apply u32_range|]). constructor.
Qed.

#[local] Opaque Sha1.compress Sha256.compress Fips.sha1 Fips.sha256.

Lemma sha1_transform_ok ctx : length (take 5 (state ctx)) = 5%nat -> length (buf ctx) = 64%nat ->
  count (Sha1.SHA1_Transform ctx) = count ctx /\ buf (Sha1.SHA1_Transform ctx) = buf ctx
  /\ take 5 (state (Sha1.SHA1_Transform ctx)) = Fips.sha1 (take 5 (state ctx)) (buf ctx)
  /\ length (Fips.sha1 (take 5 (state ctx)) (buf ctx)) = 5%nat.
Proof.
  intros _ Hb. cbn [Sha1.SHA1_Transform count buf state].
  rewrite <-(compress_fips (take 5 (state ctx)) (buf ctx) Hb), compress_take5.
  do 2 (split; [reflexivity|]). split; [|apply length_compress].
  apply take_app_length'. symmetry. apply length_compress.
Qed.

Lemma sha256_transform_ok ctx :
  words_in (take 8 (state ctx)) /\ length (take 8 (state ctx)) = 8%nat -> length (buf ctx) = 64%nat ->
  count (Sha256.SHA256_Transform ctx) = count ctx /\ buf (Sha256.SHA256_Transform ctx) = buf ctx
  /\ take 8 (state (Sha256.SHA256_Transform ctx)) = Fips.sha256 (take 8 (state ctx)) (buf ctx)
  /\ words_in (Fips.sha256 (take 8 (state ctx)) (buf ctx)) /\ length (Fips.sha256 (take 8 (state ctx)) (buf ctx)) = 8%nat.
Proof.
  intros [Hw Hl] Hb. cbn [Sha256.SHA256_Transform count buf state].
  rewrite <-(compress_fips256 (take 8 (state ctx)) (buf ctx) Hw Hb).
  assert (Sha256.compress (take 8 (state ctx)) (buf ctx) = Sha256.compress (state ctx) (buf ctx)) as ->.
  { apply compress256_take8. }
  do 2 (split; [reflexivity|]). split; [|apply compress256_in].
  apply take_ge. rewrite (proj2 (compress256_in _ _)). lia.
Qed.

Lemma iv256_in : words_in Sha256.SHA256_iv.
Proof. repeat (constructor; [lia|]). constructor. Qed.

Lemma foldl_absorbs Transform words compress iv ok ps :
  (forall ctx, ok (take words (state ctx)) -> length (buf ctx) = 64%nat ->
    count (Transform ctx) = count ctx /\ buf (Transform ctx) = buf ctx
    /\ take words (state (Transform ctx)) = compress (take words (state ctx)) (buf ctx)
    /\ ok (compress (take words (state ctx)) (buf ctx))) ->
  forall m ctx, absorbed words compress iv ok m ctx ->
  absorbed words compress iv ok (m ++ concat ps) (foldl (hash_update Transform) ctx ps).
Proof.
  intros HT. induction ps as [|p ps IH]; intros m ctx A; cbn [concat foldl]; [by rewrite app_nil_r|].
  rewrite app_assoc. apply IH. by apply update_absorbs.
Qed.

Lemma sha1_pieces ps ctx : context ctx -> exists c,
  Sha1.SHA_final (foldl Sha1.SHA_update (Sha1.SHA_init ctx) ps) = Ok c
  /\ take 20 (buf c) = Fips.SHA_1 (concat ps) /\ length (buf c) = 64%nat.
Proof.
  intros [Hb Hs]. eapply (final_digest Sha1.SHA1_Transform 5 Fips.sha1 Sha1.SHA_iv (fun s => length s = 5%nat));
    [apply sha1_transform_ok|done|lia|].
  apply (foldl_absorbs _ _ _ _ _ ps sha1_transform_ok []). split; [done|]. exists [], [].
  split; [done|]. by split_and!; [constructor|cbn; lia|..].
Qed.

Lemma sha256_pieces ps ctx : context ctx -> exists c,
  Sha256.SHA256_final (foldl Sha256.SHA256_update (Sha256.SHA256_init ctx) ps) = Ok c
  /\ take 32 (buf c) = Fips.SHA_256 (concat ps) /\ length (buf c) = 64%nat.
Proof.
  intros [Hb Hs]. eapply (final_digest Sha256.SHA256_Transform 8 Fips.sha256 Sha256.SHA256_iv
    (fun s => words_in s /\ length s = 8%nat)); [apply sha256_transform_ok|by intros s [_ ?]|lia|].
  apply (foldl_absorbs _ _ _ _ _ ps sha256_transform_ok []). split; [done|]. exists [], [].
  split; [done|]. split_and!; [constructor|cbn; lia|done..|apply iv256_in|done].
Qed.

(** [SHA_hash] of a message, into the first bytes of its output. *)
Lemma sha1_hash ctx m out : context ctx ->
  Sha1.SHA_hash ctx m out = Ok (Fips.SHA_1 m ++ drop 20 out).
Proof.
  intros Hc. destruct (sha1_pieces [m] ctx Hc) as (c & Hf & Hd & _). unfold Sha1.SHA_hash. cbn [foldl] in Hf.
  rewrite Hf. cbn [res_bind]. unfold Sha1.SHA_DIGEST_SIZE. rewrite Hd. cbn [concat]. by rewrite app_nil_r.
Qed.

Lemma sha256_hash ctx m out : context ctx ->
  Sha256.SHA256_hash ctx m out = Ok (Fips.SHA_256 m ++ drop 32 out).
Proof.
  intros Hc. destruct (sha256_pieces [m] ctx Hc) as (c & Hf & Hd & _). unfold Sha256.SHA256_hash. cbn [foldl] in Hf.
  rewrite Hf. cbn [res_bind]. unfold Sha256.SHA256_DIGEST_SIZE. rewrite Hd. cbn [concat]. by rewrite app_nil_r.
Qed.

(** C5: The two hashes are those of FIPS 180: whatever was in the context before
    its initialisation and in whatever pieces the message is given, the digest
    is that of the padded message, the loop that pads always ends, and
    [SHA_hash] and [SHA256_hash] write it over the first bytes of their output. *)
Theorem hashes_fips ps ctx : context ctx ->
  (exists c, Sha1.SHA_final (foldl Sha1.SHA_update (Sha1.SHA_init ctx) ps) = Ok c
     /\ take Sha1.SHA_DIGEST_SIZE (buf c) = Fips.SHA_1 (concat ps)) /\
  (exists c, Sha256.SHA256_final (foldl Sha256.SHA256_update (Sha256.SHA256_init ctx) ps) = Ok c
     /\ take Sha256.SHA256_DIGEST_SIZE (buf c) = Fips.SHA_256 (concat ps)) /\
  (forall m out, Sha1.SHA_hash ctx m out = Ok (Fips.SHA_1 m ++ drop 20 out)) /\
  (forall m out, Sha256.SHA256_hash ctx m out = Ok (Fips.SHA_256 m ++ drop 32 out)).
Proof.
  intros Hc. split; [|split; [|split]].
  - destruct (sha1_pieces ps ctx Hc) as (c & H1 & H2 & _). by exists c.
  - destruct (sha256_pieces ps ctx Hc) as (c & H1 & H2 & _). by exists c.
  - intros. by apply sha1_hash.
  - intros. by apply sha256_hash.
Qed.

#[local] Transparent Sha1.compress Sha256.compress Fips.sha1 Fips.sha256.

(** The digests of FIPS 180 for [abc], given in two pieces. *)
Definition stale_ctx : HASH_CTX := HashCtx 7 (repeat Byte.x07 64) (repeat 9 8).

Lemma hashes_fips_witness : Fips.number (Fips.SHA_1 (lit "abc")) = 0xa9993e364706816aba3e25717850c26c9cd0d89d
  /\ exists c, Sha1.SHA_final (foldl Sha1.SHA_update (Sha1.SHA_init stale_ctx) [lit "a"; lit "bc"]) = Ok c
     /\ take Sha1.SHA_DIGEST_SIZE (buf c) = Fips.SHA_1 (concat [lit "a"; lit "bc"]).
Proof.
  split; [vm_compute; reflexivity|].
  exact (proj1 (hashes_fips [lit "a"; lit "bc"] stale_ctx (conj eq_refl eq_refl))).
Defined.
