(* ===== verification/Rsa.v ===== *)
(** * Verifying RSA signatures (libmincrypt/rsa.c)

    Montgomery arithmetic on little-endian arrays of 32-bit words, the
    exponentiation with the two public exponents, and the comparison with the
    PKCS #1 padding through a hash.  The reference computes with numbers. *)

From S2P Require Import Prelude Sha.

Definition RSANUMBYTES : nat := 256.
Definition RSANUMWORDS : nat := 64.

(** rsa.h; [len] is the number of words of the arrays that are used. *)
Record RSAPublicKey := MkKey { len : Z; n0inv : Z; n : list Z; rr : list Z; exponent : Z }.

Definition u64 (z : Z) : Z := z mod 2 ^ 64.

(** ** Montgomery arithmetic *)

(** The arrays of [key->len] words are lists of this length; [A] is signed, its
    shift arithmetic. *)
Fixpoint subM_loop (A : Z) (a n : list Z) : list Z :=
  match a, n with
  | x :: a, y :: n => let A := A + (x - y) in u32 A :: subM_loop (Z.shiftr A 32) a n
  | _, _ => []
  end.
Definition subM (key : RSAPublicKey) (a : list Z) : list Z := subM_loop 0 a (n key).

(** From the highest word down. *)
Fixpoint geM_loop (a n : list Z) : bool :=
  match a, n with
  | x :: a, y :: n => if bool_decide (x < y) then false else if bool_decide (x > y) then true else geM_loop a n
  | _, _ => true
  end.
Definition geM (key : RSAPublicKey) (a : list Z) : bool := geM_loop (rev a) (rev (n key)).

(** The loop from the second word on and the assignment after it: the words
    of [c], and the last [A]. *)
Fixpoint montMulAdd_loop (a d0 A B : Z) (b c n : list Z) : list Z * Z :=
  match b, c, n with
  | bi :: b, ci :: c, ni :: n =>
      let A := u64 (Z.shiftr A 32 + a * bi + ci) in
      let B := u64 (Z.shiftr B 32 + d0 * ni + u32 A) in
      let '(r, A') := montMulAdd_loop a d0 A B b c n in
      (u32 B :: r, A')
  | _, _, _ => let A := u64 (Z.shiftr A 32 + Z.shiftr B 32) in ([u32 A], A)
  end.

Definition montMulAdd (key : RSAPublicKey) (c : list Z) (a : Z) (b : list Z) : list Z :=
  match b, c, n key with
  | b0 :: b, c0 :: c, m0 :: m =>
      let A := u64 (a * b0 + c0) in
      let d0 := u32 (u32 A * n0inv key) in
      let B := u64 (d0 * m0 + u32 A) in
      let '(c, A) := montMulAdd_loop a d0 A B b c m in
      if bool_decide (Z.shiftr A 32 <> 0) then subM key c else c
  | _, _, _ => c
  end.

Definition montMul (key : RSAPublicKey) (a b : list Z) : list Z :=
  foldl (fun c x => montMulAdd key c x b) (map (fun _ => 0) (n key)) a.

(** One turn of the loop of squarings. *)
Definition square_twice (key : RSAPublicKey) (aR : list Z) : list Z :=
  let aaR := montMul key aR aR in montMul key aaR aaR.

(** The null pointer [aaa] is read when the exponent is neither. *)
Definition modpow (key : RSAPublicKey) (inout : bytes) : res bytes :=
  let a := rev (be_words (Z.to_nat (len key)) inout) in
  let* aaa :=
    if bool_decide (exponent key = 65537) then
      let aR := montMul key a (rr key) in
      let aR := Nat.iter 8 (square_twice key) aR in
      Ok (montMul key aR a)
    else if bool_decide (exponent key = 3) then
      let aR := montMul key a (rr key) in
      let aaR := montMul key aR aR in
      Ok (montMul key aaR a)
    else Ub in
  let aaa := if geM key aaa then subM key aaa else aaa in
  Ok (concat (map be_bytes (rev aaa))).

(** ** Signatures *)

Definition hex_bytes (l : list Z) : bytes := map bz l.

Definition kExpectedPadShaRsa2048 : bytes := hex_bytes
  [0xdc; 0xbd; 0xbe; 0x42; 0xd5; 0xf5; 0xa7; 0x2e;
   0x6e; 0xfc; 0xf5; 0x5d; 0xaf; 0x9d; 0xea; 0x68;
   0x7c; 0xfb; 0xf1; 0x67].
Definition kExpectedPadSha256Rsa2048 : bytes := hex_bytes
  [0xab; 0x28; 0x8d; 0x8a; 0xd7; 0xd9; 0x59; 0x92;
   0xba; 0xcc; 0xf8; 0x67; 0x20; 0xe1; 0x15; 0x2e;
   0x39; 0x8d; 0x80; 0x36; 0xd6; 0x6f; 0xf0; 0xfd;
   0x90; 0xe8; 0x7d; 0x8b; 0xe1; 0x7c; 0x87; 0x59].

(** [buf[i] ^= *hash++] on the last bytes. *)
Definition xor_hash (buf hash : bytes) : bytes :=
  let k := (length buf - length hash)%nat in
  take k buf ++ zip_with (fun x h => bz (Z.lxor (ub x) (ub h))) (drop k buf) hash.

(** [ctx] is the uninitialised context of the hash; the lengths that the code
    is given are those of the arrays. *)
Definition RSA_verify (ctx : HASH_CTX) (key : RSAPublicKey) (signature hash : bytes) : res bool :=
  let hash_len := length hash in
  if bool_decide (len key <> Z.of_nat RSANUMWORDS) then Ok false
  else if bool_decide (length signature <> RSANUMBYTES) then Ok false
  else if bool_decide (hash_len <> Sha1.SHA_DIGEST_SIZE /\ hash_len <> Sha256.SHA256_DIGEST_SIZE) then Ok false
  else if bool_decide (exponent key <> 3 /\ exponent key <> 65537) then Ok false
  else
    let* buf := modpow key signature in
    let buf := xor_hash buf hash in
    let* ' (buf, padding_hash) :=
      (if bool_decide (hash_len = Sha1.SHA_DIGEST_SIZE) then
         let* buf := Sha1.SHA_hash ctx buf buf in Ok (buf, kExpectedPadShaRsa2048)
       else
         let* buf := Sha256.SHA256_hash ctx buf buf in Ok (buf, kExpectedPadSha256Rsa2048)) in
    Ok (bool_decide (take hash_len buf = padding_hash)).

(** ** The reference *)

(** The number of a little-endian array of words. *)
Fixpoint val (l : list Z) : Z := match l with [] => 0 | x :: l => x + 2 ^ 32 * val l end.

(** [R], the modulus, and a key whose precomputed fields fit its modulus of
    2048 bits. *)
Definition R (k : nat) : Z := 2 ^ (32 * Z.of_nat k).
Record key_ok (key : RSAPublicKey) : Prop := KeyOk {
  ko_len : len key = Z.of_nat RSANUMWORDS;
  ko_n : length (n key) = RSANUMWORDS /\ words_in (n key);
  ko_rr : length (rr key) = RSANUMWORDS /\ words_in (rr key);
  ko_inv : (n0inv key * word (n key) 0) mod 2 ^ 32 = 2 ^ 32 - 1;
  ko_square : (val (rr key) - R RSANUMWORDS * R RSANUMWORDS) mod val (n key) = 0;
  ko_top : R RSANUMWORDS <= 2 * val (n key)
}.

(** The encoded message of PKCS #1 v1.5: the padding, the name of the hash, the
    hash; the two comments of the source have it with a hash of zeros. *)
Definition sha_padding (hash : bytes) : bytes :=
  hex_bytes [0x00; 0x01] ++ repeat Byte.xff 218 ++
  hex_bytes [0x00; 0x30; 0x21; 0x30; 0x09; 0x06; 0x05; 0x2b; 0x0e; 0x03; 0x02; 0x1a; 0x05; 0x00; 0x04; 0x14] ++ hash.
Definition sha256_padding (hash : bytes) : bytes :=
  hex_bytes [0x00; 0x01] ++ repeat Byte.xff 202 ++
  hex_bytes [0x00; 0x30; 0x31; 0x30; 0x0d; 0x06; 0x09; 0x60; 0x86; 0x48; 0x01; 0x65; 0x03; 0x04; 0x02; 0x01;
             0x05; 0x00; 0x04; 0x20] ++ hash.
Definition encoded (hash : bytes) : bytes :=
  if bool_decide (length hash = 20)%nat then sha_padding hash else sha256_padding hash.
Definition digest (size : nat) : bytes -> bytes :=
  if bool_decide (size = 20)%nat then Fips.SHA_1 else Fips.SHA_256.

(** What a signature must be, in numbers. *)
Definition signed (key : RSAPublicKey) (signature hash : bytes) : Prop :=
  (Fips.number signature ^ exponent key) mod val (n key) = Fips.number (encoded hash).

(** Another message with the hash of the padding. *)
Definition second_preimage (size : nat) (m : bytes) : Prop :=
  exists m', m' <> m /\ length m' = length m /\ digest size m' = digest size m.

(** * Theorems *)

(** ** Words and numbers *)

Lemma R_0 : R 0 = 1. Proof. reflexivity. Qed.
Lemma R_S k : R (S k) = 2 ^ 32 * R k.
Proof. unfold R. rewrite <-Z.pow_add_r by lia. f_equal. lia. Qed.
Lemma R_pos k : 0 < R k. Proof. unfold R. lia. Qed.

Lemma val_range l : words_in l -> 0 <= val l < R (length l).
Proof.
  induction 1 as [|x l Hx _ IH]; [cbn [val length]; rewrite R_0; lia|]. cbn [val length]. rewrite R_S. cbn beta in Hx.
  change (2 ^ 32) with 4294967296 in *. lia.
Qed.

Lemma val_snoc l x : val (l ++ [x]) = val l + R (length l) * x.
Proof. induction l as [|y l IH]; cbn [app val length]; [rewrite R_0; lia|]. rewrite IH, R_S. lia. Qed.

Lemma val_zeros (l : list Z) : val (map (fun _ => 0) l) = 0.
Proof. induction l as [|x l IH]; cbn [map val]; [done|]. rewrite IH. lia. Qed.

(** [A] and its shift. *)
Lemma u32_shift A : A = u32 A + 2 ^ 32 * Z.shiftr A 32.
Proof. unfold u32. rewrite Z.shiftr_div_pow2 by lia. pose proof (Z.div_mod A (2 ^ 32)). lia. Qed.

Lemma number_app l k : Fips.number (l ++ k) = 256 ^ Z.of_nat (length k) * Fips.number l + Fips.number k.
Proof.
  unfold Fips.number. rewrite foldl_app. generalize (foldl (fun n x => 256 * n + ub x) 0 l). intros a.
  assert (forall k a, foldl (fun n x => 256 * n + ub x) a k = 256 ^ Z.of_nat (length k) * a + foldl (fun n x => 256 * n + ub x) 0 k) as H; [|apply H].
  clear. induction k as [|x k IH]; intros a; cbn [foldl length]; [lia|].
  rewrite IH, (IH (256 * 0 + ub x)), Nat2Z.inj_succ, Z.pow_succ_r by lia. lia.
Qed.

Lemma number_inj l k : length l = length k -> Fips.number l = Fips.number k -> l = k.
Proof.
  revert k. induction l as [|x l IH] using rev_ind; intros k; destruct k as [|y k _] using rev_ind; [done|..];
    rewrite ?length_app; cbn [length]; try lia. intros Hl. rewrite !number_app. cbn.
  pose proof (ub_range x). pose proof (ub_range y). intros Hn. f_equal; [apply IH; lia|]. f_equal. apply ub_inj. lia.
Qed.

(** The two conversions of [modpow]. *)
Lemma number_words k p : length p = (4 * k)%nat -> val (rev (be_words k p)) = Fips.number p.
Proof.
  revert p. induction k as [|k IH]; intros p Hp; [by destruct p|].
  destruct p as [|b0 [|b1 [|b2 [|b3 p]]]]; cbn in Hp; try lia. cbn [be_words rev].
  rewrite val_snoc, IH, length_rev, length_be_words by lia.
  change (b0 :: b1 :: b2 :: b3 :: p) with ([b0; b1; b2; b3] ++ p). rewrite number_app, be_word_sum.
  unfold R. replace (length p) with (4 * k)%nat by lia. rewrite Nat2Z.inj_mul.
  change (2 ^ (32 * Z.of_nat k)) with (2 ^ (32 * Z.of_nat k)). rewrite (Z.pow_mul_r 256 (Z.of_nat 4)), (Z.pow_mul_r 2 32) by lia.
  change (256 ^ Z.of_nat 4) with (2 ^ 32). unfold Fips.number at 2. cbn [foldl]. lia.
Qed.

Lemma be_words_in k p : words_in (be_words k p).
Proof.
  revert p. induction k as [|k IH]; intros p; [constructor|].
  destruct p as [|b0 [|b1 [|b2 [|b3 p]]]]; cbn; try constructor; [apply be_word_range|apply IH].
Qed.

Lemma number_be_bytes x : 0 <= x < 2 ^ 32 -> Fips.number (be_bytes x) = x.
Proof.
  intros Hx. unfold Fips.number, be_bytes. cbn [foldl]. rewrite !ub_bz, !Z.shiftr_div_pow2 by lia. zdiv.
Qed.

Lemma words_number l : words_in l -> Fips.number (concat (map be_bytes (rev l))) = val l
  /\ length (concat (map be_bytes (rev l))) = (4 * length l)%nat.
Proof.
  induction 1 as [|x l Hx _ [IH1 IH2]]; [done|]. cbn [rev val length].
  rewrite map_app, concat_app, number_app, length_app, IH1, IH2. cbn [map concat]. rewrite app_nil_r.
  rewrite number_be_bytes by done. change (length (be_bytes x)) with 4%nat. change (256 ^ Z.of_nat 4) with (2 ^ 32). lia.
Qed.

(** ** Subtraction and comparison *)

Lemma subM_loop_val a : forall A m, length a = length m ->
  val (subM_loop A a m) = (A + val a - val m) mod R (length a)
  /\ words_in (subM_loop A a m) /\ length (subM_loop A a m) = length a.
Proof.
  induction a as [|x a IH]; intros A [|y m] Hl; try done; cbn [subM_loop val length].
  { rewrite R_0, Z.mod_1_r. by split; [|split; [constructor|]]. }
  injection Hl as Hl. set (A' := A + (x - y)).
  destruct (IH (Z.shiftr A' 32) m Hl) as (Hv & Hw & Hlen). split; [|split; [constructor; [apply u32_range|done]|by rewrite Hlen]].
  rewrite Hv, R_S. replace (A + (x + 2 ^ 32 * val a) - (y + 2 ^ 32 * val m)) with (A' + 2 ^ 32 * (val a - val m)) by lia.
  rewrite Z.rem_mul_r by (pose proof (R_pos (length a)); lia). f_equal.
  - unfold u32. rewrite Z.mul_comm. by rewrite Z.mod_add by lia.
  - do 2 f_equal. rewrite (Z.mul_comm (2 ^ 32)), Z.div_add, Z.shiftr_div_pow2 by lia. lia.
Qed.

Lemma geM_loop_val a : forall m, length a = length m -> words_in a -> words_in m ->
  geM_loop (rev a) (rev m) = bool_decide (val m <= val a).
Proof.
  induction a as [|x a IH] using rev_ind; intros m; destruct m as [|y m _] using rev_ind; rewrite ?length_app; cbn [length]; try lia;
    [done|]. intros Hl [Ha Hx]%words_in_app [Hm Hy]%words_in_app.
  rewrite !rev_app_distr. cbn [rev app geM_loop]. rewrite !val_snoc.
  assert (length a = length m) as Hl' by lia. pose proof (val_range a Ha) as Ra. pose proof (val_range m Hm) as Rm.
  rewrite Hl' in *. apply Forall_inv in Hx, Hy. pose proof (R_pos (length m)).
  case_bool_decide as H1; [symmetry; apply bool_decide_eq_false; nia|].
  case_bool_decide as H2; [symmetry; apply bool_decide_eq_true; nia|].
  assert (x = y) as -> by lia. rewrite IH by done. apply bool_decide_ext. lia.
Qed.

(** ** Multiplication *)

Lemma u64_small z : 0 <= z < 2 ^ 64 -> u64 z = z.
Proof. apply Z.mod_small. Qed.

Lemma shift_range A : 0 <= A < 2 ^ 64 -> 0 <= Z.shiftr A 32 < 2 ^ 32.
Proof. intros H. rewrite Z.shiftr_div_pow2 by lia. split; [apply Z.div_pos; lia|]. apply Z.div_lt_upper_bound; lia. Qed.

(** The sums of the code fit their 64 bits. *)
Lemma sum_range h x y z : 0 <= h < 2 ^ 32 -> 0 <= x < 2 ^ 32 -> 0 <= y < 2 ^ 32 -> 0 <= z < 2 ^ 32 -> 0 <= h + x * y + z < 2 ^ 64.
Proof. intros. nia. Qed.

Lemma loop_val a d0 b : forall A B c m r A', 0 <= a < 2 ^ 32 -> 0 <= d0 < 2 ^ 32 ->
  0 <= A < 2 ^ 64 -> 0 <= B < 2 ^ 64 -> words_in b -> words_in c -> words_in m ->
  length c = length b -> length m = length b ->
  montMulAdd_loop a d0 A B b c m = (r, A') ->
  exists r0, r = r0 ++ [u32 A'] /\ length r0 = length b /\ words_in r0 /\ 0 <= A'
  /\ val r0 + R (length b) * A' = Z.shiftr A 32 + Z.shiftr B 32 + val c + a * val b + d0 * val m.
Proof.
  induction b as [|bi b IH]; intros A B c m r A' Ha Hd HA HB Hb Hc Hm Lc Lm; pose proof (shift_range A HA) as SA; pose proof (shift_range B HB) as SB.
  - destruct c, m; try done. cbn [montMulAdd_loop]. intros [= <- <-]. exists []. rewrite u64_small by lia.
    split; [done|]. split; [done|]. split; [constructor|]. cbn [length val]. rewrite R_0. lia.
  - destruct c as [|ci c], m as [|ni m]; try done. injection Lc as Lc. injection Lm as Lm. cbn [montMulAdd_loop length val].
    apply Forall_cons in Hb as [Hbi Hb]. apply Forall_cons in Hc as [Hci Hc]. apply Forall_cons in Hm as [Hni Hm].
    pose proof (sum_range _ _ _ _ SA Ha Hbi Hci) as HA1. rewrite (u64_small _ HA1).
    set (A1 := Z.shiftr A 32 + a * bi + ci) in *.
    pose proof (sum_range _ _ _ _ SB Hd Hni (u32_range A1)) as HB1. rewrite (u64_small _ HB1).
    set (B1 := Z.shiftr B 32 + d0 * ni + u32 A1) in *.
    destruct (montMulAdd_loop a d0 A1 B1 b c m) as [r1 A2] eqn:E. intros [= <- <-].
    destruct (IH A1 B1 c m r1 A2 Ha Hd HA1 HB1 Hb Hc Hm Lc Lm E) as (r0 & -> & Hl & Hw & Hpos & Hv).
    exists (u32 B1 :: r0). split; [done|]. split; [cbn; by rewrite Hl|]. split; [constructor; [apply u32_range|done]|]. split; [done|].
    cbn [val length]. rewrite R_S. pose proof (u32_shift A1). pose proof (u32_shift B1).
    assert (2 ^ 32 * (val r0 + R (length b) * A2) = 2 ^ 32 * (Z.shiftr A1 32 + Z.shiftr B1 32 + val c + a * val b + d0 * val m)) as Hx by (by rewrite Hv).
    assert (A1 = Z.shiftr A 32 + a * bi + ci) as EA by done. assert (B1 = Z.shiftr B 32 + d0 * ni + u32 A1) as EB by done.
    clearbody A1 B1. lia.
Qed.

(** The lowest word of [c + a * b + d0 * n] is zero. *)
Lemma d0_cancels A m0 inv : (inv * m0) mod 2 ^ 32 = 2 ^ 32 - 1 -> u32 (u32 (u32 A * inv) * m0 + u32 A) = 0.
Proof.
  intros Hi. unfold u32. set (x := A mod 2 ^ 32).
  rewrite <-Zplus_mod_idemp_l, Zmult_mod_idemp_l, Zplus_mod_idemp_l.
  replace (x * inv * m0 + x) with (x * (inv * m0 + 1)) by ring.
  rewrite <-Zmult_mod_idemp_r, <-(Zplus_mod_idemp_l (inv * m0) 1), Hi.
  change ((2 ^ 32 - 1 + 1) mod 2 ^ 32) with 0. by rewrite Z.mul_0_r.
Qed.

(** A sum that overflows is less than the modulus too large. *)
Lemma overflow_bound P K N a d c b V : 0 <= a < P -> 0 <= d < P -> 0 <= c < P * K -> 0 <= b < P * K ->
  0 <= N -> P * V = c + a * b + d * N -> V < P * K + N.
Proof.
  intros Ha Hd Hc Hb HN HV.
  assert (a * b <= (P - 1) * (P * K - 1)) by (apply Z.mul_le_mono_nonneg; lia).
  assert (d * N <= (P - 1) * N) by (apply Z.mul_le_mono_nonneg_r; lia).
  apply (Z.mul_lt_mono_pos_l P); [lia|].
  assert ((P - 1) * (P * K - 1) = P * (P * K) - P * K - P + 1) by ring. assert (P * (P * K + N) = P * (P * K) + P * N) by ring. lia.
Qed.

(** Congruence modulo [M]. *)
Definition cong (M x y : Z) : Prop := exists m, x = y + m * M.

#[local] Instance cong_equivalence M : Equivalence (cong M).
Proof.
  split.
  - intros x. exists 0. lia.
  - intros x y [m ->]. exists (-m). lia.
  - intros x y z [m ->] [m' ->]. exists (m + m'). lia.
Qed.
#[local] Instance mul_cong M : Proper (cong M ==> cong M ==> cong M) Z.mul.
Proof. intros x x' [m ->] y y' [m' ->]. exists (x' * m' + m * y' + m * M * m'). ring. Qed.

Lemma cong_mod M x y : 0 < M -> cong M x y -> x mod M = y mod M.
Proof. intros HM [m ->]. apply Z.mod_add. lia. Qed.
Lemma cong_eq M x y : x = y -> cong M x y.
Proof. by intros ->. Qed.

Section Key.
Context (key : RSAPublicKey) (k : nat) (N : Z).
Hypothesis key_length : length (n key) = S k.
Hypothesis key_words : words_in (n key).
Hypothesis key_val : val (n key) = N.
Hypothesis key_inv : (n0inv key * word (n key) 0) mod 2 ^ 32 = 2 ^ 32 - 1.

Abbreviation number_ok l := (words_in l /\ length l = S k).

Lemma montMulAdd_val c a b : number_ok c -> number_ok b -> 0 <= a < 2 ^ 32 ->
  number_ok (montMulAdd key c a b) /\ exists m, 2 ^ 32 * val (montMulAdd key c a b) = val c + a * val b + m * N.
Proof.
  intros [Hc Lc] [Hb Lb] Ha. pose proof (val_range c Hc) as Rc. pose proof (val_range b Hb) as Rb.
  pose proof (val_range _ key_words) as RN. rewrite key_length, key_val in RN. rewrite Lc in Rc. rewrite Lb in Rb.
  unfold montMulAdd. destruct c as [|c0 c]; [done|]. destruct b as [|b0 b]; [done|].
  pose proof key_length as Ln. pose proof key_words as Hn. pose proof key_val as Vn. pose proof key_inv as Hinv.
  unfold subM. destruct (n key) as [|m0 m] eqn:En; [done|]. cbn [word nth] in Hinv.
  injection Lc as Lc. injection Lb as Lb. injection Ln as Ln.
  apply Forall_cons in Hb as [Hb0 Hb]. apply Forall_cons in Hc as [Hc0 Hc]. pose proof Hn as [Hm0 Hm]%Forall_cons.
  pose proof (sum_range 0 a b0 c0 ltac:(lia) Ha Hb0 Hc0) as HA. rewrite Z.add_0_l in HA. rewrite (u64_small _ HA).
  set (A := a * b0 + c0) in *. set (d0 := u32 (u32 A * n0inv key)).
  pose proof (u32_range (u32 A * n0inv key)) as Hd. fold d0 in Hd.
  pose proof (sum_range 0 d0 m0 (u32 A) ltac:(lia) Hd Hm0 (u32_range A)) as HB. rewrite Z.add_0_l in HB. rewrite (u64_small _ HB).
  pose proof (d0_cancels A m0 (n0inv key) Hinv) as Hz. fold d0 in Hz. set (B := d0 * m0 + u32 A) in *.
  destruct (montMulAdd_loop a d0 A B b c m) as [r A'] eqn:E.
  destruct (loop_val a d0 b A B c m r A' Ha Hd HA HB Hb Hc Hm ltac:(lia) ltac:(lia) E) as (r0 & -> & Lr & Hr & Hpos & Hv).
  rewrite Lb in *. cbn [val] in Rc, Rb, Vn.
  assert (2 ^ 32 * (val r0 + R k * A') = (c0 + 2 ^ 32 * val c) + a * (b0 + 2 ^ 32 * val b) + d0 * N) as HV.
  { rewrite Hv, <-Vn. pose proof (u32_shift A) as UA. pose proof (u32_shift B) as UB. rewrite Hz in UB.
    assert (A = a * b0 + c0) as EA by done. assert (B = d0 * m0 + u32 A) as EB by done. clearbody B d0 A. lia. }
  assert (words_in (r0 ++ [u32 A'])) as Hw.
  { apply words_in_app. split; [done|]. constructor; [apply u32_range|constructor]. }
  assert (val (r0 ++ [u32 A']) = val r0 + R k * u32 A') as Hval by (rewrite val_snoc; by rewrite Lr).
  assert (length (r0 ++ [u32 A']) = S k) as Hlen by (rewrite length_app; cbn; lia).
  pose proof (u32_shift A') as UA'. pose proof (val_range _ Hr) as Rr. rewrite Lr in Rr. pose proof (R_pos k) as RK.
  case_bool_decide as Hov.
  - destruct (subM_loop_val (r0 ++ [u32 A']) 0 (m0 :: m)) as (Sv & Sw & Sl); [cbn; lia|]. rewrite Hlen in *.
    split; [done|]. exists (d0 - 2 ^ 32). rewrite Sv, Hval. cbn [val] in *. rewrite Vn. rewrite R_S in *.
    pose proof (u32_range A') as Ru. set (q := Z.shiftr A' 32) in *. set (u := u32 A') in *.
    assert (0 <= q) as Hq0 by (unfold q; rewrite Z.shiftr_div_pow2 by lia; apply Z.div_pos; lia).
    pose proof (overflow_bound (2 ^ 32) (R k) N a d0 _ _ _ Ha Hd Rc Rb (proj1 RN) HV) as Hb'.
    assert (0 <= R k * u) by (apply Z.mul_nonneg_nonneg; lia).
    assert (R k * A' = R k * u + 2 ^ 32 * R k * q) as HA' by (rewrite UA'; ring).
    assert (q = 1) as ->.
    { destruct (Z.le_gt_cases q 1); [lia|]. assert (2 ^ 32 * R k * 2 <= 2 ^ 32 * R k * q) by (apply Z.mul_le_mono_nonneg_l; lia). lia. }
    rewrite <-(Z.mod_unique _ (2 ^ 32 * R k) (-1) (val r0 + R k * A' - N)); lia.
  - split; [done|]. exists d0. rewrite Hval. cbn [val]. rewrite <-HV. do 3 f_equal. lia.
Qed.

Lemma montMul_fold b l : number_ok b -> words_in l -> forall c j x, number_ok c ->
  (exists m, R j * val c = x * val b + m * N) ->
  let r := foldl (fun c x => montMulAdd key c x b) c l in
  number_ok r /\ exists m, R (j + length l) * val r = (x + R j * val l) * val b + m * N.
Proof.
  intros Hb. induction 1 as [|y l Hy _ IH]; intros c j x Hc [m Hm]; cbn [foldl length val].
  { split; [done|]. exists m. rewrite Nat.add_0_r, Z.mul_0_r, Z.add_0_r. done. }
  destruct (montMulAdd_val c y b Hc Hb Hy) as [Hc' [m' Hm']].
  destruct (IH _ (S j) (x + R j * y) Hc') as [Hr [m2 Hm2]].
  { exists (m + R j * m'). rewrite R_S, (Z.mul_comm (2 ^ 32)), <-Z.mul_assoc, Hm'.
    transitivity (R j * val c + R j * (y * val b + m' * N)); [ring|]. rewrite Hm. ring. }
  split; [done|]. exists m2. rewrite Nat.add_succ_r, <-Nat.add_succ_l, Hm2, R_S. ring.
Qed.

Definition RR : Z := R (S k).

Lemma montMul_val a b : number_ok a -> number_ok b ->
  number_ok (montMul key a b) /\ cong N (RR * val (montMul key a b)) (val a * val b).
Proof.
  intros [Ha La] Hb. unfold montMul.
  destruct (montMul_fold b a Hb Ha (map (fun _ => 0) (n key)) 0 0) as [H [m Hm]].
  - split; [|by rewrite length_map]. clear. induction (n key) as [|x l IH]; [constructor|]. constructor; [lia|done].
  - exists 0. rewrite val_zeros. lia.
  - split; [done|]. rewrite La, R_0 in Hm. cbn [Nat.add] in Hm. unfold RR. rewrite Hm.
    exists m. ring.
Qed.

(** [R] is invertible: [n0inv] gives an inverse of [2 ^ 32]. *)
Lemma inverse_of_R : exists Ri, cong N (Ri * RR) 1.
Proof.
  assert (exists s, cong N (s * 2 ^ 32) 1) as [s Hs].
  { rewrite <-key_val. destruct (n key) as [|m0 m]; [done|]. cbn [word nth val] in *. set (i := n0inv key) in *.
    pose proof (Z.div_mod (i * m0) (2 ^ 32) ltac:(lia)) as Hd. rewrite key_inv in Hd.
    exists ((i * m0) / 2 ^ 32 + 1 + i * val m), i. lia. }
  exists (s ^ Z.of_nat (S k)). unfold RR. generalize (S k). intros j.
  induction j as [|j IH]; [done|]. rewrite R_S, Nat2Z.inj_succ, Z.pow_succ_r by lia.
  replace (s * s ^ Z.of_nat j * (2 ^ 32 * R j)) with ((s * 2 ^ 32) * (s ^ Z.of_nat j * R j)) by ring.
  rewrite Hs, IH. done.
Qed.

(** Multiplying cancels one factor [R]. *)
Lemma montMul_times a b x y z : number_ok a -> number_ok b -> cong N (val a) x -> cong N (val b) y ->
  cong N (x * y) (z * RR) -> number_ok (montMul key a b) /\ cong N (val (montMul key a b)) z.
Proof.
  intros Ha Hb Hx Hy Hz. destruct (montMul_val a b Ha Hb) as [Hn H]. split; [done|].
  destruct inverse_of_R as [Ri Hi]. rewrite Hx, Hy, Hz in H.
  transitivity (Ri * RR * val (montMul key a b)); [by rewrite Hi, Z.mul_1_l|].
  rewrite <-Z.mul_assoc, H. replace (Ri * (z * RR)) with (Ri * RR * z) by ring. by rewrite Hi, Z.mul_1_l.
Qed.

(** [l] holds [y] in Montgomery form. *)
Definition mont (y : Z) (l : list Z) : Prop := number_ok l /\ cong N (val l) (y * RR).

Lemma mont_square y l : mont y l -> mont (y * y) (montMul key l l).
Proof. intros [Hn Hv]. apply (montMul_times _ _ (y * RR) (y * RR)); [done..|]. apply cong_eq. ring. Qed.

Lemma squarings_mont i y l : mont y l -> mont (y ^ 4 ^ Z.of_nat i) (Nat.iter i (square_twice key) l).
Proof.
  intros H. induction i as [|i IH]; [by rewrite Z.pow_1_r|].
  rewrite Nat.iter_succ. pose proof (mont_square _ _ (mont_square _ _ IH)) as Hs. fold (square_twice key) in Hs.
  rewrite Nat2Z.inj_succ, Z.pow_succ_r, Z.mul_comm, Z.pow_mul_r by lia.
  unfold square_twice. replace (_ ^ 4) with ((y ^ 4 ^ Z.of_nat i * y ^ 4 ^ Z.of_nat i) * (y ^ 4 ^ Z.of_nat i * y ^ 4 ^ Z.of_nat i)) by ring.
  exact Hs.
Qed.

(** Leaving Montgomery form with one more factor. *)
Lemma mont_leave y l a : mont y l -> number_ok a -> number_ok (montMul key l a) /\ cong N (val (montMul key l a)) (y * val a).
Proof. intros [Hn Hv] Ha. apply (montMul_times _ _ (y * RR) (val a)); [done..|]. apply cong_eq. ring. Qed.

(** The final subtraction. *)
Hypothesis N_pos : 0 < N.
Hypothesis top : RR <= 2 * N.

Lemma reduced l : number_ok l -> number_ok (if geM key l then subM key l else l)
  /\ val (if geM key l then subM key l else l) = val l mod N.
Proof.
  intros [Hw Hl]. unfold geM. rewrite geM_loop_val by congruence || done. rewrite key_val.
  pose proof (val_range l Hw) as Rl. rewrite Hl in Rl. unfold RR in top. case_bool_decide as Hge.
  - unfold subM. destruct (subM_loop_val l 0 (n key)) as (Sv & Sw & Sl); [congruence|]. split; [by rewrite Sl|].
    rewrite Sv, key_val, Hl, Z.mod_small by lia. symmetry. rewrite <-(Z.mod_add _ (-1)) by lia. apply Z.mod_small. lia.
  - split; [done|]. symmetry. apply Z.mod_small. lia.
Qed.

Hypothesis rr_ok : number_ok (rr key).
Hypothesis rr_square : cong N (val (rr key)) (RR * RR).

Lemma mont_enter a : number_ok a -> mont (val a) (montMul key a (rr key)).
Proof. intros Ha. apply (montMul_times _ _ (val a) (RR * RR)); [done..|]. apply cong_eq. ring. Qed.

End Key.

(** ** The exponentiation *)

Section Modpow.
Context (key : RSAPublicKey) (K : key_ok key).

Abbreviation N := (val (n key)).
Abbreviation number_ok l := (words_in l /\ length l = RSANUMWORDS).

Lemma modulus_pos : 0 < N.
Proof. pose proof (ko_top key K). pose proof (R_pos RSANUMWORDS). lia. Qed.

Lemma rr_cong : cong N (val (rr key)) (RR 63 * RR 63).
Proof.
  pose proof (ko_square key K) as Hm. pose proof modulus_pos as Hp. apply Z.mod_divide in Hm as [m Hm]; [|lia].
  exists m. change (RR 63) with (R RSANUMWORDS). lia.
Qed.

Lemma powers_val a : number_ok a -> exponent key = 3 \/ exponent key = 65537 -> exists r,
  (if bool_decide (exponent key = 65537) then
     Ok (montMul key (Nat.iter 8 (square_twice key) (montMul key a (rr key))) a)
   else if bool_decide (exponent key = 3) then
     Ok (montMul key (montMul key (montMul key a (rr key)) (montMul key a (rr key))) a) else Ub) = Ok r
  /\ number_ok r /\ cong N (val r) (val a ^ exponent key).
Proof.
  destruct K as [_ [Ln Hn] [Lr Hr] Hinv _ _]. intros Ha He. pose proof rr_cong as Hsq.
  pose proof (mont_enter key 63 N Ln Hn eq_refl Hinv (conj Hr Lr) Hsq a Ha) as M1.
  destruct He as [-> | ->]; cbn [bool_decide decide_rel Z.eq_dec]; [rewrite bool_decide_false, bool_decide_true by done|rewrite bool_decide_true by done];
    (eexists; split; [done|]).
  - pose proof (mont_square key 63 N Ln Hn eq_refl Hinv _ _ M1) as M2.
    destruct (mont_leave key 63 N Ln Hn eq_refl Hinv _ _ a M2 Ha) as [H1 H2]. split; [done|].
    rewrite H2. apply cong_eq. ring.
  - pose proof (squarings_mont key 63 N Ln Hn eq_refl Hinv 8 _ _ M1) as M2.
    destruct (mont_leave key 63 N Ln Hn eq_refl Hinv _ _ a M2 Ha) as [H1 H2]. split; [done|].
    rewrite H2. apply cong_eq. change (4 ^ Z.of_nat 8) with 65536. change 65537 with (Z.succ 65536).
    rewrite Z.pow_succ_r by lia. ring.
Qed.

Lemma modpow_power inout : exponent key = 3 \/ exponent key = 65537 -> length inout = RSANUMBYTES ->
  exists out, modpow key inout = Ok out /\ length out = RSANUMBYTES
  /\ Fips.number out = (Fips.number inout ^ exponent key) mod N.
Proof.
  intros He Hl. unfold modpow. rewrite (ko_len key K). rewrite Nat2Z.id.
  pose proof (be_words_in RSANUMWORDS inout) as Hw. pose proof (length_be_words RSANUMWORDS inout Hl) as Hlen.
  assert (number_ok (rev (be_words RSANUMWORDS inout))) as Ha by (split; [by apply Forall_rev|by rewrite length_rev]).
  destruct (powers_val _ Ha He) as (r & Hr & Hok & Hc). cbv zeta. rewrite Hr. cbn [res_bind].
  pose proof (ko_n key K) as [Ln Hn]. pose proof modulus_pos as Hp.
  destruct (reduced key 63 N Ln Hn eq_refl Hp (ko_top key K) r Hok) as [[H1 H2] H3].
  destruct (words_number _ H1) as [H4 H5]. eexists. split; [done|]. split; [by rewrite H5, H2|].
  rewrite H4, H3. rewrite <-(number_words RSANUMWORDS inout Hl). by apply cong_mod.
Qed.

End Modpow.

(** ** Signatures *)

(** The two constants are the hashes of the two paddings. *)
Lemma expected_pads :
  digest 20 (encoded (repeat Byte.x00 20)) = kExpectedPadShaRsa2048
  /\ digest 32 (encoded (repeat Byte.x00 32)) = kExpectedPadSha256Rsa2048.
Proof. split; vm_compute; reflexivity. Qed.

Lemma lxor_zero x y : bz (Z.lxor (ub x) (ub y)) = Byte.x00 <-> x = y.
Proof.
  split.
  - intros H. apply (f_equal ub) in H. rewrite ub_bz in H. change (ub Byte.x00) with 0 in H.
    apply ub_inj. apply Z.lxor_eq. change 256 with (2 ^ 8) in H.
    pose proof (ub_range x) as Hx. pose proof (ub_range y) as Hy.
    apply Z.bits_inj'. intros i Hi. rewrite Z.bits_0. destruct (decide (i < 8)).
    + by rewrite <-(Z.mod_pow2_bits_low _ 8), H, Z.bits_0 by lia.
    + rewrite Z.lxor_spec. rewrite <-(Z.mod_small (ub x) (2 ^ 8)), <-(Z.mod_small (ub y) (2 ^ 8)) by lia.
      by rewrite !Z.mod_pow2_bits_high by lia.
  - intros ->. by rewrite Z.lxor_nilpotent.
Qed.

Lemma xor_zeros l h : length l = length h ->
  zip_with (fun x h => bz (Z.lxor (ub x) (ub h))) l h = repeat Byte.x00 (length h) <-> l = h.
Proof.
  revert h. induction l as [|x l IH]; intros [|y h] Hl; try done. injection Hl as Hl. cbn [zip_with length repeat].
  split.
  - intros [= H1 H2]. apply lxor_zero in H1 as ->. f_equal. by apply IH.
  - intros [= -> ->]. f_equal; [by apply lxor_zero|by apply IH].
Qed.

(** The padding in front of the hash. *)
Lemma encoded_split hash : length hash = 20%nat \/ length hash = 32%nat -> exists pre,
  length pre = (RSANUMBYTES - length hash)%nat /\ encoded hash = pre ++ hash
  /\ encoded (repeat Byte.x00 (length hash)) = pre ++ repeat Byte.x00 (length hash).
Proof.
  intros H. unfold encoded. rewrite repeat_length.
  destruct H as [H|H]; rewrite H; [rewrite !bool_decide_true by done; unfold sha_padding|rewrite !bool_decide_false by done; unfold sha256_padding];
    eexists; (split; [|split; [by rewrite !app_assoc|by rewrite !app_assoc]]); vm_compute; reflexivity.
Qed.

Lemma xor_encoded out hash : length hash = 20%nat \/ length hash = 32%nat -> length out = RSANUMBYTES ->
  xor_hash out hash = encoded (repeat Byte.x00 (length hash)) <-> out = encoded hash.
Proof.
  intros Hh Ho. destruct (encoded_split hash Hh) as (pre & Hp & -> & ->). unfold xor_hash. rewrite Ho, <-Hp.
  assert (length (drop (length pre) out) = length hash) as Hd.
  { rewrite length_drop, Ho, Hp. unfold RSANUMBYTES. lia. }
  assert (length (take (length pre) out) = length pre) as Ht by (rewrite length_take, Ho, Hp; unfold RSANUMBYTES; lia).
  split.
  - intros [H1 H2]%app_inj_1; [|done]. apply (xor_zeros _ _ Hd) in H2. rewrite <-H2. etransitivity; [symmetry; apply (take_drop (length pre))|]. by rewrite H1.
  - intros ->. rewrite take_app_length, drop_app_length. f_equal. by apply xor_zeros.
Qed.

Lemma length_xor out hash : length hash = 20%nat \/ length hash = 32%nat -> length out = RSANUMBYTES ->
  length (xor_hash out hash) = RSANUMBYTES.
Proof.
  intros Hh Ho. unfold xor_hash. rewrite length_app, length_take, length_zip_with, length_drop, Ho. unfold RSANUMBYTES. lia.
Qed.

Lemma length_encoded hash : length hash = 20%nat \/ length hash = 32%nat -> length (encoded hash) = RSANUMBYTES.
Proof.
  intros H. destruct (encoded_split hash H) as (pre & Hp & -> & _). rewrite length_app, Hp. unfold RSANUMBYTES. lia.
Qed.

Lemma length_words_bytes l : length (concat (map be32 l)) = (4 * length l)%nat.
Proof. induction l as [|x l IH]; [done|]. cbn [map concat]. rewrite length_app, IH. change (length (be32 x)) with 4%nat. cbn [length]. lia. Qed.

Lemma length_digest1 m : length (Fips.SHA_1 m) = 20%nat.
Proof.
  unfold Fips.SHA_1, Fips.SHA_256, fips_digest. rewrite length_words_bytes. assert (forall l s, length s = 5%nat -> length (foldl Fips.sha1 s l) = 5%nat) as H.
  { induction l as [|b l IH]; intros s Hs; [done|]. apply IH. unfold Fips.sha1. by destruct (foldl _ _ _) as [[[[? ?] ?] ?] ?]. }
  by rewrite H.
Qed.

Lemma length_digest256 m : length (Fips.SHA_256 m) = 32%nat.
Proof.
  unfold Fips.SHA_1, Fips.SHA_256, fips_digest. rewrite length_words_bytes. assert (forall l s, length s = 8%nat -> length (foldl Fips.sha256 s l) = 8%nat) as H.
  { induction l as [|b l IH]; intros s Hs; [done|]. apply IH. unfold Fips.sha256. by destruct (foldl _ _ _) as [[[[? ?] ?] ?] [[[? ?] ?] ?]]. }
  by rewrite H.
Qed.

#[local] Opaque fips_digest modpow xor_hash encoded.

(** What [RSA_verify] compares, after the exponentiation. *)
Lemma verify_digests ctx key sig hash out : context ctx -> len key = Z.of_nat RSANUMWORDS ->
  length sig = RSANUMBYTES -> length hash = 20%nat \/ length hash = 32%nat -> exponent key = 3 \/ exponent key = 65537 ->
  modpow key sig = Ok out -> length out = RSANUMBYTES ->
  RSA_verify ctx key sig hash = Ok (bool_decide (digest (length hash) (xor_hash out hash)
    = digest (length hash) (encoded (repeat Byte.x00 (length hash))))).
Proof.
  intros Hc Hk Hl Hh He Hm Ho. unfold RSA_verify. rewrite Hm. cbn [res_bind].
  rewrite (bool_decide_false (len key <> _)) by (intros ?; done).
  rewrite (bool_decide_false (length sig <> _)) by (intros ?; done).
  unfold Sha1.SHA_DIGEST_SIZE, Sha256.SHA256_DIGEST_SIZE.
  rewrite (bool_decide_false (length hash <> 20%nat /\ _)) by (intros [? ?]; by destruct Hh).
  rewrite (bool_decide_false (exponent key <> 3 /\ _)) by (intros [? ?]; by destruct He).
  destruct expected_pads as [P1 P2]. destruct Hh as [Hh|Hh]; rewrite Hh.
  - rewrite bool_decide_true by done. rewrite (sha1_hash ctx _ _ Hc). cbn [res_bind]. rewrite P1. unfold digest.
    rewrite (bool_decide_true (20 = 20)%nat) by done. do 2 f_equal. rewrite take_app_length'; [done|].
    by rewrite length_digest1.
  - rewrite bool_decide_false by done. rewrite (sha256_hash ctx _ _ Hc). cbn [res_bind]. rewrite P2. unfold digest.
    rewrite (bool_decide_false (32 = 20)%nat) by done. do 2 f_equal. rewrite take_app_length'; [done|].
    by rewrite length_digest256.
Qed.

(** The exponentiation in Montgomery form is the one of numbers, for any input,
    also one that is not reduced, and either exponent: no sum overflows its 64
    bits, and one subtraction at the end reduces the result. *)
Theorem modpow_exact key inout : key_ok key -> exponent key = 3 \/ exponent key = 65537 -> length inout = RSANUMBYTES ->
  exists out, modpow key inout = Ok out /\ length out = RSANUMBYTES
  /\ Fips.number out = (Fips.number inout ^ exponent key) mod val (n key).
Proof. exact (fun K => modpow_power key K inout). Qed.

(** What [RSA_verify] answers with a well-formed key. *)
Lemma verify_exact ctx key sig hash : context ctx -> key_ok key -> exponent key = 3 \/ exponent key = 65537 ->
  length sig = RSANUMBYTES -> length hash = 20%nat \/ length hash = 32%nat ->
  exists b, RSA_verify ctx key sig hash = Ok b /\ (signed key sig hash -> b = true) /\
    (b = true -> signed key sig hash \/ second_preimage (length hash) (encoded (repeat Byte.x00 (length hash)))).
Proof.
  intros Hc K He Hl Hh. destruct (modpow_power key K sig He Hl) as (out & Hm & Ho & Hv).
  rewrite (verify_digests ctx key sig hash out Hc (ko_len key K) Hl Hh He Hm Ho).
  eexists. split; [reflexivity|]. pose proof (xor_encoded out hash Hh Ho) as Hx.
  assert (signed key sig hash <-> out = encoded hash) as Hs.
  { unfold signed. rewrite <-Hv. split; [|by intros ->]. apply number_inj. by rewrite length_encoded. }
  rewrite Hs, <-Hx, bool_decide_eq_true. split; [by intros ->|]. intros Hd.
  destruct (decide (xor_hash out hash = encoded (repeat Byte.x00 (length hash)))) as [He'|Hne]; [by left|].
  right. exists (xor_hash out hash). split; [done|]. split; [|done].
  rewrite length_xor by done. symmetry. apply length_encoded. by rewrite repeat_length.
Qed.

Lemma verify_refuses ctx key sig hash :
  len key <> Z.of_nat RSANUMWORDS \/ length sig <> RSANUMBYTES \/ (length hash <> 20%nat /\ length hash <> 32%nat)
    \/ (exponent key <> 3 /\ exponent key <> 65537) -> RSA_verify ctx key sig hash = Ok false.
Proof.
  intros H. unfold RSA_verify. case_bool_decide; [done|]. case_bool_decide; [done|]. case_bool_decide; [done|].
  case_bool_decide; [done|]. unfold Sha1.SHA_DIGEST_SIZE, Sha256.SHA256_DIGEST_SIZE in *. tauto.
Qed.

(** Whatever the key, it answers. *)
Lemma verify_total ctx key sig hash : context ctx -> exists b, RSA_verify ctx key sig hash = Ok b.
Proof.
  intros Hc. unfold RSA_verify. do 4 (case_bool_decide; [by exists false|]).
  assert (exists out, modpow key sig = Ok out) as [out Hm].
  { Transparent modpow. unfold modpow. case_bool_decide; [by eexists|]. case_bool_decide; [by eexists|]. tauto. }
  rewrite Hm. cbn [res_bind]. case_bool_decide.
  - rewrite (sha1_hash ctx _ _ Hc). by eexists.
  - rewrite (sha256_hash ctx _ _ Hc). by eexists.
Qed.

(** C2: [RSA_verify] decides whether the number of the signature, raised to the
    public exponent, is the padded hash: it accepts every such signature, and
    what else it accepts gives a second message with the hash of the padding.
    A key, a signature or a hash of the wrong size, or another exponent, is
    refused. *)
Theorem verify_decides ctx key sig hash : context ctx ->
  (len key <> Z.of_nat RSANUMWORDS \/ length sig <> RSANUMBYTES \/ (length hash <> 20%nat /\ length hash <> 32%nat)
     \/ (exponent key <> 3 /\ exponent key <> 65537) -> RSA_verify ctx key sig hash = Ok false) /\
  (key_ok key -> exponent key = 3 \/ exponent key = 65537 -> length sig = RSANUMBYTES ->
   length hash = 20%nat \/ length hash = 32%nat ->
   exists b, RSA_verify ctx key sig hash = Ok b /\ (signed key sig hash -> b = true) /\
     (b = true -> signed key sig hash \/ second_preimage (length hash) (encoded (repeat Byte.x00 (length hash))))).
Proof. intros Hc. split; [apply verify_refuses|exact (verify_exact ctx key sig hash Hc)]. Qed.

(** *** A key and a signature *)

#[local] Transparent fips_digest modpow xor_hash encoded.

Fixpoint words_of (k : nat) (z : Z) : list Z := match k with O => [] | S k => u32 z :: words_of k (Z.shiftr z 32) end.
Fixpoint bytes_of (k : nat) (z : Z) (l : bytes) : bytes :=
  match k with O => l | S k => bytes_of k (Z.shiftr z 8) (bz z :: l) end.

Definition a_modulus : Z := 0xe61fc9836a2f5666c623c610638bb7abacddc39a1cf68c3229c0a61f98d8eb318b40c2b57a7d98832e66a7ba2f78c9732a5229fd303c70b45b86677bc81bbdcf7ac7763ca38da02a5b514568c177150b01a1e5cf402d2f2560580d45e4fc99b614ead1d812e95994a11840be2cf4545073fb94d87188bee94f143911fcf0fb5ca4907ad1b13700141406260ca272446f1936834f2c403a502a9c5153f63ab9e3e4638b724285f8184133b6a90c9ed3c0c3a2a6b327cbb23edf881839fbf081ac1f03514df93e6e28c7f28a9cb64eb62149738d004f0a293d53e45a236c37b2f2f2a0b0ff1dbb7bfff29888a48a36913afd5b15ac842bae8bd8f4a75d28c0ee75.
Definition a_square : Z := 0x5d79d266fdc4e4ec0fe196cd1ca8c21cdc6b426ebf3ecba00362e0396838263f76deabc7528e549ccbf9257d43abccd00ebab2be07310ce26e8cb05ad913b00fd8868f549eee105005627b9142f309945b552c2f8271ef709b24e8456d7bd42bf09a9edc50abd5ca41136d77d065ab0fda25e0d3aa197882ad9bbf0f68c8d2344eb5b73ea5d25ff9dd863667b9b6a4fc3fcbab51d875436fa0d45fd16cc8e6a8cabe659b0f7503495690a25e7e0d36f1efcedd6ce10471e1078ea95dae2a8dcf47d1be8c1e6c9568561e92e3cbda56f90908bb8e8d7d20c091d1e54d2226f2e9ed05ba9a66a37e45a38f14e0644ae4987397c93de22120193c2318227e713fef.
Definition a_key : RSAPublicKey := MkKey 64 0x25a10e23 (words_of 64 a_modulus) (words_of 64 a_square) 3.
Definition a_hash : bytes := repeat Byte.x41 20.
Definition a_signature : bytes := bytes_of 256 0x45d7b60b37e8338377aed1f59a02684b40cd671957d83bb4bd86776dc1acd2494479dccf435526c5e79261f05e87fa1179d70e1f8c3a388bb4d2f68a8703f04f7586c488651c8c119e5e77c49a85da170d985ee91e37484f4aac9edf1bf5a183b68ba956a7ace0a2f130089dc814bc75a7b8a682a0096e4bb45278d1945dd8c93d43e662336a7ced2108c5c9087ddd8900281f268dea3b917f427e0f6725edcedac1da3c5a89932637fc93225f888d5b341dfa5bcdd81e31d2bb671f971ce0ecd2717be84490ef9d1245adaddc7d0b75e58751e2fc968196e59c9b49a24262e76e6d1e36be95daa6649b55cb67a1817f10994cad783e57c4955afceb30310078 [].

Lemma words_of_in k z : words_in (words_of k z).
Proof. revert z. induction k as [|k IH]; intros z; cbn; [constructor|]. constructor; [apply u32_range|apply IH]. Qed.

Lemma a_key_ok : key_ok a_key.
Proof.
  split; [reflexivity|split; [reflexivity|apply words_of_in]..|vm_compute; reflexivity|vm_compute; reflexivity|].
  apply Z.leb_le. vm_compute. reflexivity.
Qed.

Lemma modpow_exact_witness : exists out, modpow a_key a_signature = Ok out
  /\ Fips.number out = (Fips.number a_signature ^ 3) mod val (n a_key).
Proof.
  pose proof (modpow_exact a_key a_signature a_key_ok (or_introl eq_refl) eq_refl) as (out & H1 & _ & H2).
  exists out. exact (conj H1 H2).
Defined.

(** The signature is accepted. *)
Example accepted : RSA_verify stale_ctx a_key a_signature a_hash = Ok true.
Proof. vm_compute. reflexivity. Qed.

Lemma verify_decides_witness : RSA_verify stale_ctx a_key [] a_hash = Ok false
  /\ exists b, RSA_verify stale_ctx a_key a_signature a_hash = Ok b
     /\ (b = true -> signed a_key a_signature a_hash \/ second_preimage 20 (encoded (repeat Byte.x00 20))).
Proof.
  split.
  - pose proof (verify_decides stale_ctx a_key [] a_hash (conj eq_refl eq_refl)) as [Hr _].
    apply Hr. right. left. discriminate.
  - pose proof (verify_decides stale_ctx a_key a_signature a_hash (conj eq_refl eq_refl)) as [_ Ha].
    pose proof (Ha a_key_ok (or_introl eq_refl) eq_refl (or_introl eq_refl)) as (b & H1 & _ & H2).
    exists b. exact (conj H1 H2).
Defined.
