(* ===== verification/Base64.v ===== *)
(** * Base 64 (bionic, libc/netbsd/net/base64.c)

    The encoding of public keys in the files of authorised keys: [b64_ntop]
    writes it, [b64_pton] is the state machine that [read_keys] decodes with. *)

From S2P Require Import Prelude Cstr.

Definition Base64 : bytes := lit "ABCDEFGHIJKLMNOPQRSTUVWXYZabcdefghijklmnopqrstuvwxyz0123456789+/".
Definition Pad64 : byte := Byte.x3d.

(** [Base64[i]] and [strchr(Base64, ch) - Base64]. *)
Definition base64_char (i : Z) : byte := nth (Z.to_nat i) Base64 Byte.x00.
Fixpoint index_from (k : Z) (s : bytes) (ch : byte) : option Z :=
  match s with
  | [] => None
  | b :: s => if bool_decide (b = ch) then Some k else index_from (k + 1) s ch
  end.
Definition base64_index (ch : byte) : option Z := index_from 0 Base64 ch.

(** ** Encoding *)

(** The four values of a group of three bytes. *)
Definition output0 (i0 : byte) : Z := Z.shiftr (ub i0) 2.
Definition output1 (i0 i1 : byte) : Z := Z.shiftl (Z.land (ub i0) 3) 4 + Z.shiftr (ub i1) 4.
Definition output2 (i1 i2 : byte) : Z := Z.shiftl (Z.land (ub i1) 15) 2 + Z.shiftr (ub i2) 6.
Definition output3 (i2 : byte) : Z := Z.land (ub i2) 63.

(** [target] is what was written so far; [None] is the return of -1. *)
Fixpoint b64_ntop_loop (src target : bytes) (targsize : nat) : option bytes :=
  let write group := if bool_decide (targsize < length target + 4)%nat then None else Some (target ++ group) in
  match src with
  | i0 :: i1 :: i2 :: src =>
      match write [base64_char (output0 i0); base64_char (output1 i0 i1); base64_char (output2 i1 i2); base64_char (output3 i2)] with
      | None => None
      | Some target => b64_ntop_loop src target targsize
      end
  | [i0; i1] => write [base64_char (output0 i0); base64_char (output1 i0 i1); base64_char (output2 i1 Byte.x00); Pad64]
  | [i0] => write [base64_char (output0 i0); base64_char (output1 i0 Byte.x00); Pad64; Pad64]
  | [] => Some target
  end.

(** The characters before the NUL, for which there must be room. *)
Definition b64_ntop (src : bytes) (targsize : nat) : option bytes :=
  match b64_ntop_loop src [] targsize with
  | None => None
  | Some text => if bool_decide (targsize <= length text)%nat then None else Some text
  end.

(** ** Decoding *)

(** What ended the loop: the NUL, or a pad character and what follows it. *)
Inductive pton_end := EndOfString | EndPad (rest : bytes).

(** [target[i] = v] and [target[i] |= v]. *)
Definition set_byte (target : bytes) (i : nat) (v : Z) : bytes := <[i := bz v]> target.
Definition or_byte (target : bytes) (i : nat) (v : Z) : bytes :=
  <[i := bz (Z.lor (ub (nth i target Byte.x00)) v)]> target.

Fixpoint b64_pton_loop (src target : bytes) (tarindex state : nat) : option (pton_end * bytes * nat * nat) :=
  let targsize := length target in
  match src with
  | [] => Some (EndOfString, target, tarindex, state)
  | ch :: src =>
      if is_space ch then b64_pton_loop src target tarindex state
      else if bool_decide (ch = Pad64) then Some (EndPad src, target, tarindex, state)
      else
        match base64_index ch with
        | None => None
        | Some pos =>
            match state with
            | O =>
                if bool_decide (targsize <= tarindex)%nat then None
                else b64_pton_loop src (set_byte target tarindex (Z.shiftl pos 2)) tarindex 1
            | 1%nat =>
                if bool_decide (targsize <= tarindex + 1)%nat then None
                else
                  let target := or_byte target tarindex (Z.shiftr pos 4) in
                  let target := set_byte target (tarindex + 1) (Z.shiftl (Z.land pos 15) 4) in
                  b64_pton_loop src target (tarindex + 1) 2
            | 2%nat =>
                if bool_decide (targsize <= tarindex + 1)%nat then None
                else
                  let target := or_byte target tarindex (Z.shiftr pos 2) in
                  let target := set_byte target (tarindex + 1) (Z.shiftl (Z.land pos 3) 6) in
                  b64_pton_loop src target (tarindex + 1) 3
            | _ =>
                if bool_decide (targsize <= tarindex)%nat then None
                else b64_pton_loop src (or_byte target tarindex pos) (tarindex + 1) 0
            end
        end
  end.

(** [for (; ch != '\0'; ch = *src++) if (!isspace(ch)) break;] *)
Fixpoint skip_spaces (s : bytes) : bytes :=
  match s with [] => [] | b :: s' => if is_space b then skip_spaces s' else s end.

(** What may follow the first pad character. *)
Definition after_pad (state : nat) (rest : bytes) : bool :=
  match state with
  | 0%nat | 1%nat => false
  | 2%nat => match skip_spaces rest with b :: rest => bool_decide (b = Pad64) && forallb is_space rest | [] => false end
  | _ => forallb is_space rest
  end.

(** The checks after the loop: the number of bytes and the target, or -1. *)
Definition pton_finish (r : option (pton_end * bytes * nat * nat)) : option (nat * bytes) :=
  match r with
  | None => None
  | Some (EndPad rest, target, tarindex, state) =>
      if after_pad state rest && bool_decide (nth tarindex target Byte.x00 = Byte.x00) then Some (tarindex, target) else None
  | Some (EndOfString, target, tarindex, state) => if bool_decide (state = 0%nat) then Some (tarindex, target) else None
  end.

Definition b64_pton (src target : bytes) : option (nat * bytes) := pton_finish (b64_pton_loop src target 0 0).

(** * Theorems *)

(** The characters of the alphabet are found, and are neither spaces nor pads. *)
Lemma alphabet : forallb (fun k => let c := base64_char (Z.of_nat k) in
  bool_decide (base64_index c = Some (Z.of_nat k)) && negb (is_space c) && negb (bool_decide (c = Pad64))) (seq 0 64) = true.
Proof. vm_compute. reflexivity. Qed.

Lemma base64_char_ok o : 0 <= o < 64 ->
  base64_index (base64_char o) = Some o /\ is_space (base64_char o) = false /\ base64_char o <> Pad64.
Proof.
  intros Ho. pose proof (proj1 (forallb_forall _ _) alphabet (Z.to_nat o)) as H. cbv beta zeta in H.
  rewrite Z2Nat.id in H by lia. rewrite !andb_true_iff, !negb_true_iff, bool_decide_eq_true, bool_decide_eq_false in H.
  destruct H as [[H1 H2] H3]; [|done]. apply in_seq. lia.
Qed.

Lemma land_low x k : 0 <= k -> Z.land x (Z.ones k) = x mod 2 ^ k.
Proof. apply Z.land_ones. Qed.

(** The values of a group in terms of its bytes. *)
Lemma outputs i0 i1 i2 :
  output0 i0 = ub i0 / 4 /\ output1 i0 i1 = ub i0 mod 4 * 16 + ub i1 / 16
  /\ output2 i1 i2 = ub i1 mod 16 * 4 + ub i2 / 64 /\ output3 i2 = ub i2 mod 64.
Proof.
  unfold output0, output1, output2, output3. change 3 with (Z.ones 2). change 15 with (Z.ones 4). change 63 with (Z.ones 6).
  rewrite !Z.land_ones, !Z.shiftr_div_pow2, !Z.shiftl_mul_pow2 by lia. done.
Qed.

Lemma outputs_range i0 i1 i2 : 0 <= output0 i0 < 64 /\ 0 <= output1 i0 i1 < 64
  /\ 0 <= output2 i1 i2 < 64 /\ 0 <= output3 i2 < 64.
Proof.
  destruct (outputs i0 i1 i2) as (-> & -> & -> & ->).
  pose proof (ub_range i0). pose proof (ub_range i1). pose proof (ub_range i2). Z.to_euclidean_division_equations; lia.
Qed.

(** Putting the halves of a byte together. *)
Lemma join_byte b k : 0 <= k < 8 -> bz (Z.lor (ub (bz (Z.shiftl (ub b / 2 ^ k) k))) (ub b mod 2 ^ k)) = b.
Proof.
  intros Hk. pose proof (ub_range b) as Hb. pose proof (Z.mod_pos_bound (ub b) (2 ^ k) ltac:(lia)).
  pose proof (Z.div_mod (ub b) (2 ^ k) ltac:(lia)) as Hd. apply ub_inj. rewrite !ub_bz.
  rewrite Z.shiftl_mul_pow2 by lia. assert (0 <= ub b / 2 ^ k) by (apply Z.div_pos; lia).
  rewrite (Z.mod_small (ub b / 2 ^ k * 2 ^ k)) by lia.
  rewrite <-Z.shiftl_mul_pow2, lor_shiftl_add, Z.mul_comm, <-Hd by lia. by apply Z.mod_small.
Qed.

(** Writes in a target that is known around the place. *)
Lemma set_here pre x post v : set_byte (pre ++ x :: post) (length pre) v = pre ++ bz v :: post.
Proof. unfold set_byte. by rewrite insert_app_r_alt, Nat.sub_diag by lia. Qed.
Lemma set_next pre x y post v : set_byte (pre ++ x :: y :: post) (length pre + 1) v = pre ++ x :: bz v :: post.
Proof. unfold set_byte. rewrite insert_app_r_alt by lia. by replace (length pre + 1 - length pre)%nat with 1%nat by lia. Qed.
Lemma or_here pre x post v : or_byte (pre ++ x :: post) (length pre) v = pre ++ bz (Z.lor (ub x) v) :: post.
Proof. unfold or_byte. rewrite app_nth2, Nat.sub_diag by lia. apply set_here. Qed.

(** One character in each state. *)
Lemma read_char o src target ti st : 0 <= o < 64 -> b64_pton_loop (base64_char o :: src) target ti st =
  match st with
  | O => if bool_decide (length target <= ti)%nat then None
         else b64_pton_loop src (set_byte target ti (Z.shiftl o 2)) ti 1
  | 1%nat => if bool_decide (length target <= ti + 1)%nat then None
         else b64_pton_loop src (set_byte (or_byte target ti (Z.shiftr o 4)) (ti + 1) (Z.shiftl (Z.land o 15) 4)) (ti + 1) 2
  | 2%nat => if bool_decide (length target <= ti + 1)%nat then None
         else b64_pton_loop src (set_byte (or_byte target ti (Z.shiftr o 2)) (ti + 1) (Z.shiftl (Z.land o 3) 6)) (ti + 1) 3
  | _ => if bool_decide (length target <= ti)%nat then None
         else b64_pton_loop src (or_byte target ti o) (ti + 1) 0
  end.
Proof.
  intros Ho. destruct (base64_char_ok o Ho) as (Hi & Hs & Hp). cbn [b64_pton_loop].
  rewrite Hs, Hi, bool_decide_false by done. reflexivity.
Qed.

Section Group.
Context (i0 i1 i2 : byte).

(** The bytes that the four characters leave. *)
Lemma first_byte : bz (Z.lor (ub (bz (Z.shiftl (output0 i0) 2))) (Z.shiftr (output1 i0 i1) 4)) = i0.
Proof.
  destruct (outputs i0 i1 i2) as (-> & -> & _). rewrite Z.shiftr_div_pow2 by lia.
  replace ((ub i0 mod 4 * 16 + ub i1 / 16) / 2 ^ 4) with (ub i0 mod 2 ^ 2); [by apply (join_byte i0 2)|].
  pose proof (ub_range i1). change (2 ^ 4) with 16. change (2 ^ 2) with 4. Z.to_euclidean_division_equations; lia.
Qed.

Lemma second_half : Z.land (output1 i0 i1) 15 = ub i1 / 2 ^ 4.
Proof.
  destruct (outputs i0 i1 i2) as (_ & -> & _). change 15 with (Z.ones 4). rewrite Z.land_ones by lia.
  pose proof (ub_range i1). change (2 ^ 4) with 16. Z.to_euclidean_division_equations; lia.
Qed.

Lemma second_byte : bz (Z.lor (ub (bz (Z.shiftl (Z.land (output1 i0 i1) 15) 4))) (Z.shiftr (output2 i1 i2) 2)) = i1.
Proof.
  rewrite second_half. destruct (outputs i0 i1 i2) as (_ & _ & -> & _). rewrite Z.shiftr_div_pow2 by lia.
  replace ((ub i1 mod 16 * 4 + ub i2 / 64) / 2 ^ 2) with (ub i1 mod 2 ^ 4); [by apply (join_byte i1 4)|].
  pose proof (ub_range i2). change (2 ^ 4) with 16. change (2 ^ 2) with 4. Z.to_euclidean_division_equations; lia.
Qed.

Lemma third_byte : bz (Z.lor (ub (bz (Z.shiftl (Z.land (output2 i1 i2) 3) 6))) (output3 i2)) = i2.
Proof.
  destruct (outputs i0 i1 i2) as (_ & _ & -> & ->). change 3 with (Z.ones 2). rewrite Z.land_ones by lia.
  replace ((ub i1 mod 16 * 4 + ub i2 / 64) mod 2 ^ 2) with (ub i2 / 2 ^ 6); [by apply (join_byte i2 6)|].
  pose proof (ub_range i2). change (2 ^ 6) with 64. change (2 ^ 2) with 4. Z.to_euclidean_division_equations; lia.
Qed.

(** The characters of a group, up to the one that completes the second and the
    third byte. *)
Lemma read_two src pre x0 x1 post :
  b64_pton_loop (base64_char (output0 i0) :: base64_char (output1 i0 i1) :: src) (pre ++ x0 :: x1 :: post) (length pre) 0
  = b64_pton_loop src ((pre ++ [i0]) ++ bz (Z.shiftl (Z.land (output1 i0 i1) 15) 4) :: post) (length (pre ++ [i0])) 2.
Proof.
  destruct (outputs_range i0 i1 i2) as (H0 & H1 & _). rewrite read_char by done.
  rewrite bool_decide_false by (rewrite length_app; cbn [length]; lia). rewrite set_here, read_char by done.
  rewrite bool_decide_false by (rewrite length_app; cbn [length]; lia).
  rewrite or_here, set_next, first_byte, length_app, <-app_assoc. done.
Qed.

Lemma read_third src pre post y :
  b64_pton_loop (base64_char (output2 i1 i2) :: src) (pre ++ bz (Z.shiftl (Z.land (output1 i0 i1) 15) 4) :: y :: post) (length pre) 2
  = b64_pton_loop src ((pre ++ [i1]) ++ bz (Z.shiftl (Z.land (output2 i1 i2) 3) 6) :: post) (length (pre ++ [i1])) 3.
Proof.
  destruct (outputs_range i0 i1 i2) as (_ & _ & H2 & _). rewrite read_char by done.
  rewrite bool_decide_false by (rewrite length_app; cbn [length]; lia).
  rewrite or_here, set_next, second_byte, length_app, <-app_assoc. done.
Qed.

Lemma read_fourth src pre post :
  b64_pton_loop (base64_char (output3 i2) :: src) (pre ++ bz (Z.shiftl (Z.land (output2 i1 i2) 3) 6) :: post) (length pre) 3
  = b64_pton_loop src ((pre ++ [i2]) ++ post) (length (pre ++ [i2])) 0.
Proof.
  destruct (outputs_range i0 i1 i2) as (_ & _ & _ & H3). rewrite read_char by done.
  rewrite bool_decide_false by (rewrite length_app; cbn [length]; lia).
  rewrite or_here, third_byte, length_app, <-app_assoc. done.
Qed.

End Group.

(** The target that [n] bytes need: an unfinished group writes to one byte more. *)
Definition room (n : nat) : nat := if bool_decide (n mod 3 = 0)%nat then n else S n.

Lemma room_group n : room (S (S (S n))) = S (S (S (room n))).
Proof.
  unfold room. replace (S (S (S n))) with (n + 1 * 3)%nat by lia. rewrite Nat.Div0.mod_add.
  case_bool_decide; lia.
Qed.

Lemma room_ge n : (n <= room n)%nat.
Proof. unfold room. case_bool_decide; lia. Qed.

(** [e] decodes to [src], wherever it is written. *)
Definition decodes (src e : bytes) : Prop := forall pre post, (room (length src) <= length post)%nat -> exists r,
  pton_finish (b64_pton_loop e (pre ++ post) (length pre) 0) = Some (length pre + length src, pre ++ src ++ r)%nat
  /\ length r = (length post - length src)%nat.

Lemma decodes_nil : decodes [] [].
Proof. intros pre post _. exists post. cbn. rewrite Nat.add_0_r. split; [done|lia]. Qed.

Lemma decodes_group i0 i1 i2 src e : decodes src e -> decodes (i0 :: i1 :: i2 :: src)
  ([base64_char (output0 i0); base64_char (output1 i0 i1); base64_char (output2 i1 i2); base64_char (output3 i2)] ++ e).
Proof.
  intros D pre post Hl. cbn [length] in Hl. rewrite room_group in Hl. destruct post as [|x0 [|x1 [|x2 post]]]; cbn [length] in Hl; try lia. cbn [app].
  rewrite read_two, read_third, read_fourth by done. rewrite <-!app_assoc. cbn [app].
  destruct (D (pre ++ [i0; i1; i2]) post ltac:(lia)) as (r & Hr & Hlen). exists r. rewrite !length_app in *. cbn [length] in *.
  rewrite <-!app_assoc in Hr. cbn [app] in Hr. rewrite Hr. split; [do 2 f_equal; lia|lia].
Qed.

Lemma decodes_two i0 i1 :
  decodes [i0; i1] [base64_char (output0 i0); base64_char (output1 i0 i1); base64_char (output2 i1 Byte.x00); Pad64].
Proof.
  intros pre post Hl. change (room _) with 3%nat in Hl. destruct post as [|x0 [|x1 [|x2 post]]]; cbn [length] in Hl; try lia.
  rewrite (read_two i0 i1 Byte.x00), read_third. cbn [b64_pton_loop]. exists (bz (Z.shiftl (Z.land (output2 i1 Byte.x00) 3) 6) :: post).
  assert (Z.shiftl (Z.land (output2 i1 Byte.x00) 3) 6 = 0) as ->.
  { destruct (outputs i0 i1 Byte.x00) as (_ & _ & -> & _). change 3 with (Z.ones 2). rewrite Z.land_ones, Z.shiftl_mul_pow2 by lia.
    change (ub Byte.x00 / 64) with 0. rewrite Z.add_0_r. change 4 with (2 ^ 2). by rewrite Z.mod_mul by lia. }
  change (is_space Pad64) with false. rewrite bool_decide_true by done. cbn [pton_finish after_pad forallb andb].
  rewrite app_nth2, Nat.sub_diag, !length_app by lia. cbn [nth length]. rewrite bool_decide_true by done.
  rewrite <-!app_assoc. split; [do 2 f_equal; lia|lia].
Qed.

Lemma decodes_one i0 :
  decodes [i0] [base64_char (output0 i0); base64_char (output1 i0 Byte.x00); Pad64; Pad64].
Proof.
  intros pre post Hl. change (room _) with 2%nat in Hl. destruct post as [|x0 [|x1 post]]; cbn [length] in Hl; try lia.
  rewrite (read_two i0 Byte.x00 Byte.x00). cbn [b64_pton_loop]. exists (bz (Z.shiftl (Z.land (output1 i0 Byte.x00) 15) 4) :: post).
  rewrite (second_half i0 Byte.x00 Byte.x00). change (Z.shiftl (ub Byte.x00 / 2 ^ 4) 4) with 0.
  change (is_space Pad64) with false. rewrite bool_decide_true by done. cbn [pton_finish after_pad skip_spaces].
  change (is_space Pad64) with false. cbn [forallb andb]. rewrite bool_decide_true by done. cbn [andb].
  rewrite app_nth2, Nat.sub_diag, !length_app by lia. cbn [nth length]. rewrite bool_decide_true by done.
  rewrite <-!app_assoc. split; [do 2 f_equal; lia|lia].
Qed.

Lemma ntop_loop_decodes k : forall src acc ts text, (length src < k)%nat -> b64_ntop_loop src acc ts = Some text ->
  exists e, text = acc ++ e /\ decodes src e.
Proof.
  induction k as [|k IH]; intros src acc ts text Hk; [lia|].
  destruct src as [|i0 [|i1 [|i2 src]]]; cbn [b64_ntop_loop].
  - intros [= <-]. exists []. rewrite app_nil_r. split; [done|apply decodes_nil].
  - case_bool_decide; [done|]. intros [= <-]. eexists. split; [done|apply decodes_one].
  - case_bool_decide; [done|]. intros [= <-]. eexists. split; [done|apply decodes_two].
  - case_bool_decide; [done|]. intros Hr. apply IH in Hr as (e & -> & D); [|cbn in Hk; lia].
    eexists. rewrite <-app_assoc. split; [done|by apply decodes_group].
Qed.

(** *** The characters of a text *)

Definition plain (c : byte) : Prop := is_space c = false /\ c <> Byte.x00.

Lemma alphabet_plain o : 0 <= o < 64 -> plain (base64_char o).
Proof.
  intros Ho. split; [by apply base64_char_ok|]. intros H. pose proof (proj1 (base64_char_ok o Ho)) as Hi.
  rewrite H in Hi. vm_compute in Hi. discriminate Hi.
Qed.

Lemma ntop_loop_text k : forall src acc ts text, (length src < k)%nat -> b64_ntop_loop src acc ts = Some text ->
  exists e, text = acc ++ e /\ Forall plain e /\ length e = (4 * ((length src + 2) / 3))%nat.
Proof.
  assert (plain Pad64) as Hpad by done.
  induction k as [|k IH]; intros src acc ts text Hk; [lia|].
  destruct src as [|i0 [|i1 [|i2 src]]]; cbn [b64_ntop_loop].
  - intros [= <-]. exists []. by rewrite app_nil_r.
  - case_bool_decide; [done|]. intros [= <-]. eexists. split; [done|]. split; [|done].
    destruct (outputs_range i0 Byte.x00 Byte.x00) as (H0 & H1 & _).
    repeat (apply Forall_cons; split; [by try apply alphabet_plain|]). constructor.
  - case_bool_decide; [done|]. intros [= <-]. eexists. split; [done|]. split; [|done].
    destruct (outputs_range i0 i1 Byte.x00) as (H0 & H1 & H2 & _).
    repeat (apply Forall_cons; split; [by try apply alphabet_plain|]). constructor.
  - case_bool_decide; [done|]. intros Hr. apply IH in Hr as (e & -> & He & Hl); [|cbn in Hk; lia].
    eexists. rewrite <-app_assoc. split; [done|]. destruct (outputs_range i0 i1 i2) as (H0 & H1 & H2 & H3). split.
    + apply Forall_app. split; [|done]. repeat (apply Forall_cons; split; [by apply alphabet_plain|]). constructor.
    + rewrite length_app, Hl. cbn [length]. replace (S (S (S (length src))) + 2)%nat with ((length src + 2) + 1 * 3)%nat by lia.
      rewrite Nat.div_add by lia. lia.
Qed.

(** All that is known of an encoding. *)
Lemma ntop_text src targsize text : b64_ntop src targsize = Some text ->
  decodes src text /\ Forall plain text /\ length text = (4 * ((length src + 2) / 3))%nat.
Proof.
  unfold b64_ntop. destruct (b64_ntop_loop src [] targsize) as [e|] eqn:He; [|done]. case_bool_decide; [done|]. intros [= <-].
  destruct (ntop_loop_decodes (S (length src)) src [] targsize e) as (e1 & -> & D); [lia|done|].
  destruct (ntop_loop_text (S (length src)) src [] targsize ([] ++ e1)) as (e2 & H2 & Hp & Hl); [lia|done|].
  cbn [app] in *. by subst e2.
Qed.

(** [b64_ntop] fails exactly when there is no room for the text and its NUL. *)
Lemma ntop_loop_fits k : forall src acc ts, (length src < k)%nat ->
  (length acc + 4 * ((length src + 2) / 3) <= ts)%nat -> b64_ntop_loop src acc ts <> None.
Proof.
  induction k as [|k IH]; intros src acc ts Hk Hl; [lia|].
  destruct src as [|i0 [|i1 [|i2 src]]]; cbn [b64_ntop_loop]; [done|..]; cbn [length] in *.
  - change ((1 + 2) / 3)%nat with 1%nat in Hl. by rewrite bool_decide_false by lia.
  - change ((2 + 2) / 3)%nat with 1%nat in Hl. by rewrite bool_decide_false by lia.
  - replace (S (S (S (length src))) + 2)%nat with ((length src + 2) + 1 * 3)%nat in Hl by lia.
    rewrite Nat.div_add in Hl by lia. rewrite bool_decide_false by lia.
    apply IH; [lia|]. rewrite length_app. cbn [length]. lia.
Qed.

Lemma ntop_fits src targsize : (4 * ((length src + 2) / 3) < targsize)%nat <-> b64_ntop src targsize <> None.
Proof.
  unfold b64_ntop. pose proof (ntop_loop_fits (S (length src)) src [] targsize) as Hf. cbn [length] in Hf.
  destruct (b64_ntop_loop src [] targsize) as [e|] eqn:He.
  - destruct (ntop_loop_text (S (length src)) src [] targsize e) as (e' & -> & _ & Hl); [lia|done|].
    cbn [app]. case_bool_decide; split; try done; lia.
  - split; [|done]. intros H. by destruct Hf; [lia..|].
Qed.

(** *** White space *)

Definition strip (s : bytes) : bytes := filter (fun c => is_space c = false) s.

Lemma strip_cons c s : strip (c :: s) = if is_space c then strip s else c :: strip s.
Proof.
  unfold strip. destruct (is_space c) eqn:E; [by rewrite filter_cons_False by congruence|by rewrite filter_cons_True].
Qed.

Lemma strip_blank s : forallb is_space (strip s) = forallb is_space s.
Proof.
  induction s as [|c s IH]; [done|]. rewrite strip_cons. cbn [forallb].
  destruct (is_space c) eqn:E; [done|]. cbn [forallb]. by rewrite E.
Qed.

Lemma strip_skip s : skip_spaces (strip s) = strip (skip_spaces s).
Proof.
  induction s as [|c s IH]; [done|]. rewrite strip_cons. cbn [skip_spaces].
  destruct (is_space c) eqn:E; [done|]. rewrite strip_cons, E. cbn [skip_spaces]. by rewrite E.
Qed.

Lemma skip_head s c s' : skip_spaces s = c :: s' -> is_space c = false.
Proof. induction s as [|b s IH]; cbn [skip_spaces]; [done|]. destruct (is_space b) eqn:E; [done|]. by intros [= <- _]. Qed.

Lemma after_pad_strip state s : after_pad state (strip s) = after_pad state s.
Proof.
  destruct state as [|[|[|state]]]; cbn [after_pad]; [done|done| |apply strip_blank].
  rewrite strip_skip. destruct (skip_spaces s) as [|c s'] eqn:E; [done|].
  rewrite strip_cons, (skip_head _ _ _ E). by rewrite strip_blank.
Qed.

(** Decoding does not see white space. *)
Lemma pton_strip s : forall target ti st,
  pton_finish (b64_pton_loop (strip s) target ti st) = pton_finish (b64_pton_loop s target ti st).
Proof.
  induction s as [|c s IH]; intros target ti st; [done|]. rewrite strip_cons. cbn [b64_pton_loop].
  destruct (is_space c) eqn:E; [apply IH|]. cbn [b64_pton_loop]. rewrite E.
  case_bool_decide; [cbn [pton_finish]; by rewrite after_pad_strip|].
  destruct (base64_index c) as [pos|]; [|done].
  destruct st as [|[|[|st]]]; case_bool_decide; done || apply IH.
Qed.

Lemma strip_plain s : Forall plain s -> strip s = s.
Proof. induction 1 as [|c s [Hc _] _ IH]; [done|]. by rewrite strip_cons, Hc, IH. Qed.

(** C40: What [b64_ntop] encodes, when there is room for the text and its NUL
    (it fails exactly when there is not), [b64_pton] decodes, whatever white
    space is put into the text, anywhere, into any target that has room for the
    bytes, and for one more when the last group is not full; it returns the
    number of bytes. *)
Theorem base64_roundtrip src targsize :
  ((4 * ((length src + 2) / 3) < targsize)%nat <-> b64_ntop src targsize <> None) /\
  forall text text' target, b64_ntop src targsize = Some text -> strip text' = text ->
    (room (length src) <= length target)%nat ->
    exists target', b64_pton text' target = Some (length src, target') /\ take (length src) target' = src
      /\ length target' = length target.
Proof.
  split; [apply ntop_fits|]. intros text text' target He Hs Hl.
  destruct (ntop_text _ _ _ He) as (D & _ & _). destruct (D [] target Hl) as (r & Hr & Hlen).
  exists (src ++ r). split; [|split; [by rewrite take_app_length|]].
  - unfold b64_pton. rewrite <-pton_strip, Hs. exact Hr.
  - rewrite length_app. pose proof (room_ge (length src)). lia.
Qed.

(** A text with a space, a tab and a line end in it, its padding included. *)
Definition spaced : bytes := lit "YW RiZA=" ++ [Byte.x09] ++ lit "=" ++ [Byte.x0a].

Lemma base64_roundtrip_witness : exists target', b64_pton spaced (repeat Byte.x00 5) = Some (4%nat, target')
  /\ take 4 target' = lit "adbd".
Proof.
  destruct (proj2 (base64_roundtrip (lit "adbd") 9) (lit "YWRiZA==") spaced (repeat Byte.x00 5)
    ltac:(vm_compute; reflexivity) ltac:(vm_compute; reflexivity) ltac:(vm_compute; lia)) as (target' & H1 & H2 & _).
  exists target'. exact (conj H1 H2).
Defined.
