(* ===== verification/Rwx.v ===== *)
(** * Reading and writing file descriptors

    The descriptors behind a transport are streams: the operating system
    decides how many bytes each [read] or [write] transfers, may interrupt the
    call and may fail it.  [fdio] is the state of such a descriptor, its
    schedule of answers included; the loops of transport.c ([readx], [writex],
    [read_packet], [write_packet]) and of usb_linux_client.c ([bulk_read],
    [bulk_write]) run against any schedule.  [Wire] is the interface that the
    packet layer uses, with one instance per kind of transport. *)

From S2P Require Import Prelude.

(** ** Descriptors *)

Inductive errno := EINTR | EAGAIN | EIO.
#[export] Instance errno_eq_dec : EqDecision errno.
Proof. solve_decision. Defined.

(** One answer of the operating system: transfer at most [S n] bytes, or fail. *)
Inductive os_event := Xfer (n : nat) | Fail (e : errno).

Record fdio := Fdio {
  io_in : bytes;             (* what a read returns next *)
  io_out : bytes;            (* what was written *)
  io_evs : list os_event;    (* how the next calls go *)
  io_calls : list nat        (* lengths of the writes made, the last one first *)
}.

(** [TEMP_FAILURE_RETRY]: interrupted calls are made again. *)
Fixpoint temp_failure_retry (evs : list os_event) : option (os_event * list os_event) :=
  match evs with
  | [] => None
  | Fail EINTR :: evs => temp_failure_retry evs
  | e :: evs => Some (e, evs)
  end.

Inductive got := RGot (bs : bytes) | RErr (e : errno).
Inductive put := WPut (n : nat) | WErr (e : errno).

(** The length of a transfer of at most [S n] bytes out of [len]. *)
Definition xfer_len (n len : nat) : nat := Nat.min (S n) len.

Definition adb_read (f : fdio) (len : nat) : res (got * fdio) :=
  match temp_failure_retry (io_evs f) with
  | None => Blocked
  | Some (Fail e, evs) => Ok (RErr e, Fdio (io_in f) (io_out f) evs (io_calls f))
  | Some (Xfer n, evs) =>
      let k := xfer_len n len in
      Ok (RGot (take k (io_in f)), Fdio (drop k (io_in f)) (io_out f) evs (io_calls f))
  end.

(** [adb_write(fd, p, len)] where [bs] are the [len] bytes at [p]. *)
Definition adb_write (f : fdio) (bs : bytes) : res (put * fdio) :=
  match temp_failure_retry (io_evs f) with
  | None => Blocked
  | Some (Fail e, evs) =>
      Ok (WErr e, Fdio (io_in f) (io_out f) evs (length bs :: io_calls f))
  | Some (Xfer n, evs) =>
      let k := xfer_len n (length bs) in
      Ok (WPut k, Fdio (io_in f) (io_out f ++ take k bs) evs (length bs :: io_calls f))
  end.

(** ** The loops of transport.c *)

(** Every iteration uses an answer of the system, so that the number of
    answers bounds the number of iterations. *)
Definition io_fuel (f : fdio) : nat := S (length (io_evs f)).

Fixpoint readx_loop (fuel : nat) (f : fdio) (len : nat) (buf : bytes) : res (Z * bytes * fdio) :=
  match fuel with
  | O => Blocked
  | S fuel =>
      if bool_decide (len = 0%nat) then Ok (0, buf, f)
      else
        let* ' (r, f) := adb_read f len in
        match r with
        | RGot [] => Ok (-1, buf, f)
        | RGot bs => readx_loop fuel f (len - length bs) (buf ++ bs)
        | RErr EINTR => readx_loop fuel f len buf
        | RErr _ => Ok (-1, buf, f)
        end
  end.

Definition readx (f : fdio) (len : nat) : res (Z * bytes * fdio) :=
  readx_loop (io_fuel f) f len [].

Definition SYNC_DATA_MAX : nat := 450.
Definition maxnum : nat := SYNC_DATA_MAX + 20.

(** The two loops of [writex]: full chunks while more than [maxnum] bytes are
    left, then the rest. *)
Fixpoint writex_chunks (fuel : nat) (f : fdio) (p : bytes) : res (option Z * bytes * fdio) :=
  match fuel with
  | O => Blocked
  | S fuel =>
      if bool_decide (length p <= maxnum)%nat then Ok (None, p, f)
      else
        let* ' (r, f) := adb_write f (take maxnum p) in
        match r with
        | WPut O => Ok (Some (-1), p, f)
        | WPut k => writex_chunks fuel f (drop k p)
        | WErr EINTR => writex_chunks fuel f p
        | WErr _ => Ok (Some (-1), p, f)
        end
  end.

Fixpoint writex_rest (fuel : nat) (f : fdio) (p : bytes) : res (Z * fdio) :=
  match fuel with
  | O => Blocked
  | S fuel =>
      if bool_decide (p = []) then Ok (0, f)
      else
        let* ' (r, f) := adb_write f p in
        match r with
        | WPut O => Ok (-1, f)
        | WPut k => writex_rest fuel f (drop k p)
        | WErr EINTR => writex_rest fuel f p
        | WErr _ => Ok (-1, f)
        end
  end.

Definition writex (f : fdio) (p : bytes) : res (Z * fdio) :=
  let* ' (r, p, f) := writex_chunks (io_fuel f) f p in
  match r with
  | Some r => Ok (r, f)
  | None => writex_rest (io_fuel f) f p
  end.

(** [read_packet] and [write_packet] move the address of a packet over the
    socket pair between the main thread and the threads of a transport. *)
Definition sizeof_ptr : nat := 4.
Definition ptr_bytes (p : Z) : bytes := le32 p.

Definition read_packet (f : fdio) : res (option Z * fdio) :=
  let* ' (r, buf, f) := readx_loop (io_fuel f) f sizeof_ptr [] in
  match buf with
  | [b0; b1; b2; b3] => Ok (if bool_decide (r = 0) then Some (of_le32 b0 b1 b2 b3) else None, f)
  | _ => Ok (None, f)
  end.

Definition write_packet (f : fdio) (p : Z) : res (Z * fdio) :=
  writex_rest (io_fuel f) f (ptr_bytes p).

(** ** The loops of usb_linux_client.c *)

(** [bulk_read] does not look for the end of the stream: a read that returns
    nothing is made again. *)
Fixpoint bulk_read_loop (fuel : nat) (f : fdio) (len : nat) (buf : bytes)
    : res (Z * bytes * fdio) :=
  match fuel with
  | O => Blocked
  | S fuel =>
      let* ' (r, f) := adb_read f (len - length buf) in
      let next (buf : bytes) :=
        if bool_decide (length buf < len)%nat then bulk_read_loop fuel f len buf
        else Ok (Z.of_nat (length buf), buf, f) in
      match r with
      | RGot bs => next (buf ++ bs)
      | RErr EINTR => next buf
      | RErr _ => Ok (-1, buf, f)
      end
  end.

Definition bulk_read (f : fdio) (len : nat) : res (Z * bytes * fdio) :=
  bulk_read_loop (io_fuel f) f len [].

Fixpoint bulk_write_loop (fuel : nat) (f : fdio) (p : bytes) (count : nat) : res (Z * fdio) :=
  match fuel with
  | O => Blocked
  | S fuel =>
      let* ' (r, f) := adb_write f (drop count p) in
      let next (count : nat) :=
        if bool_decide (count < length p)%nat then bulk_write_loop fuel f p count
        else Ok (Z.of_nat count, f) in
      match r with
      | WPut k => next (count + k)%nat
      | WErr EINTR => next count
      | WErr _ => Ok (-1, f)
      end
  end.

Definition bulk_write (f : fdio) (p : bytes) : res (Z * fdio) :=
  bulk_write_loop (io_fuel f) f p 0.

Definition usb_ffs_read (f : fdio) (len : nat) : res (Z * bytes * fdio) :=
  let* ' (n, buf, f) := bulk_read f len in
  Ok (if bool_decide (n = Z.of_nat len) then 0 else -1, buf, f).

Definition usb_ffs_write (f : fdio) (p : bytes) : res (Z * fdio) :=
  let* ' (n, f) := bulk_write f p in
  Ok (if bool_decide (n = Z.of_nat (length p)) then 0 else -1, f).

(** ** What the schedule grants *)

(** The number of transfers before the first failure other than an
    interruption. *)
Fixpoint willing (evs : list os_event) : nat :=
  match evs with
  | [] => 0
  | Xfer _ :: evs => S (willing evs)
  | Fail EINTR :: evs => willing evs
  | Fail _ :: _ => 0
  end.

(** [f'] is [f] after bytes moved: [i] were read and [o] written, at the cost
    of at most as many answers. *)
Record moved (f f' : fdio) (i o : bytes) : Prop := Moved {
  mv_in : io_in f = i ++ io_in f';
  mv_out : io_out f' = io_out f ++ o;
  mv_will : (willing (io_evs f) <= willing (io_evs f') + length i + length o)%nat
}.

(** ** The interface of the packet layer

    Both kinds of transport promise the same thing: all the bytes, in order,
    or an error. *)
Class Wire := {
  wire_read : fdio -> nat -> res (Z * bytes * fdio);
  wire_write : fdio -> bytes -> res (Z * fdio)
}.

Class WireLaws (W : Wire) := {
  wire_read_complete f len : (0 < len)%nat -> (len <= length (io_in f))%nat ->
    (len <= willing (io_evs f))%nat ->
    exists f', wire_read f len = Ok (0, take len (io_in f), f')
      /\ moved f f' (take len (io_in f)) [];
  wire_read_sound f len r buf f' : (0 < len)%nat -> wire_read f len = Ok (r, buf, f') ->
    io_in f = buf ++ io_in f' /\ io_out f' = io_out f
    /\ (r = 0 /\ length buf = len \/ r = -1 /\ (length buf < len)%nat);
  wire_write_complete f p : p <> [] -> (length p <= willing (io_evs f))%nat ->
    exists f', wire_write f p = Ok (0, f') /\ moved f f' [] p;
  wire_write_sound f p r f' : p <> [] -> wire_write f p = Ok (r, f') ->
    io_in f' = io_in f /\ exists k, (k <= length p)%nat /\ io_out f' = io_out f ++ take k p
    /\ (r = 0 /\ k = length p \/ r = -1 /\ (k < length p)%nat)
}.

#[export] Instance socket_wire : Wire := {| wire_read := readx; wire_write := writex |}.
Definition usb_wire : Wire := {| wire_read := usb_ffs_read; wire_write := usb_ffs_write |}.

(** * Theorems *)

Lemma retry_some evs e evs' : temp_failure_retry evs = Some (e, evs') ->
  e <> Fail EINTR /\ (length evs' < length evs)%nat
  /\ (forall n, e = Xfer n -> willing evs = S (willing evs'))
  /\ (forall x, e = Fail x -> willing evs = 0%nat).
Proof.
  induction evs as [|[n|[]] evs IH]; cbn; intros H; simplify_eq;
    [by repeat split; intros; try discriminate; simplify_eq; lia| |
     by repeat split; intros; try discriminate; simplify_eq; lia..].
  destruct (IH H) as (? & ? & ? & ?). repeat split; auto; lia.
Qed.

Lemma retry_willing evs : (0 < willing evs)%nat ->
  exists n evs', temp_failure_retry evs = Some (Xfer n, evs') /\ willing evs = S (willing evs').
Proof.
  induction evs as [|[n|[]] evs IH]; cbn; intros H; try lia; eauto.
Qed.

Lemma moved_refl f : moved f f [] [].
Proof. split; cbn; [done|by rewrite app_nil_r|lia]. Qed.

Lemma moved_trans f1 f2 f3 i1 o1 i2 o2 :
  moved f1 f2 i1 o1 -> moved f2 f3 i2 o2 -> moved f1 f3 (i1 ++ i2) (o1 ++ o2).
Proof.
  intros [A B C] [A' B' C']. split.
  - by rewrite A, A', app_assoc.
  - by rewrite B', B, app_assoc.
  - rewrite !length_app. lia.
Qed.

Lemma xfer_len_range n len : (xfer_len n len <= len)%nat /\ (0 < len -> 0 < xfer_len n len)%nat.
Proof. unfold xfer_len. lia. Qed.

(** *** One call *)

(** What a read may answer. *)
Lemma adb_read_cases f len r f' : adb_read f len = Ok (r, f') ->
  (length (io_evs f') < length (io_evs f))%nat /\ io_out f' = io_out f /\
  match r with
  | RErr e => e <> EINTR /\ io_in f' = io_in f
  | RGot bs => io_in f = bs ++ io_in f' /\ (length bs <= len)%nat
  end.
Proof.
  unfold adb_read. destruct (temp_failure_retry _) as [[[n|e] evs]|] eqn:E; [..|done];
    apply retry_some in E as (He & Hl & _); intros [= <- <-]; cbn [io_in io_out io_evs];
    (split; [lia|]); (split; [done|]).
  - rewrite take_drop. split; [done|]. rewrite length_take. pose proof (xfer_len_range n len). lia.
  - split; congruence.
Qed.

Lemma adb_write_cases f p r f' : adb_write f p = Ok (r, f') ->
  (length (io_evs f') < length (io_evs f))%nat /\ io_in f' = io_in f /\
  io_calls f' = length p :: io_calls f /\
  match r with
  | WErr e => e <> EINTR /\ io_out f' = io_out f
  | WPut k => io_out f' = io_out f ++ take k p /\ (k <= length p)%nat
              /\ (p <> [] -> 0 < k)%nat
  end.
Proof.
  unfold adb_write. destruct (temp_failure_retry _) as [[[n|e] evs]|] eqn:E; [..|done];
    apply retry_some in E as (He & Hl & _); intros [= <- <-]; cbn [io_in io_out io_evs io_calls];
    (split; [lia|]); (split; [done|]); (split; [done|]).
  - split; [done|]. pose proof (xfer_len_range n (length p)) as [? Hp]. split; [lia|].
    intros Hne. apply Hp. destruct p; simpl; [done|lia].
  - split; congruence.
Qed.

(** *** Calls that are answered

    A schedule that ends in an error is never exhausted before it. *)
Definition answering (f : fdio) : Prop := exists l, io_evs f = l ++ [Fail EAGAIN].

(** The transfers of a schedule bound the iterations of the loops. *)
Fixpoint xfers (evs : list os_event) : nat :=
  match evs with
  | [] => 0
  | Xfer _ :: evs => S (xfers evs)
  | Fail _ :: evs => xfers evs
  end.

Lemma xfers_length evs : (xfers evs <= length evs)%nat.
Proof. induction evs as [|[] evs IH]; cbn; lia. Qed.

Lemma xfers_snoc evs e : xfers (evs ++ [Fail e]) = xfers evs.
Proof. induction evs as [|[] evs IH]; cbn; auto. Qed.

Lemma retry_answering l : exists e evs, temp_failure_retry (l ++ [Fail EAGAIN]) = Some (e, evs)
  /\ (xfers evs <= xfers l)%nat /\ (forall n, e = Xfer n -> xfers l = S (xfers evs))
  /\ (e = Fail EAGAIN \/ exists l', evs = l' ++ [Fail EAGAIN]).
Proof.
  induction l as [|[n|[]] l IH]; cbn.
  - eexists _, []. split_and!; [done|done|done|by left].
  - eexists _, _. split_and!; [done|rewrite xfers_snoc; lia|by rewrite xfers_snoc|right; by eexists].
  - done.
  - eexists _, _. split_and!; [done|by rewrite xfers_snoc|done|by left].
  - eexists _, _. split_and!; [done|by rewrite xfers_snoc|done|right; by eexists].
Qed.

Lemma adb_write_answering f p : answering f -> exists r f', adb_write f p = Ok (r, f') /\
  match r with
  | WPut _ => answering f' /\ (xfers (io_evs f') < xfers (io_evs f))%nat
  | WErr e => e <> EINTR
  end.
Proof.
  intros [l Hl]. destruct (retry_answering l) as (e & evs & He & Hx & Hn & Ha).
  destruct (retry_some _ _ _ He) as [Hi _]. unfold adb_write. rewrite Hl, He, xfers_snoc.
  destruct e as [n|e]; eexists _, _; (split; [reflexivity|]); cbn.
  - destruct Ha as [?|[l' ->]]; [done|]. rewrite (Hn n eq_refl), xfers_snoc. split; [by eexists|lia].
  - congruence.
Qed.

Lemma adb_read_answering f len : answering f -> exists r f', adb_read f len = Ok (r, f') /\
  match r with
  | RGot bs => (length bs <= len)%nat /\ answering f' /\ (xfers (io_evs f') < xfers (io_evs f))%nat
  | RErr e => e <> EINTR
  end.
Proof.
  intros [l Hl]. destruct (retry_answering l) as (e & evs & He & Hx & Hn & Ha).
  destruct (retry_some _ _ _ He) as [Hi _]. unfold adb_read. rewrite Hl, He, xfers_snoc.
  destruct e as [n|e]; eexists _, _; (split; [reflexivity|]); cbn.
  - pose proof (xfer_len_range n len). rewrite length_take. split; [lia|].
    destruct Ha as [?|[l' ->]]; [done|]. rewrite (Hn n eq_refl), xfers_snoc. split; [by eexists|lia].
  - congruence.
Qed.

Lemma writex_chunks_answering fuel : forall f p, answering f -> (xfers (io_evs f) < fuel)%nat ->
  exists r q f', writex_chunks fuel f p = Ok (r, q, f') /\ (r = None -> answering f').
Proof.
  induction fuel as [|fuel IH]; intros f p Ha Hf; [lia|]. cbn [writex_chunks].
  case_bool_decide; [by eauto 10|].
  destruct (adb_write_answering f (take maxnum p) Ha) as (r & f' & -> & Hr). cbn [res_bind].
  destruct r as [[|k]|[]]; [| |done|..]; try (by eexists _, _, _).
  destruct Hr as [Ha' Hx]. apply IH; [done|lia].
Qed.

Lemma writex_rest_answering fuel : forall f p, answering f -> (xfers (io_evs f) < fuel)%nat ->
  exists r f', writex_rest fuel f p = Ok (r, f').
Proof.
  induction fuel as [|fuel IH]; intros f p Ha Hf; [lia|]. cbn [writex_rest].
  case_bool_decide; [by eauto 10|].
  destruct (adb_write_answering f p Ha) as (r & f' & -> & Hr). cbn [res_bind].
  destruct r as [[|k]|[]]; [| |done|..]; try (by eexists _, _).
  destruct Hr as [Ha' Hx]. apply IH; [done|lia].
Qed.

Lemma writex_answering f p : answering f -> exists r f', writex f p = Ok (r, f').
Proof.
  intros Ha. unfold writex, io_fuel. pose proof (xfers_length (io_evs f)) as Hl.
  destruct (writex_chunks_answering (S (length (io_evs f))) f p Ha) as (r & q & f' & -> & Hr); [lia|].
  cbn [res_bind]. destruct r as [r|]; [by eauto|].
  pose proof (xfers_length (io_evs f')). apply writex_rest_answering; [by apply Hr|lia].
Qed.

(** A willing system moves at least one byte. *)
Lemma adb_read_willing f len : (0 < len <= length (io_in f))%nat ->
  (0 < willing (io_evs f))%nat ->
  exists bs f', adb_read f len = Ok (RGot bs, f') /\ (0 < length bs <= len)%nat
    /\ moved f f' bs [] /\ (length (io_evs f') < length (io_evs f))%nat.
Proof.
  intros Hl Hw. destruct (retry_willing _ Hw) as (n & evs & E & Hn).
  pose proof (retry_some _ _ _ E) as (_ & Hlen & _).
  unfold adb_read. rewrite E. eexists _, _. split; [reflexivity|]. rewrite length_take.
  pose proof (xfer_len_range n len).
  split; [lia|]. split; [|done]. split; cbn [io_in io_out io_evs].
  - by rewrite take_drop.
  - by rewrite app_nil_r.
  - rewrite length_take. simpl. lia.
Qed.

Lemma adb_write_willing f p : p <> [] -> (0 < willing (io_evs f))%nat ->
  exists k f', adb_write f p = Ok (WPut k, f') /\ (0 < k <= length p)%nat
    /\ moved f f' [] (take k p) /\ (length (io_evs f') < length (io_evs f))%nat.
Proof.
  intros Hl Hw. destruct (retry_willing _ Hw) as (n & evs & E & Hn).
  pose proof (retry_some _ _ _ E) as (_ & Hlen & _).
  unfold adb_write. rewrite E. eexists _, _. split; [reflexivity|].
  assert (0 < length p)%nat by (destruct p; simpl; [done|lia]).
  pose proof (xfer_len_range n (length p)).
  split; [lia|]. split; [|done]. split; cbn [io_in io_out io_evs]; [done|done|].
  rewrite length_take. simpl. lia.
Qed.

(** *** Reading exactly *)

Lemma readx_loop_complete fuel f len buf :
  (len <= length (io_in f))%nat -> (len <= willing (io_evs f))%nat ->
  (length (io_evs f) < fuel)%nat ->
  exists f', readx_loop fuel f len buf = Ok (0, buf ++ take len (io_in f), f')
    /\ moved f f' (take len (io_in f)) [].
Proof.
  revert f len buf. induction fuel as [|fuel IH]; intros f len buf Hin Hw Hf; [lia|].
  cbn [readx_loop]. case_bool_decide as Hz.
  { subst. rewrite take_0, app_nil_r. eauto using moved_refl. }
  destruct (adb_read_willing f len) as (bs & f1 & E & Hb & Hm & Hl); [lia..|].
  rewrite E. cbn [res_bind]. destruct bs as [|b bs]; [simpl in Hb; lia|]. 
  pose proof Hm as [Hi _ Hwl]. simpl in Hwl.
  destruct (IH f1 (len - length (b :: bs))%nat (buf ++ b :: bs)) as (f' & E' & Hm').
  { rewrite Hi, length_app in Hin. simpl in *. lia. }
  { simpl in *. lia. }
  { lia. }
  exists f'. rewrite E', <-app_assoc. 
  assert ((b :: bs) ++ take (len - length (b :: bs)) (io_in f1) = take len (io_in f)) as <-.
  { rewrite Hi, take_app, (take_ge (b :: bs)); [done|lia]. }
  split; [done|]. eapply (moved_trans _ _ _ _ [] _ []); eauto.
Qed.

Lemma readx_loop_sound fuel f len buf0 r buf f' :
  readx_loop fuel f len buf0 = Ok (r, buf, f') ->
  exists bs, buf = buf0 ++ bs /\ io_in f = bs ++ io_in f' /\ io_out f' = io_out f
    /\ (r = 0 /\ length bs = len \/ r = -1 /\ (length bs < len)%nat).
Proof.
  revert f len buf0. induction fuel as [|fuel IH]; intros f len buf0; [done|].
  cbn [readx_loop]. case_bool_decide as Hz.
  { intros [= <- <- <-]. exists []. subst. rewrite app_nil_r. eauto 10. }
  destruct (adb_read f len) as [[g f1]| | |] eqn:E; try done. cbn [res_bind].
  apply adb_read_cases in E as (_ & Ho & Hc).
  assert (forall h, io_in f = io_in h -> io_out h = io_out f -> Ok (-1, buf0, h) = Ok (r, buf, f') ->
    exists bs, buf = buf0 ++ bs /\ io_in f = bs ++ io_in f' /\ io_out f' = io_out f
    /\ (r = 0 /\ length bs = len \/ r = -1 /\ (length bs < len)%nat)) as Hstop.
  { intros h Hi Hoh [= <- <- <-]. exists []. rewrite app_nil_r. split; [done|]. split; [done|].
    split; [done|]. right. simpl. split; [done|lia]. }
  destruct g as [bs|e].
  - destruct Hc as [Hi Hl], bs as [|b bs]; [by apply Hstop|].
    intros H. apply IH in H as (bs' & -> & Hi' & Ho' & Hr). exists ((b :: bs) ++ bs').
    rewrite Hi, Hi', !app_assoc. split; [done|]. split; [done|]. split; [congruence|].
    rewrite length_app. destruct Hr as [[-> Hr]|[-> Hr]]; [left|right]; (split; [done|lia]).
  - destruct Hc as [He Hi]. destruct e; [done|by apply Hstop..].
Qed.

Lemma readx_complete f len :
  (len <= length (io_in f))%nat -> (len <= willing (io_evs f))%nat ->
  exists f', readx f len = Ok (0, take len (io_in f), f') /\ moved f f' (take len (io_in f)) [].
Proof. intros. apply (readx_loop_complete _ f len []); unfold io_fuel; lia || done. Qed.

(** *** Writing exactly *)

Lemma writex_rest_complete fuel f p :
  (length p <= willing (io_evs f))%nat -> (length (io_evs f) < fuel)%nat ->
  exists f', writex_rest fuel f p = Ok (0, f') /\ moved f f' [] p.
Proof.
  revert f p. induction fuel as [|fuel IH]; intros f p Hw Hf; [lia|].
  cbn [writex_rest]. case_bool_decide as Hz; [subst; eauto using moved_refl|].
  destruct p as [|b p]; [done|].
  destruct (adb_write_willing f (b :: p) Hz) as (k & f1 & E & Hk & Hm & Hl); [simpl in *; lia|].
  rewrite E. cbn [res_bind]. destruct k as [|k]; [lia|].
  pose proof Hm as [_ _ Hwl]. rewrite length_take in Hwl. simpl in Hwl, Hk, Hw.
  destruct (IH f1 (drop (S k) (b :: p))) as (f' & E' & Hm').
  { rewrite length_drop. simpl. lia. }
  { lia. }
  exists f'. split; [exact E'|].
  rewrite <-(take_drop (S k) (b :: p)). eapply (moved_trans _ _ _ [] _ [] _); eauto.
Qed.

Lemma writex_chunks_complete fuel f p :
  (length p <= willing (io_evs f))%nat -> (length (io_evs f) < fuel)%nat ->
  exists p1 p2 f', p = p1 ++ p2 /\ writex_chunks fuel f p = Ok (None, p2, f') /\ moved f f' [] p1.
Proof.
  revert f p. induction fuel as [|fuel IH]; intros f p Hw Hf; [lia|].
  cbn [writex_chunks]. case_bool_decide as Hz.
  { exists [], p, f. split; [done|]. eauto using moved_refl. }
  assert (length (take maxnum p) = maxnum) as Hlt by (rewrite length_take; lia).
  destruct (adb_write_willing f (take maxnum p)) as (k & f1 & E & Hk & Hm & Hl).
  { intros H. rewrite H in Hlt. discriminate. }
  { lia. }
  rewrite E. cbn [res_bind]. destruct k as [|k]; [lia|].
  rewrite take_take, Nat.min_l in Hm by lia.
  pose proof Hm as [_ _ Hwl]. rewrite length_take in Hwl. simpl in Hwl.
  destruct (IH f1 (drop (S k) p)) as (p1 & p2 & f' & Hp & E' & Hm').
  { rewrite length_drop. lia. }
  { lia. }
  exists (take (S k) p ++ p1), p2, f'. split; [by rewrite <-app_assoc, <-Hp, take_drop|].
  split; [exact E'|]. eapply (moved_trans _ _ _ [] _ [] _); eauto.
Qed.

Lemma writex_complete f p : (length p <= willing (io_evs f))%nat ->
  exists f', writex f p = Ok (0, f') /\ moved f f' [] p.
Proof.
  intros Hw. unfold writex.
  destruct (writex_chunks_complete (io_fuel f) f p Hw) as (p1 & p2 & f1 & -> & E & Hm);
    [unfold io_fuel; lia|].
  rewrite E. cbn [res_bind]. pose proof Hm as [_ _ Hwl]. simpl in Hwl. rewrite length_app in Hw.
  destruct (writex_rest_complete (io_fuel f1) f1 p2) as (f' & E' & Hm'); [lia|unfold io_fuel; lia|].
  exists f'. split; [exact E'|]. eapply (moved_trans _ _ _ [] _ [] _); eauto.
Qed.

(** How many bytes a write loop that returned [r] put on the stream, and that
    none of its calls was longer than [max]. *)
Record wrote (f f' : fdio) (p : bytes) (r : Z) (k max : nat) : Prop := Wrote {
  wr_in : io_in f' = io_in f;
  wr_k : (k <= length p)%nat;
  wr_out : io_out f' = io_out f ++ take k p;
  wr_r : r = 0 /\ k = length p \/ r = -1 /\ (k < length p)%nat;
  wr_calls : exists cs, io_calls f' = cs ++ io_calls f /\ Forall (fun n => n <= max)%nat cs
}.

Lemma wrote_nil f p max r : p = [] /\ r = 0 \/ p <> [] /\ r = -1 -> wrote f f p r 0 max.
Proof.
  intros H. split; [done|lia|by rewrite take_0, app_nil_r| |by exists []].
  destruct H as [[-> ->]|[Hp ->]]; [by left|right]. destruct p; simpl; [done|split; [done|lia]].
Qed.

(** A call of [adb_write] for the first [n] bytes of [p], followed by a loop
    for what is left. *)
Lemma wrote_step f f1 f' p n k k' r max :
  io_in f1 = io_in f -> io_calls f1 = length (take n p) :: io_calls f ->
  io_out f1 = io_out f ++ take k (take n p) -> (k <= length (take n p))%nat ->
  (length (take n p) <= max)%nat ->
  wrote f1 f' (drop k p) r k' max -> wrote f f' p r (k + k') max.
Proof.
  intros Hi Hc Ho Hk Hm [Hi' Hk' Ho' Hr (cs & Hcs & Hf)].
  rewrite length_take in Hk. rewrite length_drop in *. split.
  - congruence.
  - lia.
  - by rewrite Ho', Ho, take_take, Nat.min_l, <-app_assoc, take_take_drop by lia.
  - destruct Hr as [[-> ->]|[-> ?]]; [left|right]; (split; [done|lia]).
  - exists (cs ++ [length (take n p)]). rewrite Hcs, Hc, <-app_assoc. split; [done|].
    apply Forall_app. split; [done|]. by apply Forall_singleton.
Qed.

(** The same for a call that failed. *)
Lemma wrote_fail f f1 p n max :
  p <> [] -> io_in f1 = io_in f -> io_calls f1 = length (take n p) :: io_calls f ->
  io_out f1 = io_out f -> (length (take n p) <= max)%nat -> wrote f f1 p (-1) 0 max.
Proof.
  intros Hp Hi Hc Ho Hm. split; [done|lia| | |].
  - by rewrite Ho, take_0, app_nil_r.
  - right. split; [done|]. destruct p; simpl; [done|lia].
  - exists [length (take n p)]. split; [done|]. by apply Forall_singleton.
Qed.

Lemma writex_rest_sound fuel f p r f' max : (length p <= max)%nat ->
  writex_rest fuel f p = Ok (r, f') -> exists k, wrote f f' p r k max.
Proof.
  revert f p. induction fuel as [|fuel IH]; intros f p Hmax; [done|].
  cbn [writex_rest]. case_bool_decide as Hz.
  { intros [= <- <-]. exists 0%nat. apply wrote_nil. auto. }
  destruct (adb_write f p) as [[g f1]| | |] eqn:E; try done. cbn [res_bind].
  apply adb_write_cases in E as (_ & Hi & Hc & Hg).
  destruct g as [k|e].
  - destruct Hg as (Ho & Hk & Hpos), k as [|k]; [specialize (Hpos Hz); lia|].
    intros H. apply IH in H as [k' Hw]; [|rewrite length_drop; lia]. exists (S k + k')%nat.
    eapply (wrote_step _ f1 _ p (length p)); rewrite ?firstn_all; eauto.
  - destruct Hg as [He Ho], e; [done|..]; intros [= <- <-]; exists 0%nat;
      (eapply (wrote_fail _ _ p (length p)); rewrite ?firstn_all; eauto).
Qed.

Lemma writex_chunks_sound fuel f p r p' f' :
  writex_chunks fuel f p = Ok (r, p', f') ->
  exists k, match r with
            | None => p' = drop k p /\ (length p' <= maxnum)%nat
                      /\ io_in f' = io_in f /\ (k <= length p)%nat
                      /\ io_out f' = io_out f ++ take k p
                      /\ (exists cs, io_calls f' = cs ++ io_calls f
                            /\ Forall (fun n => n <= maxnum)%nat cs)
            | Some r => wrote f f' p r k maxnum
            end.
Proof.
  revert f p. induction fuel as [|fuel IH]; intros f p; [done|].
  cbn [writex_chunks]. case_bool_decide as Hz.
  { intros [= <- <- <-]. exists 0%nat. rewrite drop_0, take_0, app_nil_r.
    repeat split; auto with lia. by exists []. }
  assert (p <> []) as Hne by (intros ->; apply Hz; simpl; lia).
  assert (length (take maxnum p) = maxnum) as Hlt by (rewrite length_take; lia).
  destruct (adb_write f (take maxnum p)) as [[g f1]| | |] eqn:E; try done. cbn [res_bind].
  apply adb_write_cases in E as (_ & Hi & Hc & Hg).
  destruct g as [k|e].
  - destruct Hg as (Ho & Hk & Hpos), k as [|k].
    { assert (take maxnum p <> []) as Ht by (intros H; rewrite H in Hlt; discriminate).
      specialize (Hpos Ht). lia. }
    intros H. apply IH in H as [k' Hw]. exists (S k + k')%nat. destruct r as [r|].
    + eapply wrote_step; eauto. lia.
    + destruct Hw as (Hp' & Hl & Hi' & Hk' & Ho' & cs & Hcs & Hf).
      rewrite Hlt in Hk. rewrite length_drop in Hk'. rewrite take_take, Nat.min_l in Ho by lia.
      rewrite Hp', drop_drop, Ho', Ho, <-app_assoc, take_take_drop.
      repeat split; try done; [by rewrite Hp', drop_drop in Hl|congruence|lia|..].
      * exists (cs ++ [length (take maxnum p)]). rewrite Hcs, Hc, <-app_assoc. split; [done|].
        apply Forall_app. split; [done|]. apply Forall_singleton. lia.
  - destruct Hg as [He Ho], e; [done|..]; intros [= <- <- <-]; exists 0%nat;
      (eapply wrote_fail; eauto; lia).
Qed.

Lemma writex_sound f p r f' : writex f p = Ok (r, f') -> exists k, wrote f f' p r k maxnum.
Proof.
  unfold writex. intros H. inv_ok. destruct x as [[r0 p1] f1].
  apply writex_chunks_sound in H0 as [k Hk]. destruct r0 as [r0|].
  { injection H as <- <-. eauto. }
  destruct Hk as (-> & Hl & Hi & Hk & Ho & cs & Hcs & Hf).
  apply (writex_rest_sound _ _ _ _ _ maxnum) in H as [k' [Hi' Hk' Ho' Hr (cs' & Hcs' & Hf')]]; [|done].
  exists (k + k')%nat. rewrite length_drop in *. split; [congruence|lia|..].
  - by rewrite Ho', Ho, <-app_assoc, take_take_drop.
  - destruct Hr as [[-> ->]|[-> ?]]; [left|right]; (split; [done|lia]).
  - exists (cs' ++ cs). rewrite Hcs', Hcs, app_assoc. split; [done|]. by apply Forall_app.
Qed.

(** *** The bulk loops *)

Lemma bulk_read_complete fuel f len buf :
  (length buf < len)%nat -> (len - length buf <= length (io_in f))%nat ->
  (len - length buf <= willing (io_evs f))%nat -> (length (io_evs f) < fuel)%nat ->
  exists f', bulk_read_loop fuel f len buf =
      Ok (Z.of_nat len, buf ++ take (len - length buf) (io_in f), f')
    /\ moved f f' (take (len - length buf) (io_in f)) [].
Proof.
  revert f buf. induction fuel as [|fuel IH]; intros f buf Hlt Hin Hw Hf; [lia|].
  cbn [bulk_read_loop].
  destruct (adb_read_willing f (len - length buf)) as (bs & f1 & E & Hb & Hm & Hl); [lia..|].
  rewrite E. cbn [res_bind]. pose proof Hm as [Hi _ Hwl]. simpl in Hwl.
  assert (take (len - length buf) (io_in f) =
          bs ++ take (len - length (buf ++ bs)) (io_in f1)) as Ht.
  { rewrite Hi, take_app, (take_ge bs) by lia. rewrite length_app. do 2 f_equal. lia. }
  case_bool_decide as Hd.
  - destruct (IH f1 (buf ++ bs)) as (f' & E' & Hm'); [done|rewrite ?length_app in *|rewrite ?length_app in *|lia|].
    { rewrite Hi, length_app in Hin. lia. }
    { lia. }
    exists f'. rewrite E', <-app_assoc, <-Ht. split; [done|].
    rewrite Ht. eapply (moved_trans _ _ _ _ [] _ []); eauto.
  - exists f1. rewrite length_app in Hd.
    rewrite Ht, length_app. replace (len - (length buf + length bs))%nat with 0%nat by lia.
    rewrite take_0, app_nil_r. split; [|done]. do 3 f_equal. lia.
Qed.

Lemma bulk_read_sound fuel f len buf0 r buf f' :
  (length buf0 < len)%nat -> bulk_read_loop fuel f len buf0 = Ok (r, buf, f') ->
  exists bs, buf = buf0 ++ bs /\ io_in f = bs ++ io_in f' /\ io_out f' = io_out f
    /\ (r = Z.of_nat len /\ length buf = len \/ r = -1 /\ (length buf < len)%nat).
Proof.
  revert f buf0. induction fuel as [|fuel IH]; intros f buf0 Hlt; [done|].
  cbn [bulk_read_loop].
  destruct (adb_read f _) as [[g f1]| | |] eqn:E; try done. cbn [res_bind].
  apply adb_read_cases in E as (_ & Ho & Hc).
  destruct g as [bs|e].
  - destruct Hc as [Hi Hl]. case_bool_decide as Hd.
    + intros H. apply IH in H as (bs' & -> & Hi' & Ho' & Hr); [|done]. exists (bs ++ bs').
      rewrite Hi, Hi', !app_assoc. split; [done|]. split; [done|]. split; [congruence|done].
    + intros [= <- <- <-]. exists bs. split; [done|]. split; [done|]. split; [done|].
      left. rewrite length_app in *. split; lia.
  - destruct Hc as [He Hi], e; [done|..]; intros [= <- <- <-]; exists [];
      rewrite app_nil_r; auto 10.
Qed.

Lemma bulk_write_complete fuel f p c :
  (c < length p)%nat -> (length p - c <= willing (io_evs f))%nat ->
  (length (io_evs f) < fuel)%nat ->
  exists f', bulk_write_loop fuel f p c = Ok (Z.of_nat (length p), f') /\ moved f f' [] (drop c p).
Proof.
  revert f c. induction fuel as [|fuel IH]; intros f c Hc Hw Hf; [lia|].
  cbn [bulk_write_loop].
  destruct (adb_write_willing f (drop c p)) as (k & f1 & E & Hk & Hm & Hl).
  { intros H. apply (f_equal length) in H. rewrite length_drop in H. simpl in H. lia. }
  { lia. }
  rewrite E. cbn [res_bind]. rewrite length_drop in Hk.
  pose proof Hm as [_ _ Hwl]. rewrite length_take, length_drop in Hwl. simpl in Hwl.
  case_bool_decide as Hd.
  - destruct (IH f1 (c + k)%nat) as (f' & E' & Hm'); [lia..|]. exists f'. split; [done|].
    rewrite <-(take_drop k (drop c p)), drop_drop. eapply (moved_trans _ _ _ [] _ [] _); eauto.
  - exists f1. split; [do 3 f_equal; lia|]. rewrite take_ge in Hm; [done|]. rewrite length_drop. lia.
Qed.

Lemma bulk_write_sound fuel f p c r f' : (c < length p)%nat ->
  bulk_write_loop fuel f p c = Ok (r, f') ->
  io_in f' = io_in f /\ exists k, (c + k <= length p)%nat
    /\ io_out f' = io_out f ++ take k (drop c p)
    /\ (r = Z.of_nat (length p) /\ (c + k)%nat = length p \/ r = -1 /\ (c + k < length p)%nat).
Proof.
  revert f c. induction fuel as [|fuel IH]; intros f c Hc; [done|].
  cbn [bulk_write_loop].
  destruct (adb_write f _) as [[g f1]| | |] eqn:E; try done. cbn [res_bind].
  apply adb_write_cases in E as (_ & Hi & _ & Hg). rewrite length_drop in Hg.
  destruct g as [k|e].
  - destruct Hg as (Ho & Hk & _). case_bool_decide as Hd.
    + intros H. apply IH in H as (Hi' & k' & Hk' & Ho' & Hr); [|done]. split; [congruence|].
      exists (k + k')%nat. rewrite Ho', Ho, <-app_assoc, <-drop_drop, take_take_drop.
      split; [lia|]. split; [done|]. destruct Hr as [[-> ?]|[-> ?]]; [left|right]; (split; [done|lia]).
    + intros [= <- <-]. split; [done|]. exists k. split; [lia|]. split; [done|]. left. lia.
  - destruct Hg as [He Ho], e; [done|..]; intros [= <- <-]; (split; [done|]); exists 0%nat;
      rewrite take_0, app_nil_r; (split; [lia|]); (split; [done|]); right; (split; [done|lia]).
Qed.

Lemma readx_sound f len r buf f' : readx f len = Ok (r, buf, f') ->
  io_in f = buf ++ io_in f' /\ io_out f' = io_out f /\ (r = 0 /\ length buf = len \/ r = -1 /\ (length buf < len)%nat).
Proof. intros H. apply readx_loop_sound in H as (bs & -> & H). exact H. Qed.

(** *** The instances *)

#[export] Instance socket_wire_laws : WireLaws socket_wire.
Proof.
  split.
  - intros f len _. apply readx_complete.
  - intros f len r buf f' _ H. apply readx_loop_sound in H as (bs & -> & ? & ? & ?). auto.
  - intros f p _. apply writex_complete.
  - intros f p r f' _ H. apply writex_sound in H as [k [? ? ? ? _]]. eauto 10.
Qed.

#[export] Instance usb_wire_laws : WireLaws usb_wire.
Proof.
  split; cbn [wire_read wire_write usb_wire].
  - intros f len Hl Hi Hw. unfold usb_ffs_read, bulk_read.
    destruct (bulk_read_complete (io_fuel f) f len []) as (f' & -> & Hm);
      [simpl; unfold io_fuel; lia..|].
    simpl in *. rewrite Nat.sub_0_r in *. rewrite bool_decide_true by done. eauto.
  - intros f len r buf f' Hl H. unfold usb_ffs_read, bulk_read in H. inv_ok.
    destruct x as [[n bs] f1]. injection H as <- <- <-.
    apply bulk_read_sound in H0 as (bs' & -> & Hi & Ho & Hr); [|simpl; lia].
    split; [done|]. split; [done|]. destruct Hr as [[-> Hr]|[-> Hr]].
    + rewrite bool_decide_true by done. by left.
    + rewrite bool_decide_false by lia. by right.
  - intros f p Hp Hw. unfold usb_ffs_write, bulk_write.
    assert (0 < length p)%nat by (destruct p; simpl; [done|lia]).
    destruct (bulk_write_complete (io_fuel f) f p 0) as (f' & -> & Hm); [unfold io_fuel; lia..|].
    cbn [res_bind]. rewrite bool_decide_true by done. eauto.
  - intros f p r f' Hp H. unfold usb_ffs_write, bulk_write in H. inv_ok.
    assert (0 < length p)%nat by (destruct p; simpl; [done|lia]).
    destruct x as [n f1]. injection H as <- <-.
    apply bulk_write_sound in H0 as (Hi & k & Hk & Ho & Hr); [|done].
    split; [done|]. exists k. simpl in *. split; [done|]. split; [done|].
    destruct Hr as [[-> Hr]|[-> Hr]].
    + rewrite bool_decide_true by done. by left.
    + rewrite bool_decide_false by lia. by right.
Qed.

(** *** Properties *)

(** [readx] returns exactly the next [len] bytes of the stream, in order,
    however the system cuts or interrupts the reads, as soon as it is willing
    to deliver them; when it gives up, on an error or at the end of the stream,
    it has consumed a strict prefix of the request and says so. *)
Theorem readx_exact f len :
  ((len <= length (io_in f))%nat -> (len <= willing (io_evs f))%nat ->
     exists f', readx f len = Ok (0, take len (io_in f), f') /\ io_in f' = drop len (io_in f)) /\
  (forall r buf f', readx f len = Ok (r, buf, f') -> io_in f = buf ++ io_in f' /\
     (r = 0 /\ length buf = len \/ r = -1 /\ (length buf < len)%nat)).
Proof.
  split.
  - intros Hi Hw. destruct (readx_complete f len Hi Hw) as (f' & E & [Hin _ _]).
    exists f'. split; [done|]. rewrite <-(take_drop len (io_in f)) in Hin at 1.
    by apply app_inv_head in Hin.
  - intros r buf f' H. apply readx_loop_sound in H as (bs & -> & ? & ? & ?). auto.
Qed.

(** [writex] puts all its bytes on the stream, in order, under every
    schedule that lets it, and otherwise reports the failure after a strict
    prefix; no single call asks the system for more than 470 bytes. *)
Theorem writex_exact f p :
  ((length p <= willing (io_evs f))%nat ->
     exists f', writex f p = Ok (0, f') /\ io_out f' = io_out f ++ p) /\
  (forall r f', writex f p = Ok (r, f') ->
     (exists k, (r = 0 /\ k = length p \/ r = -1 /\ (k < length p)%nat)
        /\ io_out f' = io_out f ++ take k p) /\
     (exists cs, io_calls f' = cs ++ io_calls f /\ Forall (fun n => n <= 470)%nat cs)).
Proof.
  split.
  - intros Hw. destruct (writex_complete f p Hw) as (f' & E & [_ Ho _]). eauto.
  - intros r f' H. apply writex_sound in H as [k [_ _ Ho Hr Hc]]. eauto.
Qed.

(** the address of a packet written by one side of the socket pair is the
    one the other side reads, under any fragmentation of both transfers. *)
Theorem packet_address_roundtrip p f g g' rest :
  0 <= p < 2 ^ 32 -> (4 <= willing (io_evs f))%nat -> (4 <= willing (io_evs g))%nat ->
  write_packet f p = Ok (0, g') -> io_in g = drop (length (io_out f)) (io_out g') ++ rest ->
  exists h, read_packet g = Ok (Some p, h) /\ io_in h = rest.
Proof.
  intros Hp Hf Hg Hw Hin. unfold write_packet in Hw.
  destruct (writex_rest_complete (io_fuel f) f (ptr_bytes p)) as (f' & E & [_ Ho _]);
    [done|unfold io_fuel; lia|].
  rewrite E in Hw. injection Hw as <-. rewrite Ho, drop_app_length in Hin.
  destruct (readx_loop_complete (io_fuel g) g sizeof_ptr []) as (h & E' & [Hi _ _]).
  { rewrite Hin, length_app. simpl. unfold sizeof_ptr. lia. }
  { done. }
  { unfold io_fuel. lia. }
  unfold read_packet. rewrite E', Hin. simpl. exists h. rewrite of_le32_le32 by done.
  split; [done|]. rewrite Hin in Hi. by injection Hi as <-.
Qed.

(** at the end of the stream [readx] fails, while [bulk_read] asks again for as
    long as the system answers, and never returns. *)
Theorem bulk_read_spins f len :
  io_in f = [] -> (0 < len)%nat -> Forall (fun e => exists n, e = Xfer n) (io_evs f) ->
  io_evs f <> [] ->
  bulk_read f len = Blocked /\ exists f', readx f len = Ok (-1, [], f').
Proof.
  intros Hi Hl Hx Hne. split.
  - unfold bulk_read. generalize (io_fuel f). intros fuel. revert f Hi Hx Hne.
    induction fuel as [|fuel IH]; intros f Hi Hx Hne; [done|]. cbn [bulk_read_loop].
    destruct f as [i o evs cs], evs as [|e evs]; [done|]. simpl in Hi, Hx. subst.
    inversion Hx as [|? ? [n ->] Hx']; subst. unfold adb_read. simpl.
    rewrite take_nil, drop_nil, bool_decide_true by (simpl; lia). simpl.
    destruct evs as [|e' evs]; [by destruct fuel|]. by apply IH.
  - destruct f as [i o evs cs], evs as [|e evs]; [done|]. simpl in Hi, Hx. subst.
    inversion Hx as [|? ? [n ->] Hx']; subst. unfold readx, io_fuel. cbn [readx_loop io_evs length].
    rewrite bool_decide_false by lia. unfold adb_read. simpl. rewrite take_nil. eauto.
Qed.

(** *** Schedules that fail in the end

    A schedule that ends in [n] failures answers every call until it has failed
    [n] times. *)
Definition patient (n : nat) (f : fdio) : Prop := exists l, io_evs f = l ++ replicate n (Fail EAGAIN).

Lemma patient_S n f : patient (S n) f -> patient n f.
Proof. intros [l Hl]. exists (l ++ [Fail EAGAIN]). by rewrite Hl, <-app_assoc. Qed.

Lemma retry_patient n l : exists e evs, temp_failure_retry (l ++ replicate (S n) (Fail EAGAIN)) = Some (e, evs)
  /\ (exists l', evs = l' ++ replicate n (Fail EAGAIN))
  /\ (forall k, e = Xfer k -> exists l', evs = l' ++ replicate (S n) (Fail EAGAIN)).
Proof.
  induction l as [|[k|[]] l IH]; [|..|done| |]; cbn [app temp_failure_retry].
  - eexists _, _. cbn. split; [reflexivity|]. split; [by exists []|done].
  - eexists _, _. split; [reflexivity|]. split; [|by exists l].
    exists (l ++ [Fail EAGAIN]). by rewrite <-app_assoc.
  - eexists _, _. split; [reflexivity|]. split; [|done]. exists (l ++ [Fail EAGAIN]). by rewrite <-app_assoc.
  - eexists _, _. split; [reflexivity|]. split; [|done]. exists (l ++ [Fail EAGAIN]). by rewrite <-app_assoc.
Qed.

Lemma adb_read_patient n f len : patient (S n) f -> returns (adb_read f len) (fun '(r, f') =>
  patient n f' /\ (forall bs, r = RGot bs -> patient (S n) f')).
Proof.
  intros [l Hl]. destruct (retry_patient n l) as (e & evs & He & Hn & Hx). unfold adb_read. rewrite Hl, He.
  destruct e as [k|e]; apply returns_ok; (split; [exact Hn|]); [intros bs _|done]. exact (Hx k eq_refl).
Qed.

Lemma adb_write_patient n f p : patient (S n) f -> returns (adb_write f p) (fun '(r, f') =>
  patient n f' /\ (forall k, r = WPut k -> patient (S n) f')).
Proof.
  intros [l Hl]. destruct (retry_patient n l) as (e & evs & He & Hn & Hx). unfold adb_write. rewrite Hl, He.
  destruct e as [k|e]; apply returns_ok; (split; [exact Hn|]); [intros bs _|done]. exact (Hx k eq_refl).
Qed.

Lemma readx_loop_patient n fuel : forall f len buf, patient (S n) f -> (length (io_evs f) < fuel)%nat ->
  returns (readx_loop fuel f len buf) (fun '(r, _, f') => patient n f' /\ (r = 0 -> patient (S n) f')).
Proof.
  induction fuel as [|fuel IH]; intros f len buf Hp Hf; [lia|]. cbn [readx_loop].
  case_bool_decide; [apply returns_ok; auto using patient_S|].
  destruct (adb_read_patient n f len Hp) as ([r f'] & E & Hn & Hr). rewrite E. cbn [res_bind].
  apply adb_read_cases in E as (Hl & _ & He). destruct r as [[|b bs]|[]]; try (apply returns_ok; split; [exact Hn|done]).
  - apply IH; [by eapply Hr|lia].
  - destruct He. done.
Qed.

Lemma readx_patient n f len : patient (S n) f ->
  returns (readx f len) (fun '(r, _, f') => patient n f' /\ (r = 0 -> patient (S n) f')).
Proof. intros Hp. apply readx_loop_patient; [done|unfold io_fuel; lia]. Qed.

Lemma writex_chunks_patient n fuel : forall f p, patient (S n) f -> (length (io_evs f) < fuel)%nat ->
  returns (writex_chunks fuel f p) (fun '(r, _, f') => patient n f'
    /\ (r = None -> patient (S n) f') /\ (r = None \/ r = Some (-1))).
Proof.
  induction fuel as [|fuel IH]; intros f p Hp Hf; [lia|]. cbn [writex_chunks].
  case_bool_decide; [apply returns_ok; auto using patient_S|].
  destruct (adb_write_patient n f (take maxnum p) Hp) as ([r f'] & E & Hn & Hr). rewrite E. cbn [res_bind].
  apply adb_write_cases in E as (Hl & _ & _ & He). destruct r as [[|k]|[]]; try (apply returns_ok; split_and!; auto; done).
  - apply IH; [by eapply Hr|lia].
  - destruct He. done.
Qed.

Lemma writex_rest_patient n fuel : forall f p, patient (S n) f -> (length (io_evs f) < fuel)%nat ->
  returns (writex_rest fuel f p) (fun '(r, f') => patient n f' /\ (r = 0 -> patient (S n) f')).
Proof.
  induction fuel as [|fuel IH]; intros f p Hp Hf; [lia|]. cbn [writex_rest].
  case_bool_decide; [apply returns_ok; auto using patient_S|].
  destruct (adb_write_patient n f p Hp) as ([r f'] & E & Hn & Hr). rewrite E. cbn [res_bind].
  apply adb_write_cases in E as (Hl & _ & _ & He). destruct r as [[|k]|[]]; try (apply returns_ok; split; auto; done).
  - apply IH; [by eapply Hr|lia].
  - destruct He. done.
Qed.

Lemma writex_patient n f p : patient (S n) f ->
  returns (writex f p) (fun '(r, f') => patient n f' /\ (r = 0 -> patient (S n) f')).
Proof.
  intros Hp. unfold writex. eapply returns_bind; [apply writex_chunks_patient; [exact Hp|unfold io_fuel; lia]|].
  intros [[r q] f'] (Hn & Hr & Hor). destruct r as [r|].
  - apply returns_ok. split; [done|]. destruct Hor as [|[= ->]]; done.
  - apply writex_rest_patient; [auto|unfold io_fuel; lia].
Qed.

(** *** Concrete descriptors *)

(** Eight bytes delivered in three pieces with an interruption between them. *)
Definition fragmented : fdio :=
  Fdio (lit "abcdefgh") [] [Xfer 2; Fail EINTR; Xfer 0; Xfer 9; Xfer 1; Xfer 0; Xfer 5] [].

Lemma readx_exact_witness :
  exists f', readx fragmented 5 = Ok (0, lit "abcde", f') /\ io_in f' = lit "fgh".
Proof. apply (readx_exact fragmented 5); vm_compute; lia. Defined.

Lemma writex_exact_witness :
  exists f', writex fragmented (lit "hello") = Ok (0, f') /\ io_out f' = lit "hello".
Proof. apply (writex_exact fragmented (lit "hello")); vm_compute; lia. Defined.

Lemma packet_address_roundtrip_witness :
  exists h, read_packet (Fdio (le32 305419896) [] (io_evs fragmented) []) = Ok (Some 305419896, h)
    /\ io_in h = [].
Proof.
  refine (packet_address_roundtrip 305419896 fragmented
    (Fdio (le32 305419896) [] (io_evs fragmented) [])
    (Fdio (lit "abcdefgh") (le32 305419896) [Xfer 9; Xfer 1; Xfer 0; Xfer 5] [1; 4]%nat) [] _ _ _ _ _);
    [lia | vm_compute; lia | vm_compute; lia | vm_compute; reflexivity | vm_compute; reflexivity].
Defined.

Lemma bulk_read_spins_witness :
  bulk_read (Fdio [] [] [Xfer 0; Xfer 4; Xfer 2] []) 24 = Blocked.
Proof.
  refine (proj1 (bulk_read_spins (Fdio [] [] [Xfer 0; Xfer 4; Xfer 2] []) 24 _ _ _ _));
    [reflexivity | lia | repeat constructor; eexists; reflexivity | discriminate].
Defined.
