(* ===== verification/Terminal.v ===== *)
(** * Copies of the client (commandline.c)

    What a command does with its connection to a service: the output of the
    device goes to a file or to the terminal, the keys of the terminal to the
    device, with the sequence that ends an interactive shell, and a file is
    downloaded in pieces.  The descriptors are those of Rwx.v; standard output is
    a list of bytes. *)

From S2P Require Import Prelude Cstr Numbers Rwx.

(** ** Output *)

(** Every iteration uses an answer of the descriptor that is read. *)
Fixpoint dump_loop (fuel : nat) (f : fdio) (stdout : bytes) : res (fdio * bytes) :=
  match fuel with
  | O => Blocked
  | S fuel =>
      let* ' (r, f) := adb_read f 4096 in
      match r with
      | RGot [] => Ok (f, stdout)
      | RGot bs => dump_loop fuel f (stdout ++ bs)
      | RErr EINTR => dump_loop fuel f stdout
      | RErr _ => Ok (f, stdout)
      end
  end.
Definition read_and_dump (f : fdio) (stdout : bytes) : res (fdio * bytes) := dump_loop (io_fuel f) f stdout.

(** What [adb_write] returns is not looked at. *)
Fixpoint copy_to_file_loop (fuel : nat) (inFd outFd : fdio) : res (fdio * fdio) :=
  match fuel with
  | O => Blocked
  | S fuel =>
      let* ' (r, inFd) := adb_read inFd (32 * 1024) in
      match r with
      | RGot [] => Ok (inFd, outFd)
      | RGot buf => let* ' (_, outFd) := adb_write outFd buf in copy_to_file_loop fuel inFd outFd
      | RErr EINTR => copy_to_file_loop fuel inFd outFd
      | RErr _ => Ok (inFd, outFd)
      end
  end.
Definition copy_to_file (inFd outFd : fdio) : res (fdio * fdio) := copy_to_file_loop (io_fuel inFd) inFd outFd.

(** ** Input *)

Definition newline (b : byte) : bool := bool_decide (b = Byte.x0a \/ b = Byte.x0d).

(** The loop over what was read, from the state of the sequence; [None] ends the
    process. *)
Fixpoint escape (state : Z) (buf : bytes) : option Z :=
  match buf with
  | [] => Some state
  | b :: buf =>
      if newline b then escape 1 buf
      else if bool_decide (b = Byte.x7e) then escape (if bool_decide (state = 1) then state + 1 else state) buf
      else if bool_decide (b = Byte.x2e) && bool_decide (state = 2) then None
      else escape 0 buf
  end.

(** How the thread that reads the terminal ends: with [exit], or by itself. *)
Inductive ending := Disconnected | Ended.

Fixpoint stdin_loop (fuel : nat) (state : Z) (fdi fd : fdio) : res (ending * fdio * fdio) :=
  match fuel with
  | O => Blocked
  | S fuel =>
      let* ' (r, fdi) := adb_read fdi 1024 in
      match r with
      | RGot [] => Ok (Ended, fdi, fd)
      | RErr EINTR => stdin_loop fuel state fdi fd
      | RErr _ => Ok (Ended, fdi, fd)
      | RGot buf =>
          match escape state buf with
          | None => Ok (Disconnected, fdi, fd)
          | Some state =>
              let* ' (r, fd) := adb_write fd buf in
              match r with
              | WPut (S _) => stdin_loop fuel state fdi fd
              | _ => Ok (Ended, fdi, fd)
              end
          end
      end
  end.
Definition stdin_read_thread (fdi fd : fdio) : res (ending * fdio * fdio) := stdin_loop (io_fuel fdi) 0 fdi fd.

(** ** Downloads *)

Definition CHUNK_SIZE : nat := 64 * 1024.

(** The service that is asked for; a long one overruns the buffer. *)
Definition download_service (service : bytes) (sz : nat) : res bytes :=
  let s := service ++ Byte.x3a :: print_dec (Z.of_nat sz) in
  if bool_decide (length s < 4096)%nat then Ok s else Ub.

(** The loop over the data, with as many iterations as there are bytes. *)
Fixpoint download_loop (fuel : nat) (fd : fdio) (data : bytes) : res (bool * fdio) :=
  match fuel, data with
  | _, [] | O, _ => Ok (true, fd)
  | S fuel, _ =>
      let* ' (r, fd) := writex fd (take CHUNK_SIZE data) in
      if bool_decide (r <> 0) then Ok (false, fd) else download_loop fuel fd (drop CHUNK_SIZE data)
  end.

(** After the connection was made. *)
Definition adb_download_buffer (fd : fdio) (data : bytes) : res (Z * fdio) :=
  let* ' (sent, fd) := download_loop (length data) fd data in
  if sent then
    let* ' (r, buf, fd) := readx fd 4 in
    if bool_decide (r <> 0) then Ok (-1, fd)
    else Ok (if bool_decide (buf = lit "OKAY") then 0 else -1, fd)
  else Ok (-1, fd).

(** * Theorems *)

(** ** Descriptors that take everything *)

(** Every write of at most [n] bytes is taken whole. *)
Definition whole (n : nat) (evs : list os_event) : Prop :=
  Forall (fun e => match e with Xfer k => (n <= S k)%nat | Fail e => e = EINTR end) evs.

Lemma whole_retry n evs e evs' : whole n evs -> temp_failure_retry evs = Some (e, evs') -> (exists k, e = Xfer k /\ (n <= S k)%nat) /\ whole n evs'.
Proof.
  induction 1 as [|[k|err] evs Hk Hw IH]; cbn; intros E; [done|simplify_eq; eauto|subst err; auto].
Qed.

Lemma write_whole n f p r f' : whole n (io_evs f) -> (length p <= n)%nat -> adb_write f p = Ok (r, f') -> r = WPut (length p) /\ whole n (io_evs f').
Proof.
  unfold adb_write. intros Hw Hp E. destruct (temp_failure_retry _) as [[e evs]|] eqn:Er; [|done].
  destruct (whole_retry _ _ _ _ Hw Er) as ((k & -> & Hk) & Hw'). simplify_eq. cbn [io_evs]. split; [|done]. f_equal. unfold xfer_len. lia.
Qed.

(** Reads and writes of a schedule with answers left. *)
Lemma read_willing f len : (0 < willing (io_evs f))%nat -> exists n f', adb_read f len = Ok (RGot (take (xfer_len n len) (io_in f)), f')
  /\ io_in f' = drop (xfer_len n len) (io_in f) /\ willing (io_evs f) = S (willing (io_evs f')) /\ (length (io_evs f') < length (io_evs f))%nat.
Proof.
  intros H. apply retry_willing in H as (n & evs & E & Hw). pose proof (retry_some _ _ _ E) as (_ & Hl & _).
  eexists n, _. unfold adb_read. rewrite E. split; [done|]. by split_and!.
Qed.

Lemma write_willing f p : (0 < willing (io_evs f))%nat -> exists r f', adb_write f p = Ok (r, f') /\ willing (io_evs f) = S (willing (io_evs f')).
Proof. intros H. apply retry_willing in H as (n & evs & E & Hw). unfold adb_write. rewrite E. eauto. Qed.

(** ** The sequence that ends a shell *)

(** A line that starts with one or more tildes and a dot. *)
Definition disconnects (s : bytes) : Prop :=
  exists pre nl n post, s = pre ++ nl :: replicate (S n) Byte.x7e ++ Byte.x2e :: post /\ newline nl = true.

(** The rest of such a line, behind its first tildes. *)
Definition finishes (least : nat) (s : bytes) : Prop := exists n post, (least <= n)%nat /\ s = replicate n Byte.x7e ++ Byte.x2e :: post.

Lemma disconnects_nil : ~ disconnects [].
Proof. by intros ([|] & ? & ? & ? & ? & _). Qed.

Lemma disconnects_cons b s : disconnects (b :: s) <-> disconnects s \/ newline b = true /\ finishes 1 s.
Proof.
  split.
  - intros ([|x pre] & nl & n & post & E & Hn); cbn in E; simplify_eq; [right|left].
    + split; [done|]. exists (S n), post. split; [lia|done].
    + by exists pre, nl, n, post.
  - intros [(pre & nl & n & post & -> & Hn)|[Hb (n & post & Hn & ->)]]; [by exists (b :: pre), nl, n, post|].
    destruct n as [|n]; [lia|]. by exists [], b, n, post.
Qed.

Lemma finishes_cons least b s : finishes least (b :: s) <->
  (b = Byte.x7e /\ finishes (least - 1) s) \/ (least = 0%nat /\ b = Byte.x2e).
Proof.
  split.
  - intros ([|n] & post & Hn & E); cbn in E; simplify_eq; [right; split; [lia|done]|left]. split; [done|]. exists n, post. split; [lia|done].
  - intros [[-> (n & post & Hn & ->)]|[-> ->]]; [exists (S n), post; split; [lia|done]|by exists 0%nat, s].
Qed.

Lemma finishes_nil least : ~ finishes least [].
Proof. by intros ([|] & ? & ? & ?). Qed.

(** The state of the loop: what of the sequence was just typed. *)
Lemma escape_spec s : forall state, escape state s = None <->
  disconnects s \/ state = 1 /\ finishes 1 s \/ state = 2 /\ finishes 0 s.
Proof.
  induction s as [|b s IH]; intros state; cbn [escape].
  { split; [done|]. by intros [?%disconnects_nil|[[_ ?%finishes_nil]|[_ ?%finishes_nil]]]. }
  rewrite disconnects_cons, !finishes_cons. cbn [Nat.sub]. destruct (newline b) eqn:Hnl.
  { rewrite IH. unfold newline in Hnl. apply bool_decide_eq_true in Hnl. destruct Hnl as [-> | ->]; naive_solver lia. }
  destruct (bool_decide (b = Byte.x7e)) eqn:Ht; [apply bool_decide_eq_true in Ht as ->|apply bool_decide_eq_false in Ht].
  { rewrite IH. case_bool_decide; naive_solver lia. }
  destruct (bool_decide (b = Byte.x2e)) eqn:Hd; [apply bool_decide_eq_true in Hd as ->|apply bool_decide_eq_false in Hd]; cbn [andb].
  - case_bool_decide; [|rewrite IH]; naive_solver lia.
  - rewrite IH. naive_solver lia.
Qed.

Lemma escape_start s : escape 0 s = None <-> disconnects s.
Proof. rewrite escape_spec. naive_solver lia. Qed.

Lemma escape_app a : forall state b, escape state (a ++ b) = match escape state a with Some state => escape state b | None => None end.
Proof.
  induction a as [|x a IH]; intros state b; cbn [app escape]; [done|]. destruct (newline x); [done|]. case_bool_decide; [done|].
  destruct (bool_decide _ && _); [done|]. apply IH.
Qed.

(** ** The loop *)

(** The chunks that are sent: all but the one that ends the process. *)
Definition sent_chunks (e : ending) (chunks : list bytes) : list bytes :=
  match e with Disconnected => removelast chunks | Ended => chunks end.

Record typed (state : Z) (fdi fd fdi' fd' : fdio) (e : ending) (chunks ws : list bytes) : Prop := Typed {
  ty_in : io_in fdi = concat chunks ++ io_in fdi';
  ty_end : e = Disconnected <-> escape state (concat chunks) = None;
  ty_sent : Forall2 (fun w c => w `prefix_of` c) ws (sent_chunks e chunks);
  ty_out : io_out fd' = io_out fd ++ concat ws;
  ty_whole : whole 1024 (io_evs fd) -> ws = sent_chunks e chunks
}.

Lemma stdin_loop_sound fuel : forall state fdi fd e fdi' fd', stdin_loop fuel state fdi fd = Ok (e, fdi', fd') ->
  exists chunks ws, typed state fdi fd fdi' fd' e chunks ws.
Proof.
  induction fuel as [|fuel IH]; intros state fdi fd e fdi' fd' E; [done|]. cbn [stdin_loop] in E.
  apply res_bind_ok in E as ([r fdi1] & Er & E). apply adb_read_cases in Er as (_ & _ & Hr).
  assert (Hend : fdi' = fdi1 -> fd' = fd -> e = Ended -> io_in fdi = io_in fdi1 -> exists chunks ws, typed state fdi fd fdi' fd' e chunks ws).
  { intros -> -> -> Hin. exists [], []. by constructor; cbn; rewrite ?app_nil_r; [|split| | |]. }
  destruct r as [[|b buf]|err]; [simplify_eq; apply Hend; [done..|apply Hr]| |].
  - destruct Hr as [Hin Hlen]. destruct (escape state (b :: buf)) as [state'|] eqn:Ee.
    + apply res_bind_ok in E as ([w fd1] & Ew & E). pose proof (fun H => write_whole 1024 _ _ _ _ H Hlen Ew) as Hall. apply adb_write_cases in Ew as (_ & _ & _ & Hw).
      assert (Hlast : fdi' = fdi1 -> match w with WPut (S _) => False | _ => True end -> io_out fd' = io_out fd ++ take (match w with WPut k => k | WErr _ => 0 end) (b :: buf) -> e = Ended ->
        exists chunks ws, typed state fdi fd fdi' fd' e chunks ws).
      { intros -> Hno Ho ->. exists [b :: buf], [take (match w with WPut k => k | WErr _ => 0 end) (b :: buf)].
        constructor; cbn [concat sent_chunks]; rewrite ?app_nil_r; [done|by rewrite Ee| |done|].
        - constructor; [apply prefix_take|constructor].
        - intros [-> _]%Hall. done. }
      destruct w as [[|k]|err]; [simplify_eq; apply Hlast; [done|done|apply Hw|done]| |simplify_eq; apply Hlast; [done|done| |done]; cbn; rewrite app_nil_r; apply Hw].
      destruct (IH _ _ _ _ _ _ E) as (chunks & ws & [H1 H2 H3 H4 H5]). destruct Hw as [Ho _].
      assert (Hne : e = Disconnected -> chunks <> []) by (intros He ->; by apply H2 in He).
      assert (Hcons : sent_chunks e ((b :: buf) :: chunks) = (b :: buf) :: sent_chunks e chunks).
      { destruct e; [|done]. cbn. destruct chunks; [by destruct (Hne eq_refl)|done]. }
      exists ((b :: buf) :: chunks), (take (S k) (b :: buf) :: ws). constructor.
      * cbn [concat]. rewrite <-app_assoc, <-H1. exact Hin.
      * cbn [concat]. rewrite escape_app, Ee. exact H2.
      * rewrite Hcons. constructor; [apply prefix_take|done].
      * cbn [concat]. by rewrite H4, Ho, app_assoc.
      * intros Hf. apply Hall in Hf as [Hk Hf']. injection Hk as ->. rewrite Hcons, <-(H5 Hf'). f_equal. by apply take_ge.
    + simplify_eq. exists [b :: buf], []. constructor; cbn [concat sent_chunks removelast]; rewrite ?app_nil_r; [done|by rewrite Ee|constructor|done|done].
  - destruct Hr as [Hne Hin]. destruct err; [done|simplify_eq; by apply Hend..].
Qed.

Lemma stdin_loop_returns fuel : forall state fdi fd, (length (io_evs fdi) < fuel)%nat -> (length (io_in fdi) < willing (io_evs fdi))%nat ->
  (length (io_in fdi) <= willing (io_evs fd))%nat -> returns (stdin_loop fuel state fdi fd) (fun _ => True).
Proof.
  induction fuel as [|fuel IH]; intros state fdi fd Hf Hi Hw; [lia|]. cbn [stdin_loop].
  destruct (read_willing fdi 1024) as (n & fdi' & -> & Hin & Hwill & Hevs); [lia|]. cbn [res_bind].
  pose proof (xfer_len_range n 1024) as [_ Hpos]. destruct (take _ _) as [|b buf] eqn:Et; [by eexists|].
  assert (Hlen : (length (io_in fdi') < length (io_in fdi))%nat).
  { rewrite Hin, length_drop. destruct (io_in fdi); [by rewrite take_nil in Et|]. cbn. lia. }
  destruct (escape state (b :: buf)) as [state'|]; [|by eexists].
  destruct (write_willing fd (b :: buf)) as ([[|k]|] & fd' & -> & Hfd); [lia|by eexists| |by eexists]. cbn [res_bind]. apply IH; lia.
Qed.

(** ** Copies *)

Lemma copy_sound fuel : forall inFd outFd inFd' outFd', copy_to_file_loop fuel inFd outFd = Ok (inFd', outFd') ->
  exists chunks ws, io_in inFd = concat chunks ++ io_in inFd' /\ Forall2 (fun w c => w `prefix_of` c) ws chunks
  /\ io_out outFd' = io_out outFd ++ concat ws /\ (whole (32 * 1024) (io_evs outFd) -> ws = chunks).
Proof.
  induction fuel as [|fuel IH]; intros inFd outFd inFd' outFd' E; [done|]. cbn [copy_to_file_loop] in E.
  apply res_bind_ok in E as ([r in1] & Er & E). apply adb_read_cases in Er as (_ & _ & Hr).
  assert (Hend : inFd' = in1 -> outFd' = outFd -> io_in inFd = io_in in1 -> exists chunks ws, io_in inFd = concat chunks ++ io_in inFd' /\ Forall2 (fun w c => w `prefix_of` c) ws chunks
    /\ io_out outFd' = io_out outFd ++ concat ws /\ (whole (32 * 1024) (io_evs outFd) -> ws = chunks)).
  { intros -> -> ->. exists [], []. by rewrite app_nil_r. }
  destruct r as [[|b buf]|err]; [simplify_eq; apply Hend; [done..|apply Hr]| |].
  - destruct Hr as [Hin Hlen]. apply res_bind_ok in E as ([w out1] & Ew & E). pose proof (fun H => write_whole (32 * 1024) _ _ _ _ H Hlen Ew) as Hall.
    apply adb_write_cases in Ew as (_ & _ & _ & Hw). destruct (IH _ _ _ _ E) as (chunks & ws & H1 & H2 & H3 & H4).
    exists ((b :: buf) :: chunks), (take (match w with WPut k => k | WErr _ => 0 end) (b :: buf) :: ws). split_and!.
    + cbn [concat]. rewrite <-app_assoc, <-H1. exact Hin.
    + constructor; [apply prefix_take|done].
    + cbn [concat]. rewrite H3. destruct w as [k|err]; destruct Hw as [? Ho]; [by rewrite H, app_assoc|by rewrite Ho].
    + intros Hf. apply Hall in Hf as [-> Hf']. rewrite (H4 Hf'). f_equal. by apply take_ge.
  - destruct Hr as [Hne Hin]. destruct err; [done|simplify_eq; by apply Hend..].
Qed.

(** ** Downloads *)

Lemma chunk_pos : (0 < CHUNK_SIZE)%nat.
Proof. by apply Nat.ltb_lt. Qed.

Lemma download_sound fuel : forall fd data ok fd', (length data <= fuel)%nat -> download_loop fuel fd data = Ok (ok, fd') ->
  io_in fd' = io_in fd /\ exists k, io_out fd' = io_out fd ++ take k data /\ (ok = true -> take k data = data).
Proof.
  induction fuel as [|fuel IH]; intros fd data ok fd' Hl E.
  { destruct data; [|cbn in Hl; lia]. cbn in E. simplify_eq. split; [done|]. exists 0%nat. by rewrite app_nil_r. }
  destruct data as [|b data]; [cbn in E; simplify_eq; split; [done|]; exists 0%nat; by rewrite app_nil_r|].
  cbn [download_loop] in E. apply res_bind_ok in E as ([r fd1] & Ew & E). apply writex_sound in Ew as (k & [Hi Hk Ho Hr _]).
  case_bool_decide as Hz.
  - simplify_eq. split; [done|]. exists (Nat.min k CHUNK_SIZE). by rewrite Ho, take_take.
  - destruct Hr as [[-> Hk']|[-> _]]; [|lia]. apply IH in E as (Hi' & k' & Ho' & Hok); [|rewrite length_drop; pose proof chunk_pos; cbn [length] in *; lia].
    split; [congruence|]. exists (CHUNK_SIZE + k')%nat. rewrite <-take_take_drop. split.
    + rewrite Ho', Ho, <-app_assoc. f_equal. f_equal. by rewrite Hk', firstn_all.
    + intros H. rewrite (Hok H). apply take_drop.
Qed.

Lemma download_complete fuel : forall fd data, (length data <= fuel)%nat -> (length data <= willing (io_evs fd))%nat ->
  exists fd', download_loop fuel fd data = Ok (true, fd') /\ moved fd fd' [] data.
Proof.
  induction fuel as [|fuel IH]; intros fd data Hl Hw.
  { destruct data; [|cbn in Hl; lia]. exists fd. split; [done|apply moved_refl]. }
  destruct data as [|b data]; [exists fd; split; [done|apply moved_refl]|]. cbn [download_loop].
  destruct (writex_complete fd (take CHUNK_SIZE (b :: data))) as (fd1 & -> & Hm); [rewrite length_take; lia|]. cbn [res_bind].
  rewrite bool_decide_false by lia. destruct (IH fd1 (drop CHUNK_SIZE (b :: data))) as (fd2 & E & Hm2).
  - rewrite length_drop. pose proof chunk_pos. cbn [length] in *. lia.
  - destruct Hm as [_ _ Hm]. cbn [length] in Hm. rewrite length_take in Hm. rewrite length_drop. lia.
  - exists fd2. split; [done|]. pose proof (moved_trans _ _ _ _ _ _ _ Hm Hm2) as H. by rewrite take_drop in H.
Qed.

(** * Properties *)


(** A download that is reported as done has sent all of its data and was answered
    with [OKAY]; it sends a part of its data in any case.  One that the
    descriptor takes and the device answers so is done. *)
Theorem download_exact fd data :
  onwards (adb_download_buffer fd data) (fun '(r, fd') =>
    (exists k, io_out fd' = io_out fd ++ take k data) /\
    (r = 0 -> io_out fd' = io_out fd ++ data /\ io_in fd = lit "OKAY" ++ io_in fd'))
  /\ ((length data + 4 <= willing (io_evs fd))%nat -> take 4 (io_in fd) = lit "OKAY" ->
      returns (adb_download_buffer fd data) (fun '(r, fd') => r = 0)).
Proof.
  unfold adb_download_buffer. split.
  - apply onwards_bind, onwards_all. intros [ok fd1] E. apply download_sound in E as (Hi & k & Ho & Hok); [|done].
    destruct ok; [|split; [by exists k|done]]. rewrite (Hok eq_refl) in Ho. apply onwards_bind, onwards_all. intros [[r buf] fd2] Er.
    apply readx_sound in Er as (Hin & Hout & _). rewrite Hi in Hin.
    assert (Hk : exists k, io_out fd2 = io_out fd ++ take k data) by (exists (length data); by rewrite Hout, Ho, firstn_all).
    case_bool_decide; [by split|]. split; [done|]. case_bool_decide as Hb; [|done]. intros _. by rewrite Hout, <-Hb.
  - intros Hw Hr. destruct (download_complete (length data) fd data) as (fd1 & -> & [Hi _ Hm]); [done|lia|]. cbn [res_bind app] in *. cbn [length] in Hm.
    assert (length (io_in fd1) >= 4)%nat by (apply (f_equal length) in Hr; rewrite length_take in Hr; cbn in Hr; rewrite <-Hi; lia).
    destruct (readx_complete fd1 4) as (fd2 & -> & _); [lia|lia|]. cbn [res_bind]. rewrite bool_decide_false by lia.
    rewrite <-Hi, Hr. by eexists.
Qed.

(** ** What goes wrong *)

Definition keys (s : bytes) : fdio := Fdio s [] (replicate 9 (Xfer 1023)) [].

(** A write that takes a part of the keys loses the others. *)
Example keys_lost : match stdin_read_thread (keys (lit "reboot")) (Fdio [] [] (Xfer 1 :: replicate 9 (Xfer 1023)) []) with
  | Ok (_, _, fd) => io_out fd | _ => [] end = lit "re".
Proof. by vm_compute. Qed.

(** A backup on a full disk is cut, and the copy goes on. *)
Example copy_cut : match copy_to_file (keys (lit "backup")) (Fdio [] [] [Xfer 2; Fail EIO] []) with
  | Ok (inFd, outFd) => (io_in inFd, io_out outFd) | _ => ([], []) end = ([], lit "bac").
Proof. by vm_compute. Qed.


Lemma download_exact_witness : returns (adb_download_buffer (keys (lit "OKAY")) (lit "image")) (fun '(r, fd') => r = 0).
Proof. apply (download_exact (keys (lit "OKAY")) (lit "image")); [vm_compute; lia|by vm_compute]. Defined.
