(* ===== verification/Framebuffer.v ===== *)
(** * Screenshots (framebuffer_service.c)

    The service runs [screencap], whose output is the width, the height and the
    format of the screen, then its pixels, and sends the client a header and the
    pixels.  The pipe and the connection are descriptors of Rwx.v.

    The pixels are copied in pieces of 640 bytes: when their size is no multiple
    of that, the last piece that the loop asks for is never full, and what is
    left of the image is not sent. *)

From S2P Require Import Prelude Rwx.

Definition DDMS_RAWIMAGE_VERSION : Z := 1.

(** A product of [int]s; undefined if it is none. *)
Definition int_mul (a b : Z) : res Z :=
  if bool_decide (- 2 ^ 31 <= a * b < 2 ^ 31) then Ok (a * b) else Ub.

(** The fields after [version], in the order of the structure. *)
Record fbinfo := Fbinfo {
  fb_bpp : Z;
  fb_size : Z;
  fb_width : Z;
  fb_height : Z;
  red_offset : Z;
  red_length : Z;
  blue_offset : Z;
  blue_length : Z;
  green_offset : Z;
  green_length : Z;
  alpha_offset : Z;
  alpha_length : Z
}.

(** The memory of the structure. *)
Definition fb_bytes (x : fbinfo) : bytes :=
  concat (map le32 [DDMS_RAWIMAGE_VERSION; fb_bpp x; fb_size x; fb_width x; fb_height x; red_offset x; red_length x;
    blue_offset x; blue_length x; green_offset x; green_length x; alpha_offset x; alpha_length x]).

(** The [switch] over the format: the bytes of a pixel and the colours; a
    format that is not known ends the service. *)
Definition fb_format (w h f : Z) : res (option fbinfo) :=
  let sized n k := let* p := int_mul w h in let* p := int_mul p n in Ok (Some (k (u32 p) (u32 w) (u32 h))) in
  if bool_decide (f = 1) then sized 4 (fun s w h => Fbinfo 32 s w h 0 8 16 8 8 8 24 8)
  else if bool_decide (f = 2) then sized 4 (fun s w h => Fbinfo 32 s w h 0 8 16 8 8 8 24 0)
  else if bool_decide (f = 3) then sized 3 (fun s w h => Fbinfo 24 s w h 0 8 16 8 8 8 24 0)
  else if bool_decide (f = 4) then sized 2 (fun s w h => Fbinfo 16 s w h 11 5 0 5 5 6 0 0)
  else if bool_decide (f = 5) then sized 4 (fun s w h => Fbinfo 32 s w h 16 8 0 8 8 8 24 8)
  else Ok None.

Definition FB_CHUNK : nat := 640.

(** [readx] into an [int]; the value of a read that was complete. *)
Definition read_int (f : fdio) : res (option Z * fdio) :=
  let* ' (r, b, f) := readx f 4 in
  Ok (match b with
      | [b0; b1; b2; b3] => if bool_decide (r = 0) then Some (s32 (of_le32 b0 b1 b2 b3)) else None
      | _ => None
      end, f).

(** A [readx] and a [writex] of the same length; [false] goes to [done]. *)
Definition copy_piece (n : nat) (screen client : fdio) : res (bool * fdio * fdio) :=
  let* ' (r, buf, screen) := readx screen n in
  if bool_decide (r <> 0) then Ok (false, screen, client)
  else
    let* ' (r, client) := writex client buf in
    Ok (bool_decide (r = 0), screen, client).

(** Every iteration uses an answer for the pipe. *)
Fixpoint copy_loop (fuel : nat) (i size : Z) (screen client : fdio) : res (bool * fdio * fdio) :=
  match fuel with
  | O => Blocked
  | S fuel =>
      if bool_decide (i < size) then
        let* ' (ok, screen, client) := copy_piece FB_CHUNK screen client in
        if ok then copy_loop fuel (u32 (i + Z.of_nat FB_CHUNK)) size screen client
        else Ok (false, screen, client)
      else Ok (true, screen, client)
  end.

Definition copy_screen (size : Z) (screen client : fdio) : res (fdio * fdio) :=
  let* ' (ok, screen, client) := copy_loop (io_fuel screen) 0 size screen client in
  if ok then
    let* ' (_, screen, client) := copy_piece (Z.to_nat (size mod Z.of_nat FB_CHUNK)) screen client in
    Ok (screen, client)
  else Ok (screen, client).

(** How [pipe] and [fork] go. *)
Inductive fb_start := PipeFails | ForkFails | Running.

(** The pipe and the connection when the service is [done]; without a pipe,
    [pid] and [fds] are used uninitialised. *)
Definition framebuffer_service (start : fb_start) (screen client : fdio) : res (fdio * fdio) :=
  match start with
  | PipeFails => Ub
  | ForkFails => Ok (screen, client)
  | Running =>
      let* ' (w, screen) := read_int screen in
      match w with
      | None => Ok (screen, client)
      | Some w =>
          let* ' (h, screen) := read_int screen in
          match h with
          | None => Ok (screen, client)
          | Some h =>
              let* ' (f, screen) := read_int screen in
              match f with
              | None => Ok (screen, client)
              | Some f =>
                  let* info := fb_format w h f in
                  match info with
                  | None => Ok (screen, client)
                  | Some info =>
                      let* ' (r, client) := writex client (fb_bytes info) in
                      if bool_decide (r <> 0) then Ok (screen, client)
                      else copy_screen (fb_size info) screen client
                  end
              end
          end
      end
  end.

(** * Theorems *)

(** What the loop can send of an image: the full pieces. *)
Definition full_pieces (size : Z) (image : bytes) : bytes :=
  take (FB_CHUNK * Z.to_nat (size / Z.of_nat FB_CHUNK)) image.

Lemma read_int_sound f v f' : read_int f = Ok (v, f') -> io_out f' = io_out f /\
  (v = None \/ exists z, 0 <= z < 2 ^ 32 /\ v = Some (s32 z) /\ io_in f = le32 z ++ io_in f').
Proof.
  unfold read_int. intros H. apply res_bind_ok in H as ([[r b] f1] & Hr & H). injection H as <- <-.
  apply readx_sound in Hr as (Hi & Ho & _). split; [done|].
  destruct b as [|b0 [|b1 [|b2 [|b3 [|b4 b]]]]]; auto. case_bool_decide; auto. right.
  exists (of_le32 b0 b1 b2 b3). split; [apply of_le32_range|]. split; [done|]. by rewrite le32_of_le32.
Qed.

(** A piece is copied whole, or the copy ends with a prefix of it. *)
Lemma copy_piece_sound n screen client ok screen' client' : copy_piece n screen client = Ok (ok, screen', client') ->
  exists k, io_out client' = io_out client ++ take k (take n (io_in screen))
  /\ (ok = true -> (n <= length (io_in screen))%nat /\ io_in screen' = drop n (io_in screen)
        /\ io_out client' = io_out client ++ take n (io_in screen))
  /\ ((length (io_in screen) < n)%nat -> ok = false /\ k = 0%nat).
Proof.
  unfold copy_piece. intros H. apply res_bind_ok in H as ([[r buf] s1] & Hr & H). apply readx_sound in Hr as (Hi & _ & Hr).
  case_bool_decide as Hz.
  - injection H as <- <- <-. exists 0%nat. rewrite take_0, app_nil_r. split_and!; auto; done.
  - destruct Hr as [[-> Hl]|[-> _]]; [|done]. apply res_bind_ok in H as ([r c1] & Hw & H). injection H as <- <- <-.
    apply writex_sound in Hw as (k & [_ Hk Ho Hd _]). exists k. rewrite Hi, length_app, take_app_length' by done.
    split; [done|]. split; [|lia]. intros Ht. apply bool_decide_eq_true in Ht as ->. rewrite drop_app_length' by done.
    destruct Hd as [[_ ->]|[? _]]; [|done]. rewrite Ho, take_ge by lia. split_and!; auto; lia.
Qed.

Lemma full_pieces_small size l : size < Z.of_nat FB_CHUNK -> full_pieces size l = [].
Proof.
  intros H. unfold full_pieces, FB_CHUNK in *. replace (640 * _)%nat with 0%nat by (Z.to_euclidean_division_equations; lia). done.
Qed.

Lemma full_pieces_more size l : Z.of_nat FB_CHUNK <= size ->
  full_pieces size l = take FB_CHUNK l ++ full_pieces (size - Z.of_nat FB_CHUNK) (drop FB_CHUNK l).
Proof.
  intros H. unfold full_pieces. rewrite take_take_drop. f_equal. unfold FB_CHUNK in *.
  replace (size - Z.of_nat 640) with (size + (-1) * Z.of_nat 640) by lia. rewrite Z.div_add by lia.
  assert (1 <= size / Z.of_nat 640) by (apply Z.div_le_lower_bound; lia). lia.
Qed.

Lemma full_pieces_all size l : Z.of_nat (length l) = size -> size mod Z.of_nat FB_CHUNK = 0 -> full_pieces size l = l.
Proof.
  intros Hl Hm. apply take_ge. unfold FB_CHUNK in *. pose proof (Z.div_mod size (Z.of_nat 640)). lia.
Qed.

Lemma copy_loop_sound size fuel : size < 2 ^ 32 -> forall i screen client ok screen' client', 0 <= i <= size ->
  Z.of_nat (length (io_in screen)) = size - i -> copy_loop fuel i size screen client = Ok (ok, screen', client') ->
  (exists k, io_out client' = io_out client ++ take k (full_pieces (size - i) (io_in screen)))
  /\ (ok = true -> (size - i) mod Z.of_nat FB_CHUNK = 0 /\ io_in screen' = []).
Proof.
  intros Hs. induction fuel as [|fuel IH]; intros i screen client ok screen' client' Hi Hl H; [done|].
  cbn [copy_loop] in H. case_bool_decide as Hlt.
  2:{ injection H as <- <- <-. replace (size - i) with 0 in * by lia. split; [exists 0%nat; by rewrite take_0, app_nil_r|].
      intros _. split; [done|]. by destruct (io_in screen). }
  apply res_bind_ok in H as ([[ok1 s1] c1] & Hp & H). apply copy_piece_sound in Hp as (k & Ho & Hok & Hsmall).
  destruct (decide (Z.of_nat FB_CHUNK <= size - i)) as [Hb|Hb].
  - rewrite (full_pieces_more (size - i)) by done. destruct ok1.
    + destruct (Hok eq_refl) as (Hlen & Hin & Hout). rewrite u32_small in H by (unfold FB_CHUNK in *; lia).
      apply IH in H as [[k' Hk'] Hend]; [|unfold FB_CHUNK in *; lia|rewrite Hin, length_drop; unfold FB_CHUNK in *; lia].
      rewrite Hin in Hk'. replace (size - (i + Z.of_nat FB_CHUNK)) with (size - i - Z.of_nat FB_CHUNK) in * by lia. split.
      * exists (FB_CHUNK + k')%nat. rewrite Hk', Hout, <-app_assoc. f_equal.
        assert (Ht : length (take FB_CHUNK (io_in screen)) = FB_CHUNK) by (rewrite length_take; lia).
        by rewrite take_app_add'.
      * intros E. destruct (Hend E) as [Hm He]. split; [|done]. rewrite <-Hm.
        replace (size - i - Z.of_nat FB_CHUNK) with (size - i + (-1) * Z.of_nat FB_CHUNK) by lia. by rewrite Z.mod_add by done.
    + injection H as <- <- <-. split; [|done]. exists (Nat.min k FB_CHUNK). rewrite Ho. f_equal.
      rewrite take_app_le by (rewrite length_take; unfold FB_CHUNK in *; lia). by rewrite !take_take, <-Nat.min_assoc, Nat.min_id.
  - destruct Hsmall as [-> ->]; [lia|]. injection H as <- <- <-. split; [|done]. exists 0%nat. by rewrite Ho.
Qed.

Lemma copy_screen_sound size screen client screen' client' : 0 <= size < 2 ^ 32 -> Z.of_nat (length (io_in screen)) = size ->
  copy_screen size screen client = Ok (screen', client') ->
  exists k, io_out client' = io_out client ++ take k (full_pieces size (io_in screen)).
Proof.
  intros Hs Hl H. unfold copy_screen in H. apply res_bind_ok in H as ([[ok s1] c1] & H1 & H).
  apply copy_loop_sound in H1 as [[k Hk] Hend]; [|lia..]. rewrite Z.sub_0_r in *. destruct ok.
  - destruct (Hend eq_refl) as [Hm He]. rewrite Hm in H. apply res_bind_ok in H as ([[ok2 s2] c2] & H2 & H). injection H as <- <-.
    apply copy_piece_sound in H2 as (k2 & Ho & _). rewrite take_0, take_nil, app_nil_r in Ho. exists k. congruence.
  - injection H as <- <-. by exists k.
Qed.

(** ** Enough answers *)

Lemma copy_piece_complete n screen client : (n <= length (io_in screen))%nat -> (n <= willing (io_evs screen))%nat ->
  (n <= willing (io_evs client))%nat -> exists screen' client', copy_piece n screen client = Ok (true, screen', client')
    /\ moved screen screen' (take n (io_in screen)) [] /\ moved client client' [] (take n (io_in screen)).
Proof.
  intros H1 H2 H3. unfold copy_piece. destruct (readx_complete screen n H1 H2) as (s' & -> & Hs). cbn [res_bind].
  rewrite bool_decide_false by lia. destruct (writex_complete client (take n (io_in screen))) as (c' & -> & Hc); [rewrite length_take; lia|].
  cbn [res_bind]. by exists s', c'.
Qed.

Lemma copy_loop_complete size fuel : size < 2 ^ 32 -> forall i screen client, 0 <= i <= size -> (size - i) mod Z.of_nat FB_CHUNK = 0 ->
  Z.of_nat (length (io_in screen)) = size - i -> (length (io_in screen) <= willing (io_evs screen))%nat ->
  (length (io_in screen) <= willing (io_evs client))%nat -> (length (io_in screen) < fuel)%nat ->
  exists screen' client', copy_loop fuel i size screen client = Ok (true, screen', client')
    /\ io_in screen' = [] /\ io_out client' = io_out client ++ io_in screen.
Proof.
  intros Hs. induction fuel as [|fuel IH]; intros i screen client Hi Hm Hl Hw Hc Hf; [lia|]. cbn [copy_loop]. case_bool_decide as Hlt.
  2:{ exists screen, client. assert (io_in screen = []) as -> by (destruct (io_in screen); [done|cbn in Hl; lia]). by rewrite app_nil_r. }
  assert (Hb : Z.of_nat FB_CHUNK <= size - i).
  { destruct (decide (size - i < Z.of_nat FB_CHUNK)); [|lia]. rewrite Z.mod_small in Hm; lia. }
  destruct (copy_piece_complete FB_CHUNK screen client ltac:(lia) ltac:(lia) ltac:(lia)) as (s1 & c1 & -> & [Hs1 Hs2 Hs3] & [Hc1 Hc2 Hc3]).
  cbn [res_bind]. rewrite u32_small by (unfold FB_CHUNK in *; lia).
  assert (Hlen : length (take FB_CHUNK (io_in screen)) = FB_CHUNK) by (rewrite length_take; lia).
  assert (Hin : io_in s1 = drop FB_CHUNK (io_in screen)).
  { rewrite <-(take_drop FB_CHUNK (io_in screen)) in Hs1 at 1. by apply app_inv_head in Hs1. }
  rewrite Hlen in *. cbn in Hs3, Hc3.
  destruct (IH (i + Z.of_nat FB_CHUNK) s1 c1) as (s2 & c2 & -> & H1 & H2); rewrite ?Hin, ?length_drop; unfold FB_CHUNK in *; try lia.
  { replace (size - (i + Z.of_nat 640)) with (size - i + (-1) * Z.of_nat 640) by lia. by rewrite Z.mod_add. }
  exists s2, c2. split; [done|]. split; [done|]. by rewrite H2, Hc2, Hin, <-app_assoc, take_drop.
Qed.

Lemma willing_length evs : (willing evs <= length evs)%nat.
Proof. induction evs as [|[n|[]] evs IH]; cbn; lia. Qed.

Lemma read_int_complete z rest f : 0 <= z < 2 ^ 32 -> io_in f = le32 z ++ rest -> (4 <= willing (io_evs f))%nat ->
  exists f', read_int f = Ok (Some (s32 z), f') /\ io_in f' = rest /\ (willing (io_evs f) <= willing (io_evs f') + 4)%nat.
Proof.
  intros Hz Hi Hw. unfold read_int. destruct (readx_complete f 4) as (f' & -> & [Hm1 _ Hm3]); [rewrite Hi; cbn; lia|done|].
  rewrite Hi in Hm1, Hm3 |- *. change (take 4 (le32 z ++ rest)) with (le32 z) in *. apply app_inv_head in Hm1.
  cbn [res_bind]. unfold le32 at 1. rewrite of_le32_le32 by done. rewrite bool_decide_true by done.
  exists f'. split; [done|]. split; [by symmetry|]. change (length (le32 z)) with 4%nat in Hm3. cbn in Hm3. lia.
Qed.

Lemma fb_format_size w h f x : fb_format w h f = Ok (Some x) -> 0 <= fb_size x < 2 ^ 32.
Proof.
  unfold fb_format. intros H. repeat (case_bool_decide; [inv_ok; simplify_eq; apply u32_range|]). discriminate.
Qed.

Section Screen.
Context (w h f : Z) (info : fbinfo) (image : bytes) (screen : fdio).
Hypothesis Hw : 0 <= w < 2 ^ 32.
Hypothesis Hh : 0 <= h < 2 ^ 32.
Hypothesis Hf : 0 <= f < 2 ^ 32.
Hypothesis Hscreen : io_in screen = le32 w ++ le32 h ++ le32 f ++ image.
Hypothesis Hinfo : fb_format (s32 w) (s32 h) (s32 f) = Ok (Some info).
Hypothesis Himage : Z.of_nat (length image) = fb_size info.

Lemma le32_app_inj a b l l' : 0 <= a < 2 ^ 32 -> 0 <= b < 2 ^ 32 -> le32 a ++ l = le32 b ++ l' -> a = b /\ l = l'.
Proof.
  intros Ha Hb H. unfold le32 in H. injection H as H0 H1 H2 H3 ->. split; [|done].
  rewrite <-(of_le32_le32 a Ha), <-(of_le32_le32 b Hb). congruence.
Qed.

(** Whatever the system answers, and before anything else. *)
Lemma screen_prefix client : onwards (framebuffer_service Running screen client) (fun '(_, client') =>
  exists k, io_out client' = io_out client ++ take k (fb_bytes info ++ full_pieces (fb_size info) image)).
Proof.
  assert (Hnone : exists k, io_out client = io_out client ++ take k (fb_bytes info ++ full_pieces (fb_size info) image))
    by (exists 0%nat; by rewrite take_0, app_nil_r).
  unfold framebuffer_service.
  apply onwards_bind, onwards_all. intros [v s1] (_ & [->|(z & Hz & -> & Hi)])%read_int_sound; [done|].
  rewrite Hscreen in Hi. apply le32_app_inj in Hi as [-> Hi]; [|done..].
  apply onwards_bind, onwards_all. intros [v s2] (_ & [->|(z2 & Hz2 & -> & Hi2)])%read_int_sound; [done|].
  rewrite <-Hi in Hi2. apply le32_app_inj in Hi2 as [-> Hi2]; [|done..].
  apply onwards_bind, onwards_all. intros [v s3] (_ & [->|(z3 & Hz3 & -> & Hi3)])%read_int_sound; [done|].
  rewrite <-Hi2 in Hi3. apply le32_app_inj in Hi3 as [-> Hi3]; [|done..]. rewrite Hinfo. cbn [res_bind].
  apply onwards_bind, onwards_all. intros [r c1] (k & [_ Hk Ho Hr _])%writex_sound. case_bool_decide.
  - exists k. rewrite Ho. f_equal. by rewrite take_app_le.
  - destruct Hr as [[_ ->]|[? _]]; [|lia]. apply onwards_all. intros [s4 c2] Hc.
    apply copy_screen_sound in Hc as (k' & Hk'); [|by eapply fb_format_size|by rewrite <-Hi3].
    exists (length (fb_bytes info) + k')%nat. rewrite take_app_add, Hk', Ho, <-Hi3, take_ge, <-app_assoc by done. done.
Qed.

(** An image in full pieces, with answers for all of it. *)
Lemma screen_complete client : fb_size info mod Z.of_nat FB_CHUNK = 0 ->
  (length (io_in screen) <= willing (io_evs screen))%nat -> (52 + length image <= willing (io_evs client))%nat ->
  returns (framebuffer_service Running screen client) (fun '(_, client') => io_out client' = io_out client ++ fb_bytes info ++ image).
Proof.
  intros Hm Hs Hc. rewrite Hscreen, !length_app in Hs. change (length (le32 _)) with 4%nat in Hs. unfold framebuffer_service.
  destruct (read_int_complete w _ screen Hw Hscreen ltac:(lia)) as (s1 & -> & Hi1 & Hw1). cbn [res_bind].
  destruct (read_int_complete h _ s1 Hh Hi1 ltac:(lia)) as (s2 & -> & Hi2 & Hw2). cbn [res_bind].
  destruct (read_int_complete f _ s2 Hf Hi2 ltac:(lia)) as (s3 & -> & Hi3 & Hw3). cbn [res_bind]. rewrite Hinfo. cbn [res_bind].
  assert (Hlen : length (fb_bytes info) = 52%nat) by done.
  destruct (writex_complete client (fb_bytes info)) as (c1 & -> & [_ Ho Hwc]); [lia|]. cbn [res_bind]. rewrite bool_decide_false by lia.
  rewrite Hlen in Hwc. cbn in Hwc. unfold copy_screen. pose proof (fb_format_size _ _ _ _ Hinfo).
  destruct (copy_loop_complete (fb_size info) (io_fuel s3)) with (i := 0) (screen := s3) (client := c1) as (s4 & c2 & -> & H1 & H2);
    rewrite ?Hi3, ?Z.sub_0_r; unfold io_fuel; try done; try lia.
  { pose proof (willing_length (io_evs s3)). lia. }
  cbn [res_bind]. rewrite Hm. change (Z.to_nat 0) with 0%nat. destruct (copy_piece_complete 0 s4 c2) as (s5 & c3 & -> & _ & [_ Ho3 _]); [lia..|]. cbn [res_bind].
  eexists. split; [done|]. cbn. rewrite Ho3, take_0, app_nil_r, H2, Ho, Hi3, <-app_assoc. done.
Qed.
End Screen.

(** * Properties *)

(** C22: A screenshot whose pixels fill pieces of 640 bytes is sent whole, behind its
    header.  Of any other one, nothing is ever sent behind the last full piece,
    whatever the system answers. *)
Theorem screenshot_sent w h f info image screen client : 0 <= w < 2 ^ 32 -> 0 <= h < 2 ^ 32 -> 0 <= f < 2 ^ 32 ->
  io_in screen = le32 w ++ le32 h ++ le32 f ++ image -> fb_format (s32 w) (s32 h) (s32 f) = Ok (Some info) ->
  Z.of_nat (length image) = fb_size info ->
  onwards (framebuffer_service Running screen client) (fun '(_, client') =>
    exists k, io_out client' = io_out client ++ take k (fb_bytes info ++ full_pieces (fb_size info) image))
  /\ (fb_size info mod 640 = 0 -> (length (io_in screen) <= willing (io_evs screen))%nat ->
      (52 + length image <= willing (io_evs client))%nat ->
      returns (framebuffer_service Running screen client) (fun '(_, client') => io_out client' = io_out client ++ fb_bytes info ++ image)).
Proof. intros. split; [by apply (screen_prefix w h f)|]. intros. by apply (screen_complete w h f). Qed.

(** A screen of 16 times 10 points of 4 bytes, and one of 20 times 10. *)
Definition points (n : nat) : bytes := replicate n Byte.xff.
Definition screencap (w h : Z) (n : nat) : fdio :=
  Fdio (le32 w ++ le32 h ++ le32 1 ++ points n) [] (replicate (12 + n) (Xfer 1000)) [].
Definition ddms : fdio := Fdio [] [] (replicate 900 (Xfer 1000)) [].

Lemma screenshot_sent_witness : exists info, fb_format 16 10 1 = Ok (Some info) /\ fb_size info = 640
  /\ returns (framebuffer_service Running (screencap 16 10 640) ddms) (fun '(_, client') => io_out client' = fb_bytes info ++ points 640).
Proof.
  eexists. split; [vm_compute; reflexivity|]. split; [reflexivity|].
  apply (screenshot_sent 16 10 1 (Fbinfo 32 640 16 10 0 8 16 8 8 8 24 8) (points 640) (screencap 16 10 640) ddms); [lia|lia|lia|vm_compute; reflexivity..|vm_compute; lia|vm_compute; lia].
Defined.

(** The 160 bytes after the first piece of the second screen are lost; the pipe,
    whose other end the service itself keeps open, has nothing more to give, and
    the service waits for ever. *)
Lemma screenshot_cut :
  returns (framebuffer_service Running (screencap 20 10 800) ddms) (fun '(_, client') => length (io_out client') = (52 + 640)%nat)
  /\ framebuffer_service Running (Fdio (io_in (screencap 20 10 800)) [] (replicate 5 (Xfer 1000)) []) ddms = Blocked.
Proof. split; [eexists; split; vm_compute; reflexivity|vm_compute; reflexivity]. Qed.
