(* ===== verification/Packet.v ===== *)
(** * Messages and packets

    The wire format of adb.h: a message of six 32-bit words, little-endian,
    followed by the payload.  [send_packet] (transport.c) completes the header
    of a packet, [check_header] and [check_data] (transport.c) validate one
    that was received; the modules [TransportLocal] (transport_local.c: TCP and
    Bluetooth sockets) and [TransportUsb] (transport_usb.c, over either way of
    reading the usb endpoints) move packets over a transport. *)

From S2P Require Import Prelude Rwx.

(** ** adb.h *)

Definition MAX_PAYLOAD : Z := 4096.

Definition A_SYNC : Z := 0x434e5953.
Definition A_CNXN : Z := 0x4e584e43.
Definition A_OPEN : Z := 0x4e45504f.
Definition A_OKAY : Z := 0x59414b4f.
Definition A_CLSE : Z := 0x45534c43.
Definition A_WRTE : Z := 0x45545257.
Definition A_AUTH : Z := 0x48545541.
Definition A_VERSION : Z := 0x01000000.

Record amessage := Amessage {
  command : Z; arg0 : Z; arg1 : Z; data_length : Z; data_check : Z; magic : Z
}.

(** [p_data] is the initialised prefix of the [MAX_PAYLOAD] bytes of [data],
    [p_ptr] the offset of [ptr] in it. *)
Record apacket := Apacket { p_len : Z; p_ptr : nat; msg : amessage; p_data : bytes }.

#[export] Instance amessage_eq_dec : EqDecision amessage.
Proof. solve_decision. Defined.
#[export] Instance apacket_eq_dec : EqDecision apacket.
Proof. solve_decision. Defined.

(** A packet that is not for the threads of a transport. *)
Definition not_sync (p : apacket) : Prop := command (msg p) <> A_SYNC.

(** adb.c: [get_apacket] zeroes the header of a packet, and leaves its data
    uninitialised. *)
Definition get_apacket : apacket := Apacket 0 0 (Amessage 0 0 0 0 0 0) [].

(** The assignments [p->msg.<field> = v] and to the data of a packet. *)
Definition set_msg (m : amessage) (p : apacket) : apacket := Apacket (p_len p) (p_ptr p) m (p_data p).
Definition set_header (c a0 a1 : Z) (p : apacket) : apacket :=
  set_msg (Amessage c a0 a1 (data_length (msg p)) (data_check (msg p)) (magic (msg p))) p.
Definition set_data_length (n : Z) (p : apacket) : apacket :=
  let m := msg p in set_msg (Amessage (command m) (arg0 m) (arg1 m) n (data_check m) (magic m)) p.
Definition set_len (n : Z) (p : apacket) : apacket := Apacket n (p_ptr p) (msg p) (p_data p).
Definition set_ptr (n : nat) (p : apacket) : apacket := Apacket (p_len p) n (msg p) (p_data p).

(** [bs] stored from the start of the data: bytes after them are kept. *)
Definition set_data (bs : bytes) (p : apacket) : apacket :=
  Apacket (p_len p) (p_ptr p) (msg p) (bs ++ drop (length bs) (p_data p)).

(** ** Header and checksum *)

(** The first [n] bytes of the data, which must be initialised and within the
    array. *)
Definition data_prefix (p : apacket) (n : Z) : res bytes :=
  if bool_decide (0 <= n <= Z.of_nat (length (p_data p)) /\ n <= MAX_PAYLOAD)
  then Ok (take (Z.to_nat n) (p_data p)) else Ub.

(** [while(count-- > 0) sum += *x++] on [unsigned] *)
Definition sum_bytes (bs : bytes) : Z := fold_left (fun sum x => u32 (sum + ub x)) bs 0.

(** The header [send_packet] puts on the wire. *)
Definition seal (p : apacket) : res apacket :=
  let m := msg p in
  let mg := Z.lxor (command m) 0xffffffff in
  let* x := data_prefix p (data_length m) in
  Ok (set_msg (Amessage (command m) (arg0 m) (arg1 m) (data_length m) (sum_bytes x) mg) p).

(** [send_packet(p, t)]: [addr] is the address of [p], and [t] the main
    thread's end of the socket pair of the transport. *)
Definition send_packet (addr : Z) (p : apacket) (t : option fdio) : res (apacket * fdio) :=
  let* p := seal p in
  match t with
  | None => Exit
  | Some f =>
      let* ' (r, f) := write_packet f addr in
      if bool_decide (r = 0) then Ok (p, f) else Exit
  end.

Definition check_header (p : apacket) : Z :=
  if bool_decide (magic (msg p) <> Z.lxor (command (msg p)) 0xffffffff) then -1
  else if bool_decide (data_length (msg p) > MAX_PAYLOAD) then -1
  else 0.

Definition check_data (p : apacket) : res Z :=
  let* x := data_prefix p (data_length (msg p)) in
  Ok (if bool_decide (sum_bytes x <> data_check (msg p)) then -1 else 0).

(** ** The bytes of a message *)

Definition sizeof_amessage : nat := 24.

Definition msg_bytes (m : amessage) : bytes :=
  le32 (command m) ++ le32 (arg0 m) ++ le32 (arg1 m) ++ le32 (data_length m)
  ++ le32 (data_check m) ++ le32 (magic m).

Definition msg_of_bytes (bs : bytes) : option amessage :=
  match bs with
  | [a0; a1; a2; a3; b0; b1; b2; b3; c0; c1; c2; c3;
     d0; d1; d2; d3; e0; e1; e2; e3; f0; f1; f2; f3] =>
      Some (Amessage (of_le32 a0 a1 a2 a3) (of_le32 b0 b1 b2 b3) (of_le32 c0 c1 c2 c3)
                     (of_le32 d0 d1 d2 d3) (of_le32 e0 e1 e2 e3) (of_le32 f0 f1 f2 f3))
  | _ => None
  end.

(** ** transport_local.c *)
Module TransportLocal.

(** [Some p] is the packet of a call that returned 0, [None] is -1. *)
Definition remote_read (f : fdio) (p : apacket) : res (option apacket * fdio) :=
  let* ' (r, buf, f) := readx f sizeof_amessage in
  if bool_decide (r <> 0) then Ok (None, f)
  else
    let* m := access (msg_of_bytes buf) in
    let p := set_msg m p in
    if bool_decide (check_header p <> 0) then Ok (None, f)
    else
      let* ' (r, buf, f) := readx f (Z.to_nat (data_length (msg p))) in
      if bool_decide (r <> 0) then Ok (None, f)
      else
        let p := set_data buf p in
        let* c := check_data p in
        if bool_decide (c <> 0) then Ok (None, f) else Ok (Some p, f).

(** One [writex] from the start of the header, [data] following it. *)
Definition remote_write (f : fdio) (p : apacket) : res (Z * fdio) :=
  let length := s32 (data_length (msg p)) in
  let* x := data_prefix p length in
  let* ' (r, f) := writex f (msg_bytes (msg p) ++ x) in
  Ok (if bool_decide (r <> 0) then -1 else 0, f).

End TransportLocal.

(** ** transport_usb.c *)
Module TransportUsb.
Section Usb.
(** [usb_read] and [usb_write] call the function pointers of the handle. *)
Context {W : Wire}.

Definition remote_read (f : fdio) (p : apacket) : res (option apacket * fdio) :=
  let* ' (r, buf, f) := wire_read f sizeof_amessage in
  if bool_decide (r <> 0) then Ok (None, f)
  else
    let* m := access (msg_of_bytes buf) in
    let p := set_msg m p in
    if bool_decide (check_header p <> 0) then Ok (None, f)
    else
      let* ' (r, buf, f) :=
        (if bool_decide (data_length (msg p) <> 0)
         then wire_read f (Z.to_nat (data_length (msg p))) else Ok (0, [], f)) in
      if bool_decide (r <> 0) then Ok (None, f)
      else
        let p := set_data buf p in
        let* c := check_data p in
        if bool_decide (c <> 0) then Ok (None, f) else Ok (Some p, f).

Definition remote_write (f : fdio) (p : apacket) : res (Z * fdio) :=
  let size := data_length (msg p) in
  let* ' (r, f) := wire_write f (msg_bytes (msg p)) in
  if bool_decide (r <> 0) then Ok (-1, f)
  else if bool_decide (data_length (msg p) = 0) then Ok (0, f)
  else
    let* x := data_prefix p size in
    let* ' (r, f) := wire_write f x in
    Ok (if bool_decide (r <> 0) then -1 else 0, f).

End Usb.

(** [usb_adb_read] and [usb_adb_write] (usb_linux_client.c): one system call,
    which must move everything. *)
Definition usb_adb_read (f : fdio) (len : nat) : res (Z * bytes * fdio) :=
  let* ' (r, f) := adb_read f len in
  match r with
  | RGot bs => Ok (if bool_decide (length bs <> len) then -1 else 0, bs, f)
  | RErr _ => Ok (-1, [], f)
  end.

Definition usb_adb_write (f : fdio) (p : bytes) : res (Z * fdio) :=
  let* ' (r, f) := adb_write f p in
  match r with
  | WPut n => Ok (if bool_decide (n <> length p) then -1 else 0, f)
  | WErr _ => Ok (-1, f)
  end.

Definition adb_wire : Wire := {| wire_read := usb_adb_read; wire_write := usb_adb_write |}.

End TransportUsb.

(** ** Well-formed packets *)

(** The words of a message fit their fields. *)
Definition wf_msg (m : amessage) : Prop :=
  Forall (fun w => 0 <= w < 2 ^ 32)
    [command m; arg0 m; arg1 m; data_length m; data_check m; magic m].

(** What the receiving side accepts. *)
Definition valid_packet (p : apacket) : Prop :=
  wf_msg (msg p) /\ magic (msg p) = Z.lxor (command (msg p)) 0xffffffff
  /\ data_length (msg p) = Z.of_nat (length (p_data p))
  /\ data_length (msg p) <= MAX_PAYLOAD
  /\ data_check (msg p) = sum_bytes (p_data p).

(** The packet that the reader of [p] has, from a packet of [get_apacket]. *)
Definition received (p : apacket) : apacket := Apacket 0 0 (msg p) (p_data p).

(** Sending, or receiving, packets one after the other. *)
Inductive sends (write : fdio -> apacket -> res (Z * fdio)) : fdio -> list apacket -> fdio -> Prop :=
  | sends_nil f : sends write f [] f
  | sends_cons f p f1 ps f2 : write f p = Ok (0, f1) -> sends write f1 ps f2 ->
      sends write f (p :: ps) f2.
Inductive receives (read : fdio -> apacket -> res (option apacket * fdio))
    : fdio -> list apacket -> fdio -> Prop :=
  | receives_nil f : receives read f [] f
  | receives_cons f p f1 ps f2 : read f get_apacket = Ok (Some p, f1) -> receives read f1 ps f2 ->
      receives read f (p :: ps) f2.

(** The bytes of a packet on the wire. *)
Definition wire_bytes (p : apacket) : bytes := msg_bytes (msg p) ++ p_data p.

Arguments msg_bytes : simpl never.
Arguments wire_bytes : simpl never.

(** * Theorems *)

Lemma msg_of_bytes_of_msg m : wf_msg m -> msg_of_bytes (msg_bytes m) = Some m.
Proof.
  unfold wf_msg. rewrite !Forall_cons. intros (? & ? & ? & ? & ? & ? & _).
  destruct m as [c a b d e g]. unfold msg_bytes. cbn -[of_le32 bz Z.pow Z.div] in *. rewrite !of_le32_le32 by done. done.
Qed.

Lemma wf_msg_length m : wf_msg m -> 0 <= data_length m < 2 ^ 32.
Proof. unfold wf_msg. rewrite !Forall_cons. tauto. Qed.

Lemma msg_bytes_length m : length (msg_bytes m) = 24%nat.
Proof. reflexivity. Qed.

Lemma msg_of_bytes_24 bs : length bs = sizeof_amessage -> exists m, msg_of_bytes bs = Some m /\ wf_msg m.
Proof.
  intros H. do 24 (destruct bs as [|? bs]; [discriminate|]). destruct bs; [|discriminate].
  eexists. split; [reflexivity|]. unfold wf_msg. cbn [command arg0 arg1 data_length data_check magic].
  repeat constructor; apply of_le32_range.
Qed.

(** *** The checksum *)

Definition zsum (bs : bytes) : Z := fold_right (fun b z => ub b + z) 0 bs.

Lemma sum_bytes_from bs z :
  fold_left (fun sum x => u32 (sum + ub x)) bs (u32 z) = u32 (z + zsum bs).
Proof.
  revert z. induction bs as [|b bs IH]; intros z; simpl; [by rewrite Z.add_0_r|].
  rewrite u32_add, IH. f_equal. lia.
Qed.

Lemma sum_bytes_zsum bs : sum_bytes bs = u32 (zsum bs).
Proof. unfold sum_bytes. change 0 with (u32 0) at 1. apply sum_bytes_from. Qed.

Lemma sum_bytes_range bs : 0 <= sum_bytes bs < 2 ^ 32.
Proof. rewrite sum_bytes_zsum. apply u32_range. Qed.

Lemma zsum_app a b : zsum (a ++ b) = zsum a + zsum b.
Proof. induction a as [|x a IH]; simpl; [done|]. rewrite IH. lia. Qed.

Lemma zsum_perm a b : a ≡ₚ b -> zsum a = zsum b.
Proof. induction 1; simpl; lia. Qed.

Lemma zsum_range bs : 0 <= zsum bs <= 255 * Z.of_nat (length bs).
Proof. induction bs as [|b bs IH]; simpl; [lia|]. pose proof (ub_range b). lia. Qed.

Lemma data_prefix_full p n : n = Z.of_nat (length (p_data p)) -> n <= MAX_PAYLOAD ->
  data_prefix p n = Ok (p_data p).
Proof.
  intros -> H. unfold data_prefix. rewrite bool_decide_true by lia.
  by rewrite Nat2Z.id, firstn_all.
Qed.

Lemma valid_check p : valid_packet p -> check_header p = 0 /\ check_data p = Ok 0.
Proof.
  intros (_ & Hm & Hl & Hmax & Hc). unfold check_header, check_data.
  rewrite (data_prefix_full _ _ Hl Hmax). cbn [res_bind].
  rewrite !bool_decide_false by lia || congruence. done.
Qed.

(** *** Receiving *)

(** The two transports read packets the same way: reading an empty payload
    from a socket does nothing. *)
Lemma remote_read_same f p : TransportLocal.remote_read f p = TransportUsb.remote_read (W := socket_wire) f p.
Proof.
  unfold TransportLocal.remote_read, TransportUsb.remote_read. cbn [wire_read socket_wire].
  destruct (readx f sizeof_amessage) as [[[r buf] f1]| | |]; try done. cbn [res_bind].
  case_bool_decide; [done|]. destruct (access _); try done. cbn [res_bind].
  case_bool_decide as E; [done|]. case_bool_decide as E0; [done|].
  rewrite E0. done.
Qed.

Section Read.
Context {W : Wire} {L : WireLaws W}.

Lemma remote_read_complete f p rest :
  valid_packet p -> io_in f = wire_bytes p ++ rest ->
  (length (wire_bytes p) <= willing (io_evs f))%nat ->
  exists f', TransportUsb.remote_read f get_apacket = Ok (Some (received p), f')
    /\ io_in f' = rest /\ (willing (io_evs f) <= willing (io_evs f') + length (wire_bytes p))%nat.
Proof.
  intros Hv Hi Hw. unfold wire_bytes in *. rewrite length_app, msg_bytes_length in *.
  rewrite <-app_assoc in Hi.
  destruct (wire_read_complete f sizeof_amessage) as (f1 & E1 & [Hi1 _ Hw1]);
    [unfold sizeof_amessage; lia|rewrite Hi, length_app, msg_bytes_length; unfold sizeof_amessage; lia
    |unfold sizeof_amessage; lia|].
  rewrite Hi, take_app_length' in E1, Hi1, Hw1 by done. apply app_inv_head in Hi1.
  rewrite msg_bytes_length in Hw1. simpl in Hw1.
  unfold TransportUsb.remote_read. rewrite E1. cbn [res_bind].
  rewrite bool_decide_false by (intros H; by apply H).
  pose proof Hv as (Hwf & Hmg & Hl & Hmax & Hck).
  rewrite (msg_of_bytes_of_msg _ Hwf). cbn [access res_bind].
  destruct (valid_check (received p)) as [Hh Hd]; [done|].
  change (check_header (set_msg (msg p) get_apacket)) with (check_header (received p)).
  rewrite Hh, bool_decide_false by (intros H; by apply H). cbn [msg set_msg].
  assert (set_data (p_data p) (set_msg (msg p) get_apacket) = received p) as Hset.
  { unfold set_data, received. cbn. by rewrite drop_nil, app_nil_r. }
  case_bool_decide as Hz.
  - destruct (wire_read_complete f1 (Z.to_nat (data_length (msg p)))) as (f2 & E2 & [Hi2 _ Hw2]);
      [lia|rewrite <-Hi1, length_app; lia|lia|].
    rewrite <-Hi1, take_app_length' in E2, Hi2, Hw2 by lia. apply app_inv_head in Hi2.
    rewrite E2. cbn [res_bind]. rewrite bool_decide_false by (intros H; by apply H).
    rewrite Hset, Hd. cbn [res_bind]. rewrite bool_decide_false by (intros H; by apply H).
    exists f2. split; [done|]. split; [done|]. simpl in Hw2. lia.
  - assert (p_data p = []) as He.
    { apply length_zero_iff_nil. lia. }
    cbn [res_bind]. rewrite bool_decide_false by (intros H; by apply H).
    rewrite He in Hset. rewrite Hset, Hd. cbn [res_bind].
    rewrite bool_decide_false by (intros H; by apply H).
    exists f1. split; [done|]. rewrite He in Hi1. split; [done|]. lia.
Qed.

(** Whatever the bytes of the stream are, reading a packet stays within its
    buffer, and a packet that is accepted is valid. *)
Lemma remote_read_sound f :
  (forall f0 len, wire_read f0 len <> Ub) ->
  TransportUsb.remote_read f get_apacket <> Ub /\
  forall p f', TransportUsb.remote_read f get_apacket = Ok (Some p, f') ->
    valid_packet p /\ p = received p /\ io_in f = wire_bytes p ++ io_in f'.
Proof.
  intros Hub. unfold TransportUsb.remote_read.
  destruct (wire_read f sizeof_amessage) as [[[r buf] f1]| | |] eqn:E1;
    [|by destruct (Hub _ _ E1)|split; [done|intros; done]..].
  apply wire_read_sound in E1 as (Hi1 & _ & Hr1); [|unfold sizeof_amessage; lia]. cbn [res_bind].
  case_bool_decide as Hr; [split; [done|intros; simplify_eq]|].
  destruct Hr1 as [[_ Hl1]|[? _]]; [|lia].
  destruct (msg_of_bytes_24 _ Hl1) as (m & Hm & Hwf). rewrite Hm. cbn [access res_bind].
  assert (buf = msg_bytes m) as Hbuf.
  { clear -Hm Hl1. do 24 (destruct buf as [|? buf]; [discriminate|]). destruct buf; [|discriminate].
    injection Hm as <-. unfold msg_bytes. cbn [command arg0 arg1 data_length data_check magic].
    by rewrite !le32_of_le32. }
  case_bool_decide as Hh; [split; [done|intros; simplify_eq]|].
  unfold check_header in Hh. cbn [msg set_msg] in *.
  case_bool_decide as Hmg; [done|]. case_bool_decide as Hmax; [done|].
  pose proof (wf_msg_length _ Hwf) as Hdl.
  set (rd := if bool_decide (data_length m <> 0) then _ else _).
  assert (rd <> Ub /\ forall r buf f2, rd = Ok (r, buf, f2) -> io_in f1 = buf ++ io_in f2 /\
      (r = 0 /\ length buf = Z.to_nat (data_length m) \/ r = -1)) as [Hrd1 Hrd2].
  { unfold rd. case_bool_decide as Hz.
    - split; [apply Hub|]. intros r' b' f2 H.
      apply wire_read_sound in H as (? & _ & ?); [|lia]. intuition.
    - split; [done|]. intros r' b' f2 [= <- <- <-].
      split; [done|]. left. rewrite Hz. done. }
  destruct rd as [[[r' b'] f2]| | |]; [|done|split; [done|intros; done]..].
  destruct (Hrd2 _ _ _ eq_refl) as [Hi2 Hr2]. cbn [res_bind].
  case_bool_decide as Hr'; [split; [done|intros; simplify_eq]|].
  destruct Hr2 as [[_ Hl2]|?]; [|lia].
  assert (set_data b' (set_msg m get_apacket) = Apacket 0 0 m b') as ->
    by (unfold set_data; cbn; by rewrite drop_nil, app_nil_r).
  unfold check_data. cbn [msg]. rewrite data_prefix_full by (cbn [p_data]; lia). cbn [res_bind p_data].
  case_bool_decide as Hc; cbn [res_bind].
  - split; [done|intros; simplify_eq].
  - split; [done|]. intros p f' [= <- <-]. unfold valid_packet, wire_bytes.
    cbn [msg p_data p_len p_ptr].
    split; [|split; [done|by rewrite Hi1, Hi2, Hbuf, app_assoc]].
    split_and!; [done|done|lia|lia|by case_bool_decide].
Qed.
End Read.

(** The reads of both usual transports have no undefined behaviour. *)
Lemma adb_read_no_ub f len : adb_read f len <> Ub.
Proof. unfold adb_read. by destruct (temp_failure_retry _) as [[[]]|]. Qed.

Lemma readx_no_ub f len : readx f len <> Ub.
Proof.
  unfold readx. generalize (io_fuel f), (@nil byte). intros fuel buf. revert f len buf.
  induction fuel as [|fuel IH]; intros f len buf; [done|]. cbn [readx_loop].
  case_bool_decide; [done|]. destruct (adb_read f len) as [[[[|b bs]|[]] f1]| | |] eqn:E; try done; simpl;
    [apply IH..|by apply adb_read_no_ub in E].
Qed.

(** *** Sending *)

Lemma data_prefix_valid p : valid_packet p -> data_prefix p (data_length (msg p)) = Ok (p_data p).
Proof. intros (_ & _ & Hl & Hmax & _). by apply data_prefix_full. Qed.

Lemma local_write_complete f p :
  valid_packet p -> (length (wire_bytes p) <= willing (io_evs f))%nat ->
  exists f', TransportLocal.remote_write f p = Ok (0, f') /\ moved f f' [] (wire_bytes p).
Proof.
  intros Hv Hw. pose proof Hv as (Hwf & _ & Hl & Hmax & _). pose proof (wf_msg_length _ Hwf) as Hdl.
  unfold TransportLocal.remote_write.
  replace (s32 (data_length (msg p))) with (data_length (msg p))
    by (unfold MAX_PAYLOAD, s32 in *; zdiv).
  rewrite data_prefix_valid by done. cbn [res_bind].
  destruct (writex_complete f (wire_bytes p)) as (f' & E & Hm); [done|].
  unfold wire_bytes in E. rewrite E. eauto.
Qed.

Lemma usb_write_complete `{WireLaws} f p :
  valid_packet p -> (length (wire_bytes p) <= willing (io_evs f))%nat ->
  exists f', TransportUsb.remote_write f p = Ok (0, f') /\ moved f f' [] (wire_bytes p).
Proof.
  intros Hv Hw. unfold wire_bytes in *. rewrite length_app, msg_bytes_length in Hw.
  unfold TransportUsb.remote_write.
  destruct (wire_write_complete f (msg_bytes (msg p))) as (f1 & E1 & Hm1);
    [done|rewrite msg_bytes_length; lia|]. rewrite E1. cbn [res_bind].
  rewrite bool_decide_false by (intros Hx; by apply Hx).
  pose proof Hm1 as [_ _ Hw1]. rewrite msg_bytes_length in Hw1. simpl in Hw1.
  pose proof Hv as (_ & _ & Hl & _).
  case_bool_decide as Hz.
  - assert (p_data p = []) as -> by (apply length_zero_iff_nil; lia). rewrite app_nil_r. eauto.
  - rewrite data_prefix_valid by done. cbn [res_bind].
    destruct (wire_write_complete f1 (p_data p)) as (f2 & E2 & Hm2);
      [intros He; rewrite He in Hl; done|lia|].
    rewrite E2. cbn [res_bind]. rewrite bool_decide_false by (intros Hx; by apply Hx).
    exists f2. split; [done|]. eapply (moved_trans _ _ _ [] _ [] _); eauto.
Qed.

(** The bytes of packets sent one after the other. *)
Lemma sends_bytes write f ps f' :
  (forall f p f', write f p = Ok (0, f') -> valid_packet p -> io_out f' = io_out f ++ wire_bytes p) ->
  Forall valid_packet ps -> sends write f ps f' -> io_out f' = io_out f ++ concat (map wire_bytes ps).
Proof.
  intros Hwr Hv Hs. induction Hs as [f|f p f1 ps f2 E Hs IH]; simpl; [by rewrite app_nil_r|].
  apply Forall_cons in Hv as [Hp Hv]. rewrite IH, (Hwr _ _ _ E Hp), <-app_assoc by done. done.
Qed.

Lemma receives_complete `{WireLaws} f ps rest :
  Forall valid_packet ps -> io_in f = concat (map wire_bytes ps) ++ rest ->
  (length (concat (map wire_bytes ps)) <= willing (io_evs f))%nat ->
  exists f', receives TransportUsb.remote_read f (map received ps) f' /\ io_in f' = rest.
Proof.
  intros Hv. revert f. induction Hv as [|p ps Hp Hv IH]; cbn [map concat]; intros f Hi Hw.
  - exists f. split; [constructor|done].
  - rewrite <-app_assoc in Hi. rewrite length_app in Hw.
    destruct (remote_read_complete f p (concat (map wire_bytes ps) ++ rest)) as (f1 & E & Hi1 & Hw1);
      [done|done|lia|].
    destruct (IH f1) as (f2 & Hr & Hi2); [done|lia|]. exists f2. split; [|done].
    by econstructor.
Qed.

Lemma lxor_range c : 0 <= c < 2 ^ 32 -> 0 <= Z.lxor c 0xffffffff < 2 ^ 32.
Proof.
  intros Hc. assert (0 <= Z.lxor c 0xffffffff) as H0 by (apply Z.lxor_nonneg; lia).
  split; [done|]. destruct (decide (Z.lxor c 0xffffffff = 0)) as [->|Hne]; [done|].
  apply Z.log2_lt_pow2; [lia|]. eapply Z.le_lt_trans; [apply Z.log2_lxor; lia|].
  apply Z.max_lub_lt; [|done].
  destruct (decide (c = 0)) as [->|]; [done|]. apply Z.log2_lt_pow2; lia.
Qed.

(** A packet as its sender hands it to [send_packet]. *)
Definition sendable (p : apacket) : Prop :=
  wf_msg (msg p) /\ data_length (msg p) = Z.of_nat (length (p_data p))
  /\ data_length (msg p) <= MAX_PAYLOAD.

Lemma seal_sendable p : sendable p ->
  exists q, seal p = Ok q /\ valid_packet q /\ p_data q = p_data p
    /\ command (msg q) = command (msg p) /\ arg0 (msg q) = arg0 (msg p)
    /\ arg1 (msg q) = arg1 (msg p).
Proof.
  intros (Hwf & Hl & Hmax). unfold seal. rewrite data_prefix_full by done.
  eexists. split; [reflexivity|]. split; [|done].
  unfold valid_packet. cbn [msg set_msg command arg0 arg1 data_length data_check magic p_data].
  split_and!; try done.
  unfold wf_msg in *. rewrite !Forall_cons in *. destruct Hwf as (Hc & ? & ? & ? & _ & _ & _).
  cbn [command arg0 arg1 data_length data_check magic].
  repeat (split; [first [assumption|apply sum_bytes_range|by apply lxor_range]|]). done.
Qed.

(** *** Properties *)

(** C29: packets sent one after the other over a socket transport (TCP or
    Bluetooth) arrive as the same packets, in the same order, with nothing
    lost, whatever way the system cuts or interrupts the writes of one side
    and the reads of the other; the bytes that follow them stay unread. *)
Theorem local_stream_roundtrip f ps :
  Forall valid_packet ps -> (length (concat (map wire_bytes ps)) <= willing (io_evs f))%nat ->
  exists f', sends TransportLocal.remote_write f ps f' /\
    forall g rest, io_in g = drop (length (io_out f)) (io_out f') ++ rest ->
      (length (concat (map wire_bytes ps)) <= willing (io_evs g))%nat ->
      exists g', receives TransportLocal.remote_read g (map received ps) g' /\ io_in g' = rest.
Proof.
  intros Hv Hw.
  assert (exists f', sends TransportLocal.remote_write f ps f') as [f' Hs].
  { clear -Hv Hw. revert f Hw. induction Hv as [|p ps Hp Hv IH]; cbn [map concat]; intros f Hw.
    - eexists. constructor.
    - rewrite length_app in Hw. destruct (local_write_complete f p) as (f1 & E & [_ _ Hm]); [done|lia|].
      change (length (@nil byte)) with 0%nat in Hm. destruct (IH f1) as [f2 Hs]; [lia|]. eexists. by econstructor. }
  exists f'. split; [done|]. intros g rest Hi Hg.
  apply sends_bytes in Hs; [|clear; intros f p f' E Hv|done].
  - rewrite Hs, drop_app_length in Hi.
    destruct (receives_complete (W := socket_wire) g ps rest) as (g' & Hr & Hi'); [done..|].
    exists g'. split; [|done]. clear -Hr. induction Hr as [|h p h1 qs h2 E Hr IH]; econstructor;
      [by rewrite remote_read_same|done].
  - pose proof Hv as (Hwf & _ & Hl & Hmax & _). pose proof (wf_msg_length _ Hwf) as Hdl.
    unfold TransportLocal.remote_write in E.
    replace (s32 (data_length (msg p))) with (data_length (msg p)) in E
      by (unfold MAX_PAYLOAD, s32 in *; zdiv).
    rewrite data_prefix_valid in E by done. cbn [res_bind] in E. inv_ok.
    destruct x as [r f1]. apply writex_sound in H as [k [_ _ Ho Hr _]]. injection E as E <-.
    case_bool_decide; [done|]. destruct Hr as [[_ ->]|[]]; [|lia]. rewrite firstn_all in Ho. done.
Qed.

(** the same over usb, for either side any pair of endpoint functions that
    move all the bytes asked for or fail. *)
Theorem usb_stream_roundtrip (W : Wire) (L : WireLaws W) f p f' g rest :
  valid_packet p -> TransportUsb.remote_write f p = Ok (0, f') ->
  io_in g = drop (length (io_out f)) (io_out f') ++ rest ->
  (length (wire_bytes p) <= willing (io_evs g))%nat ->
  exists g', TransportUsb.remote_read g get_apacket = Ok (Some (received p), g') /\ io_in g' = rest.
Proof.
  intros Hv Hs Hi Hw.
  assert (io_out f' = io_out f ++ wire_bytes p) as Ho.
  { unfold TransportUsb.remote_write in Hs. inv_ok. destruct x as [r f1].
    apply wire_write_sound in H as (_ & k & _ & Ho & Hr); [|done].
    case_bool_decide as Hr0; [inv_ok; simplify_eq; done|]. 
    assert (r = 0) as -> by lia. destruct Hr as [[_ ->]|[]]; [|done]. rewrite firstn_all in Ho.
    pose proof Hv as (_ & _ & Hl & _).
    unfold wire_bytes. case_bool_decide as Hz.
    - injection Hs as <-. assert (p_data p = []) as -> by (apply length_zero_iff_nil; lia).
      by rewrite app_nil_r.
    - rewrite data_prefix_valid in Hs by done. cbn [res_bind] in Hs. inv_ok. destruct x as [r f2].
      apply wire_write_sound in H as (_ & k & _ & Ho2 & Hr2);
        [|intros He; rewrite He in Hl; done].
      injection Hs as Hs <-. case_bool_decide; [done|].
      destruct Hr2 as [[_ ->]|[]]; [|lia]. by rewrite Ho2, Ho, firstn_all, <-app_assoc. }
  rewrite Ho, drop_app_length in Hi.
  destruct (remote_read_complete g p rest) as (g' & E & Hi' & _); [done..|]. eauto.
Qed.

(** C28: whatever bytes the remote sends, reading a packet writes inside its
    buffer only and terminates in a packet or an error; a packet it accepts
    has the magic of its command, a payload of the announced length, at most
    [MAX_PAYLOAD], and a matching checksum, and is exactly the next bytes of
    the stream. *)
Theorem remote_read_accepts_valid f :
  TransportLocal.remote_read f get_apacket <> Ub /\
  forall p f', TransportLocal.remote_read f get_apacket = Ok (Some p, f') ->
    valid_packet p /\ io_in f = wire_bytes p ++ io_in f'.
Proof.
  rewrite remote_read_same.
  destruct (remote_read_sound (W := socket_wire) f) as [H1 H2]; [apply readx_no_ub|].
  split; [done|]. intros p f' H. by apply H2 in H as (? & _ & ?).
Qed.

(** [send_packet] gives every packet that fits its buffer the header the
    other side accepts, keeps its command, arguments and payload, and hands
    its address to the transport; without a transport it ends the process. *)
Theorem send_packet_valid addr p f :
  sendable p -> (4 <= willing (io_evs f))%nat ->
  exists q f', send_packet addr p (Some f) = Ok (q, f') /\ valid_packet q /\ p_data q = p_data p
    /\ command (msg q) = command (msg p) /\ arg0 (msg q) = arg0 (msg p)
    /\ arg1 (msg q) = arg1 (msg p) /\ io_out f' = io_out f ++ ptr_bytes addr
    /\ send_packet addr p None = Exit.
Proof.
  intros Hs Hw. destruct (seal_sendable p Hs) as (q & E & Hv & ? & ? & ? & ?).
  unfold send_packet, write_packet. rewrite E. cbn [res_bind].
  destruct (writex_rest_complete (io_fuel f) f (ptr_bytes addr)) as (f' & E' & [_ Ho _]);
    [done|unfold io_fuel; lia|].
  rewrite E'. simpl. exists q, f'. split_and!; done.
Qed.

(** the checksum finds any single corrupted byte of a payload, and any
    corruption of the command word or of the magic alone; the bytes of a
    payload in another order pass. *)
Theorem corruption_detected p l x l' y c d :
  valid_packet p -> p_data p = l ++ x :: l' ->
  (x <> y -> check_data (Apacket (p_len p) (p_ptr p) (msg p) (l ++ y :: l')) = Ok (-1)) /\
  (c <> command (msg p) -> check_header (set_msg (Amessage c (arg0 (msg p)) (arg1 (msg p))
     (data_length (msg p)) (data_check (msg p)) (magic (msg p))) p) = -1) /\
  (d ≡ₚ p_data p -> check_data (Apacket (p_len p) (p_ptr p) (msg p) d) = Ok 0).
Proof.
  intros (_ & Hm & Hl & Hmax & Hc) Hd. split_and!.
  - intros Hne. unfold check_data. cbn [msg].
    rewrite data_prefix_full; cbn [p_data];
      [|rewrite Hl, Hd, !length_app; done|done]. cbn [res_bind].
    rewrite bool_decide_true; [done|]. rewrite Hc, Hd, !sum_bytes_zsum, !zsum_app. simpl.
    pose proof (ub_range x). pose proof (ub_range y).
    intros He. apply Hne, ub_inj. unfold u32 in He. zdiv.
  - intros Hne. unfold check_header. cbn [msg set_msg magic command].
    rewrite bool_decide_true; [done|]. rewrite Hm. intros He.
    apply Hne. rewrite <-(Z.lxor_0_r c), <-(Z.lxor_0_r (command (msg p))).
    rewrite <-(Z.lxor_nilpotent 0xffffffff), <-!Z.lxor_assoc. congruence.
  - intros Hp. unfold check_data. cbn [msg].
    assert (length d = length (p_data p)) as Hlen by by rewrite Hp.
    rewrite data_prefix_full; cbn [p_data]; [|lia|done]. cbn [res_bind].
    rewrite bool_decide_false; [done|]. intros H. apply H.
    by rewrite Hc, !sum_bytes_zsum, (zsum_perm _ _ Hp).
Qed.

(** *** A concrete packet *)

(** An OPEN of the shell service. *)
Definition open_shell : apacket :=
  Apacket 0 0 (Amessage A_OPEN 1 0 7 594 (Z.lxor A_OPEN 0xffffffff)) (lit "shell:" ++ [Byte.x00]).

Lemma open_shell_valid : valid_packet open_shell.
Proof.
  unfold valid_packet. split_and!; [|vm_compute; reflexivity..|vm_compute; discriminate|vm_compute; reflexivity].
  unfold wf_msg. repeat constructor; vm_compute; discriminate || reflexivity.
Defined.

(** A descriptor that moves up to [k] bytes at each of [n] calls, every other
    call being interrupted first. *)
Definition steady (n k : nat) (bs : bytes) : fdio :=
  Fdio bs [] (concat (replicate n [Fail EINTR; Xfer k])) [].

Lemma local_stream_roundtrip_witness :
  exists f', sends TransportLocal.remote_write (steady 62 0 []) [open_shell; open_shell] f' /\
    exists g', receives TransportLocal.remote_read (steady 70 2 (io_out f'))
                 [open_shell; open_shell] g' /\ io_in g' = [].
Proof.
  destruct (local_stream_roundtrip (steady 62 0 []) [open_shell; open_shell]) as (f' & Hs & Hr);
    [constructor; [apply open_shell_valid|constructor; [apply open_shell_valid|constructor]] | vm_compute; lia |].
  exists f'. split; [exact Hs|].
  apply (Hr (steady 70 2 (io_out f')) []);
    [exact (eq_sym (app_nil_r _)) | vm_compute; lia].
Defined.

(** The stream of a usb device after it was sent the packet. *)
Definition usb_sent : fdio :=
  match TransportUsb.remote_write (W := usb_wire) (steady 31 0 []) open_shell with
  | Ok (_, f') => f'
  | _ => steady 0 0 []
  end.

Lemma usb_stream_roundtrip_witness :
  exists g', TransportUsb.remote_read (W := usb_wire) (steady 40 2 (io_out usb_sent)) get_apacket
     = Ok (Some open_shell, g') /\ io_in g' = [].
Proof.
  apply (usb_stream_roundtrip usb_wire usb_wire_laws (steady 31 0 []) open_shell usb_sent
    (steady 40 2 (io_out usb_sent)) []);
    [apply open_shell_valid | vm_compute; reflexivity | vm_compute; reflexivity | vm_compute; lia].
Defined.

Lemma send_packet_valid_witness :
  exists q f', send_packet 4096 open_shell (Some (steady 4 0 [])) = Ok (q, f') /\ valid_packet q.
Proof.
  destruct (send_packet_valid 4096 open_shell (steady 4 0 [])) as (q & f' & E & Hv & _);
    [|vm_compute; lia|exists q, f'; exact (conj E Hv)].
  destruct open_shell_valid as (Hwf & _ & Hl & Hmax & _). exact (conj Hwf (conj Hl Hmax)).
Defined.

Lemma corruption_detected_witness :
  check_data (Apacket 0 0 (msg open_shell) (lit "sh3ll:" ++ [Byte.x00])) = Ok (-1) /\
  check_data (Apacket 0 0 (msg open_shell) (lit "shlel:" ++ [Byte.x00])) = Ok 0.
Proof.
  destruct (corruption_detected open_shell (lit "sh") (Byte.x65) (lit "ll:" ++ [Byte.x00]) (Byte.x33) 0
    (lit "shlel:" ++ [Byte.x00]) open_shell_valid eq_refl) as (H1 & _ & H2).
  split; [apply H1; discriminate|]. apply H2. simpl. do 2 apply perm_skip. apply perm_swap.
Defined.
