(* ===== verification/Pump.v ===== *)
(** * The threads of a transport (transport.c)

    The main thread reads and writes the packets of a transport at one end of a
    socket pair; at the other end, [output_thread] writes there what it reads
    from the remote, and [input_thread] sends the remote what it reads there.
    An [A_SYNC] that the output thread writes first, and that the main thread
    passes back, tells the input thread that the connection is new; a second
    one tells it that the connection is over.

    The main thread is behind an interface, [Dispatcher]: what it wrote to the
    transport so far, and what its calls do.  The lifetimes of the transport
    itself are in TransportLife; here the socket pair is open as long as the
    threads run, and a write to it succeeds. *)

From S2P Require Import Prelude Packet.

(** ** The main thread *)

(** [d_packet] is [handle_packet], with a random token it may need; [d_event]
    is anything else that the main thread does; [d_close_all] is
    [close_all_sockets], which the input thread calls. *)
Class Dispatcher (M Ev : Type) := {
  d_out : M -> list apacket;
  d_packet : option bytes -> apacket -> M -> res M;
  d_event : Ev -> M -> res M;
  d_close_all : M -> res M
}.

(** Packets are only appended to what was written, and an [A_SYNC] is only
    passed back. *)
Class DispatcherLaws {M Ev} (D : Dispatcher M Ev) := {
  d_packet_out : forall tok p m, not_sync p -> onwards (d_packet tok p m) (fun m' =>
    exists k, d_out m' = d_out m ++ k /\ Forall not_sync k);
  d_sync_out : forall tok p m, command (msg p) = A_SYNC -> onwards (d_packet tok p m) (fun m' =>
    exists k q k', d_out m' = d_out m ++ k ++ q :: k' /\ Forall not_sync k /\ Forall not_sync k'
      /\ command (msg q) = A_SYNC /\ arg0 (msg q) = arg0 (msg p) /\ arg1 (msg q) = arg1 (msg p));
  d_event_out : forall e m, onwards (d_event e m) (fun m' => exists k, d_out m' = d_out m ++ k /\ Forall not_sync k);
  d_close_out : forall m, onwards (d_close_all m) (fun m' => exists k, d_out m' = d_out m ++ k /\ Forall not_sync k)
}.

(** ** The threads *)

(** The message of the output thread to the input thread. *)
Definition sync_packet (online token : Z) : apacket :=
  set_msg (Amessage A_SYNC online token 0 0 (Z.lxor A_SYNC 0xffffffff)) get_apacket.

(** Where [output_thread] is: before its first message, in the loop, after a
    read that failed, at [kick_transport], at [transport_unref]. *)
Inductive output_at := OStarts | OReads | OFails | OKicks | OUnrefs | OGone.

(** Where [input_thread] is: in the loop, with its variable [active], at
    [close_all_sockets], at [kick_transport], at [transport_unref]. *)
Inductive input_at := IReads (active : bool) | ICloses | IKicks | IUnrefs | IGone.

#[export] Instance output_at_eq_dec : EqDecision output_at.
Proof. solve_decision. Defined.
#[export] Instance input_at_eq_dec : EqDecision input_at.
Proof. solve_decision. Defined.

Section Pump.
Context {M Ev : Type} {D : Dispatcher M Ev}.

(** [p_fd] is what the main thread has yet to read, [p_taken] how many of its
    packets the input thread has read; [p_remote] are the answers of
    [read_from_remote] that are there ([None] fails).  [p_read], [p_handled]
    and [p_written] are what went by: from the remote, to [handle_packet], and
    to [write_to_remote]. *)
Record pump := Pump {
  p_main : M;
  p_fd : list apacket;
  p_taken : nat;
  p_output : output_at;
  p_input : input_at;
  p_token : Z;
  p_kicked : bool;
  p_kicks : nat;
  p_refs : Z;
  p_remote : list (option apacket);
  p_read : list apacket;
  p_handled : list apacket;
  p_written : list apacket
}.

Definition with_main (m : M) (s : pump) : pump :=
  Pump m (p_fd s) (p_taken s) (p_output s) (p_input s) (p_token s) (p_kicked s) (p_kicks s) (p_refs s)
    (p_remote s) (p_read s) (p_handled s) (p_written s).
Definition with_fd (l : list apacket) (s : pump) : pump :=
  Pump (p_main s) l (p_taken s) (p_output s) (p_input s) (p_token s) (p_kicked s) (p_kicks s) (p_refs s)
    (p_remote s) (p_read s) (p_handled s) (p_written s).
Definition with_output (o : output_at) (s : pump) : pump :=
  Pump (p_main s) (p_fd s) (p_taken s) o (p_input s) (p_token s) (p_kicked s) (p_kicks s) (p_refs s)
    (p_remote s) (p_read s) (p_handled s) (p_written s).
Definition with_input (i : input_at) (s : pump) : pump :=
  Pump (p_main s) (p_fd s) (p_taken s) (p_output s) i (p_token s) (p_kicked s) (p_kicks s) (p_refs s)
    (p_remote s) (p_read s) (p_handled s) (p_written s).
Definition with_sync_token (t : Z) (s : pump) : pump :=
  Pump (p_main s) (p_fd s) (p_taken s) (p_output s) (p_input s) t (p_kicked s) (p_kicks s) (p_refs s)
    (p_remote s) (p_read s) (p_handled s) (p_written s).
Definition with_remote (l : list (option apacket)) (r : list apacket) (s : pump) : pump :=
  Pump (p_main s) (p_fd s) (p_taken s) (p_output s) (p_input s) (p_token s) (p_kicked s) (p_kicks s) (p_refs s)
    l r (p_handled s) (p_written s).
Definition take_one (w : list apacket) (s : pump) : pump :=
  Pump (p_main s) (p_fd s) (S (p_taken s)) (p_output s) (p_input s) (p_token s) (p_kicked s) (p_kicks s) (p_refs s)
    (p_remote s) (p_read s) (p_handled s) w.

(** [kick_transport]: the device is told once. *)
Definition kick (s : pump) : pump :=
  Pump (p_main s) (p_fd s) (p_taken s) (p_output s) (p_input s) (p_token s) true
    (if p_kicked s then p_kicks s else S (p_kicks s)) (p_refs s) (p_remote s) (p_read s) (p_handled s) (p_written s).

Definition unref (s : pump) : pump :=
  Pump (p_main s) (p_fd s) (p_taken s) (p_output s) (p_input s) (p_token s) (p_kicked s) (p_kicks s) (p_refs s - 1)
    (p_remote s) (p_read s) (p_handled s) (p_written s).

(** [write_packet(t->fd, ...)] *)
Definition to_main (p : apacket) (s : pump) : pump := with_fd (p_fd s ++ [p]) s.

(** A step of [output_thread].  A device that was kicked gives nothing more:
    the read fails. *)
Definition output_step (s : pump) : res pump :=
  match p_output s with
  | OStarts =>
      let token := u32 (p_token s + 1) in
      Ok (with_output OReads (to_main (sync_packet 1 token) (with_sync_token token s)))
  | OReads =>
      match p_remote s with
      | Some p :: l => Ok (to_main p (with_remote l (p_read s ++ [p]) s))
      | None :: l => Ok (with_output OFails (with_remote l (p_read s) s))
      | [] => if p_kicked s then Ok (with_output OFails s) else Blocked
      end
  | OFails => Ok (with_output OKicks (to_main (sync_packet 0 0) s))
  | OKicks => Ok (with_output OUnrefs (kick s))
  | OUnrefs => Ok (with_output OGone (unref s))
  | OGone => Blocked
  end.

(** The body of the loop of [input_thread]: where it goes, and what it writes
    to the remote. *)
Definition input_packet (token : Z) (active : bool) (p : apacket) : input_at * list apacket :=
  if bool_decide (command (msg p) = A_SYNC) then
    if bool_decide (arg0 (msg p) = 0) then (ICloses, [])
    else (IReads (if bool_decide (arg1 (msg p) = token) then true else active), [])
  else (IReads active, if active then [p] else []).

Definition input_step (s : pump) : res pump :=
  match p_input s with
  | IReads active =>
      match d_out (p_main s) !! p_taken s with
      | None => Blocked
      | Some p =>
          let '(i, w) := input_packet (p_token s) active p in
          Ok (with_input i (take_one (p_written s ++ w) s))
      end
  | ICloses => let* m := d_close_all (p_main s) in Ok (with_input IKicks (with_main m s))
  | IKicks => Ok (with_input IUnrefs (kick s))
  | IUnrefs => Ok (with_input IGone (unref s))
  | IGone => Blocked
  end.

(** [transport_socket_events] *)
Definition main_step (tok : option bytes) (s : pump) : res pump :=
  match p_fd s with
  | [] => Blocked
  | p :: l =>
      let* m := d_packet tok p (p_main s) in
      Ok (Pump m l (p_taken s) (p_output s) (p_input s) (p_token s) (p_kicked s) (p_kicks s) (p_refs s)
            (p_remote s) (p_read s) (p_handled s ++ [p]) (p_written s))
  end.

Inductive action :=
  | Output
  | Input
  | Main (tok : option bytes)
  | Event (e : Ev)
  | Remote (r : option apacket).

Definition step (a : action) (s : pump) : res pump :=
  match a with
  | Output => output_step s
  | Input => input_step s
  | Main tok => main_step tok s
  | Event e => let* m := d_event e (p_main s) in Ok (with_main m s)
  | Remote r => Ok (with_remote (p_remote s ++ [r]) (p_read s) s)
  end.

Fixpoint run (acts : list action) (s : pump) : res pump :=
  match acts with
  | [] => Ok s
  | a :: acts => let* s := step a s in run acts s
  end.

(** [transport_registration_func] starts both threads. *)
Definition begin (token : Z) (m : M) : pump :=
  Pump m [] 0 OStarts (IReads false) token false 0 2 [] [] [] [].

(** * What the input thread makes of a stream *)

(** As protocol.txt says: it discards until a matching [SYNC(1, token)], then
    forwards until a [SYNC(0, 0)]. *)
Fixpoint relay (token : Z) (active : bool) (l : list apacket) : input_at * list apacket :=
  match l with
  | [] => (IReads active, [])
  | p :: l =>
      match input_packet token active p with
      | (IReads active, w) => let '(i, w') := relay token active l in (i, w ++ w')
      | r => r
      end
  end.

Definition is_on (token : Z) (p : apacket) : Prop :=
  command (msg p) = A_SYNC /\ arg0 (msg p) = 1 /\ arg1 (msg p) = token.
Definition is_off (p : apacket) : Prop := command (msg p) = A_SYNC /\ arg0 (msg p) = 0.

Lemma relay_snoc token act l p a w : relay token act l = (IReads a, w) ->
  relay token act (l ++ [p]) = ((input_packet token a p).1, w ++ (input_packet token a p).2).
Proof.
  revert act w. induction l as [|x l IH]; intros act w H; cbn in *.
  - simplify_eq. destruct (input_packet token a p) as [[] w']; cbn; by rewrite ?app_nil_r.
  - destruct (input_packet token act x) as [[act'| | | |] w1]; try (injection H as ? ?; discriminate).
    destruct (relay token act' l) as [i w2] eqn:E. simplify_eq. rewrite (IH _ _ E). by rewrite app_assoc.
Qed.

Lemma relay_others token act l : Forall not_sync l -> relay token act l = (IReads act, if act then l else []).
Proof.
  induction 1 as [|p l Hp _ IH]; cbn; [by destruct act|]. unfold input_packet. rewrite bool_decide_false by done. rewrite IH. by destruct act.
Qed.

Lemma relay_app token act l l' a w : relay token act l = (IReads a, w) ->
  relay token act (l ++ l') = ((relay token a l').1, w ++ (relay token a l').2).
Proof.
  revert act w. induction l as [|x l IH]; intros act w H; cbn in *.
  - simplify_eq. by destruct (relay token a l').
  - destruct (input_packet token act x) as [[act'| | | |] w1]; try (injection H as ? ?; discriminate).
    destruct (relay token act' l) as [i w2] eqn:E. simplify_eq. by rewrite (IH _ _ E), app_assoc.
Qed.

Lemma relay_on token act q l : is_on token q -> relay token act (q :: l) = relay token true l.
Proof.
  intros (H1 & H2 & H3). cbn. unfold input_packet. rewrite bool_decide_true, bool_decide_false, bool_decide_true by (done || lia).
  by destruct (relay token true l).
Qed.

Lemma relay_off token act q l : is_off q -> relay token act (q :: l) = (ICloses, []).
Proof. intros [H1 H2]. cbn. unfold input_packet. by rewrite !bool_decide_true. Qed.

Lemma relay_token token token' act l : Forall not_sync l -> relay token act l = relay token' act l.
Proof. intros H. by rewrite !relay_others. Qed.

(** A stream with the messages of one connection in it, read up to some point. *)
Lemma relay_take token pre q mid post n : Forall not_sync pre -> is_on token q -> Forall not_sync mid ->
  (n <= length (pre ++ q :: mid ++ post))%nat -> post = [] \/ (exists off rest, post = off :: rest /\ is_off off) ->
  let r := relay token false (take n (pre ++ q :: mid ++ post)) in
  r.2 = take (n - S (length pre)) mid
  /\ ((n <= length pre)%nat \/ r.1 = IReads true \/ r.2 = mid)
  /\ ((length pre + length mid + 2 <= n)%nat -> r = (ICloses, mid)).
Proof.
  intros Hp Hq Hm Hn Hpost. rewrite length_app in Hn. cbn in Hn. rewrite length_app in Hn.
  destruct (decide (n <= length pre)%nat) as [|Hn1].
  { rewrite take_app_le, relay_others by (done || by apply Forall_take). cbn. replace (n - S (length pre))%nat with 0%nat by lia.
    split; [done|]. split; [by left|lia]. }
  set (n' := (n - S (length pre))%nat). replace n with (length pre + S n')%nat by (unfold n'; lia). rewrite take_app_add. cbn [take].
  rewrite (relay_app _ _ pre _ false []), relay_on by (by rewrite ?relay_others). cbn [app fst snd].
  destruct (decide (n' <= length mid)%nat) as [|Hn2].
  { rewrite take_app_le, relay_others by (done || by apply Forall_take). cbn. split; [done|]. split; [auto|lia]. }
  destruct Hpost as [->|(off & rest & -> & Hoff)]; [cbn in Hn; unfold n' in Hn2; lia|].
  replace n' with (length mid + S (n' - S (length mid)))%nat by lia. rewrite take_app_add. cbn [take].
  rewrite (relay_app _ _ mid _ true mid), relay_off by (done || by rewrite relay_others). cbn. rewrite app_nil_r, take_ge by lia. auto.
Qed.

(** * The invariant *)

(** What the output thread wrote. *)
Definition inbound (token : Z) (o : output_at) (read : list apacket) : list apacket :=
  match o with
  | OStarts => []
  | OReads | OFails => sync_packet 1 token :: read
  | _ => sync_packet 1 token :: read ++ [sync_packet 0 0]
  end.

(** What the main thread wrote, by what it has handled: nothing for the input
    thread before the first message, and the two messages around what counts. *)
Inductive outbound (token : Z) : list apacket -> list apacket -> Prop :=
  | OutBefore out : Forall not_sync out -> outbound token [] out
  | OutDuring p ps pre q mid : Forall not_sync ps -> Forall not_sync pre -> is_on token q -> Forall not_sync mid ->
      outbound token (p :: ps) (pre ++ q :: mid)
  | OutAfter p ps pre q mid off post : Forall not_sync ps -> Forall not_sync pre -> is_on token q -> Forall not_sync mid ->
      is_off off -> Forall not_sync post -> outbound token (p :: ps ++ [sync_packet 0 0]) (pre ++ q :: mid ++ off :: post).

Definition quiet_remote (l : list (option apacket)) : Prop :=
  Forall (fun r => match r with Some p => not_sync p | None => True end) l.

Record pump_ok (token : Z) (s : pump) : Prop := PumpOk {
  i_token : p_output s <> OStarts -> p_token s = token;
  i_next : p_output s = OStarts -> u32 (p_token s + 1) = token /\ p_read s = [];
  i_read : Forall not_sync (p_read s);
  i_remote : quiet_remote (p_remote s);
  i_in : p_handled s ++ p_fd s = inbound token (p_output s) (p_read s);
  i_out : outbound token (p_handled s) (d_out (p_main s));
  i_taken : (p_taken s <= length (d_out (p_main s)))%nat;
  i_relay : relay (p_token s) false (take (p_taken s) (d_out (p_main s)))
    = (match p_input s with IReads a => IReads a | _ => ICloses end, p_written s)
}.

Lemma outbound_app token h out k : outbound token h out -> Forall not_sync k -> outbound token h (out ++ k).
Proof.
  intros [o Ho|p ps pre q mid|p ps pre q mid off post] Hk.
  - constructor. by apply Forall_app.
  - rewrite <-app_assoc. cbn. constructor; auto. by apply Forall_app.
  - replace ((pre ++ q :: mid ++ off :: post) ++ k) with (pre ++ q :: mid ++ off :: post ++ k) by (by rewrite <-!app_assoc; cbn; rewrite <-app_assoc).
    apply OutAfter; auto. by apply Forall_app.
Qed.

(** The packet that the main thread reads next. *)
Lemma next_in token o read h p l : Forall not_sync read -> h ++ p :: l = inbound token o read ->
  (h = [] /\ p = sync_packet 1 token)
  \/ (exists x ps, h = x :: ps /\ Forall not_sync ps /\ (not_sync p \/ p = sync_packet 0 0)).
Proof.
  intros Hr H. destruct h as [|x ps]; cbn in H.
  - left. split; [done|]. destruct o; cbn in H; by simplify_eq.
  - right. exists x, ps. split; [done|].
    assert (Hin : ps ++ p :: l = read \/ ps ++ p :: l = read ++ [sync_packet 0 0]) by (destruct o; cbn in H; simplify_eq; auto).
    destruct Hin as [<-|Hin]; [apply Forall_app in Hr as [H1 H2]; inversion H2; auto|].
    destruct l as [|y l] using rev_ind.
    + apply app_inj_tail in Hin as [<- ->]. auto.
    + rewrite app_comm_cons, app_assoc in Hin. apply app_inj_tail in Hin as [<- _].
      apply Forall_app in Hr as [H1 H2]. inversion H2; auto.
Qed.

Context {L : DispatcherLaws D}.

(** A step of the main thread that only appends. *)
Lemma main_grows token s m k : pump_ok token s -> d_out m = d_out (p_main s) ++ k -> Forall not_sync k ->
  outbound token (p_handled s) (d_out m) /\ (p_taken s <= length (d_out m))%nat
  /\ take (p_taken s) (d_out m) = take (p_taken s) (d_out (p_main s)).
Proof.
  intros [] -> Hk. split_and!; [by apply outbound_app|rewrite length_app; lia|by rewrite take_app_le].
Qed.

Lemma main_ok token s tok s' : pump_ok token s -> main_step tok s = Ok s' -> pump_ok token s'.
Proof.
  intros H E. pose proof H as []. unfold main_step in E. destruct (p_fd s) as [|p l] eqn:Ef; [done|].
  destruct (d_packet tok p (p_main s)) as [m| | |] eqn:Em; try done. cbn in E. simplify_eq.
  assert (Hin : (p_handled s ++ [p]) ++ l = inbound token (p_output s) (p_read s)) by (by rewrite <-app_assoc).
  assert (Hmain : outbound token (p_handled s ++ [p]) (d_out m) /\ exists k, d_out m = d_out (p_main s) ++ k).
  { destruct (next_in _ _ _ _ _ _ i_read0 i_in0) as [[Eh ->]|(x & ps & Eh & Hps & Hp)].
    - pose proof (d_sync_out tok (sync_packet 1 token) (p_main s) eq_refl) as Hs. rewrite Em in Hs.
      destruct Hs as (k & q & k' & -> & Hk & Hk' & Hq). split; [|by eexists]. rewrite Eh in *. inversion i_out0; subst.
      cbn. rewrite app_assoc. apply OutDuring; auto. by apply Forall_app.
    - rewrite Eh in *. destruct Hp as [Hp| ->].
      + pose proof (d_packet_out tok p (p_main s) Hp) as Hs. rewrite Em in Hs. destruct Hs as (k & Ek & Hk). rewrite Ek. split; [|by eexists].
        apply outbound_app; [|done]. inversion i_out0; subst; cbn; [apply OutDuring; auto; apply Forall_app; auto|].
        exfalso. apply Forall_app in Hps as [_ Hps]. inversion Hps. done.
      + pose proof (d_sync_out tok (sync_packet 0 0) (p_main s) eq_refl) as Hs. rewrite Em in Hs.
        destruct Hs as (k & q & k' & -> & Hk & Hk' & Hq1 & Hq2 & _). split; [|by eexists]. inversion i_out0; subst; cbn.
        * replace ((pre ++ q0 :: mid) ++ k ++ q :: k') with (pre ++ q0 :: (mid ++ k) ++ q :: k') by (by rewrite <-!app_assoc; cbn; rewrite <-?app_assoc).
          apply OutAfter; auto; try (by apply Forall_app). by split.
        * exfalso. apply Forall_app in Hps as [_ Hps]. inversion Hps. done. }
  destruct Hmain as [Ho (k & Ek)]. constructor; cbn; auto.
  - rewrite Ek, length_app. lia.
  - rewrite Ek, take_app_le by done. done.
Qed.

Lemma output_ok token s s' : pump_ok token s -> output_step s = Ok s' -> pump_ok token s'.
Proof.
  intros H E. pose proof H as []. unfold output_step in E. destruct (p_output s) eqn:Eo; cbn in *.
  - destruct (i_next0 eq_refl) as [Et Er]. simplify_eq. constructor; cbn; auto; try done.
    + rewrite app_assoc, i_in0, Er. done.
    + rewrite <-i_relay0. apply relay_token. apply Forall_take. apply app_eq_nil in i_in0 as [Eh _]. rewrite Eh in i_out0. by inversion i_out0.
  - destruct (p_remote s) as [|[p|] l] eqn:Er.
    + destruct (p_kicked s); [|done]. simplify_eq. constructor; cbn; rewrite ?Er; auto; done.
    + simplify_eq. apply Forall_cons in i_remote0 as [Hp Hl]. constructor; cbn; rewrite ?Eo; auto; try done.
      * apply Forall_app. auto.
      * by rewrite app_assoc, i_in0.
    + simplify_eq. apply Forall_cons in i_remote0 as [Hp Hl]. constructor; cbn; rewrite ?Eo; auto; done.
  - simplify_eq. constructor; cbn; auto; try done. by rewrite app_assoc, i_in0.
  - simplify_eq. constructor; cbn; auto; done.
  - simplify_eq. constructor; cbn; auto; done.
  - done.
Qed.

Lemma input_ok token s s' : pump_ok token s -> input_step s = Ok s' -> pump_ok token s'.
Proof.
  intros H E. pose proof H as []. unfold input_step in E. destruct (p_input s) as [a| | | |] eqn:Ei.
  - destruct (d_out (p_main s) !! p_taken s) as [p|] eqn:Ep; [|done]. destruct (input_packet (p_token s) a p) as [i w] eqn:Ew.
    simplify_eq. constructor; cbn; auto; [by apply lookup_lt_Some in Ep|].
    rewrite (take_S_r _ _ p) by done. rewrite (relay_snoc _ _ _ _ a (p_written s)) by done. rewrite Ew. cbn.
    unfold input_packet in Ew. repeat case_bool_decide; by simplify_eq.
  - pose proof (d_close_out (p_main s)) as Hc. destruct (d_close_all (p_main s)) as [m| | |]; try done. cbn in *. simplify_eq.
    destruct Hc as (k & Ek & Hk). destruct (main_grows token s m k H Ek Hk) as (H1 & H2 & H3).
    constructor; cbn; auto. by rewrite H3.
  - simplify_eq. constructor; cbn; auto.
  - simplify_eq. constructor; cbn; auto.
  - done.
Qed.

Definition quiet_action (a : action) : Prop :=
  match a with Remote (Some p) => not_sync p | _ => True end.

Lemma pump_step_ok token a s s' : pump_ok token s -> quiet_action a -> step a s = Ok s' -> pump_ok token s'.
Proof.
  intros H Ha E. destruct a as [| |tok|e|r]; cbn in E.
  - by eapply output_ok.
  - by eapply input_ok.
  - by eapply main_ok.
  - pose proof (d_event_out e (p_main s)) as Hc. destruct (d_event e (p_main s)) as [m| | |]; try done. cbn in *. simplify_eq.
    destruct Hc as (k & Ek & Hk). destruct (main_grows token s m k H Ek Hk) as (H1 & H2 & H3).
    destruct H. constructor; cbn; auto. by rewrite H3.
  - simplify_eq. destruct H. constructor; cbn; auto. apply Forall_app. split; [done|]. constructor; [|done]. by destruct r.
Qed.

Lemma pump_run_ok token acts : forall s s', pump_ok token s -> Forall quiet_action acts -> run acts s = Ok s' -> pump_ok token s'.
Proof.
  induction acts as [|a acts IH]; intros s s' H Ha E; cbn in E; [by simplify_eq|].
  apply Forall_cons in Ha as [Ha Hs]. destruct (step a s) as [s1| | |] eqn:E1; try done. cbn in E. apply (IH s1); auto. by eapply pump_step_ok.
Qed.

Lemma begin_ok t m : Forall not_sync (d_out m) -> pump_ok (u32 (t + 1)) (begin t m).
Proof. intros H. constructor; cbn; auto; try done; try apply Forall_nil_2; [by constructor|lia]. Qed.

(** What the threads made of the streams. *)
Record streams (token : Z) (s : pump) : Prop := Streams {
  st_in : p_handled s `prefix_of` sync_packet 1 token :: p_read s ++ [sync_packet 0 0];
  st_before : p_handled s = [] -> p_written s = [] /\ Forall not_sync (d_out (p_main s));
  st_during : p_handled s <> [] -> exists pre q mid post, d_out (p_main s) = pre ++ q :: mid ++ post
    /\ Forall not_sync pre /\ is_on token q /\ Forall not_sync mid
    /\ (post = [] /\ sync_packet 0 0 ∉ p_handled s \/ exists off rest, post = off :: rest /\ is_off off /\ sync_packet 0 0 ∈ p_handled s)
    /\ p_written s = take (p_taken s - S (length pre)) mid
    /\ ((p_taken s <= length pre)%nat \/ p_input s = IReads true \/ p_written s = mid)
}.

Lemma inbound_prefix token o read : inbound token o read `prefix_of` sync_packet 1 token :: read ++ [sync_packet 0 0].
Proof. destruct o; cbn; try done; [by apply prefix_nil|by apply prefix_cons, prefix_app_r|by apply prefix_cons, prefix_app_r]. Qed.

Lemma handled_token token s : pump_ok token s -> p_handled s <> [] -> p_token s = token.
Proof.
  intros [] Hh. apply i_token0. intros Eo. rewrite Eo in i_in0. cbn in i_in0. by apply app_eq_nil in i_in0 as [? _].
Qed.

(** The packets that the main thread wrote, once it handled the first message. *)
Lemma window token s : pump_ok token s -> p_handled s <> [] -> exists pre q mid post,
  d_out (p_main s) = pre ++ q :: mid ++ post /\ Forall not_sync pre /\ is_on token q /\ Forall not_sync mid
  /\ (post = [] /\ sync_packet 0 0 ∉ p_handled s
      \/ exists off rest, post = off :: rest /\ is_off off /\ sync_packet 0 0 ∈ p_handled s).
Proof.
  intros [] Hh. inversion i_out0 as [|p ps pre q mid Hps Hpre Hq Hmid Eh Eo|p ps pre q mid off post Hps Hpre Hq Hmid Hoff Hpost Eh Eo]; [congruence| |].
  - exists pre, q, mid, []. rewrite app_nil_r. split_and!; auto. left. split; [done|]. rewrite <-Eh in i_in0. intros [Hx|Hx]%elem_of_cons.
    + destruct (p_output s); cbn in i_in0; simplify_eq.
    + rewrite Forall_forall in Hps. by apply (Hps _ Hx).
  - exists pre, q, mid, (off :: post). split_and!; auto. right. exists off, post. split_and!; auto.
    apply elem_of_cons. right. apply elem_of_app. right. by left.
Qed.

Lemma ok_streams token s : pump_ok token s -> streams token s.
Proof.
  intros H. pose proof H as []. constructor.
  - trans (inbound token (p_output s) (p_read s)); [|apply inbound_prefix]. rewrite <-i_in0. by exists (p_fd s).
  - intros Eh. rewrite Eh in i_out0. inversion i_out0; subst. split; [|done].
    rewrite relay_others in i_relay0 by (by apply Forall_take). by simplify_eq.
  - intros Hh. rewrite (handled_token token s H Hh) in i_relay0.
    destruct (window token s H Hh) as (pre & q & mid & post & Eo & Hpre & Hq & Hmid & Hpost). rewrite Eo in *.
    destruct (relay_take token pre q mid post (p_taken s) Hpre Hq Hmid i_taken0) as (H1 & H2 & _); [naive_solver|].
    rewrite i_relay0 in H1, H2. cbn in H1, H2. exists pre, q, mid, post. split_and!; auto.
    destruct H2 as [|[Hr|]]; auto. right. left. destruct (p_input s); by simplify_eq.
Qed.

(** ** The end *)

(** None of the three threads has anything to do. *)
Definition all_wait (s : pump) : Prop :=
  p_fd s = [] /\ (p_output s = OGone \/ p_output s = OReads /\ p_remote s = [] /\ p_kicked s = false)
  /\ (p_input s = IGone \/ (exists a, p_input s = IReads a) /\ p_taken s = length (d_out (p_main s))).

(** Kicks and references by where the threads are. *)
Definition kicked_by (s : pump) : Prop :=
  p_kicked s = bool_decide (p_output s = OUnrefs \/ p_output s = OGone \/ p_input s = IUnrefs \/ p_input s = IGone)
  /\ p_kicks s = (if p_kicked s then 1 else 0)%nat
  /\ p_refs s = (if bool_decide (p_output s = OGone) then 0 else 1) + (if bool_decide (p_input s = IGone) then 0 else 1).

Lemma kicked_begin t m : kicked_by (begin t m).
Proof. done. Qed.

Lemma kicked_step a s s' : kicked_by s -> step a s = Ok s' -> kicked_by s'.
Proof.
  intros (H1 & H2 & H3) E. unfold kicked_by. destruct a as [| |tok|e|r]; cbn in E.
  - unfold output_step in E. destruct (p_output s) eqn:Eo; try (destruct (p_remote s) as [|[p|] l]; [destruct (p_kicked s) eqn:Ek; [|done]|..]);
      simplify_eq; cbn in *; rewrite ?Eo; repeat case_bool_decide; destruct (p_kicked s); naive_solver lia.
  - unfold input_step in E. destruct (p_input s) as [a| | | |] eqn:Ei.
    + destruct (_ !! _); [|done]. destruct (input_packet _ _ _) as [i w] eqn:Ew. unfold input_packet in Ew.
      repeat case_bool_decide; simplify_eq; cbn in *; repeat case_bool_decide; naive_solver lia.
    + destruct (d_close_all _); try done. cbn in E. simplify_eq. cbn in *. repeat case_bool_decide; naive_solver lia.
    + simplify_eq; cbn in *. repeat case_bool_decide; destruct (p_kicked s); naive_solver lia.
    + simplify_eq; cbn in *. repeat case_bool_decide; naive_solver lia.
    + done.
  - unfold main_step in E. destruct (p_fd s); [done|]. destruct (d_packet _ _ _); try done. cbn in E. by simplify_eq.
  - destruct (d_event _ _); try done. cbn in E. by simplify_eq.
  - by simplify_eq.
Qed.

Lemma kicked_run acts : forall s s', kicked_by s -> run acts s = Ok s' -> kicked_by s'.
Proof.
  induction acts as [|a acts IH]; intros s s' H E; cbn in E; [by simplify_eq|].
  destruct (step a s) as [s1| | |] eqn:E1; try done. cbn in E. apply (IH s1); auto. by eapply kicked_step.
Qed.

(** When nobody has anything to do, the remote is silent, or both threads are
    gone. *)
Lemma waits_end token s : pump_ok token s -> kicked_by s -> all_wait s ->
  (p_output s = OReads /\ exists a, p_input s = IReads a)
  \/ (p_output s = OGone /\ p_input s = IGone /\ p_kicks s = 1%nat /\ p_refs s = 0
      /\ p_handled s = sync_packet 1 token :: p_read s ++ [sync_packet 0 0]).
Proof.
  intros H (K1 & K2 & K3) (Hf & [Ho|(Ho & _ & Hk)] & Hi); pose proof H as [].
  - right. rewrite Ho, Hf, app_nil_r in i_in0. cbn in i_in0.
    assert (Hg : p_input s = IGone).
    { destruct Hi as [|[(a & Ha) Ht]]; [done|]. exfalso. assert (Hh : p_handled s <> []) by (by rewrite i_in0).
      rewrite (handled_token token s H Hh) in i_relay0.
      destruct (window token s H Hh) as (pre & q & mid & post & Eo & Hpre & Hq & Hmid & Hpost). rewrite Eo in *.
      destruct Hpost as [[_ Hno]|(off & rest & -> & Hoff & _)].
      { apply Hno. rewrite i_in0. apply elem_of_cons. right. apply elem_of_app. right. by left. }
      destruct (relay_take token pre q mid (off :: rest) (p_taken s) Hpre Hq Hmid i_taken0) as (_ & _ & Hr); [eauto|].
      rewrite i_relay0, Ha in Hr. rewrite Ht, length_app in Hr. cbn in Hr. rewrite length_app in Hr. cbn in Hr.
      specialize (Hr ltac:(lia)). done. }
    rewrite Ho, Hg in *. rewrite bool_decide_true in K1 by auto. rewrite K1 in K2. rewrite !bool_decide_true in K3 by done. auto.
  - left. split; [done|]. destruct Hi as [Hg|[Ha _]]; [|done]. rewrite bool_decide_true in K1 by auto. congruence.
Qed.

(** *** The steps of the threads end *)

Definition continues (a : action) : bool := match a with Output | Input | Main _ => true | _ => false end.

Definition output_rank (o : output_at) : nat :=
  match o with OStarts => 5 | OReads => 4 | OFails => 3 | OKicks => 2 | OUnrefs => 1 | OGone => 0 end.
Definition input_rank (i : input_at) : nat :=
  match i with IReads _ => 4 | ICloses => 3 | IKicks => 2 | IUnrefs => 1 | IGone => 0 end.

(** What the threads have left to do, the most important first. *)
Definition work (s : pump) : nat * nat * nat * nat :=
  (output_rank (p_output s) + length (p_remote s), length (p_fd s), input_rank (p_input s),
   length (d_out (p_main s)) - p_taken s)%nat.

Definition less (x y : nat * nat * nat * nat) : Prop :=
  let '(a, b, c, d) := x in let '(a', b', c', d') := y in
  (a < a' \/ a = a' /\ (b < b' \/ b = b' /\ (c < c' \/ c = c' /\ d < d')))%nat.

Lemma less_wf : well_founded less.
Proof.
  assert (forall a b c d, Acc less (a, b, c, d)) as H; [|by intros [[[]]]].
  induction a as [a IHa] using lt_wf_ind. induction b as [b IHb] using lt_wf_ind.
  induction c as [c IHc] using lt_wf_ind. induction d as [d IHd] using lt_wf_ind.
  constructor. intros [[[a' b'] c'] d'] [H|[-> [H|[-> [H|[-> H]]]]]]; auto.
Qed.

Lemma step_works a s s' : continues a = true -> step a s = Ok s' -> less (work s') (work s).
Proof.
  intros Ha E. destruct a as [| |tok|e|r]; try done; cbn in E; unfold work, less.
  - unfold output_step in E. destruct (p_output s) eqn:Eo; try (destruct (p_remote s) as [|[p|] l] eqn:Er; [destruct (p_kicked s); [|done]|..]);
      simplify_eq; cbn; rewrite ?Eo, ?Er; cbn; lia.
  - unfold input_step in E. destruct (p_input s) as [a| | | |] eqn:Ei.
    + destruct (d_out (p_main s) !! p_taken s) eqn:El; [|done]. apply lookup_lt_Some in El.
      destruct (input_packet _ _ _) as [i w] eqn:Ew. unfold input_packet in Ew. repeat case_bool_decide; simplify_eq; cbn; lia.
    + destruct (d_close_all _); try done. cbn in E. simplify_eq. cbn. lia.
    + simplify_eq. cbn. lia.
    + simplify_eq. cbn. lia.
    + done.
  - unfold main_step in E. destruct (p_fd s) eqn:Ef; [done|]. destruct (d_packet _ _ _); try done. cbn in E. simplify_eq. cbn. lia.
Qed.

(** There is no endless sequence of steps of the three threads. *)
Lemma steps_end s : Acc (fun s' s => exists a, continues a = true /\ step a s = Ok s') s.
Proof.
  remember (work s) as x eqn:Ex. revert s Ex. induction (less_wf x) as [x _ IH]. intros s ->. constructor.
  intros s' (a & Ha & E). eapply IH; [by eapply step_works|done].
Qed.

(** * Properties *)

(** C14: When the remote never sends a [SYNC], which protocol.txt forbids:
    the main thread sees exactly what came from the remote, between the two
    messages of the output thread; the remote is sent exactly what the main
    thread wrote between the two answers to these, in order, and nothing that
    it wrote before. *)
Theorem pump_streams t m acts s : Forall not_sync (d_out m) -> Forall quiet_action acts -> run acts (begin t m) = Ok s ->
  streams (u32 (t + 1)) s.
Proof. intros Hm Ha E. eapply ok_streams, pump_run_ok; eauto. by apply begin_ok. Qed.

(** C15: When the remote never sends a [SYNC], which protocol.txt forbids, the
    threads come to an end: their steps cannot go on for ever while nothing
    comes from the remote, and when none is left to take, either the remote is
    silent and both threads wait, or both are gone, the device was kicked once,
    both references were given back, and the main thread has handled
    everything that was read. *)
Theorem pump_ends t m acts s : Forall not_sync (d_out m) -> Forall quiet_action acts -> run acts (begin t m) = Ok s ->
  Acc (fun s' s => exists a, continues a = true /\ step a s = Ok s') s
  /\ (all_wait s ->
      (p_output s = OReads /\ exists a, p_input s = IReads a)
      \/ (p_output s = OGone /\ p_input s = IGone /\ p_kicks s = 1%nat /\ p_refs s = 0
          /\ p_handled s = sync_packet 1 (u32 (t + 1)) :: p_read s ++ [sync_packet 0 0])).
Proof.
  intros Hm Ha E. split; [apply steps_end|]. apply waits_end; [|eapply kicked_run; [apply (kicked_begin t m)|exact E]].
  eapply pump_run_ok; eauto. by apply begin_ok.
Qed.

End Pump.
Arguments pump M : clear implicits.
Arguments action Ev : clear implicits.
