(* ===== verification/Fdevent.v ===== *)
(** * The event loop (fdevent.c)

    File-descriptor events over [select]: a table from descriptors to the
    [fdevent] registered for them, the three sets given to [select], and the
    list of events waiting for their callback.  The pending ring of the code is
    the list [fs_pending] (Dlist.v relates the two).  An [fdevent] lives in the
    memory of its owner (a socket, a transport, a listener), at an address.

    [fdstate] is the state of the file, with one definition per function.  The
    callbacks are called through [invoke], a parameter: what they do belongs to
    the other components. *)

From S2P Require Import Prelude.

Abbreviation addr := nat (only parsing).

(** ** fdevent.h *)

Definition FDE_READ : Z := 0x0001.
Definition FDE_WRITE : Z := 0x0002.
Definition FDE_ERROR : Z := 0x0004.
Definition FDE_TIMEOUT : Z := 0x0008.
Definition FDE_DONT_CLOSE : Z := 0x0080.
Definition FDE_EVENTMASK : Z := 0x00ff.
Definition FDE_STATEMASK : Z := 0xff00.
Definition FDE_ACTIVE : Z := 0x0100.
Definition FDE_PENDING : Z := 0x0200.
Definition FDE_CREATED : Z := 0x0400.

(** sys/select.h: how many descriptors an [fd_set] has room for; [FD_SET],
    [FD_CLR] and [FD_ISSET] of another one go outside of it. *)
Definition FD_SETSIZE : Z := 1024.

(** The test [x & mask] of a condition. *)
Definition has (x mask : Z) : bool := bool_decide (Z.land x mask <> 0).

Section Fdevent.
(** The function pointers of callbacks, and the size of a pointer. *)
Context {F : Type} (ptr_size : Z).

(** [next] and [prev] are represented by [fs_pending]. *)
Record fdevent := Fdevent {
  fe_fd : Z; fe_force_eof : Z; fe_state : Z; fe_events : Z; fe_func : F; fe_arg : addr
}.

(** An entry of [fd_table]: null, a pointer, or what [realloc] left there. *)
Inductive slot := Null | Ptr (a : addr) | Junk.

Record fdstate := Fdstate {
  fs_fdes : gmap addr fdevent;
  fs_pending : list addr;         (* list_pending *)
  fs_table : list slot;           (* fd_table, fd_table_max being its length *)
  fs_read : gset Z; fs_write : gset Z; fs_error : gset Z;
  fs_select_n : Z;
  fs_closes : list Z              (* the descriptors closed, the last one first *)
}.

Definition fd_table_max (st : fdstate) : Z := Z.of_nat (length (fs_table st)).

(** ** Reading and writing the state *)

Definition get_fde (st : fdstate) (a : addr) : res fdevent := access (fs_fdes st !! a).
Definition put_fde (a : addr) (f : fdevent) (st : fdstate) : fdstate :=
  Fdstate (<[a := f]> (fs_fdes st)) (fs_pending st) (fs_table st) (fs_read st) (fs_write st)
    (fs_error st) (fs_select_n st) (fs_closes st).
Definition with_state (v : Z) (f : fdevent) : fdevent :=
  Fdevent (fe_fd f) (fe_force_eof f) v (fe_events f) (fe_func f) (fe_arg f).
Definition with_events (v : Z) (f : fdevent) : fdevent :=
  Fdevent (fe_fd f) (fe_force_eof f) (fe_state f) v (fe_func f) (fe_arg f).
Definition with_force_eof (v : Z) (f : fdevent) : fdevent :=
  Fdevent (fe_fd f) v (fe_state f) (fe_events f) (fe_func f) (fe_arg f).
Definition with_pending (l : list addr) (st : fdstate) : fdstate :=
  Fdstate (fs_fdes st) l (fs_table st) (fs_read st) (fs_write st)
    (fs_error st) (fs_select_n st) (fs_closes st).
Definition with_table (t : list slot) (st : fdstate) : fdstate :=
  Fdstate (fs_fdes st) (fs_pending st) t (fs_read st) (fs_write st)
    (fs_error st) (fs_select_n st) (fs_closes st).
Definition with_sets (r w e : gset Z) (st : fdstate) : fdstate :=
  Fdstate (fs_fdes st) (fs_pending st) (fs_table st) r w e (fs_select_n st) (fs_closes st).
Definition with_select_n (n : Z) (st : fdstate) : fdstate :=
  Fdstate (fs_fdes st) (fs_pending st) (fs_table st) (fs_read st) (fs_write st)
    (fs_error st) n (fs_closes st).
Definition adb_close (fd : Z) (st : fdstate) : fdstate :=
  Fdstate (fs_fdes st) (fs_pending st) (fs_table st) (fs_read st) (fs_write st)
    (fs_error st) (fs_select_n st) (fd :: fs_closes st).

(** [fd_table[i]]; reading an entry that was never written is undefined. *)
Definition table_get (st : fdstate) (i : Z) : res slot :=
  if bool_decide (0 <= i) then
    match fs_table st !! Z.to_nat i with
    | Some Junk | None => Ub
    | Some s => Ok s
    end
  else Ub.

(** ** The pending list *)

Definition plist_enqueue (a : addr) (st : fdstate) : fdstate :=
  with_pending (fs_pending st ++ [a]) st.

(** The links of a node outside the list are null. *)
Definition plist_remove (a : addr) (st : fdstate) : res fdstate :=
  if bool_decide (a ∈ fs_pending st)
  then Ok (with_pending (filter (fun b => b <> a) (fs_pending st)) st) else Ub.

(** ** Registration *)

Definition fdevent_init (st : fdstate) : fdstate := with_sets ∅ ∅ ∅ st.

Definition fdevent_connect (st : fdstate) (f : fdevent) : fdstate :=
  if bool_decide (fe_fd f >= fs_select_n st) then with_select_n (fe_fd f + 1) st else st.

(** [for(n = 0, i = 0; i < select_n; i++) if(fd_table[i] != 0) n = i;] *)
Fixpoint highest_fd (st : fdstate) (count : nat) (i n : Z) : res Z :=
  match count with
  | O => Ok n
  | S count =>
      let* s := table_get st i in
      highest_fd st count (i + 1) (match s with Null => n | _ => i end)
  end.

(** [FD_SET] or [FD_CLR] *)
Definition fd_set_to (b : bool) (fd : Z) (s : gset Z) : res (gset Z) :=
  if bool_decide (0 <= fd < FD_SETSIZE) then Ok (if b then s ∪ {[fd]} else s ∖ {[fd]}) else Ub.

Definition fdevent_disconnect (st : fdstate) (f : fdevent) : res fdstate :=
  let fd := fe_fd f in
  let* r := fd_set_to false fd (fs_read st) in
  let* w := fd_set_to false fd (fs_write st) in
  let* e := fd_set_to false fd (fs_error st) in
  let st := with_sets r w e st in
  let* n := highest_fd st (Z.to_nat (fs_select_n st)) 0 0 in
  Ok (with_select_n (n + 1) st).

Definition fdevent_update (st : fdstate) (a : addr) (events : Z) : res fdstate :=
  let* f := get_fde st a in
  let fd := fe_fd f in
  let* r := fd_set_to (has events FDE_READ) fd (fs_read st) in
  let* w := fd_set_to (has events FDE_WRITE) fd (fs_write st) in
  let* e := fd_set_to (has events FDE_ERROR) fd (fs_error st) in
  let st := with_sets r w e st in
  Ok (put_fde a (with_state (u16 (Z.lor (Z.land (fe_state f) FDE_STATEMASK) events)) f) st).

(** [while(fd_table_max <= fd) fd_table_max *= 2]; eight doublings pass 32000. *)
Fixpoint grow (fuel : nat) (max fd : Z) : Z :=
  match fuel with
  | O => max
  | S fuel => if bool_decide (max <= fd) then grow fuel (max * 2) fd else max
  end.

(** Room for [fd] in [fd_table]. *)
Definition table_reserve (st : fdstate) (fd : Z) : res fdstate :=
  if bool_decide (fd >= fd_table_max st) then
    let oldmax := fd_table_max st in
    if bool_decide (fd > 32000) then Exit
    else
      let st := if bool_decide (oldmax = 0) then fdevent_init st else st in
      let max := grow 8 (if bool_decide (oldmax = 0) then 256 else oldmax) fd in
      (* memset(fd_table + oldmax, 0, sizeof(int) * (fd_table_max - oldmax)) *)
      let zeroed := Z.to_nat (4 * (max - oldmax) / ptr_size) in
      let fresh := Z.to_nat (max - oldmax) in
      Ok (with_table (fs_table st ++ replicate (Nat.min zeroed fresh) Null
            ++ replicate (fresh - zeroed) Junk) st)
  else Ok st.

Definition fdevent_register (st : fdstate) (a : addr) : res fdstate :=
  let* f := get_fde st a in
  let fd := fe_fd f in
  if bool_decide (fd < 0) then Exit
  else
    let* st := table_reserve st fd in
    Ok (with_table (<[Z.to_nat fd := Ptr a]> (fs_table st)) st).

Definition fdevent_unregister (st : fdstate) (a : addr) : res fdstate :=
  let* f := get_fde st a in
  let fd := fe_fd f in
  if bool_decide (fd < 0 \/ fd >= fd_table_max st) then Exit
  else
    let* s := table_get st fd in
    match s with
    | Ptr b =>
        if bool_decide (a = b) then
          let st := with_table (<[Z.to_nat fd := Null]> (fs_table st)) st in
          Ok (if has (fe_state f) FDE_DONT_CLOSE then st else adb_close fd st)
        else Exit
    | _ => Exit
    end.

Definition fdevent_install (st : fdstate) (a : addr) (fd : Z) (func : F) (arg : addr) : res fdstate :=
  let st := put_fde a (Fdevent fd 0 FDE_ACTIVE 0 func arg) st in
  let* st := fdevent_register st a in
  let* f := get_fde st a in
  let st := fdevent_connect st f in
  Ok (put_fde a (with_state (u16 (Z.lor (fe_state f) FDE_ACTIVE)) f) st).

(** [fdevent_create] allocates the event; [a] is the address it got. *)
Definition fdevent_create (st : fdstate) (a : addr) (fd : Z) (func : F) (arg : addr) : res fdstate :=
  let* st := fdevent_install st a fd func arg in
  let* f := get_fde st a in
  Ok (put_fde a (with_state (u16 (Z.lor (fe_state f) FDE_CREATED)) f) st).

Definition fdevent_remove (st : fdstate) (a : addr) : res fdstate :=
  let* f := get_fde st a in
  let* st := if has (fe_state f) FDE_PENDING then plist_remove a st else Ok st in
  let* st :=
    (if has (fe_state f) FDE_ACTIVE then
       let* st := fdevent_disconnect st f in
       fdevent_unregister st a
     else Ok st) in
  let* f := get_fde st a in
  Ok (put_fde a (with_events 0 (with_state 0 f)) st).

(** The event is not freed. *)
Definition fdevent_destroy (st : fdstate) (a : option addr) : res fdstate :=
  match a with
  | None => Ok st
  | Some a =>
      let* f := get_fde st a in
      if has (fe_state f) FDE_CREATED then fdevent_remove st a else Exit
  end.

(** ** Interest *)

(** The first half of [fdevent_set], for masked [events]: the sets and the
    state of the event follow. *)
Definition assign_interest (st : fdstate) (a : addr) (events : Z) : res fdstate :=
  let* f := get_fde st a in
  let* st := if has (fe_state f) FDE_ACTIVE then fdevent_update st a events else Ok st in
  let* f := get_fde st a in
  Ok (put_fde a (with_state (u16 (Z.lor (Z.land (fe_state f) FDE_STATEMASK) events)) f) st).

(** The second half: [fde->events &= (~events)] for a pending event, which
    leaves the list when nothing is left to report. *)
Definition drop_events (st : fdstate) (a : addr) (events : Z) : res fdstate :=
  let* f := get_fde st a in
  if has (fe_state f) FDE_PENDING then
    let f := with_events (u16 (Z.land (fe_events f) (Z.lnot events))) f in
    let st := put_fde a f st in
    if bool_decide (fe_events f = 0) then
      let* st := plist_remove a st in
      Ok (put_fde a (with_state (u16 (Z.land (fe_state f) (Z.lnot FDE_PENDING))) f) st)
    else Ok st
  else Ok st.

Definition fdevent_set (st : fdstate) (a : addr) (events : Z) : res fdstate :=
  let events := Z.land events FDE_EVENTMASK in
  let* f := get_fde st a in
  if bool_decide (Z.land (fe_state f) FDE_EVENTMASK = events) then Ok st
  else
    let* st := assign_interest st a events in
    drop_events st a events.

Definition fdevent_add (st : fdstate) (a : addr) (events : Z) : res fdstate :=
  let* f := get_fde st a in
  fdevent_set st a (Z.lor (Z.land (fe_state f) FDE_EVENTMASK) (Z.land events FDE_EVENTMASK)).

Definition fdevent_del (st : fdstate) (a : addr) (events : Z) : res fdstate :=
  let* f := get_fde st a in
  fdevent_set st a
    (Z.land (Z.land (fe_state f) FDE_EVENTMASK) (Z.lnot (Z.land events FDE_EVENTMASK))).

(** ** Waiting for events *)

(** The answer of [select]: an error, or the descriptors that are ready. *)
Inductive select_answer :=
  | SelEINTR | SelEBADF | SelOther
  | SelReady (r w e : gset Z).

(** [fdevent_fd_check]: [bad] are the descriptors that [fcntl] refuses. *)
Fixpoint fdevent_fd_check (st : fdstate) (bad : gset Z) (count : nat) (i : Z) (fds : gset Z) (n : Z)
    : res (gset Z * Z) :=
  match count with
  | O => Ok (fds, n)
  | S count =>
      let* s := table_get st i in
      match s with
      | Ptr _ =>
          if bool_decide (i ∈ bad) then fdevent_fd_check st bad count (i + 1) (fds ∪ {[i]}) (n + 1)
          else fdevent_fd_check st bad count (i + 1) fds n
      | _ => fdevent_fd_check st bad count (i + 1) fds n
      end
  end.

Definition b2z (b : bool) : Z := if b then 1 else 0.

(** The events of descriptor [i], and how many of the [n] ready ones they are. *)
Definition ready_events (i : Z) (r w e : gset Z) : Z :=
  Z.lor (Z.lor (if bool_decide (i ∈ r) then FDE_READ else 0)
               (if bool_decide (i ∈ w) then FDE_WRITE else 0))
        (if bool_decide (i ∈ e) then FDE_ERROR else 0).
Definition ready_count (i : Z) (r w e : gset Z) : Z :=
  b2z (bool_decide (i ∈ r)) + b2z (bool_decide (i ∈ w)) + b2z (bool_decide (i ∈ e)).

(** The body of the loop of [fdevent_process] for a descriptor with events. *)
Definition mark_ready (st : fdstate) (i events : Z) : res fdstate :=
  let* s := table_get st i in
  match s with
  | Ptr a =>
      let* f := get_fde st a in
      let f := with_events (u16 (Z.lor (fe_events f) events)) f in
      if has (fe_state f) FDE_PENDING then Ok (put_fde a f st)
      else
        let f := with_state (u16 (Z.lor (fe_state f) FDE_PENDING)) f in
        Ok (plist_enqueue a (put_fde a f st))
  | _ => Exit
  end.

Fixpoint process_fds (st : fdstate) (r w e : gset Z) (count : nat) (i n : Z) : res fdstate :=
  match count with
  | O => Ok st
  | S count =>
      if bool_decide (n > 0) then
        let events := ready_events i r w e in
        let n := n - ready_count i r w e in
        let* st := if bool_decide (events <> 0) then mark_ready st i events else Ok st in
        process_fds st r w e count (i + 1) n
      else Ok st
  end.

(** [n] is the value of the variable after [select]. *)
Definition after_select (st : fdstate) (bad r w e : gset Z) (n : Z) : res fdstate :=
  let* ' (r, n) :=
    (if bool_decide (n <= 0) then fdevent_fd_check st bad (Z.to_nat (fs_select_n st)) 0 r 0
     else Ok (r, n)) in
  process_fds st r w e (Z.to_nat (fs_select_n st)) 0 n.

(** [select] writes its answer up to [select_n]; the tests and [FD_SET]s that
    follow it are of descriptors below. *)
Definition fdevent_process (st : fdstate) (ans : select_answer) (bad : gset Z) : res fdstate :=
  if bool_decide (fs_select_n st > FD_SETSIZE) then Ub else
  match ans with
  | SelEINTR | SelOther => Ok st
  | SelEBADF => after_select st bad ∅ ∅ ∅ (-1)
  | SelReady r w e => after_select st bad r w e (Z.of_nat (size r + size w + size e))
  end.

(** [fdevent_plist_dequeue] *)
Definition plist_dequeue (st : fdstate) : option (addr * fdstate) :=
  match fs_pending st with
  | [] => None
  | a :: l => Some (a, with_pending l st)
  end.

(** ** Callbacks *)

Section Callbacks.
(** The whole state of the program, of which [fdstate] is a part. *)
Context {St : Type} (fds : St -> fdstate) (set_fds : fdstate -> St -> St).
Context (invoke : F -> Z -> Z -> addr -> St -> res St).

Definition fdevent_call_fdfunc (s : St) (a : addr) : res St :=
  let* f := get_fde (fds s) a in
  let events := fe_events f in
  let f := with_events 0 f in
  if has (fe_state f) FDE_PENDING then
    let f := with_state (u16 (Z.land (fe_state f) (Z.lnot FDE_PENDING))) f in
    invoke (fe_func f) (fe_fd f) events (fe_arg f) (set_fds (put_fde a f (fds s)) s)
  else Ok (set_fds (put_fde a f (fds s)) s).

(** [fdevent_subproc_event_func(fd, ev, _)], the callback of the event that
    tells that a shell has exited: [answer] is the descriptor read from [fd],
    [None] when the read fails, and [rcount] what [FIONREAD] counts on it. *)
Definition fdevent_subproc_event_func (fd ev : Z) (answer : option Z) (rcount : Z) (s : St) : res St :=
  if bool_decide (fd < 0 \/ fd >= fd_table_max (fds s)) then Exit
  else
    let* sl := table_get (fds s) fd in
    match sl with
    | Ptr a =>
        let* st := fdevent_add (fds s) a FDE_READ in
        let s := set_fds st s in
        if has ev FDE_READ then
          match answer with
          | None => Exit
          | Some subproc_fd =>
              if bool_decide (subproc_fd < 0 \/ subproc_fd >= fd_table_max (fds s)) then Ok s
              else
                let* sl := table_get (fds s) subproc_fd in
                match sl with
                | Ptr b =>
                    let* f := get_fde (fds s) b in
                    if bool_decide (fe_fd f <> subproc_fd) then Ok s
                    else
                      let f := with_force_eof 1 f in
                      let s := set_fds (put_fde b f (fds s)) s in
                      if bool_decide (rcount <> 0) then Ok s
                      else
                        let f := with_events (u16 (Z.lor (fe_events f) FDE_READ)) f in
                        let s := set_fds (put_fde b f (fds s)) s in
                        if has (fe_state f) FDE_PENDING then Ok s
                        else
                          let f := with_state (u16 (Z.lor (fe_state f) FDE_PENDING)) f in
                          fdevent_call_fdfunc (set_fds (put_fde b f (fds s)) s) b
                | _ => Ok s
                end
          end
        else Ok s
    | _ => Ub
    end.

(** [while((fde = fdevent_plist_dequeue())) fdevent_call_fdfunc(fde)] *)
Fixpoint drain (fuel : nat) (s : St) : res St :=
  match plist_dequeue (fds s) with
  | None => Ok s
  | Some (a, st) =>
      match fuel with
      | O => Blocked
      | S fuel =>
          let* s := fdevent_call_fdfunc (set_fds st s) a in
          drain fuel s
      end
  end.

(** One turn of [fdevent_loop]. *)
Definition fdevent_turn (ans : select_answer) (bad : gset Z) (s : St) : res St :=
  let* st := fdevent_process (fds s) ans bad in
  drain (length (fs_pending st)) (set_fds st s).

End Callbacks.

(** [fdevent_subproc_setup]: [pair] is the socket pair, [a] the address of the
    new event, [func] the pointer to [fdevent_subproc_event_func]. *)
Definition fdevent_subproc_setup (st : fdstate) (pair : option (Z * Z)) (a : addr) (func : F)
    : res (Z * fdstate) :=
  match pair with
  | None => Exit
  | Some (s0, s1) =>
      let* st := fdevent_create st a s1 func 0%nat in
      let* st := fdevent_add st a FDE_READ in
      Ok (s0, st)
  end.

End Fdevent.

Arguments fdevent F : clear implicits.
Arguments fdstate F : clear implicits.

(** ** The invariant *)

Section Invariant.
Context {F : Type}.
Implicit Types (st : fdstate F) (f : fdevent F) (a : addr).

Definition active f : bool := has (fe_state f) FDE_ACTIVE.
Definition is_pending f : bool := has (fe_state f) FDE_PENDING.
Definition wants f (mask : Z) : bool := has (fe_state f) mask.
Definition interest f : Z := Z.land (fe_state f) FDE_EVENTMASK.

(** [s] are the descriptors of the active events that want [mask]. *)
Definition set_ok (fdes : gmap addr (fdevent F)) (mask : Z) (s : gset Z) : Prop :=
  forall i, i ∈ s <-> exists a f, fdes !! a = Some f /\ active f = true
    /\ wants f mask = true /\ fe_fd f = i.

(** The table and the active events point to each other, [select_n] is past
    every descriptor of the table, the pending list holds the events flagged
    pending, which have something to report, and the sets are the interests. *)
Record wf st : Prop := Wf {
  wf_slots : Junk ∉ fs_table st;
  wf_table : forall i a, fs_table st !! i = Some (Ptr a) ->
    exists f, fs_fdes st !! a = Some f /\ active f = true /\ fe_fd f = Z.of_nat i;
  wf_active : forall a f, fs_fdes st !! a = Some f -> active f = true ->
    0 <= fe_fd f /\ fs_table st !! Z.to_nat (fe_fd f) = Some (Ptr a);
  wf_below : forall i a, fs_table st !! i = Some (Ptr a) -> Z.of_nat i < fs_select_n st;
  wf_n : 0 <= fs_select_n st <= fd_table_max st;
  wf_sets : fs_select_n st <= FD_SETSIZE;
  wf_room : fs_table st = [] \/ 256 <= fd_table_max st;
  wf_nodup : NoDup (fs_pending st);
  wf_listed : forall a, a ∈ fs_pending st <-> exists f, fs_fdes st !! a = Some f /\ is_pending f = true;
  wf_pending : forall a f, fs_fdes st !! a = Some f -> is_pending f = true ->
    active f = true /\ fe_events f <> 0;
  wf_read : set_ok (fs_fdes st) FDE_READ (fs_read st);
  wf_write : set_ok (fs_fdes st) FDE_WRITE (fs_write st);
  wf_error : set_ok (fs_fdes st) FDE_ERROR (fs_error st)
}.

(** The state of the program before it registers anything. *)
Definition fd_start : fdstate F := Fdstate ∅ [] [] ∅ ∅ ∅ 0 [].

End Invariant.

(** ** The interface of the clients

    What sockets and transports rely on: an event is installed with no
    interest, its interest is a set of flags that is added to and deleted from,
    and removing it forgets it; no operation touches another event. *)
Class FdEvents (E F : Type) := {
  ev_install : E -> addr -> Z -> F -> addr -> res E;
  ev_remove : E -> addr -> res E;
  ev_add : E -> addr -> Z -> res E;
  ev_del : E -> addr -> Z -> res E;
  ev_eof : E -> addr -> res Z;
  ev_interest : E -> addr -> option Z;
  ev_free_fd : E -> Z -> Prop;
  ev_ok : E -> Prop
}.

Class FdEventsLaws (E F : Type) (I : FdEvents E F) := {
  law_install e a fd func arg : ev_ok e -> ev_interest e a = None -> 0 <= fd < FD_SETSIZE -> ev_free_fd e fd ->
    exists e', ev_install e a fd func arg = Ok e' /\ ev_ok e'
      /\ ev_interest e' a = Some 0 /\ (forall b, b <> a -> ev_interest e' b = ev_interest e b)
      /\ ev_eof e' a = Ok 0 /\ (forall b, b <> a -> ev_eof e' b = ev_eof e b)
      /\ (forall fd', fd' <> fd -> ev_free_fd e fd' -> ev_free_fd e' fd');
  law_remove e a i : ev_ok e -> ev_interest e a = Some i ->
    exists e', ev_remove e a = Ok e' /\ ev_ok e'
      /\ ev_interest e' a = None /\ (forall b, b <> a -> ev_interest e' b = ev_interest e b)
      /\ (forall b, ev_eof e' b = ev_eof e b)
      /\ (forall fd, ev_free_fd e fd -> ev_free_fd e' fd);
  law_add e a i m : ev_ok e -> ev_interest e a = Some i ->
    exists e', ev_add e a m = Ok e' /\ ev_ok e'
      /\ ev_interest e' a = Some (Z.lor i (Z.land m FDE_EVENTMASK))
      /\ (forall b, b <> a -> ev_interest e' b = ev_interest e b)
      /\ (forall b, ev_eof e' b = ev_eof e b)
      /\ (forall fd, ev_free_fd e fd -> ev_free_fd e' fd);
  law_del e a i m : ev_ok e -> ev_interest e a = Some i ->
    exists e', ev_del e a m = Ok e' /\ ev_ok e'
      /\ ev_interest e' a = Some (Z.land i (Z.lnot (Z.land m FDE_EVENTMASK)))
      /\ (forall b, b <> a -> ev_interest e' b = ev_interest e b)
      /\ (forall b, ev_eof e' b = ev_eof e b)
      /\ (forall fd, ev_free_fd e fd -> ev_free_fd e' fd);
  law_eof e a i : ev_ok e -> ev_interest e a = Some i -> exists v, ev_eof e a = Ok v
}.

(** fdevent.c as an implementation of it, with four-byte pointers. *)
Section Instance_.
Context {F : Type}.

Definition fde_interest (st : fdstate F) (a : addr) : option Z :=
  f ← fs_fdes st !! a; if active f then Some (interest f) else None.
Definition fde_eof (st : fdstate F) (a : addr) : res Z :=
  let* f := get_fde st a in Ok (fe_force_eof f).
Definition fde_free_fd (st : fdstate F) (fd : Z) : Prop :=
  0 <= fd /\ forall b, fs_table st !! Z.to_nat fd <> Some (Ptr b).

Definition fdevents : FdEvents (fdstate F) F := {|
  ev_install := fdevent_install 4;
  ev_remove := fdevent_remove;
  ev_add := fdevent_add;
  ev_del := fdevent_del;
  ev_eof := fde_eof;
  ev_interest := fde_interest;
  ev_free_fd := fde_free_fd;
  ev_ok := wf
|}.

(** *** The operations as steps *)

(** The calls of the clients and the turns of the loop, up to the callbacks:
    an event is installed at a free address and for a free descriptor, [select]
    answers with descriptors that it was asked about. *)
Inductive fd_step (st : fdstate F) : fdstate F -> Prop :=
  | step_install a fd func arg st' :
      fde_interest st a = None -> 0 <= fd < FD_SETSIZE -> fde_free_fd st fd ->
      fdevent_install 4 st a fd func arg = Ok st' -> fd_step st st'
  | step_remove a st' : fdevent_remove st a = Ok st' -> fd_step st st'
  | step_set a e st' : fdevent_set st a e = Ok st' -> fd_step st st'
  | step_add a e st' : fdevent_add st a e = Ok st' -> fd_step st st'
  | step_del a e st' : fdevent_del st a e = Ok st' -> fd_step st st'
  | step_eof a f v : fs_fdes st !! a = Some f -> fd_step st (put_fde a (with_force_eof v f) st)
  | step_process ans bad st' :
      match ans with
      | SelReady r w e => r ⊆ fs_read st /\ w ⊆ fs_write st /\ e ⊆ fs_error st
      | _ => True
      end -> fdevent_process st ans bad = Ok st' -> fd_step st st'
  | step_dequeue a st1 st' :
      plist_dequeue st = Some (a, st1) ->
      fdevent_call_fdfunc id (fun st' _ => st') (fun _ _ _ _ st' => Ok st') st1 a = Ok st' ->
      fd_step st st'.

Inductive fd_reach : fdstate F -> Prop :=
  | reach_start : fd_reach fd_start
  | reach_step st st' : fd_reach st -> fd_step st st' -> fd_reach st'.

End Instance_.

(** * Theorems *)

(** ** Bits of the state *)

Lemma has_bit x k : 0 <= k -> has x (2 ^ k) = Z.testbit x k.
Proof.
  intros Hk. unfold has. destruct (Z.testbit x k) eqn:E.
  - apply bool_decide_true. intros H. apply (f_equal (fun z => Z.testbit z k)) in H.
    rewrite Z.land_spec, Z.pow2_bits_true, E, Z.bits_0 in H by done. done.
  - apply bool_decide_false. intros H. apply H. apply Z.bits_inj'. intros n Hn.
    rewrite Z.land_spec, Z.bits_0, Z.pow2_bits_eqb by done.
    destruct (Z.eqb_spec k n) as [->|]; [by rewrite E|by rewrite andb_false_r].
Qed.

Lemma has_READ x : has x FDE_READ = Z.testbit x 0.
Proof. exact (has_bit x 0 ltac:(lia)). Qed.
Lemma has_WRITE x : has x FDE_WRITE = Z.testbit x 1.
Proof. exact (has_bit x 1 ltac:(lia)). Qed.
Lemma has_ERROR x : has x FDE_ERROR = Z.testbit x 2.
Proof. exact (has_bit x 2 ltac:(lia)). Qed.
Lemma has_DONT_CLOSE x : has x FDE_DONT_CLOSE = Z.testbit x 7.
Proof. exact (has_bit x 7 ltac:(lia)). Qed.
Lemma has_ACTIVE x : has x FDE_ACTIVE = Z.testbit x 8.
Proof. exact (has_bit x 8 ltac:(lia)). Qed.
Lemma has_PENDING x : has x FDE_PENDING = Z.testbit x 9.
Proof. exact (has_bit x 9 ltac:(lia)). Qed.
Lemma has_CREATED x : has x FDE_CREATED = Z.testbit x 10.
Proof. exact (has_bit x 10 ltac:(lia)). Qed.

Lemma u16_bit x k : 0 <= k -> Z.testbit (u16 x) k = bool_decide (k < 16) && Z.testbit x k.
Proof.
  intros Hk. unfold u16. case_bool_decide.
  - by rewrite Z.mod_pow2_bits_low.
  - by rewrite Z.mod_pow2_bits_high by lia.
Qed.

Create Rewrite HintDb fde_bits.
#[export] Hint Rewrite has_READ has_WRITE has_ERROR has_DONT_CLOSE has_ACTIVE has_PENDING
  has_CREATED : fde_bits.
#[export] Hint Rewrite u16_bit Z.land_spec Z.lor_spec Z.lnot_spec using lia : fde_bits.

(** Evaluate the tests of flags of an updated state. *)
Ltac flags :=
  unfold active, is_pending, wants in *; cbn [fe_state with_state with_events with_force_eof] in *;
  autorewrite with fde_bits in *;
  repeat match goal with
    | |- context [Z.testbit ?c ?k] => is_const c; 
        let v := eval vm_compute in (Z.testbit c k) in change (Z.testbit c k) with v
    | |- context [bool_decide (?a < 16)] =>
        let v := eval vm_compute in (bool_decide (a < 16)) in change (bool_decide (a < 16)) with v
    end;
  cbn [andb orb negb] in *; rewrite ?andb_true_r, ?andb_false_r, ?orb_false_r, ?orb_true_r.

(** The event part of a state after an assignment to it. *)
Lemma interest_assign s e :
  Z.land (u16 (Z.lor (Z.land s FDE_STATEMASK) (Z.land e FDE_EVENTMASK))) FDE_EVENTMASK
  = Z.land e FDE_EVENTMASK.
Proof.
  change FDE_EVENTMASK with (Z.ones 8). change FDE_STATEMASK with (Z.shiftl (Z.ones 8) 8).
  apply Z.bits_inj'. intros k Hk.
  rewrite !Z.land_spec, u16_bit, Z.lor_spec, !Z.land_spec, Z.shiftl_spec by done.
  destruct (decide (k < 8)).
  - rewrite (Z.ones_spec_low 8 k), (Z.testbit_neg_r _ (k - 8)), bool_decide_true by lia.
    by rewrite !andb_true_r, andb_false_r.
  - rewrite (Z.ones_spec_high 8 k) by lia. by rewrite !andb_false_r.
Qed.

(** ** The invariant is kept *)

Section Preservation.
Context {F : Type}.
Implicit Types (st : fdstate F) (f : fdevent F) (a : addr).

Lemma put_fde_lookup st a b f :
  fs_fdes (put_fde a f st) !! b = if decide (a = b) then Some f else fs_fdes st !! b.
Proof.
  cbn [fs_fdes put_fde]. case_decide; subst; [apply lookup_insert_eq|by apply lookup_insert_ne].
Qed.

(** Active events are told apart by their descriptor. *)
Lemma wf_same_fd st a b f g : wf st -> fs_fdes st !! a = Some f -> fs_fdes st !! b = Some g ->
  active f = true -> active g = true -> fe_fd f = fe_fd g -> a = b.
Proof.
  intros W Ha Hb Af Ag E. destruct (wf_active _ W _ _ Ha Af) as [_ Ta].
  destruct (wf_active _ W _ _ Hb Ag) as [_ Tb]. rewrite E, Tb in Ta. congruence.
Qed.

(** [s'] is [s] where the descriptor of [f], when it is active, follows the
    interest [w]. *)
Definition follows f (w : bool) (s s' : gset Z) : Prop :=
  forall i, i ∈ s' <-> (active f = true /\ i = fe_fd f /\ w = true)
                      \/ (i ∈ s /\ ~ (active f = true /\ i = fe_fd f)).

Lemma set_ok_follows st a f f' mask s s' :
  wf st -> fs_fdes st !! a = Some f -> fe_fd f' = fe_fd f -> active f' = active f ->
  set_ok (fs_fdes st) mask s -> follows f (wants f' mask) s s' ->
  set_ok (<[a := f']> (fs_fdes st)) mask s'.
Proof.
  intros W Ha Hfd Hac Hs Hf i. rewrite (Hf i), (Hs i). split.
  - intros [(Ac & -> & Hw)|((b & g & Hb & Ag & Hw & Hg) & Hn)].
    + exists a, f'. rewrite lookup_insert_eq. split_and!; congruence.
    + exists b, g. rewrite lookup_insert_ne; [done|]. intros <-. apply Hn.
      rewrite Ha in Hb. by injection Hb as ->.
  - intros (b & g & Hb & Ag & Hw & Hg). destruct (decide (a = b)) as [<-|Hne].
    + rewrite lookup_insert_eq in Hb. injection Hb as <-. left. split_and!; congruence.
    + rewrite lookup_insert_ne in Hb by done. right. split; [by exists b, g|].
      intros [Af E]. apply Hne. eapply wf_same_fd; eauto. congruence.
Qed.

(** An event may change its flags, with the list and the sets following. *)
Lemma wf_update st a f f' l' r' w' e' :
  wf st -> fs_fdes st !! a = Some f -> fe_fd f' = fe_fd f -> active f' = active f ->
  NoDup l' -> (forall b, b <> a -> b ∈ l' <-> b ∈ fs_pending st) ->
  (a ∈ l' <-> is_pending f' = true) ->
  (is_pending f' = true -> active f' = true /\ fe_events f' <> 0) ->
  follows f (wants f' FDE_READ) (fs_read st) r' ->
  follows f (wants f' FDE_WRITE) (fs_write st) w' ->
  follows f (wants f' FDE_ERROR) (fs_error st) e' ->
  wf (with_sets r' w' e' (with_pending l' (put_fde a f' st))).
Proof.
  intros W Ha Hfd Hac Hnd Hl Hla Hp Hr Hw He. split; cbn [fs_fdes fs_pending fs_table fs_read fs_write
    fs_error fs_select_n with_sets with_pending put_fde].
  - apply W.
  - intros i b Hi. destruct (wf_table _ W _ _ Hi) as (g & Hg & Ag & Eg).
    destruct (decide (a = b)) as [<-|Hne].
    + rewrite lookup_insert_eq. exists f'. rewrite Ha in Hg. injection Hg as ->.
      split_and!; congruence.
    + rewrite lookup_insert_ne by done. eauto.
  - intros b g. destruct (decide (a = b)) as [<-|Hne].
    + rewrite lookup_insert_eq. intros [= <-] Af. rewrite Hfd. apply (wf_active _ W _ _ Ha). congruence.
    + rewrite lookup_insert_ne by done. apply W.
  - apply W.
  - apply W.
  - apply W.
  - apply W.
  - done.
  - intros b. destruct (decide (a = b)) as [<-|Hne].
    + rewrite lookup_insert_eq, Hla. split; [intros; by exists f'|by intros (? & [= <-] & ?)].
    + rewrite lookup_insert_ne, Hl by done. apply W.
  - intros b g. destruct (decide (a = b)) as [<-|Hne].
    + rewrite lookup_insert_eq. intros [= <-]. exact Hp.
    + rewrite lookup_insert_ne by done. apply W.
  - eapply set_ok_follows; eauto. apply W.
  - eapply set_ok_follows; eauto. apply W.
  - eapply set_ok_follows; eauto. apply W.
Qed.

(** Sets that do not change follow an interest that does not. *)
Lemma follows_same st a f mask s : wf st -> fs_fdes st !! a = Some f ->
  set_ok (fs_fdes st) mask s -> follows f (wants f mask) s s.
Proof.
  intros W Ha Hs i. rewrite (Hs i). split.
  - intros (b & g & Hb & Ag & Hw & <-). destruct (decide (active f = true /\ fe_fd g = fe_fd f)) as [[Af E]|Hn].
    + left. assert (b = a) as -> by (eapply wf_same_fd; eauto).
      rewrite Ha in Hb. injection Hb as ->. done.
    + right. split; [by exists b, g|done].
  - intros [(Af & -> & Hw)|[H _]]; [by exists a, f|done].
Qed.

(** The descriptor of an active event has room in the sets. *)
Lemma active_fits st a f : wf st -> fs_fdes st !! a = Some f -> active f = true ->
  0 <= fe_fd f < FD_SETSIZE.
Proof.
  intros W Ha Af. destruct (wf_active _ W _ _ Ha Af) as [H0 Ht].
  pose proof (wf_below _ W _ _ Ht). pose proof (wf_sets _ W). lia.
Qed.

Lemma fd_set_to_ok b fd s : 0 <= fd < FD_SETSIZE ->
  fd_set_to b fd s = Ok (if b then s ∪ {[fd]} else s ∖ {[fd]}).
Proof. intros H. unfold fd_set_to. by rewrite bool_decide_true. Qed.

Lemma follows_set_to f w s : active f = true ->
  follows f w s (if w then s ∪ {[fe_fd f]} else s ∖ {[fe_fd f]}).
Proof. intros Af i.
  destruct (decide (i = fe_fd f)), w; rewrite ?elem_of_union, ?elem_of_difference, elem_of_singleton; intuition congruence.
Qed.

(** An event keeps its registration and interests. *)
Lemma wf_flags st a f f' l' :
  wf st -> fs_fdes st !! a = Some f -> fe_fd f' = fe_fd f ->
  (forall m, m ∈ [FDE_ACTIVE; FDE_READ; FDE_WRITE; FDE_ERROR] -> has (fe_state f') m = has (fe_state f) m) ->
  NoDup l' -> (forall b, b <> a -> b ∈ l' <-> b ∈ fs_pending st) ->
  (a ∈ l' <-> is_pending f' = true) ->
  (is_pending f' = true -> active f' = true /\ fe_events f' <> 0) ->
  wf (with_pending l' (put_fde a f' st)).
Proof.
  intros W Ha Hfd Hm Hnd Hl Hla Hp.
  assert (forall m s, m ∈ [FDE_ACTIVE; FDE_READ; FDE_WRITE; FDE_ERROR] -> set_ok (fs_fdes st) m s ->
     follows f (wants f' m) s s) as Hfo.
  { intros m s Hin Hs. unfold wants. rewrite Hm by done. by eapply follows_same. }
  pose proof (wf_update st a f f' l' (fs_read st) (fs_write st) (fs_error st)) as H.
  apply H; auto; try (apply Hm; rewrite !elem_of_cons; by auto);
    (apply Hfo; [rewrite !elem_of_cons; by auto 10|apply W]).
Qed.

(** *** Waiting *)

Lemma table_get_ok st i : wf st -> 0 <= i < fd_table_max st ->
  exists s, table_get st i = Ok s /\ fs_table st !! Z.to_nat i = Some s /\ s <> Junk.
Proof.
  intros W Hi. unfold table_get, fd_table_max in *. rewrite bool_decide_true by lia.
  destruct (fs_table st !! Z.to_nat i) as [s|] eqn:E.
  - exists s. assert (s <> Junk) by (intros ->; apply (wf_slots _ W), list_elem_of_lookup; eauto).
    by destruct s.
  - apply lookup_ge_None in E. lia.
Qed.

(** The bits of an event's state that [mark_ready] and the callbacks change. *)
Lemma pending_bits s m : m ∈ [FDE_ACTIVE; FDE_READ; FDE_WRITE; FDE_ERROR] ->
  has (u16 (Z.lor s FDE_PENDING)) m = has s m /\
  has (u16 (Z.land s (Z.lnot FDE_PENDING))) m = has s m.
Proof.
  intros Hm. repeat (apply elem_of_cons in Hm as [->|Hm]); [..|by apply elem_of_nil in Hm];
    split; flags; done.
Qed.

Lemma pending_set s : has (u16 (Z.lor s FDE_PENDING)) FDE_PENDING = true /\
  has (u16 (Z.land s (Z.lnot FDE_PENDING))) FDE_PENDING = false.
Proof. split; flags; done. Qed.

Lemma u16_events_lor x m k : 0 <= k < 16 -> Z.testbit m k = true -> u16 (Z.lor x m) <> 0.
Proof.
  intros Hk Hm H. apply (f_equal (fun z => Z.testbit z k)) in H.
  rewrite u16_bit, Z.lor_spec, Hm, orb_true_r, bool_decide_true, Z.bits_0 in H by lia. done.
Qed.

(** A descriptor that is ready was registered. *)
Lemma mark_ready_ok st i a k : wf st -> 0 <= i -> fs_table st !! Z.to_nat i = Some (Ptr a) ->
  forall events, 0 <= k < 16 -> Z.testbit events k = true ->
  exists st' f, mark_ready st i events = Ok st' /\ wf st' /\ fs_fdes st !! a = Some f
    /\ fs_pending st' = fs_pending st ++ (if is_pending f then [] else [a])
    /\ fs_table st' = fs_table st /\ fs_select_n st' = fs_select_n st
    /\ (forall b, b <> a -> fs_fdes st' !! b = fs_fdes st !! b)
    /\ exists f', fs_fdes st' !! a = Some f' /\ is_pending f' = true
         /\ fe_events f' = u16 (Z.lor (fe_events f) events).
Proof.
  intros W Hi Ht events Hk He. destruct (wf_table _ W _ _ Ht) as (f & Hf & Af & Ef).
  unfold mark_ready, table_get. rewrite bool_decide_true, Ht by done. cbn [res_bind].
  unfold get_fde. rewrite Hf. cbn [access res_bind fe_state with_events].
  pose proof (u16_events_lor (fe_events f) events k Hk He) as Hne.
  change (has (fe_state f) FDE_PENDING) with (is_pending f).
  destruct (is_pending f) eqn:Ep; eexists _, f; (split; [reflexivity|]).
  - assert (a ∈ fs_pending st) by (apply (wf_listed _ W); eauto).
    set (f' := with_events _ f).
    split; [|rewrite Ep, app_nil_r; split_and!; try done].
    + eapply (wf_flags st a f f' (fs_pending st)); try done. apply W.
    + intros b Hb. by rewrite put_fde_lookup, decide_False by done.
    + exists f'. rewrite put_fde_lookup, decide_True by done. done.
  - assert (a ∉ fs_pending st) as Hna.
    { intros Hin. apply (wf_listed _ W) in Hin as (g & Hg & Pg). congruence. }
    set (f' := with_state _ (with_events _ f)).
    split; [|rewrite Ep; split_and!; try done].
    + apply (wf_flags st a f f' (fs_pending st ++ [a])); try done.
      * intros m Hm. by apply pending_bits.
      * apply NoDup_app. split; [apply W|]. split; [|apply NoDup_singleton]. set_solver.
      * intros b Hb. set_solver.
      * unfold is_pending, f'. cbn. rewrite (proj1 (pending_set _)). set_solver.
      * intros _. split; [|done]. unfold active, f'. cbn.
        rewrite (proj1 (pending_bits _ FDE_ACTIVE ltac:(rewrite !elem_of_cons; auto))). done.
    + intros b Hb. cbn [fs_fdes plist_enqueue with_pending]. by rewrite put_fde_lookup, decide_False by done.
    + exists f'. cbn [fs_fdes plist_enqueue with_pending]. rewrite put_fde_lookup, decide_True by done.
      split; [done|]. split; [|done]. unfold is_pending, f'. cbn. apply pending_set.
Qed.

(** How many of [count] descriptors from [i] are in a set. *)
Fixpoint tally (X : gset Z) (count : nat) (i : Z) : Z :=
  match count with
  | O => 0
  | S count => b2z (bool_decide (i ∈ X)) + tally X count (i + 1)
  end.

Lemma tally_nonneg X count i : 0 <= tally X count i.
Proof.
  revert i. induction count as [|c IH]; simpl; intros i; [lia|].
  specialize (IH (i + 1)). unfold b2z. case_bool_decide; lia.
Qed.

Lemma tally_remove X count i j : j < i -> tally (X ∖ {[j]}) count i = tally X count i.
Proof.
  revert i. induction count as [|c IH]; simpl; intros i Hj; [done|]. rewrite IH by lia.
  do 2 f_equal. apply bool_decide_ext. set_solver by lia.
Qed.

Lemma tally_size X count i : (forall j, j ∈ X -> i <= j < i + Z.of_nat count) ->
  tally X count i = Z.of_nat (size X).
Proof.
  revert X i. induction count as [|c IH]; intros X i HX; cbn [tally].
  - assert (X = ∅) as -> by (apply set_eq; intros j; split; [intros Hj; apply HX in Hj; lia|set_solver]).
    done.
  - case_bool_decide as Hi; cbn [b2z].
    + rewrite <-(tally_remove X c (i + 1) i), IH by
        (try lia; intros j [Hj Hn]%elem_of_difference; apply HX in Hj; rewrite elem_of_singleton in Hn; lia).
      rewrite size_difference by (by apply singleton_subseteq_l). rewrite size_singleton.
      assert (size X <> 0%nat) by (intros H0; apply size_empty_inv in H0; set_solver). lia.
    + rewrite IH; [done|]. intros j Hj. assert (j <> i) by congruence. apply HX in Hj. lia.
Qed.

Lemma ready_count_events i r w e : ready_events i r w e <> 0 <-> ready_count i r w e <> 0.
Proof. unfold ready_events, ready_count. repeat case_bool_decide; vm_compute; split; congruence. Qed.

Lemma ready_events_bit i r w e : ready_events i r w e <> 0 ->
  exists k, 0 <= k < 16 /\ Z.testbit (ready_events i r w e) k = true.
Proof.
  unfold ready_events. intros Hx.
  repeat case_bool_decide; (try by destruct Hx); clear Hx; vm_compute;
    first [by exists 0|by exists 1|by exists 2].
Qed.

Lemma ready_count_nonneg i r w e : 0 <= ready_count i r w e.
Proof. unfold ready_count, b2z. repeat case_bool_decide; lia. Qed.

(** How many bits of the answer are left for [count] descriptors from [i]. *)
Definition left_over (r w e : gset Z) (count : nat) (i : Z) : Z :=
  tally r count i + tally w count i + tally e count i.

Lemma left_over_step r w e c i :
  left_over r w e (S c) i = ready_count i r w e + left_over r w e c (i + 1).
Proof. unfold left_over, ready_count. cbn [tally]. lia. Qed.

Lemma left_over_nonneg r w e c i : 0 <= left_over r w e c i.
Proof.
  unfold left_over. pose proof (tally_nonneg r c i). pose proof (tally_nonneg w c i).
  pose proof (tally_nonneg e c i). lia.
Qed.

Lemma left_over_zero r w e count k : left_over r w e count k <= 0 ->
  forall j, k <= j < k + Z.of_nat count -> ready_events j r w e = 0.
Proof.
  revert k. induction count as [|c IH]; intros k Hk j Hj; [lia|]. rewrite left_over_step in Hk.
  pose proof (left_over_nonneg r w e c (k + 1)). pose proof (ready_count_nonneg k r w e).
  destruct (decide (j = k)) as [->|]; [|apply (IH (k + 1)); lia].
  destruct (decide (ready_events k r w e = 0)) as [|Hx]; [done|].
  apply ready_count_events in Hx. lia.
Qed.

(** The events that a pass over [count] descriptors from [i] adds to the
    pending list, in order. *)
Fixpoint marks st (r w e : gset Z) (count : nat) (i : Z) : list addr :=
  match count with
  | O => []
  | S count =>
      (if bool_decide (ready_events i r w e <> 0) then
         match fs_table st !! Z.to_nat i with
         | Some (Ptr a) =>
             match fs_fdes st !! a with
             | Some f => if is_pending f then [] else [a]
             | None => []
             end
         | _ => []
         end
       else []) ++ marks st r w e count (i + 1)
  end.

Lemma marks_nil st r w e count k :
  (forall j, k <= j < k + Z.of_nat count -> ready_events j r w e = 0) -> marks st r w e count k = [].
Proof.
  revert k. induction count as [|c IH]; intros k Hz; cbn [marks]; [done|].
  rewrite bool_decide_false by (intros Hx; apply Hx, Hz; lia). apply IH. intros j Hj. apply Hz. lia.
Qed.

(** Marking one event does not touch the later ones. *)
Lemma marks_ext st st' r w e count i a : wf st -> 0 <= i ->
  fs_table st !! Z.to_nat i = Some (Ptr a) -> fs_table st' = fs_table st ->
  (forall b, b <> a -> fs_fdes st' !! b = fs_fdes st !! b) ->
  forall k, i < k -> marks st' r w e count k = marks st r w e count k.
Proof.
  intros W Hi Ha Ht Hf. induction count as [|c IH]; intros k Hk; cbn [marks]; [done|].
  rewrite IH by lia. rewrite Ht. do 2 f_equal. case_bool_decide; [|done].
  destruct (fs_table st !! Z.to_nat k) as [[|b|]|] eqn:Eb; try done.
  rewrite Hf; [done|]. intros ->.
  destruct (wf_table _ W _ _ Ha) as (f & Hfa & _ & E1), (wf_table _ W _ _ Eb) as (g & Hga & _ & E2).
  assert (f = g) as -> by congruence. lia.
Qed.

(** What a pass does to the events reported by each [fdevent]. *)
Definition reported st st' (P : Z -> Prop) (r w e : gset Z) : Prop :=
  forall a f, fs_fdes st !! a = Some f -> active f = true -> P (fe_fd f) ->
    ready_events (fe_fd f) r w e <> 0 ->
    exists f', fs_fdes st' !! a = Some f' /\ is_pending f' = true
      /\ fe_events f' = u16 (Z.lor (fe_events f) (ready_events (fe_fd f) r w e)).

Lemma process_fds_ok r w e count : forall st i n,
  wf st -> 0 <= i -> i + Z.of_nat count = fs_select_n st ->
  (forall j, i <= j -> ready_events j r w e <> 0 -> exists a, fs_table st !! Z.to_nat j = Some (Ptr a)) ->
  n = left_over r w e count i ->
  exists st', process_fds st r w e count i n = Ok st' /\ wf st'
    /\ fs_pending st' = fs_pending st ++ marks st r w e count i
    /\ (forall b, (forall j, i <= j -> fs_table st !! Z.to_nat j <> Some (Ptr b)) ->
          fs_fdes st' !! b = fs_fdes st !! b)
    /\ reported st st' (fun j => i <= j) r w e.
Proof.
  induction count as [|c IH]; intros st i n W Hi Hn Hreg ->; cbn [process_fds marks].
  { exists st. rewrite app_nil_r. split_and!; try done. intros a f Hf Af Hl.
    destruct (wf_active _ W _ _ Hf Af) as [_ Ht]. pose proof (wf_below _ W _ _ Ht) as Hb. lia. }
  pose proof (left_over_nonneg r w e c (i + 1)). pose proof (ready_count_nonneg i r w e).
  case_bool_decide as Hpos.
  2:{ (* nothing is ready from here on *)
    pose proof (left_over_zero r w e (S c) i ltac:(lia)) as Hz.
    pose proof (marks_nil st r w e (S c) i Hz) as Hm. cbn [marks] in Hm. rewrite Hm.
    exists st. rewrite app_nil_r. split_and!; try done.
    intros a f Hf Af Hl Hx. destruct (wf_active _ W _ _ Hf Af) as [_ Ht].
    pose proof (wf_below _ W _ _ Ht) as Hb. exfalso. apply Hx, Hz. lia. }
  rewrite left_over_step.
  replace (_ - _) with (left_over r w e c (i + 1)) by lia.
  case_bool_decide as Hev.
  - destruct (Hreg i ltac:(lia) Hev) as [a Ha].
    destruct (ready_events_bit _ _ _ _ Hev) as (k & Hk & Hkb).
    destruct (mark_ready_ok st i a k W Hi Ha _ Hk Hkb)
      as (st1 & f & E1 & W1 & Hfa & Hp1 & Ht1 & Hn1 & Ho1 & f1 & Hf1 & Pf1 & Ef1).
    rewrite E1. cbn [res_bind].
    destruct (IH st1 (i + 1) (left_over r w e c (i + 1)))
      as (st' & E & W' & Hp & Hun & Hrep); [done|lia|lia|intros; rewrite Ht1; apply Hreg; [lia|done]|lia|].
    assert (forall j, i + 1 <= j -> fs_table st1 !! Z.to_nat j <> Some (Ptr a)) as Hlater.
    { intros j Hj Hja. rewrite Ht1 in Hja.
      destruct (wf_table _ W _ _ Ha) as (g & Hga & _ & E1g), (wf_table _ W _ _ Hja) as (g' & Hga' & _ & E2g).
      assert (g = g') as -> by congruence. lia. }
    exists st'. split_and!; try done.
    + rewrite Hp, Hp1, Ha, Hfa, <-app_assoc.
      by rewrite (marks_ext st st1 r w e c i a W Hi Ha Ht1 Ho1) by lia.
    + intros b Hb. rewrite Hun, Ho1; [done| |].
      * intros ->. by eapply Hb; [|exact Ha].
      * intros j Hj. rewrite Ht1. apply Hb. lia.
    + intros b g Hg Ag Hl Hx. destruct (decide (b = a)) as [->|Hne].
      * assert (g = f) as -> by congruence. exists f1. rewrite Hun by done.
        destruct (wf_table _ W _ _ Ha) as (g & Hga & _ & E1g). assert (g = f) as -> by congruence.
        rewrite E1g in *. rewrite Z2Nat.id in * by done. done.
      * assert (fe_fd g <> i) as Hgi.
        { intros Eg. destruct (wf_active _ W _ _ Hg Ag) as [_ Htg]. rewrite Eg, Ha in Htg. congruence. }
        apply (Hrep b g); [by rewrite Ho1|done|lia|done].
  - assert (ready_count i r w e = 0) as Hz.
    { destruct (decide (ready_count i r w e = 0)) as [|Hx]; [done|]. by apply ready_count_events in Hx. }
    cbn [res_bind].
    destruct (IH st (i + 1) (left_over r w e c (i + 1)))
      as (st' & E & W' & Hp & Hun & Hrep); [done|lia|lia|intros; apply Hreg; [lia|done]|lia|].
    exists st'. split_and!; try done.
    + intros b Hb. apply Hun. intros j Hj. apply Hb. lia.
    + intros b g Hg Ag Hl Hx. apply Hrep; try done. assert (fe_fd g <> i) by congruence. lia.
Qed.

(** A set of descriptors of the table. *)
Definition registered st (s : gset Z) : Prop :=
  forall i, i ∈ s -> 0 <= i /\ exists a, fs_table st !! Z.to_nat i = Some (Ptr a).

Lemma set_ok_registered st mask s : wf st -> set_ok (fs_fdes st) mask s -> registered st s.
Proof.
  intros W Hs i Hi. apply Hs in Hi as (a & f & Hf & Af & _ & <-).
  destruct (wf_active _ W _ _ Hf Af). eauto.
Qed.

Lemma registered_below st s i : wf st -> registered st s -> i ∈ s -> 0 <= i < fs_select_n st.
Proof.
  intros W Hs Hi. destruct (Hs i Hi) as (H0 & a & Ha). pose proof (wf_below _ W _ _ Ha). lia.
Qed.

Lemma fd_check_ok st bad count : forall i fds n, wf st -> 0 <= i ->
  i + Z.of_nat count <= fs_select_n st -> registered st fds -> (forall j, j ∈ fds -> j < i) ->
  n = Z.of_nat (size fds) ->
  exists fds' n', fdevent_fd_check st bad count i fds n = Ok (fds', n')
    /\ registered st fds' /\ n' = Z.of_nat (size fds').
Proof.
  induction count as [|c IH]; intros i fds n W Hi Hn Hr Hlt ->; cbn [fdevent_fd_check]; [eauto|].
  destruct (table_get_ok st i W) as (s & E & Ht & Hs).
  { pose proof (wf_n _ W). lia. }
  rewrite E. cbn [res_bind]. destruct s as [|a|]; [|case_bool_decide|done].
  - apply IH; try done; try lia. intros j Hj. apply Hlt in Hj. lia.
  - apply IH; try done; try lia.
    + intros j [Hj| ->%elem_of_singleton]%elem_of_union; eauto.
    + intros j [Hj| ->%elem_of_singleton]%elem_of_union; [apply Hlt in Hj|]; lia.
    + assert (i ∉ fds) by (intros Hj; apply Hlt in Hj; lia).
      rewrite size_union by (intros x Hx Hx'; apply elem_of_singleton in Hx' as ->; done).
      rewrite size_singleton. lia.
  - apply IH; try done; try lia. intros j Hj. apply Hlt in Hj. lia.
Qed.

Lemma process_ready st r w e : wf st -> registered st r -> registered st w -> registered st e ->
  exists st', process_fds st r w e (Z.to_nat (fs_select_n st)) 0
      (Z.of_nat (size r) + Z.of_nat (size w) + Z.of_nat (size e)) = Ok st' /\ wf st'
    /\ fs_pending st' = fs_pending st ++ marks st r w e (Z.to_nat (fs_select_n st)) 0
    /\ reported st st' (fun _ => True) r w e.
Proof.
  intros W Hr Hw He. pose proof (wf_n _ W) as Hn.
  destruct (process_fds_ok r w e (Z.to_nat (fs_select_n st)) st 0
    (Z.of_nat (size r) + Z.of_nat (size w) + Z.of_nat (size e))) as (st' & E & W' & Hp & _ & Hrep);
    [done|lia|lia|..].
  - intros j Hj Hx. unfold ready_events in Hx.
    destruct (decide (j ∈ r)) as [H|Hnr]; [by apply Hr in H as [_ ?]|].
    destruct (decide (j ∈ w)) as [H|Hnw]; [by apply Hw in H as [_ ?]|].
    destruct (decide (j ∈ e)) as [H|Hne]; [by apply He in H as [_ ?]|].
    rewrite !bool_decide_false in Hx by done. done.
  - unfold left_over. rewrite !tally_size; [lia|..]; intros j Hj;
      eapply registered_below in Hj; eauto; lia.
  - exists st'. split_and!; try done. intros a f Hf Af _ Hx.
    apply (Hrep a f Hf Af); [|done]. by apply (wf_active _ W _ _ Hf Af).
Qed.

(** *** Registering *)

Lemma grow_max max fd : 256 <= max -> fd <= 32000 -> fd < grow 8 max fd.
Proof.
  intros Hm Hf. cut (forall n m, 0 <= n <= 7 -> 256 * 2 ^ n <= m -> fd < grow (8 - Z.to_nat n) m fd).
  { intros H. apply (H 0); lia. }
  intros n m Hn. remember (7 - Z.to_nat n)%nat as k eqn:Ek. revert n m Hn Ek.
  induction k as [|k IH]; intros n m Hn Ek Hle.
  - assert (n = 7) as -> by lia. change (8 - Z.to_nat 7)%nat with 1%nat. cbn [grow].
    case_bool_decide; lia.
  - replace (8 - Z.to_nat n)%nat with (S (8 - Z.to_nat (n + 1))) by lia. cbn [grow].
    case_bool_decide; [|lia]. apply IH; [lia|lia|].
    rewrite Z.pow_add_r by lia. lia.
Qed.

Lemma grow_ge fuel max fd : 0 <= max -> max <= grow fuel max fd.
Proof.
  revert max. induction fuel as [|k IH]; intros max Hm; cbn [grow]; [lia|].
  case_bool_decide; [|lia]. specialize (IH (max * 2)). lia.
Qed.

(** The table after [fdevent_register] made room for [fd]. *)
Lemma register_table st (fd : Z) : 0 <= fd <= 32000 -> Junk ∉ fs_table st ->
  fs_table st = [] \/ 256 <= fd_table_max st ->
  exists k, let oldmax := fd_table_max st in
    let max := grow 8 (if bool_decide (oldmax = 0) then 256 else oldmax) fd in
    fs_table st ++ replicate (Nat.min (Z.to_nat (4 * (max - oldmax) / 4)) (Z.to_nat (max - oldmax))) Null
      ++ replicate (Z.to_nat (max - oldmax) - Z.to_nat (4 * (max - oldmax) / 4)) Junk
    = fs_table st ++ replicate k Null /\ fd < fd_table_max st + Z.of_nat k
    /\ 256 <= fd_table_max st + Z.of_nat k.
Proof.
  intros Hfd Hj Hlen. cbn zeta. set (old := fd_table_max st).
  set (max := grow 8 _ fd).
  assert (0 <= old) by (unfold old, fd_table_max; lia).
  assert (fd < max /\ 256 <= max /\ old <= max) as (Hm & Hm' & Hm'').
  { unfold max. case_bool_decide as Hz.
    - split; [apply grow_max; lia|]. pose proof (grow_ge 8 256 fd). lia.
    - destruct Hlen as [Hnil|Hge]; [unfold old, fd_table_max in Hz; rewrite Hnil in Hz; done|].
      change (256 <= old) in Hge. split; [apply grow_max; lia|]. pose proof (grow_ge 8 old fd). lia. }
  rewrite (Z.mul_comm 4), Z.div_mul by done. exists (Z.to_nat (max - old)).
  rewrite Nat.min_id, Nat.sub_diag. cbn [replicate]. rewrite app_nil_r. split; [done|]. lia.
Qed.

Lemma set_ok_empty st mask : wf st -> fs_table st = [] -> set_ok (fs_fdes st) mask ∅.
Proof.
  intros W Ht i. split; [set_solver|]. intros (b & g & Hb & Ag & _).
  destruct (wf_active _ W _ _ Hb Ag) as [_ Hg]. rewrite Ht in Hg. done.
Qed.

(** Nothing is registered, or pending, at the address [a]. *)
Definition vacant st a : Prop :=
  forall f, fs_fdes st !! a = Some f -> active f = false /\ is_pending f = false.

Lemma set_ok_install st a f mask s : vacant st a -> wants f mask = false ->
  set_ok (fs_fdes st) mask s -> set_ok (<[a := f]> (fs_fdes st)) mask s.
Proof.
  intros Hv Hf Hs i. rewrite (Hs i). split; intros (b & g & Hb & Ag & Hw & Hg).
  - exists b, g. rewrite lookup_insert_ne; [done|]. intros <-. destruct (Hv g Hb). congruence.
  - destruct (decide (a = b)) as [<-|Hne].
    + rewrite lookup_insert_eq in Hb. injection Hb as <-. congruence.
    + rewrite lookup_insert_ne in Hb by done. by exists b, g.
Qed.

(** A new active event [f] at [a], the table extended by [k] entries. *)
Lemma wf_install st a f k r w e :
  wf st -> vacant st a -> 0 <= fe_fd f < fd_table_max st + Z.of_nat k ->
  (fs_table st ++ replicate k Null) !! Z.to_nat (fe_fd f) = Some Null ->
  256 <= fd_table_max st + Z.of_nat k ->
  fe_state f = FDE_ACTIVE -> fe_fd f < FD_SETSIZE ->
  set_ok (fs_fdes st) FDE_READ r -> set_ok (fs_fdes st) FDE_WRITE w ->
  set_ok (fs_fdes st) FDE_ERROR e ->
  wf (with_select_n (Z.max (fs_select_n st) (fe_fd f + 1))
       (with_sets r w e (with_table (<[Z.to_nat (fe_fd f) := Ptr a]> (fs_table st ++ replicate k Null))
          (put_fde a f st)))).
Proof.
  intros W Hv Hfd Hnull Hk Hst Hfit Hr Hw He.
  assert (active f = true) as Af by (unfold active; by rewrite Hst).
  assert (is_pending f = false) as Pf by (unfold is_pending; by rewrite Hst).
  set (t := fs_table st ++ replicate k Null) in *.
  assert (forall i b, t !! i = Some (Ptr b) -> fs_table st !! i = Some (Ptr b)) as Hold.
  { intros i b Hi. unfold t in Hi. apply lookup_app_Some in Hi as [Hi|[_ Hi]]; [done|].
    apply lookup_replicate in Hi as [? _]. done. }
  assert (length t = (length (fs_table st) + k)%nat) as Hlen by (unfold t; by rewrite length_app, length_replicate).
  assert (forall b g, fs_fdes st !! b = Some g -> active g = true -> b <> a /\
      t !! Z.to_nat (fe_fd g) = Some (Ptr b) /\ fe_fd g <> fe_fd f) as Hact.
  { intros b g Hb Ag. destruct (wf_active _ W _ _ Hb Ag) as [H0 Ht].
    assert (t !! Z.to_nat (fe_fd g) = Some (Ptr b)) as Ht' by (by apply lookup_app_l_Some).
    split; [intros ->; destruct (Hv _ Hb); congruence|]. split; [done|]. intros Eq.
    rewrite Eq in Ht'. congruence. }
  split; cbn [fs_fdes fs_pending fs_table fs_read fs_write fs_error fs_select_n with_sets with_select_n
    with_table put_fde].
  - intros [i Hi]%list_elem_of_lookup. apply list_lookup_insert_Some in Hi as [(_ & ? & _)|[_ Hi]]; [done|].
    unfold t in Hi. apply lookup_app_Some in Hi as [Hi|[_ Hi]];
      [apply (wf_slots _ W), list_elem_of_lookup; eauto|by apply lookup_replicate in Hi as [? _]].
  - intros i b Hi. apply list_lookup_insert_Some in Hi as [(<- & [= <-] & _)|[Hne Hi]].
    + exists f. rewrite lookup_insert_eq. split_and!; try done. lia.
    + apply Hold in Hi. destruct (wf_table _ W _ _ Hi) as (g & Hg & Ag & Eg).
      exists g. rewrite lookup_insert_ne; [done|]. intros <-. destruct (Hv _ Hg). congruence.
  - intros b g. destruct (decide (a = b)) as [<-|Hne].
    + rewrite lookup_insert_eq. intros [= <-] _. split; [lia|].
      apply list_lookup_insert_eq. unfold fd_table_max in *. lia.
    + rewrite lookup_insert_ne by done. intros Hb Ag. destruct (Hact _ _ Hb Ag) as (_ & Ht & Hd).
      destruct (wf_active _ W _ _ Hb Ag) as [H0 _]. split; [done|].
      rewrite list_lookup_insert_ne by lia. done.
  - intros i b Hi. apply list_lookup_insert_Some in Hi as [(<- & _ & _)|[_ Hi]]; [lia|].
    apply Hold in Hi. pose proof (wf_below _ W _ _ Hi). lia.
  - pose proof (wf_n _ W). unfold fd_table_max in *. cbn. rewrite length_insert, Hlen. lia.
  - pose proof (wf_sets _ W). lia.
  - right. unfold fd_table_max in *. cbn. rewrite length_insert, Hlen. lia.
  - apply W.
  - intros b. rewrite (wf_listed _ W). destruct (decide (a = b)) as [<-|Hne].
    + rewrite lookup_insert_eq. split; intros (g & Hg & Pg).
      * destruct (Hv _ Hg). congruence.
      * injection Hg as <-. congruence.
    + by rewrite lookup_insert_ne by done.
  - intros b g. destruct (decide (a = b)) as [<-|Hne].
    + rewrite lookup_insert_eq. intros [= <-] ?. congruence.
    + rewrite lookup_insert_ne by done. apply W.
  - apply set_ok_install; [done| |done]. unfold wants. by rewrite Hst.
  - apply set_ok_install; [done| |done]. unfold wants. by rewrite Hst.
  - apply set_ok_install; [done| |done]. unfold wants. by rewrite Hst.
Qed.

Lemma reserve_ok st a f : wf st -> 0 <= fe_fd f <= 32000 ->
  exists k r w e, table_reserve 4 (put_fde a f st) (fe_fd f)
      = Ok (with_sets r w e (with_table (fs_table st ++ replicate k Null) (put_fde a f st)))
    /\ 0 <= fe_fd f < fd_table_max st + Z.of_nat k /\ 256 <= fd_table_max st + Z.of_nat k
    /\ set_ok (fs_fdes st) FDE_READ r /\ set_ok (fs_fdes st) FDE_WRITE w
    /\ set_ok (fs_fdes st) FDE_ERROR e.
Proof.
  intros W Hfd. unfold table_reserve.
  change (fd_table_max (put_fde a f st)) with (fd_table_max st). cbn zeta.
  case_bool_decide as Hbig.
  - rewrite bool_decide_false by lia.
    destruct (register_table st (fe_fd f) Hfd (wf_slots _ W) (wf_room _ W)) as (k & Ek & Hk & Hk').
    cbn zeta in Ek.
    case_bool_decide as Hz; cbn [fs_table fdevent_init with_sets put_fde]; rewrite Ek.
    + exists k, ∅, ∅, ∅. split; [done|]. split; [lia|]. split; [lia|].
      assert (fs_table st = []) by (apply length_zero_iff_nil; unfold fd_table_max in Hz; lia).
      split_and!; by apply set_ok_empty.
    + exists k, (fs_read st), (fs_write st), (fs_error st). split; [done|]. split; [lia|]. split; [lia|].
      split_and!; apply W.
  - exists 0%nat, (fs_read st), (fs_write st), (fs_error st). cbn [replicate]. rewrite app_nil_r.
    split; [by destruct st|]. split; [lia|]. split.
    + destruct (wf_room _ W) as [Hn|]; [|lia]. unfold fd_table_max in *. rewrite Hn in *. simpl in *. lia.
    + split_and!; apply W.
Qed.

(** Installing an event at a free address, for a descriptor nobody registered,
    succeeds and makes it active with no interest. *)
Lemma install_ok st a fd func arg : wf st -> vacant st a -> 0 <= fd < FD_SETSIZE ->
  (forall b, fs_table st !! Z.to_nat fd <> Some (Ptr b)) ->
  exists st', fdevent_install 4 st a fd func arg = Ok st' /\ wf st'
    /\ fs_fdes st' = <[a := Fdevent fd 0 FDE_ACTIVE 0 func arg]> (fs_fdes st)
    /\ fs_pending st' = fs_pending st /\ fs_closes st' = fs_closes st
    /\ (forall i b, i <> Z.to_nat fd -> fs_table st' !! i = Some (Ptr b) <-> fs_table st !! i = Some (Ptr b)).
Proof.
  intros W Hv Hfd Hfree. set (f := Fdevent fd 0 FDE_ACTIVE 0 func arg).
  unfold fdevent_install, fdevent_register, get_fde. fold f.
  cbn [fs_fdes put_fde]. rewrite lookup_insert_eq. cbn [access res_bind].
  rewrite bool_decide_false by (cbn; lia).
  destruct (reserve_ok st a f W ltac:(cbn; unfold FD_SETSIZE in Hfd; lia)) as (k & r & w & e & E & Hk & Hk' & Hr & Hw & He).
  rewrite E. cbn [res_bind with_table fs_fdes with_sets put_fde fs_table fe_fd]. rewrite lookup_insert_eq. cbn [access res_bind].
  change (fe_fd f) with fd in Hk.
  assert ((fs_table st ++ replicate k Null) !! Z.to_nat fd = Some Null) as Hnull.
  { destruct ((fs_table st ++ replicate k Null) !! Z.to_nat fd) as [sl|] eqn:Esl.
    - apply lookup_app_Some in Esl as [Esl|[_ Esl]].
      + destruct sl; [done|by destruct (Hfree a0)|]. destruct (wf_slots _ W).
        apply list_elem_of_lookup. eauto.
      + apply lookup_replicate in Esl as [-> _]. done.
    - apply lookup_ge_None in Esl. rewrite length_app, length_replicate in Esl.
      unfold fd_table_max in *. lia. }
  pose proof (wf_install st a f k r w e W Hv Hk Hnull Hk' eq_refl (proj2 Hfd) Hr Hw He) as W'.
  change (fe_fd f) with fd in W'.
  eexists. split; [reflexivity|]. unfold fdevent_connect. cbn [fs_select_n with_table with_sets fe_fd f put_fde].
  change (with_state (u16 (Z.lor (fe_state f) FDE_ACTIVE)) f) with f.
  assert (forall n, with_select_n n (with_sets r w e (with_table (<[Z.to_nat fd := Ptr a]> (fs_table st ++ replicate k Null)) (put_fde a f st)))
    = put_fde a f (with_select_n n (with_sets r w e (with_table (<[Z.to_nat fd := Ptr a]> (fs_table st ++ replicate k Null)) (put_fde a f st))))) as Hid.
  { intros n. unfold with_select_n, with_sets, with_table, put_fde. cbn. by rewrite insert_insert_eq. }
  split; [|split; [|split; [|split]]].
  - change (fe_fd f) with fd. case_bool_decide as Hn.
    + rewrite Z.max_r in W' by lia. rewrite Hid in W'. exact W'.
    + rewrite Z.max_l in W' by lia. rewrite Hid in W'. exact W'.
  - case_bool_decide; cbn; by rewrite insert_insert_eq.
  - by case_bool_decide.
  - by case_bool_decide.
  - intros i b Hi.
    assert (forall st0, fs_table (put_fde a f st0) = fs_table st0) as Hpt by done.
    rewrite Hpt. change (fe_fd f) with fd. case_bool_decide; cbn [fs_table with_select_n with_table with_sets];
      rewrite list_lookup_insert_ne by done; split; intros Hb; try (by apply lookup_app_l_Some);
      (apply lookup_app_Some in Hb as [Hb|[_ Hb]]; [done|by apply lookup_replicate in Hb as [? _]]).
Qed.

(** *** Unregistering *)

(** Every registered descriptor below the bound is at most the result. *)
Lemma highest_fd_spec st : wf st -> forall count i n,
  0 <= i -> 0 <= n -> i + Z.of_nat count <= fd_table_max st ->
  exists m, highest_fd st count i n = Ok m /\ (m = n \/ i <= m < i + Z.of_nat count)
    /\ (n <= i -> n <= m)
    /\ (n <= i -> forall j b, i <= j < i + Z.of_nat count -> fs_table st !! Z.to_nat j = Some (Ptr b) -> j <= m).
Proof.
  intros W. induction count as [|c IH]; intros i n Hi Hn Hmax; cbn [highest_fd].
  { exists n. split_and!; auto; intros; lia. }
  destruct (table_get_ok st i W) as (s & E & Ht & Hs); [lia|]. rewrite E. cbn [res_bind].
  destruct s as [|a|]; [| |done].
  - destruct (IH (i + 1) n) as (m & Em & Hm & Hm' & Hj); [lia..|]. exists m.
    split; [done|]. split; [lia|]. split; [intros; apply Hm'; lia|]. intros Hlt j b Hjb Hb.
    destruct (decide (j = i)) as [->|]; [congruence|]. apply (Hj ltac:(lia) j b); [lia|done].
  - destruct (IH (i + 1) i) as (m & Em & Hm & Hm' & Hj); [lia..|]. exists m.
    split; [done|]. split; [lia|]. specialize (Hm' ltac:(lia)). split; [lia|]. intros Hlt j b Hjb Hb.
    destruct (decide (j = i)) as [->|]; [lia|]. apply (Hj ltac:(lia) j b); [lia|done].
Qed.

Lemma set_ok_remove st a f f' mask s : wf st -> fs_fdes st !! a = Some f -> active f' = false ->
  set_ok (fs_fdes st) mask s ->
  set_ok (<[a := f']> (fs_fdes st)) mask (if active f then s ∖ {[fe_fd f]} else s).
Proof.
  intros W Ha Hf' Hs i. split.
  - intros Hi. assert (i ∈ s /\ ~ (active f = true /\ i = fe_fd f)) as [Hi' Hn].
    { destruct (active f); [|by split; [|intros [? _]]].
      apply elem_of_difference in Hi as [? Hn]. rewrite elem_of_singleton in Hn. naive_solver. }
    apply Hs in Hi' as (b & g & Hb & Ag & Hw & <-). exists b, g. rewrite lookup_insert_ne; [done|].
    intros <-. apply Hn. rewrite Ha in Hb. by injection Hb as <-.
  - intros (b & g & Hb & Ag & Hw & <-). destruct (decide (a = b)) as [<-|Hne].
    + rewrite lookup_insert_eq in Hb. injection Hb as <-. congruence.
    + rewrite lookup_insert_ne in Hb by done.
      assert (fe_fd g ∈ s) as Hi by (apply Hs; by exists b, g).
      destruct (active f) eqn:Af; [|done]. apply elem_of_difference. split; [done|].
      intros Hx%elem_of_singleton. apply Hne. eapply wf_same_fd; eauto.
Qed.

(** An event leaves the table, the list and the sets. *)
Lemma wf_remove st a f f' t' n' : wf st -> fs_fdes st !! a = Some f ->
  active f' = false -> is_pending f' = false ->
  t' = (if active f then <[Z.to_nat (fe_fd f) := Null]> (fs_table st) else fs_table st) ->
  0 <= n' <= fs_select_n st ->
  (forall i b, t' !! i = Some (Ptr b) -> Z.of_nat i < n') ->
  wf (with_select_n n' (with_table t'
       (with_sets (if active f then fs_read st ∖ {[fe_fd f]} else fs_read st)
                  (if active f then fs_write st ∖ {[fe_fd f]} else fs_write st)
                  (if active f then fs_error st ∖ {[fe_fd f]} else fs_error st)
         (with_pending (filter (fun b => b <> a) (fs_pending st)) (put_fde a f' st))))).
Proof.
  intros W Ha Af' Pf' Et Hn' Hbelow.
  assert (length t' = length (fs_table st)) as Hlen
    by (rewrite Et; destruct (active f); [apply length_insert|done]).
  assert (forall i b, t' !! i = Some (Ptr b) -> fs_table st !! i = Some (Ptr b) /\ b <> a) as Hold.
  { intros i b Hi. rewrite Et in Hi. destruct (active f) eqn:Af.
    - apply list_lookup_insert_Some in Hi as [(_ & ? & _)|[Hne Hi]]; [done|]. split; [done|]. intros ->.
      destruct (wf_table _ W _ _ Hi) as (g & Hg & _ & Eg). assert (g = f) as -> by congruence. lia.
    - split; [done|]. intros ->. destruct (wf_table _ W _ _ Hi) as (g & Hg & Ag & _). congruence. }
  split; cbn [fs_fdes fs_pending fs_table fs_read fs_write fs_error fs_select_n with_sets with_select_n
    with_table with_pending put_fde].
  - intros Hj. apply list_elem_of_lookup in Hj as [i Hi]. rewrite Et in Hi.
    assert (fs_table st !! i = Some Junk) as Hi'.
    { destruct (active f); [|done]. by apply list_lookup_insert_Some in Hi as [(_ & ? & _)|[_ Hi]]. }
    apply (wf_slots _ W), list_elem_of_lookup. eauto.
  - intros i b Hi. apply Hold in Hi as [Hi Hne]. rewrite lookup_insert_ne by done. by apply W.
  - intros b g Hb Ag. destruct (decide (a = b)) as [<-|Hne].
    { rewrite lookup_insert_eq in Hb. injection Hb as <-. congruence. }
    rewrite lookup_insert_ne in Hb by done. destruct (wf_active _ W _ _ Hb Ag) as [H0 Ht].
    split; [done|]. rewrite Et. destruct (active f) eqn:Af; [|done].
    rewrite list_lookup_insert_ne; [done|]. intros E.
    assert (a = b); [|done]. eapply wf_same_fd; eauto. destruct (wf_active _ W _ _ Ha Af). lia.
  - done.
  - pose proof (wf_n _ W). unfold fd_table_max in *. cbn. rewrite Hlen. lia.
  - pose proof (wf_sets _ W). lia.
  - destruct (wf_room _ W) as [Hn|]; [left|right; unfold fd_table_max in *; cbn; by rewrite Hlen].
    cbn. rewrite Et, Hn. by destruct (active f).
  - apply NoDup_filter, W.
  - intros b. rewrite list_elem_of_filter, (wf_listed _ W). destruct (decide (a = b)) as [<-|Hne].
    + rewrite lookup_insert_eq. split; [by intros []|intros (g & [= <-] & ?); congruence].
    + rewrite lookup_insert_ne by done. split; [by intros []|by intros; split].
  - intros b g. destruct (decide (a = b)) as [<-|Hne].
    + rewrite lookup_insert_eq. intros [= <-] ?. congruence.
    + rewrite lookup_insert_ne by done. apply W.
  - eapply set_ok_remove; eauto. apply W.
  - eapply set_ok_remove; eauto. apply W.
  - eapply set_ok_remove; eauto. apply W.
Qed.

Lemma filter_not_in (l : list addr) a : a ∉ l -> filter (fun b => b <> a) l = l.
Proof.
  induction l as [|x l IH]; intros Hn; [done|]. apply not_elem_of_cons in Hn as [? ?].
  rewrite filter_cons_True by done. by rewrite IH.
Qed.

(** Removing an event always succeeds: the event becomes inert, and its
    descriptor is closed unless [FDE_DONT_CLOSE] was asked for. *)
Lemma remove_ok st a f : wf st -> fs_fdes st !! a = Some f ->
  exists st', fdevent_remove st a = Ok st' /\ wf st'
    /\ fs_fdes st' = <[a := with_events 0 (with_state 0 f)]> (fs_fdes st)
    /\ fs_pending st' = filter (fun b => b <> a) (fs_pending st)
    /\ fs_closes st' = (if active f && negb (has (fe_state f) FDE_DONT_CLOSE)
                         then [fe_fd f] else []) ++ fs_closes st
    /\ (forall i b, fs_table st' !! i = Some (Ptr b) -> fs_table st !! i = Some (Ptr b) /\ b <> a).
Proof.
  intros W Ha. unfold fdevent_remove, get_fde. rewrite Ha. cbn [access res_bind].
  change (has (fe_state f) FDE_PENDING) with (is_pending f).
  change (has (fe_state f) FDE_ACTIVE) with (active f).
  assert ((if is_pending f then plist_remove a st else Ok st)
    = Ok (with_pending (filter (fun b => b <> a) (fs_pending st)) st)) as ->.
  { pose proof (wf_listed _ W a) as Hl. destruct (is_pending f) eqn:Pf.
    - unfold plist_remove. rewrite bool_decide_true; [done|]. apply Hl. eauto.
    - rewrite filter_not_in; [by destruct st|]. intros Hin. apply Hl in Hin as (g & Hg & Pg). congruence. }
  cbn [res_bind]. set (st0 := with_pending _ st).
  set (f' := with_events 0 (with_state 0 f)).
  destruct (active f) eqn:Af.
  - destruct (wf_active _ W _ _ Ha Af) as [H0 Ht]. pose proof (wf_below _ W _ _ Ht) as Hb.
    pose proof (wf_n _ W) as Hn.
    pose proof (active_fits _ _ _ W Ha Af) as Hfit.
    unfold fdevent_disconnect. rewrite !fd_set_to_ok by done. cbn [res_bind]. set (st1 := with_sets _ _ _ st0).
    change (fs_select_n st1) with (fs_select_n st).
    assert (exists m, highest_fd st1 (Z.to_nat (fs_select_n st)) 0 0 = Ok m /\ (m = 0 \/ 0 <= m < fs_select_n st)
      /\ (forall j b, 0 <= j < fs_select_n st -> fs_table st !! Z.to_nat j = Some (Ptr b) -> j <= m))
      as (m & Em & Hm & Hj).
    { destruct (highest_fd_spec st W (Z.to_nat (fs_select_n st)) 0 0) as (m & Em & Hm & _ & Hj); [lia..|].
      exists m. split; [|split; [lia|intros j b Hjb; apply Hj; lia]]. rewrite <-Em.
      clear. generalize 0 at 1 3. generalize 0.
      induction (Z.to_nat (fs_select_n st)) as [|c IH]; intros n i; [done|]. cbn [highest_fd].
      change (table_get st1 i) with (table_get st i). destruct (table_get st i); try done. apply IH. }
    rewrite Em. cbn [res_bind]. unfold fdevent_unregister, get_fde. cbn [fs_fdes with_select_n with_sets with_pending st1 st0].
    rewrite Ha. cbn [access res_bind]. rewrite bool_decide_false by
      (change (fd_table_max _) with (fd_table_max st); lia).
    unfold table_get. rewrite bool_decide_true by lia. cbn [fs_table with_select_n with_sets with_pending st1 st0].
    rewrite Ht. cbn [res_bind]. rewrite bool_decide_true by done.
    pose proof (wf_remove st a f f' (<[Z.to_nat (fe_fd f) := Null]> (fs_table st)) (m + 1) W Ha eq_refl eq_refl
      ltac:(by rewrite Af) ltac:(lia)) as W'. rewrite Af in W'.
    assert (forall i b, <[Z.to_nat (fe_fd f):=Null]> (fs_table st) !! i = Some (Ptr b) ->
      fs_table st !! i = Some (Ptr b) /\ b <> a) as Hold.
    { intros i b Hi. apply list_lookup_insert_Some in Hi as [(_ & ? & _)|[Hne Hi]]; [done|].
      split; [done|]. intros ->. destruct (wf_table _ W _ _ Hi) as (g & Hg & _ & Eg).
      assert (g = f) as -> by congruence. lia. }
    eassert (wf _) as W'' by (apply W'; intros i b Hi; apply Hold in Hi as [Hi _];
      pose proof (wf_below _ W _ _ Hi); specialize (Hj (Z.of_nat i) b); rewrite Nat2Z.id in Hj; 
      specialize (Hj ltac:(lia) Hi); lia). clear W'.
    destruct (has (fe_state f) FDE_DONT_CLOSE); cbn [res_bind fs_fdes with_table with_select_n with_sets
      with_pending adb_close andb negb app st1 st0]; rewrite Ha; cbn [access res_bind];
      (eexists; split; [reflexivity|]; split; [|done]); [exact W''|].
    destruct W''. split; assumption.
  - cbn [res_bind fs_fdes with_pending st0]. rewrite Ha. cbn [access res_bind].
    eexists. split; [reflexivity|]. split.
    + pose proof (wf_remove st a f f' (fs_table st) (fs_select_n st) W Ha eq_refl eq_refl
        ltac:(by rewrite Af)) as W'. rewrite Af in W'.
      pose proof (wf_n _ W). specialize (W' ltac:(lia) (wf_below _ W)). exact W'.
    + split; [done|]. split; [done|]. split; [done|]. intros i b Hi. split; [exact Hi|].
      intros ->. destruct (wf_table _ W _ _ Hi) as (g & Hg & Ag & _). congruence.
Qed.

(** *** Interest *)

(** The state after [fdevent_set] for the events [e]. *)
Definition assign (s e : Z) : Z := u16 (Z.lor (Z.land s FDE_STATEMASK) (Z.land e FDE_EVENTMASK)).

Lemma assign_idem s e : assign (assign s e) e = assign s e.
Proof.
  unfold assign. change FDE_EVENTMASK with (Z.ones 8). change FDE_STATEMASK with (Z.shiftl (Z.ones 8) 8).
  apply Z.bits_inj'. intros k Hk.
  rewrite !u16_bit, !Z.lor_spec, !Z.land_spec, u16_bit, Z.lor_spec, !Z.land_spec, Z.shiftl_spec by done.
  case_bool_decide; cbn [andb]; [|done].
  destruct (decide (k < 8)).
  - rewrite (Z.testbit_neg_r _ (k - 8)) by lia. by rewrite !andb_false_r.
  - rewrite (Z.ones_spec_high 8 k) by lia.
    destruct (Z.testbit (Z.ones 8) (k - 8)), (Z.testbit s k), (Z.testbit e k); done.
Qed.

Lemma assign_flags s e : has (assign s e) FDE_ACTIVE = has s FDE_ACTIVE
  /\ has (assign s e) FDE_PENDING = has s FDE_PENDING
  /\ has (assign s e) FDE_CREATED = has s FDE_CREATED
  /\ has (assign s e) FDE_READ = has e FDE_READ /\ has (assign s e) FDE_WRITE = has e FDE_WRITE
  /\ has (assign s e) FDE_ERROR = has e FDE_ERROR.
Proof. unfold assign. split_and!; flags; done. Qed.

Lemma mask_flags e m : m ∈ [FDE_READ; FDE_WRITE; FDE_ERROR] -> has (Z.land e FDE_EVENTMASK) m = has e m.
Proof.
  intros Hm. repeat (apply elem_of_cons in Hm as [->|Hm]); [..|by apply elem_of_nil in Hm]; flags; done.
Qed.

Lemma assign_interest_ok st a f e : wf st -> fs_fdes st !! a = Some f ->
  exists st1, assign_interest st a (Z.land e FDE_EVENTMASK) = Ok st1 /\ wf st1
    /\ fs_fdes st1 = <[a := with_state (assign (fe_state f) e) f]> (fs_fdes st)
    /\ fs_pending st1 = fs_pending st /\ fs_table st1 = fs_table st /\ fs_closes st1 = fs_closes st.
Proof.
  intros W Ha. destruct (assign_flags (fe_state f) e) as (FA & FP & _ & FR & FW & FE).
  set (s1 := assign (fe_state f) e) in *. set (f1 := with_state s1 f).
  pose proof (wf_listed _ W a) as Hla. pose proof (wf_pending _ W _ _ Ha) as Hpa.
  assert (active f1 = active f) as FA' by exact FA.
  assert (is_pending f1 = is_pending f) as FP' by exact FP.
  assert (a ∈ fs_pending st <-> is_pending f1 = true) as Hla'.
  { rewrite FP', Hla. split; [intros (g & Hg & Pg); congruence|eauto]. }
  assert (is_pending f1 = true -> active f1 = true /\ fe_events f1 <> 0) as Hpa'
    by (rewrite FP', FA'; exact Hpa).
  unfold assign_interest, get_fde. rewrite Ha. cbn [access res_bind].
  change (has (fe_state f) FDE_ACTIVE) with (active f). destruct (active f) eqn:Af.
  - pose proof (active_fits _ _ _ W Ha Af) as Hfit.
    unfold fdevent_update, get_fde. rewrite Ha. cbn [access res_bind].
    rewrite !fd_set_to_ok by done. cbn [res_bind].
    fold (assign (fe_state f) e). fold s1 f1. cbn [fs_fdes put_fde with_sets]. rewrite lookup_insert_eq.
    cbn [access res_bind]. eexists. split; [reflexivity|].
    assert (with_state (u16 (Z.lor (Z.land (fe_state f1) FDE_STATEMASK) (Z.land e FDE_EVENTMASK))) f1 = f1) as ->.
    { unfold f1 at 2 3. cbn. fold (assign s1 e). unfold s1. by rewrite assign_idem. }
    split; [|cbn; by rewrite insert_insert_eq].
    assert (forall m, m ∈ [FDE_READ; FDE_WRITE; FDE_ERROR] -> has s1 m = has e m -> forall s,
      follows f (wants f1 m) s (if has (Z.land e FDE_EVENTMASK) m then s ∪ {[fe_fd f]} else s ∖ {[fe_fd f]})) as Hfo.
    { intros m Hin Hm1 s. unfold wants, f1. cbn. rewrite Hm1, mask_flags by done. by apply follows_set_to. }
    pose proof (wf_update st a f f1 (fs_pending st) _ _ _ W Ha eq_refl ltac:(congruence)
      (wf_nodup _ W) ltac:(done) Hla' Hpa'
      (Hfo FDE_READ ltac:(rewrite !elem_of_cons; auto) FR _) (Hfo FDE_WRITE ltac:(rewrite !elem_of_cons; auto) FW _)
      (Hfo FDE_ERROR ltac:(rewrite !elem_of_cons; auto) FE _)) as W'.
    unfold put_fde, with_sets, with_pending in *. cbn in *. rewrite insert_insert_eq. exact W'.
  - cbn [res_bind]. rewrite Ha. cbn [access res_bind]. eexists. split; [reflexivity|]. split; [|done].
    assert (forall w s, follows f w s s) as Hfo.
    { intros w s i. rewrite Af. split; [intros; right; split; [done|by intros []]|]. by intros [[? _]|[? _]]. }
    apply (wf_update st a f f1 (fs_pending st) (fs_read st) (fs_write st) (fs_error st) W Ha);
      try done; try congruence; try apply W; try apply Hfo.
Qed.

Lemma drop_events_ok st a f e : wf st -> fs_fdes st !! a = Some f ->
  exists st' f', drop_events st a e = Ok st' /\ wf st' /\ fs_fdes st' = <[a := f']> (fs_fdes st)
    /\ fs_table st' = fs_table st /\ fs_closes st' = fs_closes st
    /\ (forall k, k <> 9 -> 0 <= k < 16 -> Z.testbit (fe_state f') k = Z.testbit (fe_state f) k)
    /\ fe_fd f' = fe_fd f /\ fe_force_eof f' = fe_force_eof f /\ fe_func f' = fe_func f
    /\ fe_arg f' = fe_arg f
    /\ fe_events f' = (if is_pending f then u16 (Z.land (fe_events f) (Z.lnot e)) else fe_events f)
    /\ is_pending f' = is_pending f && negb (bool_decide (fe_events f' = 0))
    /\ fs_pending st' = (if is_pending f && bool_decide (fe_events f' = 0)
                         then filter (fun b => b <> a) (fs_pending st) else fs_pending st).
Proof.
  intros W Ha. unfold drop_events, get_fde. rewrite Ha. cbn [access res_bind].
  change (has (fe_state f) FDE_PENDING) with (is_pending f). destruct (is_pending f) eqn:Pf.
  2:{ exists st, f. split_and!; try done; try (by rewrite insert_id); by rewrite Pf. }
  destruct (wf_pending _ W _ _ Ha Pf) as [Af Hev].
  assert (a ∈ fs_pending st) as Hin by (apply (wf_listed _ W); eauto).
  set (ev := u16 (Z.land (fe_events f) (Z.lnot e))). cbn [fe_events with_events].
  case_bool_decide as Hz.
  - unfold plist_remove. cbn [fs_pending put_fde]. rewrite bool_decide_true by done. cbn [res_bind].
    set (f' := with_state (u16 (Z.land (fe_state (with_events ev f)) (Z.lnot FDE_PENDING))) (with_events ev f)).
    assert (is_pending f' = false) as Pf' by apply pending_set.
    eexists _, f'. split; [reflexivity|]. split.
    { pose proof (wf_flags st a f f' (filter (fun b => b <> a) (fs_pending st)) W Ha) as W'.
      unfold put_fde, with_pending in *. cbn in *. rewrite insert_insert_eq. apply W'; try done.
      - intros m Hm. by apply pending_bits.
      - apply NoDup_filter, W.
      - intros b Hb. rewrite list_elem_of_filter. by split; [intros []|].
      - rewrite list_elem_of_filter, Pf'. split; [by intros []|done].
      - by rewrite Pf'. }
    split; [cbn; by rewrite insert_insert_eq|]. split_and!; try done.
    + intros k Hk Hk16. cbn. rewrite u16_bit, Z.land_spec, Z.lnot_spec, bool_decide_true by lia.
      change FDE_PENDING with (2 ^ 9). rewrite Z.pow2_bits_false by lia. cbn. by rewrite andb_true_r.
    + cbn. rewrite bool_decide_true by done. by rewrite Pf'.
    + cbn. by rewrite bool_decide_true by done.
  - exists (put_fde a (with_events ev f) st), (with_events ev f). split; [done|]. split.
    { pose proof (wf_flags st a f (with_events ev f) (fs_pending st) W Ha) as W'.
      apply W'; try done. apply W. }
    cbn [fe_events with_events]. rewrite bool_decide_false by done. split_and!; try done.
Qed.

(** [fdevent_set] always succeeds: it replaces the interest of the event; when
    the event is pending, the events that are asked for are dropped from what
    it is about to report, and it leaves the pending list when nothing is left. *)
Lemma set_ok' st a f e : wf st -> fs_fdes st !! a = Some f ->
  exists st' f', fdevent_set st a e = Ok st' /\ wf st'
    /\ fs_fdes st' = <[a := f']> (fs_fdes st) /\ fs_table st' = fs_table st
    /\ fs_closes st' = fs_closes st
    /\ interest f' = Z.land e FDE_EVENTMASK /\ active f' = active f /\ fe_fd f' = fe_fd f
    /\ fe_force_eof f' = fe_force_eof f /\ fe_func f' = fe_func f /\ fe_arg f' = fe_arg f
    /\ ((interest f = Z.land e FDE_EVENTMASK /\ st' = st /\ f' = f) \/
        (interest f <> Z.land e FDE_EVENTMASK /\
         fe_events f' = (if is_pending f then u16 (Z.land (fe_events f) (Z.lnot (Z.land e FDE_EVENTMASK)))
                         else fe_events f) /\
         is_pending f' = is_pending f && negb (bool_decide (fe_events f' = 0)) /\
         fs_pending st' = if is_pending f && bool_decide (fe_events f' = 0)
                          then filter (fun b => b <> a) (fs_pending st) else fs_pending st)).
Proof.
  intros W Ha. unfold fdevent_set, get_fde. rewrite Ha. cbn [access res_bind].
  case_bool_decide as Hsame.
  { exists st, f. split_and!; try done; [by rewrite insert_id|]. left. done. }
  destruct (assign_interest_ok st a f e W Ha) as (st1 & -> & W1 & Hf1 & Hp1 & Ht1 & Hc1).
  cbn [res_bind]. set (f1 := with_state _ f) in *.
  destruct (assign_flags (fe_state f) e) as (FA & FP & _ & _ & _ & _).
  destruct (drop_events_ok st1 a f1 (Z.land e FDE_EVENTMASK) W1) as
    (st' & f' & -> & W' & Hf' & Ht' & Hc' & Hbits & Hfd & Heof & Hfn & Harg & Hev & Hpf & Hpl);
    [by rewrite Hf1, lookup_insert_eq|].
  assert (is_pending f1 = is_pending f) as FP' by exact FP.
  exists st', f'. split; [done|]. split; [done|]. split; [by rewrite Hf', Hf1, insert_insert_eq|].
  split; [congruence|]. split; [congruence|]. split; [|split].
  - rewrite <-(interest_assign (fe_state f) e). fold (assign (fe_state f) e). unfold interest.
    change (assign (fe_state f) e) with (fe_state f1). change FDE_EVENTMASK with (Z.ones 8).
    apply Z.bits_inj'. intros k Hk. rewrite !Z.land_spec.
    destruct (decide (k < 8)); [by rewrite Hbits by lia|].
    by rewrite (Z.ones_spec_high 8 k), !andb_false_r by lia.
  - unfold active. rewrite <-FA, !has_ACTIVE. apply Hbits; lia.
  - rewrite Hfd, Heof, Hfn, Harg. split_and!; try done. right. split; [done|].
    split; [by rewrite Hev, FP'|]. split; [by rewrite Hpf, FP'|by rewrite Hpl, FP', Hp1].
Qed.

(** *** Callbacks *)

(** Taking an event off the pending list and clearing it for its callback. *)
Lemma wf_dequeued st a l f : wf st -> fs_pending st = a :: l -> fs_fdes st !! a = Some f ->
  wf (put_fde a (with_state (u16 (Z.land (fe_state f) (Z.lnot FDE_PENDING))) (with_events 0 f))
        (with_pending l st)).
Proof.
  intros W Hp Ha. pose proof (wf_nodup _ W) as Hnd. rewrite Hp in Hnd. apply NoDup_cons in Hnd as [Hn Hnd].
  set (f' := with_state _ _). assert (is_pending f' = false) as Pf' by apply pending_set.
  pose proof (wf_flags st a f f' l W Ha) as W'. apply W'; try done.
  - intros m Hm. by apply pending_bits.
  - intros b Hb. rewrite Hp, elem_of_cons. by split; [right|intros [?|?]].
  - by rewrite Pf'.
  - by rewrite Pf'.
Qed.
End Preservation.

(** ** The implementation of the interface *)

Section Laws.
Context {F : Type}.
Implicit Types (st : fdstate F).

Lemma fde_interest_some st a i : fde_interest st a = Some i <->
  exists f, fs_fdes st !! a = Some f /\ active f = true /\ interest f = i.
Proof.
  unfold fde_interest. destruct (fs_fdes st !! a) as [f|]; simpl; [|split; [done|by intros (? & ? & _)]].
  destruct (active f) eqn:Af; split; try done.
  - intros [= <-]. eauto.
  - by intros (? & [= <-] & _ & <-).
  - intros (? & [= <-] & ? & _). congruence.
Qed.

Lemma fde_vacant st a : wf st -> fde_interest st a = None -> vacant st a.
Proof.
  intros W Hi f Hf. unfold fde_interest in Hi. rewrite Hf in Hi. simpl in Hi.
  destruct (active f) eqn:Af; [done|]. split; [done|].
  destruct (is_pending f) eqn:Pf; [|done]. destruct (wf_pending _ W _ _ Hf Pf). congruence.
Qed.

(** Interest and end-of-file flags after one event was replaced. *)
Lemma interest_insert st st' a (f' : fdevent F) : fs_fdes st' = <[a := f']> (fs_fdes st) ->
  fde_interest st' a = (if active f' then Some (interest f') else None) /\
  (forall b, b <> a -> fde_interest st' b = fde_interest st b) /\
  fde_eof st' a = Ok (fe_force_eof f') /\ (forall b, b <> a -> fde_eof st' b = fde_eof st b).
Proof.
  intros Hf. unfold fde_interest, fde_eof, get_fde. rewrite Hf. split_and!.
  - by rewrite lookup_insert_eq.
  - intros b Hb. by rewrite lookup_insert_ne.
  - by rewrite lookup_insert_eq.
  - intros b Hb. by rewrite lookup_insert_ne.
Qed.

Lemma eof_all st st' a (f f' : fdevent F) : fs_fdes st !! a = Some f -> fe_force_eof f' = fe_force_eof f ->
  fde_eof st' a = Ok (fe_force_eof f') -> (forall b, b <> a -> fde_eof st' b = fde_eof st b) ->
  forall b, fde_eof st' b = fde_eof st b.
Proof.
  intros Hf He Ha Hb b. destruct (decide (b = a)) as [->|]; [|by apply Hb].
  rewrite Ha, He. unfold fde_eof, get_fde. by rewrite Hf.
Qed.

Lemma lor_mask s m : Z.land (Z.lor (Z.land s FDE_EVENTMASK) (Z.land m FDE_EVENTMASK)) FDE_EVENTMASK
  = Z.lor (Z.land s FDE_EVENTMASK) (Z.land m FDE_EVENTMASK).
Proof. by rewrite <-Z.land_lor_distr_l, <-Z.land_assoc, Z.land_diag. Qed.

Lemma ldiff_mask s m : Z.land (Z.land (Z.land s FDE_EVENTMASK) (Z.lnot m)) FDE_EVENTMASK
  = Z.land (Z.land s FDE_EVENTMASK) (Z.lnot m).
Proof.
  rewrite <-!Z.land_assoc, (Z.land_comm (Z.lnot m)), !Z.land_assoc. f_equal.
  by rewrite <-Z.land_assoc, Z.land_diag.
Qed.

(** What [fdevent_set] does to the interests. *)
Lemma set_interest_ok st a i e : wf st -> fde_interest st a = Some i ->
  exists st', fdevent_set st a e = Ok st' /\ wf st'
    /\ fde_interest st' a = Some (Z.land e FDE_EVENTMASK)
    /\ (forall b, b <> a -> fde_interest st' b = fde_interest st b)
    /\ (forall b, fde_eof st' b = fde_eof st b)
    /\ (forall fd, fde_free_fd st fd -> fde_free_fd st' fd).
Proof.
  intros W Hi. apply fde_interest_some in Hi as (f & Hf & Af & <-).
  destruct (set_ok' st a f e W Hf) as (st' & f' & E & W' & Hf' & Ht & _ & Hint & Af' & _ & Heof & _).
  destruct (interest_insert st st' a f' Hf') as (H1 & H2 & H3 & H4).
  exists st'. split; [done|]. split; [done|]. rewrite H1, Af', Af, Hint. split; [done|]. split; [done|].
  split; [by eapply eof_all|]. unfold fde_free_fd. by rewrite Ht.
Qed.

#[export] Instance fdevents_laws : FdEventsLaws (fdstate F) F fdevents.
Proof.
  split; cbn [ev_install ev_remove ev_add ev_del ev_eof ev_interest ev_free_fd ev_ok fdevents].
  - intros st a fd func arg W Hi Hfd Hfree.
    destruct (install_ok st a fd func arg W) as (st' & E & W' & Hf & _ & _ & Ht);
      [by apply fde_vacant|done|apply Hfree|].
    destruct (interest_insert st st' a _ Hf) as (H1 & H2 & H3 & H4).
    exists st'. split_and!; try done. intros fd' Hne [H0 Hfr]. split; [done|]. intros b Hb.
    apply Ht in Hb; [by apply (Hfr b)|lia].
  - intros st a i W Hi. apply fde_interest_some in Hi as (f & Hf & Af & <-).
    destruct (remove_ok st a f W Hf) as (st' & E & W' & Hf' & _ & _ & Ht).
    destruct (interest_insert st st' a _ Hf') as (H1 & H2 & H3 & H4).
    exists st'. split_and!; try done.
    + by eapply (eof_all st st' a f).
    + intros fd [H0 Hfd]. split; [done|]. intros b Hb. apply Ht in Hb as [Hb _]. by apply (Hfd b).
  - intros st a i m W Hi. pose proof Hi as (f & Hf & Af & Hif)%fde_interest_some.
    unfold fdevent_add, get_fde. rewrite Hf. cbn [access res_bind]. rewrite <-Hif in *.
    destruct (set_interest_ok st a _ (Z.lor (Z.land (fe_state f) FDE_EVENTMASK) (Z.land m FDE_EVENTMASK)) W Hi)
      as (st' & E & W' & H1 & H). exists st'. rewrite lor_mask in H1. done.
  - intros st a i m W Hi. pose proof Hi as (f & Hf & Af & Hif)%fde_interest_some.
    unfold fdevent_del, get_fde. rewrite Hf. cbn [access res_bind]. rewrite <-Hif in *.
    destruct (set_interest_ok st a _ (Z.land (Z.land (fe_state f) FDE_EVENTMASK)
      (Z.lnot (Z.land m FDE_EVENTMASK))) W Hi) as (st' & E & W' & H1 & H).
    exists st'. rewrite ldiff_mask in H1. done.
  - intros st a i W Hi. apply fde_interest_some in Hi as (f & Hf & _).
    unfold fde_eof, get_fde. rewrite Hf. by eexists.
Qed.
End Laws.

(** ** Properties *)

Section Properties.
Context {F : Type}.
Implicit Types (st : fdstate F).

(** The answers of [select] that the kernel gives: among what it was asked. *)
Definition asked st (r w e : gset Z) : Prop :=
  r ⊆ fs_read st /\ w ⊆ fs_write st /\ e ⊆ fs_error st.

Lemma asked_registered st r w e : wf st -> asked st r w e ->
  registered st r /\ registered st w /\ registered st e.
Proof.
  intros W (Hr & Hw & He).
  split_and!; intros i Hi.
  - apply (set_ok_registered st FDE_READ (fs_read st) W); [apply W|set_solver].
  - apply (set_ok_registered st FDE_WRITE (fs_write st) W); [apply W|set_solver].
  - apply (set_ok_registered st FDE_ERROR (fs_error st) W); [apply W|set_solver].
Qed.

Lemma registered_empty st : registered st ∅.
Proof. intros i Hi. set_solver. Qed.

(** After [select], with [n] events or with bad descriptors to look for. *)
Lemma after_select_ok st bad r w e n : wf st -> asked st r w e ->
  n = Z.of_nat (size r + size w + size e) \/ (n <= 0 /\ r = ∅ /\ w = ∅ /\ e = ∅) ->
  exists st', after_select st bad r w e n = Ok st' /\ wf st'.
Proof.
  intros W Ha Hn. destruct (asked_registered _ _ _ _ W Ha) as (Hr & Hw & He).
  pose proof (wf_n _ W) as Hs. unfold after_select. case_bool_decide as H0.
  - assert (r = ∅ /\ w = ∅ /\ e = ∅) as (-> & -> & ->).
    { destruct Hn as [Hn|[_ Hn]]; [|done].
      assert (size r = 0 /\ size w = 0 /\ size e = 0)%nat as (?%size_empty_inv & ?%size_empty_inv & ?%size_empty_inv) by lia.
      split_and!; by apply leibniz_equiv. }
    destruct (fd_check_ok st bad (Z.to_nat (fs_select_n st)) 0 ∅ 0 W) as (r' & n' & -> & Hr' & ->);
      [lia|lia|apply registered_empty|set_solver|done|].
    cbn [res_bind]. destruct (process_ready st r' ∅ ∅ W Hr' Hw He) as (st' & E & W' & _).
    rewrite !size_empty, !Z.add_0_r in E. eauto.
  - cbn [res_bind]. destruct Hn as [->|[? _]]; [|done].
    destruct (process_ready st r w e W Hr Hw He) as (st' & E & W' & _).
    rewrite !Nat2Z.inj_add. eauto.
Qed.

Lemma process_ok st ans bad : wf st ->
  match ans with SelReady r w e => asked st r w e | _ => True end ->
  exists st', fdevent_process st ans bad = Ok st' /\ wf st'.
Proof.
  intros W Ha. unfold fdevent_process. pose proof (wf_sets _ W). rewrite bool_decide_false by lia.
  destruct ans; eauto.
  - apply after_select_ok; [done| |right; split; [lia|done]].
    split_and!; apply empty_subseteq.
  - apply after_select_ok; auto.
Qed.

(** whatever the answer of [select] about the descriptors it was asked, and
    whichever descriptors turn out to be bad, the pass over the answer finds a
    registered event for each one, so that the loop never dies of a missing
    event; when some are ready, the events not yet pending are appended to the
    pending list in the order of their descriptors, and each of them has the
    ready events added to what it will report. *)
Theorem process_reports st r w e bad : wf st -> asked st r w e ->
  (forall ans, match ans with SelReady r w e => asked st r w e | _ => True end ->
     exists st', fdevent_process st ans bad = Ok st' /\ wf st') /\
  ((0 < size r + size w + size e)%nat -> exists st', fdevent_process st (SelReady r w e) bad = Ok st'
     /\ fs_pending st' = fs_pending st ++ marks st r w e (Z.to_nat (fs_select_n st)) 0
     /\ forall a f, fs_fdes st !! a = Some f -> active f = true ->
          ready_events (fe_fd f) r w e <> 0 ->
          exists f', fs_fdes st' !! a = Some f' /\ a ∈ fs_pending st'
            /\ fe_events f' = u16 (Z.lor (fe_events f) (ready_events (fe_fd f) r w e))).
Proof.
  intros W Ha. split; [intros ans; by apply process_ok|]. intros Hpos.
  destruct (asked_registered _ _ _ _ W Ha) as (Hr & Hw & He).
  destruct (process_ready st r w e W Hr Hw He) as (st' & E & W' & Hp & Hrep).
  exists st'. unfold fdevent_process, after_select. pose proof (wf_sets _ W).
  rewrite !bool_decide_false by lia. cbn [res_bind].
  rewrite !Nat2Z.inj_add. split; [done|]. split; [done|]. intros a f Hf Af Hx.
  destruct (Hrep a f Hf Af I Hx) as (f' & Hf' & Pf' & Ev'). exists f'.
  split; [done|]. split; [|done]. apply (wf_listed _ W'). eauto.
Qed.

Lemma start_wf : wf (@fd_start F).
Proof.
  assert (forall a (f : fdevent F), fs_fdes fd_start !! a = Some f -> False) as Hno
    by (intros a f Hf; cbn in Hf; by rewrite lookup_empty in Hf).
  assert (forall m, set_ok (fs_fdes (@fd_start F)) m ∅) as Hset
    by (intros m i; split; [set_solver|intros (a & f & Hf & _); by apply Hno in Hf]).
  split; try apply Hset.
  - apply not_elem_of_nil.
  - done.
  - intros a f Hf. by apply Hno in Hf.
  - done.
  - done.
  - done.
  - by left.
  - constructor.
  - intros a. split; [intros Hin; by apply elem_of_nil in Hin|intros (f & Hf & _); by apply Hno in Hf].
  - intros a f Hf. by apply Hno in Hf.
Qed.

Lemma get_fde_some st a f : get_fde st a = Ok f -> fs_fdes st !! a = Some f.
Proof. apply access_ok. Qed.

Lemma step_wf st st' : wf st -> fd_step st st' -> wf st'.
Proof.
  intros W Hs. destruct Hs as [a fd func arg st' Hi Hfd Hfree E|a st' E|a e st' E|a e st' E|a e st' E
    |a f v Hf|ans bad st' Ha E|a st1 st' Hd E].
  - destruct (install_ok st a fd func arg W) as (st2 & E2 & W2 & _);
      [by apply fde_vacant|done|apply Hfree|]. congruence.
  - pose proof E as E0. unfold fdevent_remove in E0. inv_ok.
    destruct (remove_ok st a _ W (get_fde_some _ _ _ H)) as (st2 & E2 & W2 & _). congruence.
  - pose proof E as E0. unfold fdevent_set in E0. inv_ok.
    destruct (set_ok' st a _ e W (get_fde_some _ _ _ H)) as (st2 & f2 & E2 & W2 & _). congruence.
  - unfold fdevent_add in E. inv_ok. 
    destruct (set_ok' st a _ (Z.lor (Z.land (fe_state x) FDE_EVENTMASK) (Z.land e FDE_EVENTMASK)) W
      (get_fde_some _ _ _ H)) as (st2 & f2 & E2 & W2 & _). congruence.
  - unfold fdevent_del in E. inv_ok.
    destruct (set_ok' st a _ (Z.land (Z.land (fe_state x) FDE_EVENTMASK) (Z.lnot (Z.land e FDE_EVENTMASK))) W
      (get_fde_some _ _ _ H)) as (st2 & f2 & E2 & W2 & _). congruence.
  - pose proof (wf_flags st a f (with_force_eof v f) (fs_pending st) W Hf) as W'.
    apply W'; try done; [apply W| |apply (wf_pending _ W _ _ Hf)].
    rewrite (wf_listed _ W). split; [|eauto]. intros (g & Hg & Pg). rewrite Hf in Hg. by injection Hg as <-.
  - destruct (process_ok st ans bad W Ha) as (st2 & E2 & W2). congruence.
  - unfold plist_dequeue in Hd. destruct (fs_pending st) as [|b l] eqn:Hp; [done|].
    injection Hd as <- <-. unfold fdevent_call_fdfunc in E. inv_ok.
    apply get_fde_some in H. cbn in H.
    assert (has (fe_state (with_events 0 x)) FDE_PENDING = true) as HP.
    { assert (b ∈ fs_pending st) as Hin by (rewrite Hp; set_solver).
      apply (wf_listed _ W) in Hin as (g & Hg & Pg). assert (g = x) as -> by congruence. done. }
    rewrite HP in E. injection E as <-. by apply (wf_dequeued st b l x).
Qed.

(** C23: in every state that the operations reach, the table and the active
    events point to each other, [select] is asked exactly about their
    interests, and the pending list holds, once, the events with something to
    report; and no operation on an event in memory fails or is undefined.  This
    is with pointers of four bytes, as in the builds for the phone (with eight,
    half of a grown table is not cleared: [table_half_cleared]), and for
    descriptors below [FD_SETSIZE] (the code accepts more, and writes behind its
    sets for them: [set_beyond_fd_set]). *)
Theorem reachable_wf st : fd_reach st ->
  wf st /\ forall a f, fs_fdes st !! a = Some f ->
    (exists st', fdevent_remove st a = Ok st') /\ (forall e, exists st', fdevent_set st a e = Ok st').
Proof.
  intros Hr. assert (wf st) as W by (induction Hr; eauto using start_wf, step_wf).
  split; [done|]. intros a f Hf. split.
  - destruct (remove_ok st a f W Hf) as (st' & E & _). eauto.
  - intros e. destruct (set_ok' st a f e W Hf) as (st' & f' & E & _). eauto.
Qed.

(** setting the interest of a pending event takes out of its report the
    events that are wanted from now on, and leaves in it those that are not. *)
Theorem set_drops_wanted st a f e k : wf st -> fs_fdes st !! a = Some f -> is_pending f = true ->
  interest f <> Z.land e FDE_EVENTMASK -> 0 <= k < 8 ->
  exists st' f', fdevent_set st a e = Ok st' /\ fs_fdes st' !! a = Some f' /\
    interest f' = Z.land e FDE_EVENTMASK /\
    Z.testbit (fe_events f') k = Z.testbit (fe_events f) k && negb (Z.testbit e k) /\
    (a ∈ fs_pending st' <-> fe_events f' <> 0).
Proof.
  intros W Hf Pf Hi Hk.
  destruct (set_ok' st a f e W Hf) as (st' & f' & E & W' & Hf' & _ & _ & Hint & _ & _ & _ & _ & _ & Hc).
  assert (fs_fdes st' !! a = Some f') as Hl by (by rewrite Hf', lookup_insert_eq).
  exists st', f'. split; [done|]. split; [done|]. split; [done|].
  destruct Hc as [[? _]|(_ & Hev & Hp & _)]; [done|]. rewrite Pf in Hev, Hp. split.
  - rewrite Hev, u16_bit, Z.land_spec, Z.lnot_spec, Z.land_spec, bool_decide_true by lia.
    change FDE_EVENTMASK with (Z.ones 8). by rewrite Z.ones_spec_low, andb_true_r by lia.
  - rewrite (wf_listed _ W'). split.
    + intros (g & Hg & Pg) H0. assert (g = f') as -> by congruence.
      rewrite Hp, bool_decide_true in Pg by done. done.
    + intros H0. exists f'. split; [done|]. by rewrite Hp, bool_decide_false.
Qed.

Section Loop.
Context {St : Type} (fds : St -> fdstate F) (set_fds : fdstate F -> St -> St).
Context (fds_set : forall st s, fds (set_fds st s) = st).
Context (invoke : F -> Z -> Z -> addr -> St -> res St) (inv : St -> Prop).
(** Every callback returns in a good state, and does not make events pending. *)
Hypothesis invoke_ok : forall func fd ev arg s, wf (fds s) -> inv s -> ev <> 0 ->
  exists s', invoke func fd ev arg s = Ok s' /\ wf (fds s') /\ inv s'
    /\ (length (fs_pending (fds s')) <= length (fs_pending (fds s)))%nat.
Hypothesis inv_set : forall st s, inv s -> inv (set_fds st s).

(** a turn of the event loop returns: [select] is answered, and each
    pending event is taken off the list and called back at most once, with the
    events accumulated for it, never with none. *)
Theorem turn_returns s ans bad : wf (fds s) -> inv s ->
  match ans with SelReady r w e => asked (fds s) r w e | _ => True end ->
  exists s', fdevent_turn fds set_fds invoke ans bad s = Ok s' /\ wf (fds s') /\ inv s'
    /\ fs_pending (fds s') = [].
Proof.
  intros W Hs Ha. unfold fdevent_turn. destruct (process_ok (fds s) ans bad W Ha) as (st & -> & W1).
  cbn [res_bind]. assert (wf (fds (set_fds st s))) as W2 by (by rewrite fds_set).
  assert (length (fs_pending (fds (set_fds st s))) <= length (fs_pending st))%nat as Hl by (by rewrite fds_set).
  apply (inv_set st) in Hs. revert W2 Hl Hs. generalize (set_fds st s).
  generalize (length (fs_pending st)). clear -invoke_ok fds_set inv_set.
  intros n. induction n as [|n IH]; intros s W Hl Hs; cbn [drain]; unfold plist_dequeue.
  - destruct (fs_pending (fds s)) eqn:E; [|simpl in Hl; lia]. eauto.
  - destruct (fs_pending (fds s)) as [|a l] eqn:E; [eauto|].
    assert (a ∈ fs_pending (fds s)) as Hin by (rewrite E; set_solver).
    apply (wf_listed _ W) in Hin as (f & Hf & Pf). destruct (wf_pending _ W _ _ Hf Pf) as [_ Hev].
    unfold fdevent_call_fdfunc, get_fde. rewrite fds_set. cbn [fs_fdes with_pending]. rewrite Hf.
    cbn [access res_bind]. change (has (fe_state (with_events 0 f)) FDE_PENDING) with (is_pending f). rewrite Pf.
    set (s1 := set_fds _ (set_fds _ s)).
    assert (wf (fds s1)) as W1 by (unfold s1; rewrite fds_set; exact (wf_dequeued (fds s) a l f W E Hf)).
    destruct (invoke_ok (fe_func f) (fe_fd f) (fe_events f) (fe_arg f) s1) as (s' & Es & W' & Hs' & Hl');
      [done|by apply inv_set, inv_set|done|].
    change (invoke _ _ _ _ _) with (invoke (fe_func f) (fe_fd f) (fe_events f) (fe_arg f) s1).
    rewrite Es. cbn [res_bind].
    apply IH; [done| |done]. unfold s1 in Hl'. rewrite fds_set in Hl'. simpl in Hl, Hl'. lia.
Qed.
End Loop.

(** [fdevent_register] accepts descriptors up to 32000, but one that has no
    room in an [fd_set] cannot be asked about: its bit is outside of the sets. *)
Theorem set_beyond_fd_set st a f events : fs_fdes st !! a = Some f -> active f = true ->
  FD_SETSIZE <= fe_fd f -> interest f <> Z.land events FDE_EVENTMASK ->
  fdevent_set st a events = Ub.
Proof.
  intros Ha Af Hfd Hne. unfold fdevent_set, assign_interest, fdevent_update, get_fde.
  rewrite Ha. cbn [access res_bind]. rewrite bool_decide_false by done.
  change (has (fe_state f) FDE_ACTIVE) with (active f). rewrite Af.
  unfold fd_set_to at 1. rewrite bool_decide_false by lia. done.
Qed.

(** with eight-byte pointers, [fdevent_register] clears half of the table
    it allocates: after the first registration of a descriptor above 127,
    removing the event reads entries that nothing has written. *)
Theorem table_half_cleared (a : addr) (func : F) (arg : addr) fd :
  128 < fd < 256 ->
  exists st, fdevent_install 8 fd_start a fd func arg = Ok st /\ fdevent_remove st a = Ub.
Proof.
  intros Hfd.
  assert (exists st, fdevent_install 8 fd_start a fd func arg = Ok st
    /\ fs_fdes st = {[a := Fdevent fd 0 FDE_ACTIVE 0 func arg]} /\ fs_select_n st = fd + 1
    /\ fs_table st = <[Z.to_nat fd := Ptr a]> (replicate 128 Null ++ replicate 128 Junk)) as (st & E & Hf & Hn & Ht).
  { unfold fdevent_install, fdevent_register, get_fde. cbn [fs_fdes put_fde fd_start].
    rewrite lookup_insert_eq. cbn [access res_bind fe_fd]. rewrite bool_decide_false by lia.
    unfold table_reserve. change (fd_table_max _) with 0. rewrite bool_decide_true by lia.
    rewrite bool_decide_false by lia. rewrite bool_decide_true by done. cbn [grow].
    rewrite bool_decide_false by lia. cbn [fs_table fdevent_init with_sets put_fde fd_start res_bind app].
    cbn [fs_fdes fdevent_init with_table with_sets put_fde fd_start]. rewrite lookup_insert_eq. cbn [access res_bind].
    eexists. split; [reflexivity|]. unfold fdevent_connect. cbn [fe_fd fs_select_n with_table with_sets fdevent_init put_fde fd_start].
    rewrite bool_decide_true by lia. split_and!; [|done|done].
    cbn. by rewrite insert_insert_eq. }
  exists st. split; [done|]. unfold fdevent_remove, get_fde. rewrite Hf, lookup_singleton_eq.
  cbn [access res_bind fe_state]. change (has FDE_ACTIVE FDE_PENDING) with false.
  change (has FDE_ACTIVE FDE_ACTIVE) with true. cbn [res_bind].
  unfold fdevent_disconnect. cbn [fe_fd]. rewrite !fd_set_to_ok by (unfold FD_SETSIZE; lia).
  cbn [res_bind fs_select_n with_sets]. rewrite Hn.
  set (st1 := with_sets _ _ _ st).
  assert (forall k i n, 0 <= i -> i + Z.of_nat k = 128 -> (* the entries that were cleared *)
    exists n', highest_fd st1 (k + Z.to_nat (fd + 1 - 128)) i n = highest_fd st1 (Z.to_nat (fd + 1 - 128)) 128 n') as Hk.
  { induction k as [|k IH]; intros i n Hi Hs.
    - exists n. f_equal. lia.
    - cbn [Nat.add highest_fd]. unfold table_get at 1. rewrite bool_decide_true by done.
      change (fs_table st1) with (fs_table st). rewrite Ht, list_lookup_insert_ne by lia.
      rewrite lookup_app_l by (rewrite length_replicate; lia).
      rewrite lookup_replicate_2 by lia. cbn [res_bind]. apply IH; lia. }
  destruct (Hk 128%nat 0 0 ltac:(lia) ltac:(lia)) as [n' En].
  replace (Z.to_nat (fd + 1)) with (128 + Z.to_nat (fd + 1 - 128))%nat by lia. rewrite En.
  replace (Z.to_nat (fd + 1 - 128)) with (S (Z.to_nat (fd - 128))) by lia. cbn [highest_fd].
  unfold table_get. rewrite bool_decide_true by done. change (fs_table st1) with (fs_table st).
  rewrite Ht, list_lookup_insert_ne by lia. reflexivity.
Qed.
End Properties.

(** ** A concrete state *)

Definition ok_or {A} (d : A) (r : res A) : A := match r with Ok a => a | _ => d end.

(** Two descriptors, 5 and 7, the second one of interest for reading and writing. *)
Definition demo1 : fdstate nat := ok_or fd_start (fdevent_install 4 fd_start 10%nat 5 1%nat 0%nat).
Definition demo2 : fdstate nat := ok_or fd_start (fdevent_install 4 demo1 11%nat 7 2%nat 0%nat).
Definition demo3 : fdstate nat := ok_or fd_start (fdevent_add demo2 10%nat FDE_READ).
Definition demo4 : fdstate nat := ok_or fd_start (fdevent_add demo3 11%nat (FDE_READ + FDE_WRITE)).
Definition demo5 : fdstate nat :=
  ok_or fd_start (fdevent_process demo4 (SelReady {[5; 7]} {[7]} ∅) ∅).

Lemma demo_reach : fd_reach demo5.
Proof.
  apply (reach_step demo4); [apply (reach_step demo3); [apply (reach_step demo2); [apply (reach_step demo1);
    [apply (reach_step fd_start); [constructor|]|]|]|]|].
  - apply (step_install _ 10%nat 5 1%nat 0%nat); [reflexivity|by split|split; [lia|done]|vm_compute; reflexivity].
  - apply (step_install _ 11%nat 7 2%nat 0%nat); [vm_compute; reflexivity|by split| |vm_compute; reflexivity].
    split; [lia|]. intros b. vm_compute. discriminate.
  - apply (step_add _ 10%nat FDE_READ). vm_compute. reflexivity.
  - apply (step_add _ 11%nat (FDE_READ + FDE_WRITE)). vm_compute. reflexivity.
  - apply (step_process _ (SelReady {[5; 7]} {[7]} ∅) ∅); [|vm_compute; reflexivity].
    split_and!; apply (bool_decide_unpack _); vm_compute; exact I.
Defined.

Lemma demo4_wf : wf demo4.
Proof.
  apply (step_wf demo3); [|apply (step_add _ 11%nat (FDE_READ + FDE_WRITE)); vm_compute; reflexivity].
  apply (step_wf demo2); [|apply (step_add _ 10%nat FDE_READ); vm_compute; reflexivity].
  apply (step_wf demo1); [apply (step_wf fd_start); [apply start_wf|]|].
  - apply (step_install _ 10%nat 5 1%nat 0%nat); [reflexivity|by split|split; [lia|done]|vm_compute; reflexivity].
  - apply (step_install _ 11%nat 7 2%nat 0%nat); [vm_compute; reflexivity|by split| |vm_compute; reflexivity].
    split; [lia|]. intros b. vm_compute. discriminate.
Qed.

Lemma demo4_asked : asked demo4 {[5; 7]} {[7]} ∅.
Proof. split_and!; apply (bool_decide_unpack _); vm_compute; exact I. Qed.

Lemma demo5_wf : wf demo5.
Proof.
  apply (step_wf demo4); [apply demo4_wf|].
  apply (step_process _ (SelReady {[5; 7]} {[7]} ∅) ∅); [apply demo4_asked|vm_compute; reflexivity].
Qed.

Lemma process_reports_witness :
  exists st, fdevent_process demo4 (SelReady {[5; 7]} {[7]} ∅) ∅ = Ok st
    /\ fs_pending st = [10; 11]%nat.
Proof.
  destruct (process_reports demo4 {[5; 7]} {[7]} ∅ ∅ demo4_wf demo4_asked) as [_ H].
  destruct H as (st & E & Hp & _); [vm_compute; lia|]. exists st. split; [exact E|].
  rewrite Hp. vm_compute. reflexivity.
Defined.

Lemma reachable_wf_witness : wf demo5.
Proof. exact (proj1 (reachable_wf demo5 demo_reach)). Defined.

Definition demo_event : fdevent nat :=
  Fdevent 7 0 (FDE_ACTIVE + FDE_PENDING + FDE_READ + FDE_WRITE) (FDE_READ + FDE_WRITE) 2%nat 0%nat.

(** Told that only writing matters now, the event still reports the read. *)
Lemma set_drops_wanted_witness :
  exists st f, fdevent_set demo5 11%nat FDE_WRITE = Ok st /\ fs_fdes st !! 11%nat = Some f
    /\ interest f = FDE_WRITE /\ Z.testbit (fe_events f) 0 = true.
Proof.
  destruct (set_drops_wanted demo5 11%nat demo_event FDE_WRITE 0 demo5_wf) as (st & f & E & Hf & Hi & Hb & _);
    [vm_compute; reflexivity|vm_compute; reflexivity|vm_compute; discriminate|lia|].
  exists st, f. exact (conj E (conj Hf (conj Hi Hb))).
Defined.

(** A program of events only, whose callbacks do nothing. *)
Lemma turn_returns_witness :
  exists st, fdevent_turn id (fun st _ => st) (fun _ _ _ _ st => Ok st) (SelReady {[5; 7]} {[7]} ∅) ∅ demo4
    = Ok st /\ fs_pending st = [].
Proof.
  destruct (turn_returns id (fun st _ => st) (fun st s => eq_refl) (fun _ _ _ _ st => Ok st) (fun _ => True)
    ltac:(eauto) ltac:(auto) demo4 (SelReady {[5; 7]} {[7]} ∅) ∅ demo4_wf I demo4_asked)
    as (st & E & _ & _ & Hp).
  exists st. exact (conj E Hp).
Defined.

Lemma table_half_cleared_witness :
  exists st, fdevent_install 8 fd_start 10%nat 200 1%nat 0%nat = Ok st /\ fdevent_remove st 10%nat = Ub.
Proof. apply (table_half_cleared 10%nat 1%nat 0%nat 200). lia. Defined.

(** Descriptor 1024 is accepted, and the first interest in it is undefined. *)
Lemma set_beyond_fd_set_witness :
  exists st, fdevent_install 4 fd_start 10%nat 1024 1%nat 0%nat = Ok st /\ fdevent_add st 10%nat FDE_READ = Ub.
Proof.
  assert (exists st, fdevent_install 4 fd_start 10%nat 1024 1%nat 0%nat = Ok st
    /\ fs_fdes st !! 10%nat = Some (Fdevent 1024 0 FDE_ACTIVE 0 1%nat 0%nat)) as (st & E & Hf).
  { eexists. split; [vm_compute; reflexivity|vm_compute; reflexivity]. }
  exists st. split; [done|]. unfold fdevent_add, get_fde. rewrite Hf. cbn [access res_bind].
  apply (set_beyond_fd_set st 10%nat _ _ Hf); [reflexivity|done|vm_compute; discriminate].
Defined.
