(* ===== verification/Jdwp.v ===== *)
(** * Java processes that can be debugged (jdwp_service.c)

    The processes that announced themselves to the daemon, each with a socket, a
    pid and the descriptors that wait to be sent to it, and the clients that
    follow the list of pids.  The events are those of Fdevent.v, whose list of
    closed descriptors is the one of this file too: it says what becomes of
    every descriptor that the daemon was given. *)

From S2P Require Import Prelude Cstr Numbers Rwx Packet Fdevent.

Definition MAX_OUT_FDS : nat := 4.

(** [in_buff] is the part that was read, [in_len] its length; [out_fds] is the
    part below [out_count]. *)
Record jproc := JProc {
  jp_pid : Z;
  jp_socket : Z;
  jp_fde : addr;
  jp_in : bytes;
  jp_out : list Z
}.
Definition with_pid (v : Z) (p : jproc) : jproc := JProc v (jp_socket p) (jp_fde p) (jp_in p) (jp_out p).
Definition with_in (v : bytes) (p : jproc) : jproc := JProc (jp_pid p) (jp_socket p) (jp_fde p) v (jp_out p).
Definition with_out (v : list Z) (p : jproc) : jproc := JProc (jp_pid p) (jp_socket p) (jp_fde p) (jp_in p) v.

(** [asocket]s are outside: a tracker has a peer, until that is closed. *)
Record tracker := Tracker { tk_peer : option addr; tk_need_update : bool }.

(** What happens at the border: a process was accepted, a descriptor was made
    for it, one was sent to it; a socket was shut down, a packet was given to
    the peer of a client, a peer was closed. *)
Inductive jeffect :=
  | Accepted (p : addr) (s : Z)
  | Paired (p : addr) (fd : Z)
  | Sent (p : addr) (fd : Z)
  | Shutdown (s : Z)
  | Enqueue (peer : addr) (data : bytes)
  | ClosePeer (peer : addr).

(** [recv] *)
Definition recv (f : fdio) (len : nat) : res (got * fdio) :=
  match io_evs f with
  | [] => Blocked
  | Fail e :: evs => Ok (RErr e, Fdio (io_in f) (io_out f) evs (io_calls f))
  | Xfer n :: evs =>
      let k := xfer_len n len in
      Ok (RGot (take k (io_in f)), Fdio (drop k (io_in f)) (io_out f) evs (io_calls f))
  end.

(** How the calls that send a descriptor go: [fcntl(F_GETFL)], the [F_SETFL] that
    clears [O_NONBLOCK], the calls of [sendmsg], and the [F_SETFL] after them. *)
Record send_calls := SendCalls {
  sc_getfl : bool;
  sc_clear : bool;
  sc_sendmsg : list (option errno);
  sc_restore : bool
}.

Fixpoint sendmsg_loop (calls : list (option errno)) : res bool :=
  match calls with
  | [] => Blocked
  | None :: _ => Ok true
  | Some EINTR :: calls => sendmsg_loop calls
  | Some _ :: _ => Ok false
  end.

(** The reading of a pid: it is there, it is to be waited for, or the socket is
    to be closed. *)
Inductive progress := PidThere | PidLater | PidLost.

Fixpoint recv_pid (fuel : nat) (f : fdio) (buff : bytes) : res (progress * bytes * fdio) :=
  match fuel with
  | O => Blocked
  | S fuel =>
      let size := (4 - length buff)%nat in
      if bool_decide (0 < size)%nat then
        let* ' (r, f) := recv f size in
        match r with
        | RErr EINTR => recv_pid fuel f buff
        | RErr EAGAIN => Ok (PidLater, buff, f)
        | RErr _ | RGot [] => Ok (PidLost, buff, f)
        | RGot bs => recv_pid fuel f (buff ++ bs)
        end
      else Ok (PidThere, buff, f)
  end.

(** What an announced process writes is ignored; the result is whether the
    connection stays. *)
Fixpoint recv_ignored (fuel : nat) (f : fdio) : res (bool * fdio) :=
  match fuel with
  | O => Blocked
  | S fuel =>
      let* ' (r, f) := recv f 32 in
      match r with
      | RGot [] => Ok (false, f)
      | RGot _ | RErr EINTR => recv_ignored fuel f
      | RErr EAGAIN => Ok (true, f)
      | RErr _ => Ok (false, f)
      end
  end.

(** [for (n = 1; n < out_count; n++) out_fds[n-1] = out_fds[n]]: the last one
    stays where it was. *)
Definition shift_out (out : list Z) : list Z := tl out ++ drop (length out - 1) out.

Section Jdwp.
Context {F : Type} (process_event control_event : F).

Record jdwp := Jdwp {
  j_procs : gmap addr jproc;
  j_list : list addr;                        (* _jdwp_list *)
  j_trackers : list (addr * tracker);        (* _jdwp_trackers_list *)
  j_ev : fdstate F;
  j_log : list jeffect
}.
Implicit Types (st : jdwp) (a t : addr).

Definition get_proc st a : res jproc := access (j_procs st !! a).
Definition put_proc a (p : jproc) st : jdwp := Jdwp (<[a := p]> (j_procs st)) (j_list st) (j_trackers st) (j_ev st) (j_log st).
Definition with_ev (e : fdstate F) st : jdwp := Jdwp (j_procs st) (j_list st) (j_trackers st) e (j_log st).
Definition with_trackers (l : list (addr * tracker)) st : jdwp := Jdwp (j_procs st) (j_list st) l (j_ev st) (j_log st).
Definition log (e : list jeffect) st : jdwp := Jdwp (j_procs st) (j_list st) (j_trackers st) (j_ev st) (j_log st ++ e).
Definition close_fd (fd : Z) st : jdwp := with_ev (adb_close fd (j_ev st)) st.

(** ** The list of pids *)

(** [room] is [end - p]. *)
Fixpoint list_from st (ring : list addr) (room : nat) : res bytes :=
  match ring with
  | [] => Ok []
  | a :: ring =>
      let* p := get_proc st a in
      if bool_decide (jp_pid p < 0) then list_from st ring room
      else
        let line := print_dec (jp_pid p) ++ [Byte.x0a] in
        if bool_decide (room <= length line)%nat then Ok []
        else let* rest := list_from st ring (room - length line) in Ok (line ++ rest)
  end.
Definition jdwp_process_list st (bufferlen : nat) : res bytes := list_from st (j_list st) bufferlen.
Definition jdwp_process_list_msg st (bufferlen : nat) : res bytes :=
  let* body := jdwp_process_list st (bufferlen - 4) in Ok (hex4 (Z.of_nat (length body)) ++ body).

(** Every tracker gets the list, whether its peer is ready or not. *)
Fixpoint send_all (ts : list (addr * tracker)) (msg : bytes) st : res jdwp :=
  match ts with
  | [] => Ok st
  | (_, t) :: ts =>
      let* peer := access (tk_peer t) in
      send_all ts msg (log [Enqueue peer msg] st)
  end.
Definition jdwp_process_list_updated st : res jdwp :=
  let* msg := jdwp_process_list_msg st 1024 in send_all (j_trackers st) msg st.

(** ** Processes *)

Fixpoint close_all (fds : list Z) st : jdwp :=
  match fds with [] => st | fd :: fds => close_all fds (close_fd fd st) end.

Definition jdwp_process_free a st : res jdwp :=
  let* p := get_proc st a in
  let st := Jdwp (j_procs st) (filter (fun b => b <> a) (j_list st)) (j_trackers st) (j_ev st) (j_log st) in
  let st := if bool_decide (jp_socket p >= 0) then close_fd (jp_socket p) (log [Shutdown (jp_socket p)] st) else st in
  let* e := fdevent_destroy (j_ev st) (Some (jp_fde p)) in
  let st := close_all (jp_out p) (with_ev e st) in
  let st := Jdwp (delete a (j_procs st)) (j_list st) (j_trackers st) (j_ev st) (j_log st) in
  jdwp_process_list_updated st.

(** [a] and [b] are the addresses of the process and of its event. *)
Definition jdwp_process_alloc (socket : Z) a (b : addr) st : res jdwp :=
  let* e := fdevent_create 4 (j_ev st) b socket process_event a in
  let* f := get_fde e b in
  let e := put_fde b (with_state (u16 (Z.lor (fe_state f) FDE_DONT_CLOSE)) f) e in
  let st := Jdwp (<[a := JProc (-1) socket b [] []]> (j_procs st)) (j_list st ++ [a]) (j_trackers st) e (j_log st ++ [Accepted a socket]) in
  let* e := fdevent_add (j_ev st) b FDE_READ in
  Ok (with_ev e st).

(** The half of [jdwp_process_event] that reads; the result is whether the event
    goes on to the other half. *)
Definition read_event a (f : fdio) st : res (bool * fdio * jdwp) :=
  let* p := get_proc st a in
  if bool_decide (jp_pid p < 0) then
    let* ' (r, buff, f) := recv_pid (S (length (io_evs f))) f (jp_in p) in
    let st := put_proc a (with_in buff p) st in
    match r with
    | PidLater => Ok (false, f, st)
    | PidLost => let* st := jdwp_process_free a st in Ok (false, f, st)
    | PidThere =>
        match scan_04x buff with
        | None => let* st := jdwp_process_free a st in Ok (false, f, st)
        | Some pid =>
            let st := put_proc a (with_pid (s32 pid) (with_in buff p)) st in
            let* st := jdwp_process_list_updated st in
            Ok (true, f, st)
        end
    end
  else
    let* ' (stays, f) := recv_ignored (S (length (io_evs f))) f in
    if stays : bool then Ok (false, f, st) else let* st := jdwp_process_free a st in Ok (false, f, st).

Definition write_event a (c : send_calls) st : res jdwp :=
  let* p := get_proc st a in
  match jp_out p with
  | [] => Ok st
  | fd :: _ =>
      if negb (sc_getfl c) then jdwp_process_free a st
      else if negb (sc_clear c) then jdwp_process_free a st
      else
        let* sent := sendmsg_loop (sc_sendmsg c) in
        if negb sent then jdwp_process_free a st
        else
          let st := close_fd fd (log [Sent a fd] st) in
          let p := with_out (shift_out (jp_out p)) p in
          let st := put_proc a p st in
          if negb (sc_restore c) then jdwp_process_free a st
          else
            let p := with_out (take (length (jp_out p) - 1) (jp_out p)) p in
            let st := put_proc a p st in
            if bool_decide (jp_out p = []) then
              let* e := fdevent_del (j_ev st) (jp_fde p) FDE_WRITE in Ok (with_ev e st)
            else Ok st
  end.

(** [f] is the socket of the process, [c] how the calls that write to it go. *)
Definition jdwp_process_event a (events : Z) (f : fdio) (c : send_calls) st : res (fdio * jdwp) :=
  let* ' (go, f, st) := if has events FDE_READ then read_event a f st else Ok (true, f, st) in
  if go && has events FDE_WRITE then let* st := write_event a c st in Ok (f, st) else Ok (f, st).

(** The process of a pid. *)
Fixpoint find_pid st (pid : Z) (ring : list addr) : res (option addr) :=
  match ring with
  | [] => Ok None
  | a :: ring => let* p := get_proc st a in if bool_decide (jp_pid p = pid) then Ok (Some a) else find_pid st pid ring
  end.

(** [fds] is what [adb_socketpair] makes. *)
Definition create_jdwp_connection_fd (pid : Z) (fds : option (Z * Z)) st : res (Z * jdwp) :=
  let* found := find_pid st pid (j_list st) in
  match found with
  | None => Ok (-1, st)
  | Some a =>
      let* p := get_proc st a in
      if bool_decide (MAX_OUT_FDS <= length (jp_out p))%nat then Ok (-1, st)
      else
        match fds with
        | None => Ok (-1, st)
        | Some (fd0, fd1) =>
            let p := with_out (jp_out p ++ [fd1]) p in
            let st := log [Paired a fd1] (put_proc a p st) in
            if bool_decide (length (jp_out p) = 1%nat) then
              let* e := fdevent_add (j_ev st) (jp_fde p) FDE_WRITE in Ok (fd0, with_ev e st)
            else Ok (fd0, st)
        end
  end.

(** ** The control socket *)

Inductive accept_answer := AcceptFd (s : Z) | AcceptErr (e : errno).

Fixpoint accept_loop (calls : list accept_answer) : res (option Z) :=
  match calls with
  | [] => Blocked
  | AcceptErr EINTR :: calls => accept_loop calls
  | AcceptErr _ :: _ => Ok None
  | AcceptFd s :: _ => Ok (Some s)
  end.

Definition jdwp_control_event (events : Z) (calls : list accept_answer) a (b : addr) st : res jdwp :=
  if has events FDE_READ then
    let* s := accept_loop calls in
    match s with Some s => jdwp_process_alloc s a b st | None => Ok st end
  else Ok st.

(** [jdwp_control_init]: [sock] is the listening socket, unless a call failed;
    [b] is the address of its event. *)
Definition jdwp_control_init (sock : option Z) (b : addr) st : res (Z * jdwp) :=
  match sock with
  | None => Ok (-1, st)
  | Some s =>
      let* e := fdevent_create 4 (j_ev st) b s control_event 0%nat in
      let* e := fdevent_add e b FDE_READ in
      Ok (0, with_ev e st)
  end.

(** ** Clients *)

(** [create_jdwp_tracker_service_socket], and the peer that it gets. *)
Definition open_tracker t (peer : addr) st : jdwp := with_trackers (j_trackers st ++ [(t, Tracker (Some peer) true)]) st.

Definition find_tracker st t : res tracker := access (snd <$> List.find (fun x => bool_decide (x.1 = t)) (j_trackers st)).
Definition put_tracker t (k : tracker) st : jdwp := with_trackers (map (fun x => if decide (x.1 = t) then (t, k) else x) (j_trackers st)) st.

Definition jdwp_tracker_close t st : res jdwp :=
  let* k := find_tracker st t in
  let st := match tk_peer k with Some peer => log [ClosePeer peer] st | None => st end in
  Ok (with_trackers (filter (fun x => x.1 <> t) (j_trackers st)) st).

Definition jdwp_tracker_ready t st : res jdwp :=
  let* k := find_tracker st t in
  if tk_need_update k then
    let st := put_tracker t (Tracker (tk_peer k) false) st in
    let* msg := jdwp_process_list_msg st 4096 in
    let* peer := access (tk_peer k) in
    Ok (log [Enqueue peer msg] st)
  else Ok st.

(** The close of the peer, a remote socket, leaves the tracker without a peer
    and closes it. *)
Definition peer_closes t st : res jdwp :=
  let* k := find_tracker st t in jdwp_tracker_close t (put_tracker t (Tracker None (tk_need_update k)) st).

Definition jdwp_tracker_enqueue t st : res (Z * jdwp) :=
  let* k := find_tracker st t in
  let* peer := access (tk_peer k) in
  let* st := peer_closes t (log [ClosePeer peer] st) in Ok (-1, st).

(** The service that lists the pids once; [pass] and the peer are the state of
    its socket. *)
Definition jdwp_socket_ready (pass : bool) (peer : addr) st : res (bool * jdwp) :=
  if pass then Ok (pass, log [ClosePeer peer] st)
  else
    let* text := jdwp_process_list st 4096 in
    Ok (true, log [Enqueue peer text] st).

(** A write to it closes the peer, which calls back [jdwp_socket_close]. *)
Definition jdwp_socket_enqueue (peer : addr) st : Z * jdwp := (-1, log [ClosePeer peer] st).
Definition jdwp_socket_close (peer : option addr) st : jdwp :=
  match peer with Some peer => log [ClosePeer peer] st | None => st end.

(** ** Everything that happens to it *)

Inductive op :=
  | Control (events : Z) (calls : list accept_answer) (a b : addr)
  | Event (a : addr) (events : Z) (f : fdio) (c : send_calls)
  | Connect (pid : Z) (fds : option (Z * Z))
  | Track (t peer : addr)
  | Ready (t : addr)
  | Hangup (t : addr)
  | WriteTo (t : addr)
  | ListPids (pass : bool) (peer : addr)
  | ListWrite (peer : addr)
  | ListClose (peer : option addr).

Definition step (o : op) st : res jdwp :=
  match o with
  | Control ev calls a b => jdwp_control_event ev calls a b st
  | Event a ev f c => let* ' (_, st) := jdwp_process_event a ev f c st in Ok st
  | Connect pid fds => let* ' (_, st) := create_jdwp_connection_fd pid fds st in Ok st
  | Track t peer => Ok (open_tracker t peer st)
  | Ready t => jdwp_tracker_ready t st
  | Hangup t => peer_closes t st
  | WriteTo t => let* ' (_, st) := jdwp_tracker_enqueue t st in Ok st
  | ListPids pass peer => let* ' (_, st) := jdwp_socket_ready pass peer st in Ok st
  | ListWrite peer => Ok (jdwp_socket_enqueue peer st).2
  | ListClose peer => Ok (jdwp_socket_close peer st)
  end.
Fixpoint run (os : list op) st : res jdwp :=
  match os with [] => Ok st | o :: os => let* st := step o st in run os st end.

Definition j_start (e : fdstate F) : jdwp := Jdwp ∅ [] [] e [].

(** ** What it keeps *)

(** The descriptors that it was given, and those that it holds. *)
Definition given (l : list jeffect) : list Z :=
  omap (fun e => match e with Accepted _ s => Some s | Paired _ fd => Some fd | _ => None end) l.
Definition own (p : option jproc) : list Z := match p with Some p => jp_socket p :: jp_out p | None => [] end.
Definition held_by (m : gmap addr jproc) (ring : list addr) : list Z := concat (map (fun a => own (m !! a)) ring).
Definition held st : list Z := held_by (j_procs st) (j_list st).

(** The life of the process at [a], the descriptors that were made for it and
    those that were sent to it. *)
Definition since a (l : list jeffect) : list jeffect :=
  foldl (fun acc e => match e with Accepted b _ => if decide (a = b) then [] else acc ++ [e] | _ => acc ++ [e] end) [] l.
Definition paired a (l : list jeffect) : list Z :=
  omap (fun e => match e with Paired b fd => if decide (a = b) then Some fd else None | _ => None end) l.
Definition sent a (l : list jeffect) : list Z :=
  omap (fun e => match e with Sent b fd => if decide (a = b) then Some fd else None | _ => None end) l.
Definition fifo a (l : list jeffect) (q : list Z) : Prop := paired a (since a l) = sent a (since a l) ++ q.

Definition proc_wants (p : jproc) : Z :=
  Z.lor FDE_DONT_CLOSE (Z.lor FDE_READ (if decide (jp_out p = []) then 0 else FDE_WRITE)).

Record event_ok a (p : jproc) (f : fdevent F) : Prop := EventOk {
  eo_active : active f = true;
  eo_created : has (fe_state f) FDE_CREATED = true;
  eo_interest : interest f = proc_wants p;
  eo_fd : fe_fd f = jp_socket p;
  eo_arg : fe_arg f = a
}.

Record proc_ok (e : fdstate F) (l : list jeffect) a (p : jproc) : Prop := ProcOk {
  po_event : exists f, fs_fdes e !! jp_fde p = Some f /\ event_ok a p f;
  po_socket : 0 <= jp_socket p;
  po_pid : jp_pid p < 2 ^ 16;
  po_in : (length (jp_in p) <= 4)%nat;
  po_out : (length (jp_out p) <= MAX_OUT_FDS)%nat;
  po_fifo : fifo a l (jp_out p)
}.

(** [c] are the descriptors that were closed before. *)
Record jdwp_wf (c : list Z) st : Prop := JdwpWf {
  jw_nodup : NoDup (j_list st);
  jw_mem a : a ∈ j_list st <-> is_Some (j_procs st !! a);
  jw_ev : wf (j_ev st);
  jw_proc a p : j_procs st !! a = Some p -> proc_ok (j_ev st) (j_log st) a p;
  jw_trackers : NoDup (map fst (j_trackers st));
  jw_peers x : x ∈ j_trackers st -> is_Some (tk_peer x.2);
  jw_once : given (j_log st) ++ c ≡ₚ held st ++ fs_closes (j_ev st)
}.

(** The calls of the operating system end: a read of a socket that does not
    block says so at last, [sendmsg] is not interrupted for ever, and restoring
    the flags of a socket does not fail.  What is allocated is new, and a socket
    that is accepted is not registered. *)
Definition op_ok (o : op) st : Prop :=
  match o with
  | Control ev calls a b =>
      (exists x, x ∈ calls /\ x <> AcceptErr EINTR) /\ j_procs st !! a = None /\ vacant (j_ev st) b
      /\ forall s, AcceptFd s ∈ calls -> 0 <= s < FD_SETSIZE /\ forall x, fs_table (j_ev st) !! Z.to_nat s <> Some (Ptr x)
  | Event a ev f c =>
      is_Some (j_procs st !! a) /\ Rwx.Fail EAGAIN ∈ io_evs f /\ (exists x, x ∈ sc_sendmsg c /\ x <> Some EINTR) /\ sc_restore c = true
  | Connect _ _ | ListPids _ _ | ListWrite _ | ListClose _ => True
  | Track t _ => t ∉ map fst (j_trackers st)
  | Ready t | Hangup t | WriteTo t => t ∈ map fst (j_trackers st)
  end.
Fixpoint ops_ok (os : list op) st : Prop :=
  match os with
  | [] => True
  | o :: os => op_ok o st /\ match step o st with Ok st' => ops_ok os st' | _ => True end
  end.

End Jdwp.

(** * Theorems *)

(** ** Reading a pid *)

Lemma recv_ok f len : (0 < length (io_evs f))%nat -> exists r f', recv f len = Ok (r, f') /\ (length (io_evs f') < length (io_evs f))%nat
  /\ (forall bs, r = RGot bs -> (length bs <= len)%nat) /\ (Rwx.Fail EAGAIN ∈ io_evs f -> r <> RErr EAGAIN -> Rwx.Fail EAGAIN ∈ io_evs f').
Proof.
  intros Hl. unfold recv. destruct (io_evs f) as [|[n|e] evs] eqn:E1; [cbn in Hl; lia| |]; eexists _, _; (split; [reflexivity|]); cbn [io_evs length].
  - split; [lia|]. split; [intros bs [= <-]; rewrite length_take; unfold xfer_len; lia|]. by intros [?|?]%elem_of_cons.
  - split; [lia|]. split; [done|]. intros [[= <-]|?]%elem_of_cons Hr; [done|done].
Qed.

Lemma recv_pid_ok fuel : forall f buff, (length (io_evs f) < fuel)%nat -> Rwx.Fail EAGAIN ∈ io_evs f -> (length buff <= 4)%nat ->
  exists r buff' f', recv_pid fuel f buff = Ok (r, buff', f') /\ (length buff' <= 4)%nat /\ (r = PidThere -> length buff' = 4%nat).
Proof.
  induction fuel as [|fuel IH]; intros f buff Hl Ha Hb; [lia|]. cbn [recv_pid]. case_bool_decide as Hs; [|eexists _, _, _; split; [reflexivity|]; lia].
  destruct (recv_ok f (4 - length buff)) as (r & f' & -> & Hl' & Hr & Ha'); [by destruct (io_evs f); [apply elem_of_nil in Ha|cbn; lia]|].
  cbn [res_bind]. destruct r as [[|b bs]|[]]; try (eexists _, _, _; split; [reflexivity|]; done).
  - apply IH; [lia|by apply Ha'|]. specialize (Hr _ eq_refl). rewrite length_app. lia.
  - apply IH; [lia|by apply Ha'|done].
Qed.

Lemma recv_ignored_ok fuel : forall f, (length (io_evs f) < fuel)%nat -> Rwx.Fail EAGAIN ∈ io_evs f -> exists b f', recv_ignored fuel f = Ok (b, f').
Proof.
  induction fuel as [|fuel IH]; intros f Hl Ha; [lia|]. cbn [recv_ignored].
  destruct (recv_ok f 32) as (r & f' & -> & Hl' & _ & Ha'); [by destruct (io_evs f); [apply elem_of_nil in Ha|cbn; lia]|].
  cbn [res_bind]. destruct r as [[|b bs]|[]]; try (by eexists _, _); apply IH; [lia|by apply Ha'|lia|by apply Ha'].
Qed.

Lemma sendmsg_loop_ok calls : (exists x, x ∈ calls /\ x <> Some EINTR) -> exists b, sendmsg_loop calls = Ok b.
Proof.
  intros (x & Hx & Hne). induction calls as [|y calls IH]; [by apply elem_of_nil in Hx|]. cbn.
  destruct y as [[]|]; eauto. apply IH. by apply elem_of_cons in Hx as [->|].
Qed.

Lemma accept_loop_ok calls : (exists x, x ∈ calls /\ x <> AcceptErr EINTR) -> exists o, accept_loop calls = Ok o /\ forall s, o = Some s -> AcceptFd s ∈ calls.
Proof.
  intros (x & Hx & Hne). induction calls as [|y calls IH]; [by apply elem_of_nil in Hx|]. cbn.
  destruct y as [s|[]]; try (by eexists); [eexists; split; [done|]; intros s' [= ->]; by left|].
  destruct IH as (o & -> & Ho); [by apply elem_of_cons in Hx as [->|]|]. exists o. split; [done|]. intros s Hs. right. by apply Ho.
Qed.

(** A number of at most four characters. *)
Lemma hex_loop_bound s : forall k acc any e, 0 <= acc < 16 ^ k -> 0 <= k -> k + Z.of_nat (length s) <= 4 -> 0 <= any ->
  0 <= (strtoul_loop 16 acc any e s).1.1 < 16 ^ 4.
Proof.
  assert (forall k acc, 0 <= k <= 4 -> 0 <= acc < 16 ^ k -> 0 <= acc < 16 ^ 4) as Hle.
  { intros k acc Hk Ha. pose proof (Z.pow_le_mono_r 16 k 4 ltac:(lia) ltac:(lia)). lia. }
  induction s as [|b s IH]; intros k acc any e Ha Hk Hl Hany; cbn [strtoul_loop]; [by eapply Hle; [|exact Ha]; cbn in Hl; lia|].
  cbn [length] in Hl. destruct (digit_value b) as [c|] eqn:Hc; [|by eapply Hle; [|exact Ha]; lia].
  assert (0 <= c) as Hc0 by (unfold digit_value in Hc; repeat case_bool_decide; simplify_eq; lia).
  case_bool_decide; [by eapply Hle; [|exact Ha]; lia|]. rewrite bool_decide_false by lia.
  pose proof (Hle k acc ltac:(lia) Ha) as Ha4. change (16 ^ 4) with 65536 in Ha4. change (ULONG_MAX / 16) with 268435455. change (ULONG_MAX mod 16) with 15.
  rewrite bool_decide_false by lia. rewrite u32_small by lia. apply (IH (k + 1)); [|lia..]. rewrite Z.pow_add_r by lia. lia.
Qed.

Lemma scan_range buff n : scan_04x buff = Some n -> s32 n < 2 ^ 16.
Proof.
  unfold scan_04x. set (s := take 4 (drop_spaces buff)). assert (length s <= 4)%nat as Hl by (unfold s; rewrite length_take; lia).
  assert (forall z, 0 <= z < 2 ^ 16 -> s32 z < 2 ^ 16) as Hs by (intros z Hz; unfold s32; rewrite Z.mod_small by lia; lia).
  destruct (_ ≫= hex_digit); [|destruct (take_sign s).2 as [|[] ?]; intros [= <-]; apply Hs; lia].
  intros [= <-]. unfold strtoul16. assert (length (drop_spaces s) <= length s)%nat as Hd by (clear; induction s as [|b s IH]; cbn; [lia|destruct (is_space b); cbn; lia]).
  assert (length (take_sign (drop_spaces s)).2 <= length (drop_spaces s))%nat as Ht by (destruct (drop_spaces s) as [|[] ?]; cbn; lia).
  destruct (take_sign (drop_spaces s)) as [neg t]. cbn [snd] in Ht.
  assert (length (drop_0x t) <= length t)%nat as H0 by (destruct t as [|x [|y t]]; [done|by destruct x|destruct x; try reflexivity; destruct y; cbn; lia]).
  pose proof (hex_loop_bound (drop_0x t) 0 0 0 false ltac:(lia) ltac:(lia) ltac:(lia) ltac:(lia)) as Hb.
  destruct (strtoul_loop 16 0 0 false (drop_0x t)) as [[acc any] e]. cbn [fst] in Hb. change (16 ^ 4) with 65536 in Hb.
  destruct (neg && _); [|apply Hs; lia]. unfold s32, u32. rewrite Zplus_mod_idemp_l. rewrite <-(Z.mod_add _ 0) by lia.
  destruct (decide (acc = 0)) as [->|]; [by vm_compute|]. rewrite Z.mul_0_l, Z.add_0_r, Z.mod_small by lia. lia.
Qed.

Section Proofs.
Context {F : Type} (process_event control_event : F).
Implicit Types (st : jdwp (F := F)) (a t : addr) (p : jproc) (e : fdstate F) (c : list Z).

(** ** Events *)

(** A flag beside the interests of an event. *)
Lemma flag_ok e b (f : fdevent F) m : wf e -> fs_fdes e !! b = Some f -> m ∈ [FDE_CREATED; FDE_DONT_CLOSE] ->
  wf (put_fde b (with_state (u16 (Z.lor (fe_state f) m)) f) e).
Proof.
  intros W Hb Hm. assert (forall k, k ∈ [FDE_ACTIVE; FDE_READ; FDE_WRITE; FDE_ERROR] -> has (u16 (Z.lor (fe_state f) m)) k = has (fe_state f) k
    /\ has (u16 (Z.lor (fe_state f) m)) FDE_PENDING = has (fe_state f) FDE_PENDING) as Hk.
  { intros k Hk. repeat (apply elem_of_cons in Hm as [->|Hm]); [..|by apply elem_of_nil in Hm];
      (repeat (apply elem_of_cons in Hk as [->|Hk]); [..|by apply elem_of_nil in Hk]); split; flags; done. }
  assert (is_pending (with_state (u16 (Z.lor (fe_state f) m)) f) = is_pending f) as Hp by (apply (Hk FDE_READ); by (right; left)).
  assert (active (with_state (u16 (Z.lor (fe_state f) m)) f) = active f) as Hact by (apply (Hk FDE_ACTIVE); by left).
  pose proof (wf_flags e b f (with_state (u16 (Z.lor (fe_state f) m)) f) (fs_pending e) W Hb) as H. refine (H eq_refl _ (wf_nodup _ W) _ _ _).
  - intros k Hin. by apply Hk.
  - done.
  - rewrite Hp, (wf_listed _ W). split; [intros (g & Hg & Pg); congruence|eauto].
  - rewrite Hp, Hact. exact (wf_pending _ W _ _ Hb).
Qed.

(** What [fdevent_set] keeps of an event. *)
Lemma set_event_ok e b (f : fdevent F) m : wf e -> fs_fdes e !! b = Some f ->
  exists e' f', fdevent_set e b m = Ok e' /\ wf e' /\ fs_fdes e' = <[b := f']> (fs_fdes e) /\ fs_closes e' = fs_closes e
  /\ interest f' = Z.land m FDE_EVENTMASK /\ active f' = active f /\ has (fe_state f') FDE_CREATED = has (fe_state f) FDE_CREATED
  /\ fe_fd f' = fe_fd f /\ fe_arg f' = fe_arg f.
Proof.
  intros W Hb. destruct (set_ok' e b f m W Hb) as (e' & f' & E1 & W' & Hf & _ & Hc & Hi & Ha & Hfd & _ & _ & Harg & _).
  exists e', f'. split_and!; try done. unfold fdevent_set, get_fde in E1. rewrite Hb in E1. cbn [access res_bind] in E1.
  case_bool_decide; [injection E1 as <-; assert (f' = f) as ->; [|done]; rewrite Hf, lookup_insert_eq in Hb; congruence|].
  destruct (assign_interest_ok e b f m W Hb) as (e1 & Ea & W1 & Hf1 & _). rewrite Ea in E1. cbn [res_bind] in E1.
  destruct (drop_events_ok e1 b (with_state (assign (fe_state f) m) f) (Z.land m FDE_EVENTMASK) W1) as (e2 & f2 & Eb & _ & Hf2 & _ & _ & Hbits & _);
    [by rewrite Hf1, lookup_insert_eq|]. rewrite Eb in E1. injection E1 as ->. assert (f' = f2) as ->.
  { rewrite Hf2, Hf1, insert_insert_eq in Hf. apply (f_equal (fun m => m !! b)) in Hf. rewrite !lookup_insert_eq in Hf. congruence. }
  rewrite !has_CREATED, Hbits, <-!has_CREATED by lia. apply assign_flags.
Qed.

(** The changes of interest of a process. *)
Lemma interest_ok e a p p' f (del : bool) m : wf e -> fs_fdes e !! jp_fde p = Some f -> event_ok a p f -> jp_fde p' = jp_fde p -> jp_socket p' = jp_socket p ->
  (if del then Z.land (Z.land (proc_wants p) FDE_EVENTMASK) (Z.lnot (Z.land m FDE_EVENTMASK)) else Z.lor (Z.land (proc_wants p) FDE_EVENTMASK) (Z.land m FDE_EVENTMASK)) = proc_wants p' ->
  exists e' f', (if del then fdevent_del else fdevent_add) e (jp_fde p') m = Ok e' /\ wf e' /\ fs_fdes e' = <[jp_fde p := f']> (fs_fdes e)
  /\ fs_closes e' = fs_closes e /\ event_ok a p' f'.
Proof.
  intros W Hf [Ha Hc Hi Hfd Harg] Hd Hs Hm. rewrite Hd.
  assert (Z.land (fe_state f) FDE_EVENTMASK = Z.land (proc_wants p) FDE_EVENTMASK) as Hst.
  { fold (interest f). rewrite Hi. unfold proc_wants. by case_decide. }
  destruct (set_event_ok e (jp_fde p) f (proc_wants p') W Hf) as (e' & f' & E1 & W' & Hf' & Hcl & Hi' & Ha' & Hc' & Hfd' & Harg').
  exists e', f'. split; [|split; [done|]; split; [done|]; split; [done|]; split; try congruence].
  - destruct del; unfold fdevent_del, fdevent_add, get_fde; rewrite Hf; cbn [access res_bind]; by rewrite Hst, Hm.
  - rewrite Hi'. unfold proc_wants. by case_decide.
Qed.

(** The event of a process is destroyed; the descriptor stays open. *)
Lemma event_destroyed e a p f : wf e -> fs_fdes e !! jp_fde p = Some f -> event_ok a p f ->
  exists e' f', fdevent_destroy e (Some (jp_fde p)) = Ok e' /\ wf e' /\ fs_fdes e' = <[jp_fde p := f']> (fs_fdes e) /\ fs_closes e' = fs_closes e.
Proof.
  intros W Hf [Ha Hc Hi _ _]. unfold fdevent_destroy, get_fde. rewrite Hf. cbn [access res_bind]. rewrite Hc.
  destruct (remove_ok e (jp_fde p) f W Hf) as (e' & -> & W' & Hf' & _ & Hcl & _). eexists e', _. split; [done|]. split; [done|]. split; [exact Hf'|].
  rewrite Hcl. assert (has (fe_state f) FDE_DONT_CLOSE = true) as ->; [|by rewrite andb_false_r].
  rewrite has_DONT_CLOSE. apply (f_equal (fun z => Z.testbit z 7)) in Hi. unfold interest in Hi. rewrite Z.land_spec in Hi.
  change (Z.testbit FDE_EVENTMASK 7) with true in Hi. rewrite andb_true_r in Hi. rewrite Hi. unfold proc_wants. by case_decide.
Qed.

(** A new event with [FDE_DONT_CLOSE], that waits for the pid. *)
Lemma event_created e b s a : wf e -> vacant e b -> 0 <= s < FD_SETSIZE -> (forall x, fs_table e !! Z.to_nat s <> Some (Ptr x)) ->
  exists e1 f1, fdevent_create 4 e b s process_event a = Ok e1 /\ get_fde e1 b = Ok f1
  /\ exists e2 f2, fdevent_add (put_fde b (with_state (u16 (Z.lor (fe_state f1) FDE_DONT_CLOSE)) f1) e1) b FDE_READ = Ok e2
     /\ wf e2 /\ fs_fdes e2 = <[b := f2]> (fs_fdes e) /\ fs_closes e2 = fs_closes e /\ event_ok a (JProc (-1) s b [] []) f2.
Proof.
  intros W Hv Hs Ht. destruct (install_ok e b s process_event a W Hv Hs Ht) as (e0 & E0 & W0 & Hf0 & _ & Hc0 & _).
  set (f0 := Fdevent s 0 FDE_ACTIVE 0 process_event a) in *. assert (fs_fdes e0 !! b = Some f0) as Hb0 by (by rewrite Hf0, lookup_insert_eq).
  pose proof (flag_ok e0 b f0 FDE_CREATED W0 Hb0 ltac:(by left)) as W1. set (f1 := with_state _ f0) in W1. set (e1 := put_fde b f1 e0) in W1.
  assert (fs_fdes e1 !! b = Some f1) as Hb1 by (apply lookup_insert_eq). exists e1, f1. unfold fdevent_create. rewrite E0. cbn [res_bind]. unfold get_fde.
  rewrite Hb0. cbn [access res_bind]. split; [done|]. rewrite Hb1. split; [done|].
  pose proof (flag_ok e1 b f1 FDE_DONT_CLOSE W1 Hb1 ltac:(by right; left)) as W2. set (f2 := with_state _ f1) in *. set (e2 := put_fde b f2 e1) in *.
  assert (fs_fdes e2 !! b = Some f2) as Hb2 by (apply lookup_insert_eq).
  destruct (set_event_ok e2 b f2 (Z.lor FDE_DONT_CLOSE FDE_READ) W2 Hb2) as (e3 & f3 & E3 & W3 & Hf3 & Hc3 & Hi3 & Ha3 & Hcr3 & Hfd3 & Harg3).
  exists e3, f3. split; [unfold fdevent_add, get_fde; rewrite Hb2; exact E3|]. split; [done|]. split.
  { rewrite Hf3. unfold e2, e1. cbn [fs_fdes put_fde]. by rewrite !insert_insert_eq, Hf0, insert_insert_eq. }
  split; [by rewrite Hc3|]. split; [by rewrite Ha3|by rewrite Hcr3|by rewrite Hi3|by rewrite Hfd3|by rewrite Harg3].
Qed.

(** ** The life of a process *)

Lemma since_snoc a l x : since a (l ++ [x]) = match x with Accepted b _ => if decide (a = b) then [] else since a l ++ [x] | _ => since a l ++ [x] end.
Proof. unfold since. by rewrite foldl_app. Qed.

Lemma fifo_other a l x q : match x with Accepted b _ | Paired b _ | Sent b _ => a <> b | _ => True end -> fifo a l q -> fifo a (l ++ [x]) q.
Proof.
  unfold fifo. intros Hx H. rewrite since_snoc. destruct x; cbn; try rewrite decide_False by done;
    unfold paired, sent in *; rewrite !omap_app; cbn; rewrite ?decide_False by done; by rewrite !app_nil_r.
Qed.
Lemma fifo_new a l s : fifo a (l ++ [Accepted a s]) [].
Proof. unfold fifo. rewrite since_snoc, decide_True by done. done. Qed.
Lemma fifo_paired a l q fd : fifo a l q -> fifo a (l ++ [Paired a fd]) (q ++ [fd]).
Proof.
  unfold fifo. intros H. rewrite since_snoc. unfold paired, sent in *. rewrite !omap_app. cbn. rewrite decide_True by done. by rewrite H, app_nil_r, app_assoc.
Qed.
Lemma fifo_sent a l q fd : fifo a l (fd :: q) -> fifo a (l ++ [Sent a fd]) q.
Proof.
  unfold fifo. intros H. rewrite since_snoc. unfold paired, sent in *. rewrite !omap_app. cbn. rewrite decide_True by done. by rewrite H, app_nil_r, <-app_assoc.
Qed.

Lemma given_app l k : given (l ++ k) = given l ++ given k.
Proof. apply omap_app. Qed.

(** ** What is held *)

Lemma held_by_ext m m' ring : (forall b, b ∈ ring -> m !! b = m' !! b) -> held_by m ring = held_by m' ring.
Proof. intros H. unfold held_by. f_equal. apply list_fmap_ext. intros i b Hb. rewrite H; [done|]. by eapply list_elem_of_lookup_2. Qed.

Lemma held_by_split m ring a : NoDup ring -> a ∈ ring -> held_by m ring ≡ₚ own (m !! a) ++ held_by m (filter (fun b => b <> a) ring).
Proof.
  induction ring as [|b ring IH]; [by intros _ ?%elem_of_nil|]. intros [Hb Hn]%NoDup_cons Hin. rewrite filter_cons. unfold held_by in *. cbn [map concat].
  destruct (decide (b <> a)) as [Hne|Hne].
  - cbn [map concat]. apply elem_of_cons in Hin as [->|Hin]; [done|]. rewrite (IH Hn Hin). by rewrite !app_assoc, (Permutation_app_comm (own (m !! b))).
  - assert (b = a) as -> by (destruct (decide (b = a)); tauto). rewrite filter_same; [done|]. intros x Hx ->. done.
Qed.

Lemma held_insert m ring a p p' : NoDup ring -> a ∈ ring -> m !! a = Some p ->
  exists rest, held_by m ring ≡ₚ own (Some p) ++ rest /\ held_by (<[a := p']> m) ring ≡ₚ own (Some p') ++ rest.
Proof.
  intros Hn Hin Hp. exists (held_by m (filter (fun b => b <> a) ring)). split; [rewrite (held_by_split m ring a) by done; by rewrite Hp|].
  rewrite (held_by_split _ ring a) by done. rewrite lookup_insert_eq. f_equiv. rewrite (held_by_ext (<[a:=p']> m) m); [done|].
  intros b [Hb _]%list_elem_of_filter. by apply lookup_insert_ne.
Qed.

(** ** The state as a whole *)

Lemma proc_event_only e e' l a p : proc_ok e l a p -> fs_fdes e' !! jp_fde p = fs_fdes e !! jp_fde p -> proc_ok e' l a p.
Proof. intros [H ? ? ? ? ?] He. split; try done. by rewrite He. Qed.

(** Processes have events of their own. *)
Lemma fde_distinct c st a b p q : jdwp_wf c st -> j_procs st !! a = Some p -> j_procs st !! b = Some q -> a <> b -> jp_fde p <> jp_fde q.
Proof.
  intros W Hp Hq Hne He. destruct (po_event _ _ _ _ (jw_proc _ _ W a p Hp)) as (f & Hf & Hpf), (po_event _ _ _ _ (jw_proc _ _ W b q Hq)) as (g & Hg & Hqg).
  rewrite He, Hg in Hf. injection Hf as <-. apply Hne. rewrite <-(eo_arg _ _ _ Hpf). apply (eo_arg _ _ _ Hqg).
Qed.

Definition not_about a (x : jeffect) : Prop := match x with Accepted b _ | Paired b _ | Sent b _ => a <> b | _ => True end.

Lemma proc_log e l a p x : proc_ok e l a p -> not_about a x -> proc_ok e (l ++ [x]) a p.
Proof. intros [? ? ? ? ? H] Hx. split; try done. by apply fifo_other. Qed.

(** A message or a close changes nothing else. *)
Lemma wf_log c st x : jdwp_wf c st -> match x with Accepted _ _ | Paired _ _ | Sent _ _ => False | _ => True end -> jdwp_wf c (log [x] st).
Proof.
  intros [H1 H2 H3 H4 H5 H6 H7] Hx. split; try done; cbn.
  - intros a p Hp. apply proc_log; [by apply H4|by destruct x].
  - rewrite given_app. assert (given [x] = []) as -> by (by destruct x). by rewrite app_nil_r.
Qed.

(** The ledger: [gl] was given before and [ge] now, [h] was held and [rest] still
    is beside [op'], [cl] was closed and [cl'] is now. *)
Lemma perm_exchange (gl ge c h cl op op' cl' rest : list Z) : gl ++ c ≡ₚ h ++ cl -> h ≡ₚ op ++ rest -> ge ++ op ++ cl ≡ₚ op' ++ cl' ->
  (gl ++ ge) ++ c ≡ₚ (op' ++ rest) ++ cl'.
Proof.
  intros H1 H2 H3. rewrite <-app_assoc, (Permutation_app_comm ge), app_assoc, H1, H2.
  rewrite (Permutation_app_comm _ ge), (Permutation_app_comm op rest), <-(app_assoc rest), !app_assoc, (Permutation_app_comm ge rest), <-!app_assoc, H3.
  rewrite !app_assoc. by rewrite (Permutation_app_comm rest).
Qed.

(** A process changes, with what it holds. *)
Lemma wf_change c st a p p' e' es : jdwp_wf c st -> j_procs st !! a = Some p -> jp_fde p' = jp_fde p -> wf e' ->
  (forall b, b <> jp_fde p -> fs_fdes e' !! b = fs_fdes (j_ev st) !! b) -> proc_ok e' (j_log st ++ es) a p' -> Forall (fun x => forall b, b <> a -> not_about b x) es ->
  given es ++ own (Some p) ++ fs_closes (j_ev st) ≡ₚ own (Some p') ++ fs_closes e' ->
  jdwp_wf c (Jdwp (<[a := p']> (j_procs st)) (j_list st) (j_trackers st) e' (j_log st ++ es)).
Proof.
  intros W Hp Hd We He Hp' Hes Hown. split; cbn; try apply W; try done.
  - intros b. rewrite (jw_mem _ _ W). destruct (decide (a = b)) as [<-|]; [|by rewrite lookup_insert_ne]. rewrite lookup_insert_eq. by split; eexists.
  - intros b q. destruct (decide (a = b)) as [<-|Hne]; [by rewrite lookup_insert_eq; intros [= <-]|rewrite lookup_insert_ne by done]. intros Hq.
    assert (proc_ok e' (j_log st) b q) as Hok by (eapply proc_event_only; [by apply (jw_proc _ _ W)|apply He; by eapply fde_distinct]).
    clear -Hok Hes Hne. revert Hok. generalize (j_log st). induction Hes as [|x es Hx _ IH]; intros l Hl; [by rewrite app_nil_r|].
    rewrite cons_middle, app_assoc. apply IH, proc_log; [done|]. by apply Hx.
  - assert (a ∈ j_list st) as Hin by (apply (jw_mem _ _ W); eauto).
    destruct (held_insert (j_procs st) (j_list st) a p p' (jw_nodup _ _ W) Hin Hp) as (rest & H1 & H2). pose proof (jw_once _ _ W) as H. unfold held in *. cbn [j_procs j_list].
    rewrite given_app, H2. by eapply perm_exchange.
Qed.

(** ** The list of pids *)

(** The pids of the processes that announced themselves. *)
Definition announced st : list Z := omap (fun a => p ← j_procs st !! a; if decide (jp_pid p < 0) then None else Some (jp_pid p)) (j_list st).
Definition pid_line (pid : Z) : bytes := print_dec pid ++ [Byte.x0a].

Lemma list_from_ok st : forall ring room, (forall a, a ∈ ring -> is_Some (j_procs st !! a)) -> (0 < room)%nat ->
  exists text k, list_from st ring room = Ok text /\ (length text < room)%nat
  /\ text = concat (map pid_line (take k (omap (fun a => p ← j_procs st !! a; if decide (jp_pid p < 0) then None else Some (jp_pid p)) ring)))
  /\ (forall all, all = concat (map pid_line (omap (fun a => p ← j_procs st !! a; if decide (jp_pid p < 0) then None else Some (jp_pid p)) ring)) ->
      (length all < room)%nat -> text = all).
Proof.
  induction ring as [|a ring IH]; intros room Hr Hroom; cbn [list_from].
  { exists [], 0%nat. split; [done|]. split; [cbn; lia|]. split; [done|]. by intros all ->. }
  destruct (Hr a) as [p Hp]; [by left|]. unfold get_proc. rewrite Hp. cbn [access res_bind].
  assert (forall b, b ∈ ring -> is_Some (j_procs st !! b)) as Hr' by (intros b Hb; apply Hr; by right).
  cbn [omap list_omap]. rewrite Hp. cbn [mbind option_bind]. case_bool_decide as Hpid.
  { rewrite decide_True by lia. by apply IH. }
  rewrite decide_False by lia. fold (pid_line (jp_pid p)). set (line := pid_line (jp_pid p)). cbn [map concat]. fold line. case_bool_decide as Hfit.
  { exists [], 0%nat. split; [done|]. split; [cbn; lia|]. split; [done|]. intros all ->. rewrite length_app. lia. }
  destruct (IH (room - length line)%nat Hr' ltac:(lia)) as (text & k & E1 & Hl & Htext & Hall). rewrite E1. cbn [res_bind].
  exists (line ++ text), (S k). split; [done|]. split; [rewrite length_app; lia|]. split; [cbn [take map concat]; by rewrite Htext|].
  intros all ->. rewrite length_app. intros Hlt. f_equal. apply Hall; [done|lia].
Qed.

Lemma send_all_ok c msg ts : forall st, jdwp_wf c st -> (forall x, x ∈ ts -> is_Some (tk_peer x.2)) ->
  exists st', send_all ts msg st = Ok st' /\ jdwp_wf c st' /\ j_procs st' = j_procs st /\ j_list st' = j_list st /\ j_ev st' = j_ev st /\ j_trackers st' = j_trackers st.
Proof.
  induction ts as [|[t k] ts IH]; intros st W Ht; cbn [send_all]; [by exists st|].
  destruct (Ht (t, k)) as [peer Hpeer]; [by left|]. cbn in Hpeer. rewrite Hpeer. cbn [access res_bind].
  destruct (IH (log [Enqueue peer msg] st)) as (st' & -> & W' & H); [by apply wf_log|intros x Hx; apply Ht; by right|]. by exists st'.
Qed.

Lemma updated_ok c st : jdwp_wf c st ->
  exists st', jdwp_process_list_updated st = Ok st' /\ jdwp_wf c st' /\ j_procs st' = j_procs st /\ j_list st' = j_list st /\ j_ev st' = j_ev st /\ j_trackers st' = j_trackers st.
Proof.
  intros W. unfold jdwp_process_list_updated, jdwp_process_list_msg, jdwp_process_list.
  destruct (list_from_ok st (j_list st) (1024 - 4)) as (text & k & -> & _); [intros a Ha; by apply (jw_mem _ _ W)|lia|]. cbn [res_bind].
  apply send_all_ok; [done|]. apply W.
Qed.

(** ** Freeing a process *)

Lemma wf_closed e fd : wf e -> wf (adb_close fd e).
Proof. intros []. by split. Qed.

Lemma close_all_ok fds : forall st, exists e', close_all fds st = with_ev e' st /\ fs_fdes e' = fs_fdes (j_ev st)
  /\ fs_closes e' = rev fds ++ fs_closes (j_ev st) /\ (wf (j_ev st) -> wf e').
Proof.
  induction fds as [|fd fds IH]; intros st; cbn [close_all rev]; [exists (j_ev st); split_and!; try done; by destruct st|].
  destruct (IH (close_fd fd st)) as (e' & -> & Hf & Hc & Hw). exists e'. split; [done|]. split; [done|]. split; [by rewrite Hc, <-app_assoc|].
  intros W. by apply Hw, wf_closed.
Qed.

Lemma held_delete m ring a p : NoDup ring -> a ∈ ring -> m !! a = Some p -> held_by m ring ≡ₚ own (Some p) ++ held_by (delete a m) (filter (fun b => b <> a) ring).
Proof.
  intros Hn Hin Hp. rewrite (held_by_split m ring a) by done. rewrite Hp. f_equiv. rewrite (held_by_ext (delete a m) m); [done|].
  intros b [Hb _]%list_elem_of_filter. by apply lookup_delete_ne.
Qed.

Lemma free_ok c st a p : jdwp_wf c st -> j_procs st !! a = Some p -> exists st', jdwp_process_free a st = Ok st' /\ jdwp_wf c st'.
Proof.
  intros W Hp. pose proof (jw_proc _ _ W a p Hp) as Hok. destruct (po_event _ _ _ _ Hok) as (f & Hf & He). unfold jdwp_process_free, get_proc.
  rewrite Hp. cbn [access res_bind]. pose proof (po_socket _ _ _ _ Hok) as Hs0. rewrite bool_decide_true by lia. set (s := jp_socket p) in *.
  unfold close_fd, log, with_ev. cbn [j_procs j_list j_trackers j_ev j_log].
  destruct (event_destroyed (adb_close s (j_ev st)) a p f) as (e1 & f1 & E1 & W1 & Hf1 & Hc1); [apply wf_closed, W|done|done|]. rewrite E1. cbn [res_bind].
  cbv zeta. set (st1 := Jdwp _ _ _ e1 _). destruct (close_all_ok (jp_out p) st1) as (e2 & -> & Hf2 & Hc2 & Hw2). cbn [with_ev j_procs j_list j_trackers j_ev j_log st1] in *.
  set (st2 := Jdwp _ _ _ _ _). assert (a ∈ j_list st) as Hin by (apply (jw_mem _ _ W); eauto).
  destruct (updated_ok c st2) as (st3 & -> & W3 & _); [|by exists st3]. split; cbn [st2 j_procs j_list j_trackers j_ev j_log].
  - apply NoDup_filter, W.
  - intros b. rewrite list_elem_of_filter, (jw_mem _ _ W). destruct (decide (b = a)) as [->|Hne].
    + rewrite lookup_delete_eq. split; [by intros [? _]|by intros []].
    + rewrite lookup_delete_ne by done. naive_solver.
  - by apply Hw2.
  - intros b q Hq. assert (b <> a) as Hne by (intros ->; by rewrite lookup_delete_eq in Hq). rewrite lookup_delete_ne in Hq by done.
    apply proc_log; [|done]. eapply proc_event_only; [by apply (jw_proc _ _ W)|]. rewrite Hf2, Hf1. cbn. apply lookup_insert_ne. by eapply fde_distinct.
  - apply W.
  - apply W.
  - pose proof (jw_once _ _ W) as H. unfold held in *. cbn [st2 j_procs j_list]. rewrite given_app, app_nil_r, H, (held_delete _ _ a p) by (done || apply W).
    rewrite Hc2, Hc1. cbn [own fs_closes adb_close app]. fold s. rewrite <-(Permutation_rev (jp_out p)).
    rewrite (Permutation_app_comm (jp_out p) (held_by _ _)), <-app_assoc, <-!Permutation_middle. done.
Qed.

(** ** The operations *)

Lemma alloc_ok c st s a (b : addr) : jdwp_wf c st -> j_procs st !! a = None -> vacant (j_ev st) b -> 0 <= s < FD_SETSIZE ->
  (forall x, fs_table (j_ev st) !! Z.to_nat s <> Some (Ptr x)) -> exists st', jdwp_process_alloc process_event s a b st = Ok st' /\ jdwp_wf c st'.
Proof.
  intros W Ha Hv Hs Ht. destruct (event_created (j_ev st) b s a (jw_ev _ _ W) Hv Hs Ht) as (e1 & f1 & E1 & G1 & e2 & f2 & E2 & W2 & Hf2 & Hc2 & He).
  unfold jdwp_process_alloc. rewrite E1. cbn [res_bind]. rewrite G1. cbn [res_bind j_ev]. rewrite E2. eexists. split; [reflexivity|].
  assert (a ∉ j_list st) as Hnin by (intros Hin; apply (jw_mem _ _ W) in Hin as [? ?]; congruence).
  split; cbn; try apply W; try done.
  - apply NoDup_app. split; [apply W|]. split; [|apply NoDup_singleton]. by intros x Hx ->%list_elem_of_singleton.
  - intros x. rewrite elem_of_app, list_elem_of_singleton, (jw_mem _ _ W). destruct (decide (a = x)) as [<-|]; [rewrite lookup_insert_eq|rewrite lookup_insert_ne by done]; split; eauto. intros [?| ->]; done.
  - intros x p. destruct (decide (a = x)) as [<-|Hne]; [rewrite lookup_insert_eq; intros [= <-]|rewrite lookup_insert_ne by done; intros Hp].
    + split; cbn; try lia; [|apply fifo_new]. exists f2. split; [by rewrite Hf2, lookup_insert_eq|done].
    + apply proc_log; [|by apply not_eq_sym]. pose proof (jw_proc _ _ W x p Hp) as Hok. eapply proc_event_only; [done|]. rewrite Hf2. apply lookup_insert_ne.
      destruct (po_event _ _ _ _ Hok) as (f & Hf & Hef). intros Hb. rewrite <-Hb in Hf. destruct (Hv _ Hf) as [Hn _]. pose proof (eo_active _ _ _ Hef). congruence.
  - unfold held. cbn [j_procs j_list]. unfold held_by. rewrite map_app, concat_app. cbn [map concat]. rewrite lookup_insert_eq. cbn [own].
    fold (held_by (<[a:=JProc (-1) s b [] []]> (j_procs st)) (j_list st)). rewrite (held_by_ext _ (j_procs st)).
    + rewrite given_app, Hc2. cbn. rewrite <-app_assoc, <-app_assoc. cbn. rewrite <-!Permutation_middle. f_equiv. apply (jw_once _ _ W).
    + intros x Hx. apply lookup_insert_ne. by intros <-.
Qed.

Lemma put_ok c st a p p' : jdwp_wf c st -> j_procs st !! a = Some p -> jp_fde p' = jp_fde p -> jp_socket p' = jp_socket p -> jp_out p' = jp_out p ->
  jp_pid p' < 2 ^ 16 -> (length (jp_in p') <= 4)%nat -> jdwp_wf c (put_proc a p' st).
Proof.
  intros W Hp Hd Hs Ho Hpid Hin. pose proof (jw_proc _ _ W a p Hp) as [(f & Hf & He) ? ? ? ? ?].
  pose proof (wf_change c st a p p' (j_ev st) [] W Hp Hd (jw_ev _ _ W) ltac:(done)) as H1. rewrite app_nil_r in H1. apply H1; [|done|].
  - split; rewrite ?Hs, ?Ho; try done. exists f. rewrite Hd. split; [done|]. destruct He as [? ? Hi ? ?]. split; try done; [|by rewrite Hs]. rewrite Hi. unfold proc_wants. by rewrite Ho.
  - cbn. by rewrite Hs, Ho.
Qed.

Lemma read_event_ok c st a p f : jdwp_wf c st -> j_procs st !! a = Some p -> Rwx.Fail EAGAIN ∈ io_evs f ->
  exists go f' st', read_event a f st = Ok (go, f', st') /\ jdwp_wf c st' /\ (go = true -> is_Some (j_procs st' !! a)).
Proof.
  intros W Hp Hf. unfold read_event, get_proc. rewrite Hp. cbn [access res_bind]. pose proof (jw_proc _ _ W a p Hp) as Hok. case_bool_decide as Hpid.
  - destruct (recv_pid_ok (S (length (io_evs f))) f (jp_in p)) as (r & buff & f' & -> & Hl & Hr); [lia|done|apply Hok|]. cbn [res_bind].
    assert (jdwp_wf c (put_proc a (with_in buff p) st)) as W1 by (eapply put_ok; [done..|apply Hok|done]).
    assert (j_procs (put_proc a (with_in buff p) st) !! a = Some (with_in buff p)) as Hp1 by apply lookup_insert_eq. destruct r.
    + destruct (scan_04x buff) as [pid|] eqn:Hscan.
      * destruct (updated_ok c (put_proc a (with_pid (s32 pid) (with_in buff p)) (put_proc a (with_in buff p) st))) as (st' & -> & W' & Hprocs & _).
        { eapply (put_ok _ _ _ _ _ W1 Hp1); [done..|by eapply scan_range|done]. }
        cbn [res_bind]. eexists _, _, _. split; [reflexivity|]. split; [done|]. intros _. rewrite Hprocs. cbn. rewrite lookup_insert_eq. eauto.
      * destruct (free_ok _ _ _ _ W1 Hp1) as (st' & -> & W'). by eexists _, _, _.
    + by eexists _, _, _.
    + destruct (free_ok _ _ _ _ W1 Hp1) as (st' & -> & W'). by eexists _, _, _.
  - destruct (recv_ignored_ok (S (length (io_evs f))) f) as (b & f' & ->); [lia|done|]. cbn [res_bind].
    destruct b; [by eexists _, _, _|]. destruct (free_ok _ _ _ _ W Hp) as (st' & -> & W'). by eexists _, _, _.
Qed.

Lemma shifted out : out <> [] -> take (length (shift_out out) - 1) (shift_out out) = tl out /\ length (shift_out out) = length out.
Proof.
  intros H. unfold shift_out. assert (length (tl out ++ drop (length out - 1) out) = length out) as Hl by (destruct out; [done|rewrite length_app, length_drop; cbn [tl length]; lia]).
  split; [|done]. rewrite Hl. destruct out as [|fd out]; [done|]. cbn [tl length]. by rewrite Nat.sub_succ, Nat.sub_0_r, take_app_length.
Qed.

(** A descriptor is sent: the oldest one leaves, and is closed. *)
Lemma write_event_ok c st a p k : jdwp_wf c st -> j_procs st !! a = Some p -> (exists x, x ∈ sc_sendmsg k /\ x <> Some EINTR) -> sc_restore k = true ->
  exists st', write_event a k st = Ok st' /\ jdwp_wf c st'.
Proof.
  intros W Hp Hk Hr. unfold write_event, get_proc. rewrite Hp. cbn [access res_bind]. pose proof (jw_proc _ _ W a p Hp) as Hok.
  destruct (jp_out p) as [|fd out] eqn:Hout; [by exists st|]. destruct (sc_getfl k); [|by eapply free_ok]. destruct (sc_clear k); [|by eapply free_ok]. cbn [negb].
  destruct (sendmsg_loop_ok _ Hk) as (b & ->). cbn [res_bind]. destruct b; [|by eapply free_ok]. cbn [negb]. rewrite Hr. cbn [negb with_out jp_out].
  destruct (shifted (fd :: out)) as [Hs _]; [done|]. rewrite Hs. cbn [tl jp_out with_out]. set (p' := with_out out p).
  pose proof Hok as [(f & Hf & He) ? ? ? Ho Hfi]. rewrite Hout in Ho, Hfi. cbn [length] in Ho.
  assert (given [Sent a fd] ++ own (Some p) ++ fs_closes (j_ev st) ≡ₚ own (Some p') ++ fd :: fs_closes (j_ev st)) as Hown.
  { cbn. rewrite Hout. cbn. by rewrite <-Permutation_middle. }
  assert (Forall (fun x => forall b, b <> a -> not_about b x) [Sent a fd]) as Hab by (by repeat constructor).
  assert (put_proc a p' (put_proc a (with_out (shift_out (fd :: out)) p) (close_fd fd (log [Sent a fd] st)))
    = Jdwp (<[a := p']> (j_procs st)) (j_list st) (j_trackers st) (adb_close fd (j_ev st)) (j_log st ++ [Sent a fd])) as Est.
  { unfold put_proc, close_fd, log, with_ev. cbn. by rewrite insert_insert_eq. }
  change (with_out out (with_out (shift_out (fd :: out)) p)) with p'. rewrite Est. case_bool_decide as Hz.
  - change (jp_fde (with_out (shift_out (fd :: out)) p)) with (jp_fde p'). cbn [j_ev].
    destruct (interest_ok (adb_close fd (j_ev st)) a p p' f true FDE_WRITE) as (e' & f' & E1 & W' & Hf' & Hc' & He'); [by apply wf_closed, W|done..| |].
    { unfold proc_wants. rewrite Hout. cbn [jp_out p' with_out]. rewrite Hz. reflexivity. }
    rewrite E1. cbn [res_bind]. eexists. split; [reflexivity|].
    apply (wf_change c st a p p' e' [Sent a fd] W Hp); [done|done| | |done|by rewrite Hc'].
    + intros b Hb. rewrite Hf'. by apply lookup_insert_ne.
    + split; cbn; try done; [exists f'; by rewrite Hf', lookup_insert_eq|lia|by apply fifo_sent].
  - eexists. split; [reflexivity|]. apply (wf_change c st a p p' _ [Sent a fd] W Hp); [done|by apply wf_closed, W|done| |done|done].
    split; cbn; try done; [|lia|by apply fifo_sent]. exists f. split; [done|]. destruct He as [? ? Hi ? ?]. split; try done. rewrite Hi. unfold proc_wants.
    rewrite Hout. cbn [jp_out p' with_out]. by rewrite !decide_False by done.
Qed.

Lemma find_pid_ok st pid : forall ring, (forall a, a ∈ ring -> is_Some (j_procs st !! a)) ->
  exists o, find_pid st pid ring = Ok o /\ forall a, o = Some a -> exists p, j_procs st !! a = Some p /\ jp_pid p = pid.
Proof.
  induction ring as [|a ring IH]; intros Hr; cbn [find_pid]; [by eexists|]. destruct (Hr a) as [p Hp]; [by left|]. unfold get_proc. rewrite Hp. cbn [access res_bind].
  case_bool_decide; [eexists; split; [done|]; intros b [= <-]; eauto|]. apply IH. intros b Hb. apply Hr. by right.
Qed.

Lemma connection_ok c st pid fds : jdwp_wf c st -> exists v st', create_jdwp_connection_fd pid fds st = Ok (v, st') /\ jdwp_wf c st'.
Proof.
  intros W. unfold create_jdwp_connection_fd. destruct (find_pid_ok st pid (j_list st)) as (o & -> & Ho); [intros a; apply W|]. cbn [res_bind].
  destruct o as [a|]; [|by eexists _, _]. destruct (Ho a eq_refl) as (p & Hp & _). unfold get_proc. rewrite Hp. cbn [access res_bind].
  case_bool_decide as Hmax; [by eexists _, _|]. destruct fds as [[fd0 fd1]|]; [|by eexists _, _]. cbn [jp_out with_out]. set (p' := with_out (jp_out p ++ [fd1]) p).
  pose proof (jw_proc _ _ W a p Hp) as [(f & Hf & He) ? ? ? Hlen Hfi].
  assert (given [Paired a fd1] ++ own (Some p) ++ fs_closes (j_ev st) ≡ₚ own (Some p') ++ fs_closes (j_ev st)) as Hown.
  { cbn. rewrite <-app_assoc. cbn. rewrite <-(Permutation_middle (jp_out p)). apply perm_swap. }
  assert (Forall (fun x => forall b, b <> a -> not_about b x) [Paired a fd1]) as Hab by (by repeat constructor).
  assert (length (jp_out p') <= MAX_OUT_FDS)%nat as Hlen' by (cbn; rewrite length_app; cbn; lia).
  assert (jp_out p' <> []) as Hne by (cbn; by destruct (jp_out p)).
  case_bool_decide as H1.
  - assert (jp_out p = []) as Hnil by (rewrite length_app in H1; cbn in H1; destruct (jp_out p); [done|cbn in H1; lia]).
    destruct (interest_ok (j_ev st) a p p' f false FDE_WRITE) as (e' & f' & E1 & W' & Hf' & Hc' & He'); [apply W|done..| |].
    { unfold proc_wants. cbn [jp_out p' with_out]. rewrite Hnil. reflexivity. }
    change (j_ev (log _ _)) with (j_ev st). rewrite E1. cbn [res_bind]. eexists _, _. split; [reflexivity|].
    apply (wf_change c st a p p' e' [Paired a fd1] W Hp); [done|done| | |done|by rewrite Hc'].
    + intros b Hb. rewrite Hf'. by apply lookup_insert_ne.
    + split; try done; [exists f'; split; [by rewrite Hf', lookup_insert_eq|done]|by apply fifo_paired].
  - eexists _, _. split; [reflexivity|]. apply (wf_change c st a p p' _ [Paired a fd1] W Hp); [done|apply W|done| |done|done].
    split; try done; [|by apply fifo_paired]. exists f. split; [done|]. destruct He as [? ? Hi ? ?]. split; try done. rewrite Hi. unfold proc_wants.
    rewrite !decide_False; [done|done|]. intros Hn. rewrite Hn in H1. done.
Qed.

(** *** Clients *)

Lemma wf_trackers c st l : jdwp_wf c st -> NoDup (map fst l) -> (forall x, x ∈ l -> is_Some (tk_peer x.2)) -> jdwp_wf c (with_trackers l st).
Proof. intros [H1 H2 H3 H4 H5 H6 H7] Hn Hp. by split. Qed.

Lemma find_tracker_ok st t : t ∈ map fst (j_trackers st) -> exists k, find_tracker st t = Ok k /\ (t, k) ∈ j_trackers st.
Proof.
  intros Ht. unfold find_tracker. destruct (List.find _ _) as [[u k]|] eqn:E1; cbn.
  - apply List.find_some in E1 as [Hin Hu]. apply bool_decide_eq_true in Hu. cbn in Hu. subst u. exists k. split; [done|]. by apply list_elem_of_In.
  - apply list_elem_of_fmap in Ht as ([u k] & -> & Hin). apply list_elem_of_In in Hin. apply (List.find_none _ _ E1) in Hin. cbn in Hin. by rewrite bool_decide_true in Hin.
Qed.

Lemma trackers_filter t (l : list (addr * tracker)) : NoDup (map fst l) -> NoDup (map fst (filter (fun x => x.1 <> t) l)).
Proof.
  induction l as [|x l IH]; [done|]. cbn [map]. intros [Hx Hn]%NoDup_cons. rewrite filter_cons. case_decide; [|by apply IH]. cbn [map].
  apply NoDup_cons. split; [|by apply IH]. intros (y & Hy & [_ Hin]%list_elem_of_filter)%list_elem_of_fmap. apply Hx. rewrite Hy. by apply list_elem_of_fmap_2.
Qed.

Lemma filter_put t k (l : list (addr * tracker)) : filter (fun x => x.1 <> t) (map (fun x => if decide (x.1 = t) then (t, k) else x) l) = filter (fun x => x.1 <> t) l.
Proof.
  induction l as [|x l IH]; [done|]. cbn [map]. rewrite !filter_cons, IH. destruct (decide (x.1 = t)) as [Hx|Hx]; [|done].
  rewrite decide_False by (intros H; by apply H). by rewrite decide_False by (intros H; by apply H).
Qed.

Lemma wf_untrack c st t : jdwp_wf c st -> jdwp_wf c (with_trackers (filter (fun x => x.1 <> t) (j_trackers st)) st).
Proof. intros W. apply wf_trackers; [done|apply trackers_filter, W|]. intros x [_ Hx]%list_elem_of_filter. by eapply jw_peers. Qed.

Lemma find_put st t k : t ∈ map fst (j_trackers st) -> find_tracker (put_tracker t k st) t = Ok k.
Proof.
  intros Ht. unfold find_tracker, put_tracker. cbn [j_trackers with_trackers]. induction (j_trackers st) as [|x l IH]; [by apply elem_of_nil in Ht|].
  cbn [map List.find]. destruct (decide (x.1 = t)) as [Hx|Hx]; cbn [fst]; [by rewrite bool_decide_true|]. rewrite bool_decide_false by done.
  apply IH. by apply elem_of_cons in Ht as [Ht|].
Qed.

Lemma peer_closes_ok c st t : jdwp_wf c st -> t ∈ map fst (j_trackers st) -> exists st', peer_closes t st = Ok st' /\ jdwp_wf c st'.
Proof.
  intros W Ht. unfold peer_closes. destruct (find_tracker_ok st t Ht) as (k & -> & _). cbn [res_bind]. unfold jdwp_tracker_close. rewrite find_put by done.
  cbn [res_bind tk_peer put_tracker with_trackers j_procs j_list j_trackers j_ev j_log]. rewrite filter_put. eexists. split; [reflexivity|].
  exact (wf_untrack c st t W).
Qed.

Lemma put_trackers_fst t k (l : list (addr * tracker)) : map fst (map (fun x => if decide (x.1 = t) then (t, k) else x) l) = map fst l.
Proof. rewrite map_map. apply list_fmap_ext. intros i x _. by destruct (decide (x.1 = t)) as [<-|]. Qed.

Lemma tracker_ready_ok c st t : jdwp_wf c st -> t ∈ map fst (j_trackers st) -> exists st', jdwp_tracker_ready t st = Ok st' /\ jdwp_wf c st'.
Proof.
  intros W Ht. unfold jdwp_tracker_ready. destruct (find_tracker_ok st t Ht) as (k & -> & Hin). cbn [res_bind]. destruct (tk_need_update k); [|by exists st].
  destruct (jw_peers _ _ W _ Hin) as [peer Hpeer]. cbn in Hpeer. set (st1 := put_tracker t _ st).
  assert (jdwp_wf c st1) as W1.
  { apply wf_trackers; [done|rewrite put_trackers_fst; apply W|]. intros x (y & -> & Hy)%list_elem_of_fmap. case_decide; [cbn; rewrite Hpeer; by eexists|by eapply jw_peers]. }
  unfold jdwp_process_list_msg, jdwp_process_list.
  destruct (list_from_ok st1 (j_list st1) (4096 - 4)) as (text & n & -> & _); [intros a Ha; by apply (jw_mem _ _ W1)|lia|]. cbn [res_bind].
  rewrite Hpeer. cbn [access res_bind]. eexists. split; [reflexivity|]. by apply wf_log.
Qed.

(** ** All operations *)

Lemma jdwp_step_ok c o st : jdwp_wf c st -> op_ok o st -> exists st', step process_event o st = Ok st' /\ jdwp_wf c st'.
Proof.
  intros W Ho. destruct o as [ev calls a b|a ev f k|pid fds|t peer|t|t|t|pass peer|peer|peer]; cbn [step op_ok] in *.
  - destruct Ho as (Hc & Ha & Hv & Hs). unfold jdwp_control_event. destruct (has ev FDE_READ); [|by exists st].
    destruct (accept_loop_ok _ Hc) as (o & -> & Hin). cbn [res_bind]. destruct o as [s|]; [|by exists st]. destruct (Hs s (Hin s eq_refl)). by apply alloc_ok.
  - destruct Ho as ([p Hp] & Hf & Hk & Hr). unfold jdwp_process_event.
    assert (exists go f' st1, (if has ev FDE_READ then read_event a f st else Ok (true, f, st)) = Ok (go, f', st1) /\ jdwp_wf c st1 /\ (go = true -> is_Some (j_procs st1 !! a)))
      as (go & f' & st1 & -> & W1 & Hgo) by (destruct (has ev FDE_READ); [by eapply read_event_ok|by eexists _, _, _]).
    cbn [res_bind]. destruct (go && has ev FDE_WRITE) eqn:Hw; [|by eexists]. apply andb_true_iff in Hw as [-> _]. destruct (Hgo eq_refl) as [p1 Hp1].
    destruct (write_event_ok c st1 a p1 k W1 Hp1 Hk Hr) as (st2 & -> & W2). by eexists.
  - destruct (connection_ok c st pid fds W) as (v & st' & -> & W'). by eexists.
  - eexists. split; [done|]. apply wf_trackers; [done| |].
    + rewrite map_app. apply NoDup_app. split; [apply W|]. split; [|apply NoDup_singleton]. by intros x Hx ->%list_elem_of_singleton.
    + intros x [Hx| ->%list_elem_of_singleton]%elem_of_app; [by eapply jw_peers|by eexists].
  - by apply tracker_ready_ok.
  - by apply peer_closes_ok.
  - unfold jdwp_tracker_enqueue. destruct (find_tracker_ok st t Ho) as (k & -> & Hin). cbn [res_bind]. destruct (jw_peers _ _ W _ Hin) as [peer Hpeer]. cbn in Hpeer.
    rewrite Hpeer. cbn [access res_bind]. destruct (peer_closes_ok c (log [ClosePeer peer] st) t) as (st' & -> & W'); [by apply wf_log|done|]. by eexists.
  - unfold jdwp_socket_ready. destruct pass; [eexists; split; [reflexivity|]; by apply wf_log|]. unfold jdwp_process_list.
    destruct (list_from_ok st (j_list st) 4096) as (text & n & -> & _); [intros a Ha; by apply (jw_mem _ _ W)|lia|]. cbn [res_bind].
    eexists. split; [reflexivity|]. by apply wf_log.
  - eexists. split; [reflexivity|]. by apply wf_log.
  - eexists. split; [reflexivity|]. destruct peer; [by apply wf_log|done].
Qed.

Lemma jdwp_start_ok e : wf e -> jdwp_wf (fs_closes e) (j_start e).
Proof.
  intros W. split; cbn; try done; try by constructor.
  - intros a. rewrite lookup_empty. split; [by intros ?%elem_of_nil|by intros []].
  - intros x ?%elem_of_nil. done.
Qed.

Lemma run_ok c os : forall st, jdwp_wf c st -> ops_ok process_event os st -> exists st', run process_event os st = Ok st' /\ jdwp_wf c st'.
Proof.
  induction os as [|o os IH]; intros st W Ho; cbn [run ops_ok] in *; [by exists st|]. destruct Ho as [Ho Hos].
  destruct (jdwp_step_ok c o st W Ho) as (st1 & E1 & W1). rewrite E1 in *. cbn [res_bind]. by apply IH.
Qed.

(** C11: As long as the calls of the system come to an end, every operation
    returns, and every descriptor that the daemon was given for a process is held
    by the process or was closed, once: with distinct descriptors, none is lost
    and none is closed twice.  A process waits for at most four descriptors, and
    it is sent them in the order in which they were made for it.  That is: a
    process does not send for ever without a pause, which the loop that reads and
    ignores it would follow; [accept] and [sendmsg] are not interrupted for ever;
    and the [fcntl] that restores the flags of its socket does not fail, after
    which a descriptor is closed twice ([restore_closes_twice]). *)
Theorem descriptors_kept_once e os : wf e -> ops_ok process_event os (j_start e) ->
  exists st, run process_event os (j_start e) = Ok st /\ wf (j_ev st)
  /\ given (j_log st) ++ fs_closes e ≡ₚ held st ++ fs_closes (j_ev st)
  /\ (forall a p, j_procs st !! a = Some p -> (length (jp_out p) <= MAX_OUT_FDS)%nat
        /\ paired a (since a (j_log st)) = sent a (since a (j_log st)) ++ jp_out p
        /\ exists f, fs_fdes (j_ev st) !! jp_fde p = Some f /\ active f = true /\ fe_fd f = jp_socket p /\ wants f FDE_READ = true
           /\ (wants f FDE_WRITE = true <-> jp_out p <> [])).
Proof.
  intros We Ho. destruct (run_ok _ os _ (jdwp_start_ok e We) Ho) as (st & -> & W). exists st. split; [done|]. split; [apply W|]. split; [apply W|].
  intros a p Hp. destruct (jw_proc _ _ W a p Hp) as [(f & Hf & [Ha _ Hi Hfd _]) _ _ _ Hl Hfi]. split; [done|]. split; [done|]. exists f. split_and!; try done.
  - unfold wants. rewrite has_READ. apply (f_equal (fun z => Z.testbit z 0)) in Hi. unfold interest in Hi. rewrite Z.land_spec in Hi.
    change (Z.testbit FDE_EVENTMASK 0) with true in Hi. rewrite andb_true_r in Hi. rewrite Hi. unfold proc_wants. by case_decide.
  - unfold wants. rewrite has_WRITE. apply (f_equal (fun z => Z.testbit z 1)) in Hi. unfold interest in Hi. rewrite Z.land_spec in Hi.
    change (Z.testbit FDE_EVENTMASK 1) with true in Hi. rewrite andb_true_r in Hi. rewrite Hi. unfold proc_wants. case_decide; [|done]. split; [done|]. by intros [].
Qed.

(** The text that a client gets is the lines of the pids that were announced,
    in the order of the processes, behind its length; when they do not fit the
    buffer, of the first ones. *)
Theorem pids_listed c st bufferlen : jdwp_wf c st -> (4 < bufferlen)%nat -> Z.of_nat bufferlen < 2 ^ 16 ->
  exists k text, jdwp_process_list_msg st bufferlen = Ok (hex4 (Z.of_nat (length text)) ++ text) /\ text = concat (map pid_line (take k (announced st)))
  /\ unhex (hex4 (Z.of_nat (length text)) ++ text) 4 = Ok (Z.of_nat (length text)) /\ (length text + 4 < bufferlen)%nat
  /\ ((length (concat (map pid_line (announced st))) + 4 < bufferlen)%nat -> text = concat (map pid_line (announced st))).
Proof.
  intros W Hb Hb'. destruct (list_from_ok st (j_list st) (bufferlen - 4)) as (text & k & E1 & Hl & Ht & Hall); [intros a Ha; by apply (jw_mem _ _ W)|lia|].
  exists k, text. unfold jdwp_process_list_msg, jdwp_process_list. rewrite E1. cbn [res_bind]. split; [done|]. split; [exact Ht|].
  split; [apply unhex_hex4; lia|]. split; [lia|]. intros H. apply Hall; [done|lia].
Qed.

(** A process that announces a negative pid: its socket stays readable for
    ever, but the events for it read nothing, not even its end; each sends the
    list to all trackers again. *)
Theorem negative_pid_spins c st a p f k n : jdwp_wf c st -> j_procs st !! a = Some p -> jp_pid p < 0 -> length (jp_in p) = 4%nat ->
  scan_04x (jp_in p) = Some n -> s32 n = jp_pid p ->
  exists st', jdwp_process_event a FDE_READ f k st = Ok (f, st') /\ j_procs st' = j_procs st /\ j_list st' = j_list st /\ j_ev st' = j_ev st.
Proof.
  intros W Hp Hpid Hin Hscan Hn. unfold jdwp_process_event, read_event, get_proc. change (has FDE_READ FDE_READ) with true. change (has FDE_READ FDE_WRITE) with false. cbv iota. rewrite Hp. cbn [access res_bind].
  rewrite bool_decide_true by done. cbn [recv_pid]. rewrite Hin, bool_decide_false by lia. cbn [res_bind]. rewrite Hscan, Hn.
  assert (put_proc a (with_pid (jp_pid p) (with_in (jp_in p) p)) (put_proc a (with_in (jp_in p) p) st) = st) as ->.
  { unfold put_proc. cbn. destruct p. cbn in *. rewrite insert_insert_eq, insert_id by done. by destruct st. }
  destruct (updated_ok c st W) as (st' & -> & _ & H1 & H2 & H3 & _). cbn [res_bind andb]. eexists. by split.
Qed.
End Proofs.

(** ** A process and a debugger *)

Inductive jdwp_func := jdwp_process_event_func | jdwp_control_event_func.

Definition do_op (o : op) (st : jdwp (F := jdwp_func)) : jdwp :=
  match step jdwp_process_event_func o st with Ok st => st | _ => st end.

Lemma ops_cons o os (st st' : jdwp (F := jdwp_func)) : op_ok o st -> step jdwp_process_event_func o st = Ok st' -> ops_ok jdwp_process_event_func os st' ->
  ops_ok jdwp_process_event_func (o :: os) st.
Proof. intros Ho E Hos. cbn [ops_ok]. rewrite E. done. Qed.

Definition calls_ok : send_calls := SendCalls true true [Some EINTR; None] true.
Definition restore_fails : send_calls := SendCalls true true [None] false.
Definition says (text : bytes) : fdio := Fdio text [] [Xfer 2; Rwx.Fail EINTR; Xfer 9; Rwx.Fail EAGAIN] [].

(** A process with the socket 7 is accepted, announces the pid 1234, which a
    tracker is told, and gets two descriptors to wait for; one is sent. *)
Definition accepts : op := Control FDE_READ [AcceptErr EINTR; AcceptFd 7] 1 1.
Definition announces : op := Event 1 FDE_READ (says (lit "04d2")) calls_ok.
Definition writes : op := Event 1 FDE_WRITE (says []) calls_ok.
Definition session : list op := [accepts; Track 5 9; announces; Connect 1234 (Some (20, 21)); Connect 1234 (Some (22, 23)); writes].

Definition j0 : jdwp (F := jdwp_func) := j_start fd_start.
Definition j1 : jdwp := Eval vm_compute in do_op accepts j0.
Definition j2 : jdwp := Eval vm_compute in do_op (Track 5 9) j1.
Definition j3 : jdwp := Eval vm_compute in do_op announces j2.
Definition j4 : jdwp := Eval vm_compute in do_op (Connect 1234 (Some (20, 21))) j3.
Definition j5 : jdwp := Eval vm_compute in do_op (Connect 1234 (Some (22, 23))) j4.
Definition j6 : jdwp := Eval vm_compute in do_op writes j5.

Ltac has_elem := cbn; repeat first [by left|right].

Lemma session_ok : ops_ok jdwp_process_event_func session j0.
Proof.
  apply (ops_cons _ _ _ j1).
  { split; [exists (AcceptFd 7); split; [has_elem|done]|]. split; [done|]. split; [by intros f Hf|].
    intros s [[= ]|[[= ->]|[]%elem_of_nil]%elem_of_cons]%elem_of_cons. split; [by split|]. by intros x Hx. }
  { vm_compute. reflexivity. }
  apply (ops_cons _ _ _ j2); [by intros []%elem_of_nil|vm_compute; reflexivity|].
  apply (ops_cons _ _ _ j3); [|vm_compute; reflexivity|].
  { split; [by eexists|]. split; [has_elem|]. split; [|done]. exists None. split; [has_elem|done]. }
  apply (ops_cons _ _ _ j4); [done|vm_compute; reflexivity|].
  apply (ops_cons _ _ _ j5); [done|vm_compute; reflexivity|].
  apply (ops_cons _ _ _ j6); [|vm_compute; reflexivity|done].
  split; [by eexists|]. split; [has_elem|]. split; [|done]. exists None. split; [has_elem|done].
Qed.

Lemma descriptors_kept_once_witness : exists st, run jdwp_process_event_func session j0 = Ok st /\ given (j_log st) ++ [] ≡ₚ held st ++ fs_closes (j_ev st).
Proof.
  destruct (descriptors_kept_once jdwp_process_event_func fd_start session start_wf session_ok) as (st & E & _ & H & _). exists st. split; [exact E|exact H].
Defined.

Example session_told : j_log j6 = [Accepted 1 7; Enqueue 9 (lit "00051234" ++ [Byte.x0a]); Paired 1 21; Paired 1 23; Sent 1 21] /\ fs_closes (j_ev j6) = [21] /\ held j6 = [7; 23].
Proof. by vm_compute. Qed.

Lemma j6_wf : jdwp_wf [] j6.
Proof.
  destruct (run_ok jdwp_process_event_func [] session j0 (jdwp_start_ok _ start_wf) session_ok) as (st & E & W).
  assert (run jdwp_process_event_func session j0 = Ok j6) as E' by (vm_compute; reflexivity). rewrite E in E'. injection E' as ->. exact W.
Qed.

Lemma pids_listed_witness : exists k text, jdwp_process_list_msg j6 1024 = Ok (hex4 (Z.of_nat (length text)) ++ text) /\ text = concat (map pid_line (take k [1234])).
Proof. destruct (pids_listed [] j6 1024 j6_wf ltac:(lia) ltac:(lia)) as (k & text & H & Ht & _). exists k, text. split; [exact H|exact Ht]. Defined.

(** When the flags of the socket cannot be restored, the descriptor behind the
    one that was sent is closed twice. *)
Theorem restore_closes_twice : exists st, step jdwp_process_event_func (Event 1 FDE_WRITE (says []) restore_fails) j5 = Ok st /\ fs_closes (j_ev st) = [23; 23; 7; 21].
Proof. eexists. split; vm_compute; reflexivity. Qed.

(** A debugger that asks for the process -1 is connected to one that did not
    announce itself yet. *)
Theorem unannounced_process_found : exists st, create_jdwp_connection_fd (atoi (lit "-1")) (Some (20, 21)) j2 = Ok (20, st) /\ announced st = [] /\ held st = [7; 21].
Proof. eexists. split; [vm_compute; reflexivity|]. split; vm_compute; reflexivity. Qed.

(** The process that announces the pid "-001". *)
Definition j_negative : jdwp := Eval vm_compute in do_op (Event 1 FDE_READ (says (lit "-001")) calls_ok) j2.

Lemma j_negative_wf : jdwp_wf [] j_negative.
Proof.
  destruct (run_ok jdwp_process_event_func [] [accepts; Track 5 9; Event 1 FDE_READ (says (lit "-001")) calls_ok] j0 (jdwp_start_ok _ start_wf)) as (st & E & W).
  - pose proof session_ok as H. cbn [ops_ok session] in H |- *. destruct H as (H1 & H). split; [done|].
    assert (step jdwp_process_event_func accepts j0 = Ok j1) as E1 by (vm_compute; reflexivity). rewrite E1 in *. destruct H as (H2 & _). split; [done|].
    assert (step jdwp_process_event_func (Track 5 9) j1 = Ok j2) as -> by (vm_compute; reflexivity). split; [|by destruct (step _ _ _)].
    split; [by eexists|]. split; [has_elem|]. split; [|done]. exists None. split; [has_elem|done].
  - assert (run jdwp_process_event_func [accepts; Track 5 9; Event 1 FDE_READ (says (lit "-001")) calls_ok] j0 = Ok j_negative) as E' by (vm_compute; reflexivity).
    rewrite E in E'. injection E' as ->. exact W.
Qed.

Lemma negative_pid_spins_witness : exists st, jdwp_process_event 1 FDE_READ (says []) calls_ok j_negative = Ok (says [], st) /\ j_procs st = j_procs j_negative
  /\ j_list st = [1%nat] /\ j_ev st = j_ev j_negative.
Proof.
  apply (negative_pid_spins [] j_negative 1 (JProc (-1) 7 1 (lit "-001") []) (says []) calls_ok 4294967295 j_negative_wf);
    [reflexivity|cbn; lia|reflexivity|reflexivity|reflexivity].
Defined.
