(* ===== verification/Connect.v ===== *)
(** * Connecting to devices (services.c, transport_local.c)

    What the server does for [adb connect] and [adb btconnect]: how the address
    is read, the serial that the device gets, the answer to the client, and the
    table of the emulators that are connected.  The life of a transport after
    its registration is in TransportLife.v; here it has a serial, a port and a
    descriptor, and is on one of the lists. *)

From S2P Require Import Prelude Cstr Numbers Fdevent.

Definition DEFAULT_ADB_LOCAL_TRANSPORT_PORT : Z := 5555.
Definition DEFAULT_BT_PSM : Z := 0x1003.
Definition ADB_LOCAL_TRANSPORT_MAX : nat := 16.
Definition LOCAL_CLIENT_PREFIX : bytes := lit "emulator-".

(** ** Numbers *)

(** [%d] *)
Definition print_int (n : Z) : bytes := if bool_decide (n < 0) then Byte.x2d :: print_dec (- n) else print_dec n.

(** A number of the base that its digits ask for, as a [long] of 32 bits. *)
Definition clamp (neg : bool) (acc : Z) : Z := if neg then Z.max (- acc) (- 2 ^ 31) else Z.min acc (2 ^ 31 - 1).
(** [strtol(s, NULL, 0)] *)
Definition strtol0 (s : bytes) : Z :=
  let '(neg, s) := take_sign (drop_spaces s) in
  let '(base, s) := take_base s in
  let '(acc, _, _) := strtoul_loop base 0 0 false s in clamp neg acc.

(** [sscanf(s, "%d", &n)]: the end of the text, no match, or a number. *)
Inductive scanned := ScanEof | ScanNone | ScanInt (n : Z).
Definition scan_d (s : bytes) : scanned :=
  match drop_spaces s with
  | [] => ScanEof
  | s =>
      let '(neg, s) := take_sign s in
      let '(acc, any, _) := strtoul_loop 10 0 0 false s in
      if bool_decide (any = 0) then ScanNone else ScanInt (clamp neg acc)
  end.

(** ** The transports of sockets *)

Record ltransport := LTransport { lt_serial : option bytes; lt_adb_port : Z; lt_sfd : Z }.

(** The transports that are allocated, [local_transports], and the transports
    that are on [pending_list] or [transport_list], in that order. *)
Record ports := Ports {
  pt_mem : gmap addr ltransport;
  pt_slots : list (option addr);
  pt_listed : list addr;
  pt_closes : list Z
}.
Implicit Types (st : ports) (a : addr).

Definition get_lt st a : res ltransport := access (pt_mem st !! a).
Definition put_lt a (t : ltransport) st : ports := Ports (<[a := t]> (pt_mem st)) (pt_slots st) (pt_listed st) (pt_closes st).
Definition free_lt a st : ports := Ports (delete a (pt_mem st)) (pt_slots st) (pt_listed st) (pt_closes st).
Definition with_slots (l : list (option addr)) st : ports := Ports (pt_mem st) l (pt_listed st) (pt_closes st).
Definition with_listed (l : list addr) st : ports := Ports (pt_mem st) (pt_slots st) l (pt_closes st).
Definition close_socket (fd : Z) st : ports := Ports (pt_mem st) (pt_slots st) (pt_listed st) (fd :: pt_closes st).

(** [find_emulator_transport_by_adb_port] *)
Fixpoint find_port st (slots : list (option addr)) (adb_port : Z) : res (option addr) :=
  match slots with
  | [] => Ok None
  | None :: slots => find_port st slots adb_port
  | Some a :: slots =>
      let* t := get_lt st a in
      if bool_decide (lt_adb_port t = adb_port) then Ok (Some a) else find_port st slots adb_port
  end.

(** [get_available_local_transport_index] *)
Fixpoint free_slot (slots : list (option addr)) : option nat :=
  match slots with
  | [] => None
  | None :: _ => Some 0%nat
  | Some _ :: slots => S <$> free_slot slots
  end.

Definition init_socket_transport a (s adb_port : Z) (local : bool) st : res (Z * ports) :=
  let st := put_lt a (LTransport None 0 s) st in
  if local then
    let st := put_lt a (LTransport None adb_port s) st in
    let* existing := find_port st (pt_slots st) adb_port in
    match existing, free_slot (pt_slots st) with
    | Some _, _ | None, None => Ok (-1, st)
    | None, Some index => Ok (0, with_slots (<[index := Some a]> (pt_slots st)) st)
    end
  else Ok (0, st).

(** Whether a transport that is listed has the serial. *)
Fixpoint serial_taken st (l : list addr) (serial : bytes) : res bool :=
  match l with
  | [] => Ok false
  | a :: l =>
      let* t := get_lt st a in
      if bool_decide (lt_serial t = Some serial) then Ok true else serial_taken st l serial
  end.

(** [register_socket_transport] with a serial; [a] is what [calloc] gives. *)
Definition register_socket_transport a (s : Z) (serial : bytes) (port : Z) (local : bool) st : res (Z * ports) :=
  let* ' (r, st) := init_socket_transport a s port local st in
  if bool_decide (r < 0) then Ok (-1, free_lt a st)
  else
    let* taken := serial_taken st (pt_listed st) serial in
    if taken : bool then Ok (-1, free_lt a st)
    else
      let* t := get_lt st a in
      let st := put_lt a (LTransport (Some serial) (lt_adb_port t) (lt_sfd t)) st in
      Ok (0, with_listed (pt_listed st ++ [a]) st).

Fixpoint clear_slot a (slots : list (option addr)) : list (option addr) :=
  match slots with
  | [] => []
  | x :: slots => if bool_decide (x = Some a) then None :: slots else x :: clear_slot a slots
  end.

Definition remote_kick a st : res ports :=
  let* t := get_lt st a in
  let st := put_lt a (LTransport (lt_serial t) (lt_adb_port t) (-1)) st in
  Ok (with_slots (clear_slot a (pt_slots st)) (close_socket (lt_sfd t) st)).

(** The end of a transport: it was kicked, leaves its list and is freed. *)
Definition transport_ends a st : res ports :=
  let* st := remote_kick a st in
  Ok (free_lt a (with_listed (filter (fun b => b <> a) (pt_listed st)) st)).

(** ** Connecting *)

(** What the operating system does for a connection to a host, over the network
    or over Bluetooth: the descriptor, negative for a failure. *)
Section Connect.
Context (socket_network_client btsocket_network_client : bytes -> Z -> Z) (socket_loopback_client : Z -> Z).

(** [getenv("ADBHOST")] *)
Context (adbhost : option bytes).

Definition local_connect_arbitrary_ports (console_port adb_port : Z) a st : res (Z * ports) :=
  let fd := match adbhost with Some host => socket_network_client host adb_port | None => -1 end in
  let fd := if bool_decide (fd < 0) then socket_loopback_client adb_port else fd in
  if bool_decide (fd >= 0) then
    let* ' (_, st) := register_socket_transport a fd (take 63 (LOCAL_CLIENT_PREFIX ++ print_int console_port)) adb_port true st in
    Ok (0, st)
  else Ok (-1, st).
Definition local_connect (port : Z) a st : res (Z * ports) := local_connect_arbitrary_ports (port - 1) port a st.

(** [snprintf(buffer, 4096, ...)] *)
Definition reply_text (s : bytes) : bytes := take 4095 s.

(** The end of [connect_device] and [btconnect_device]. *)
Definition register_device (serial : bytes) (fd port : Z) a st : res (bytes * ports) :=
  let* ' (ret, st) := register_socket_transport a fd serial port false st in
  Ok (if bool_decide (ret < 0) then (reply_text (lit "already connected to " ++ serial), close_socket fd st)
      else (reply_text (lit "connected to " ++ serial), st)).

(** [snprintf(serial, sizeof(serial), "%s:%d", hostbuf, port)] *)
Definition serial_text (hostbuf : bytes) (port : Z) : bytes := take 99 (hostbuf ++ Byte.x3a :: print_int port).

Definition cannot_connect (host : bytes) (port : Z) : bytes :=
  reply_text (lit "unable to connect to " ++ host ++ Byte.x3a :: print_int port).

(** [hostbuf] has 100 bytes, of which [strncpy] writes 99; without a colon
    nothing else ends a host of 99 characters. *)
Definition connect_device (host : bytes) a st : res (bytes * ports) :=
  let dial hostbuf port :=
    let fd := socket_network_client hostbuf port in
    if bool_decide (fd < 0) then Ok (cannot_connect host port, st)
    else register_device (serial_text hostbuf port) fd port a st in
  match strchr host Byte.x3a with
  | Some (name, portstr) =>
      if bool_decide (100 <= length name)%nat then Ok (reply_text (lit "bad host name " ++ host), st)
      else
        match scan_d portstr with
        | ScanNone => Ok (reply_text (lit "bad port number " ++ Byte.x3a :: portstr), st)
        | ScanEof => Ub   (* port is not initialised *)
        | ScanInt port => dial name port
        end
  | None => if bool_decide (99 <= length host)%nat then Ub else dial host DEFAULT_ADB_LOCAL_TRANSPORT_PORT
  end.

Definition btconnect_device (host : bytes) a st : res (bytes * ports) :=
  if bool_decide (99 <= length host)%nat then Ub
  else
    let port := DEFAULT_BT_PSM in
    let fd := btsocket_network_client host port in
    if bool_decide (fd < 0) then Ok (cannot_connect host port, st)
    else register_device (serial_text host port) fd port a st.

Definition connect_emulator (port_spec : bytes) a st : res (bytes * ports) :=
  match strchr port_spec Byte.x2c with
  | None => Ok (reply_text (lit "unable to parse '" ++ port_spec ++ lit "' as <console port>,<adb port>"), st)
  | Some (first, second) =>
      let console_port := strtol0 first in
      let adb_port := strtol0 second in
      if negb (bool_decide (console_port > 0 /\ adb_port > 0)) then
        Ok (reply_text (lit "Invalid port numbers: Expected positive numbers, got '" ++ port_spec ++ lit "'"), st)
      else
        let* known_emulator := find_port st (pt_slots st) adb_port in
        match known_emulator with
        | Some _ => Ok (reply_text (lit "Emulator on port " ++ print_int adb_port ++ lit " already registered."), st)
        | None =>
            match free_slot (pt_slots st) with
            | None => Ok (reply_text (lit "Cannot accept more emulators."), st)
            | Some _ =>
                let* ' (r, st) := local_connect_arbitrary_ports console_port adb_port a st in
                let on_ports := lit " emulator on ports " ++ print_int console_port ++ Byte.x2c :: print_int adb_port in
                Ok (if bool_decide (r = 0) then (reply_text (lit "Connected to" ++ on_ports), st)
                    else (reply_text (lit "Could not connect to" ++ on_ports), st))
            end
        end
  end.

(** [snprintf(resp, sizeof(resp), "%04x%s", strlen(buf), buf)] *)
Definition response (buf : bytes) : bytes := take 4095 (hex4 (Z.of_nat (length buf)) ++ buf).

(** What [connect_service] and [btconnect_service] write to the client. *)
Definition connect_service (host : bytes) a st : res (bytes * ports) :=
  let* ' (buf, st) := if starts_with (lit "emu:") host then connect_emulator (drop 4 host) a st else connect_device host a st in
  Ok (response buf, st).
Definition btconnect_service (host : bytes) a st : res (bytes * ports) :=
  let* ' (buf, st) := btconnect_device host a st in Ok (response buf, st).

End Connect.

(** * Theorems *)

(** ** Numbers *)

Lemma print_int_nonneg n : 0 <= n -> print_int n = print_dec n.
Proof. intros H. unfold print_int. by rewrite bool_decide_false by lia. Qed.

Lemma print_int_inj n m : 0 <= n < 2 ^ 31 -> 0 <= m < 2 ^ 31 -> print_int n = print_int m -> n = m.
Proof.
  intros Hn Hm. rewrite !print_int_nonneg by lia. intros H. pose proof (strtoul_print_dec n ltac:(lia)) as E. rewrite H, strtoul_print_dec in E by lia. congruence.
Qed.

Lemma digit_not_space b s : is_digit b -> drop_spaces (b :: s) = b :: s /\ take_sign (b :: s) = (false, b :: s).
Proof. destruct b; intros H; try (exfalso; revert H; unfold is_digit; vm_compute; intuition congruence); by split. Qed.

(** What [%d] prints, [sscanf] reads. *)
Lemma scan_print n : 0 <= n < 2 ^ 31 -> scan_d (print_int n) = ScanInt n.
Proof.
  intros Hn. rewrite print_int_nonneg by lia. unfold print_dec. destruct (dec_digits_spec 10 n []) as (b & ds & Heq & Hds & Hv & _); [lia..|].
  rewrite app_nil_r in Heq. rewrite Heq. destruct (digit_not_space b ds (Forall_inv Hds)) as [Hs Hsign]. unfold scan_d. rewrite Hs, Hsign.
  rewrite strtoul_loop_digits; [|done|lia..|unfold ULONG_MAX; lia]. rewrite decide_False by done. rewrite bool_decide_false by lia. rewrite Hv. unfold clamp. f_equal. lia.
Qed.

(** ** The table of emulators *)

(** The serial of the emulator with this console port. *)
Definition emulator_serial (console_port : Z) : bytes := LOCAL_CLIENT_PREFIX ++ print_int console_port.

(** Serials of devices: they have a colon, or are cut. *)
Definition device_serial (s : bytes) : Prop := Byte.x3a ∈ s \/ length s = 99%nat.

(** Transports that are allocated are listed, with serials of their own; those
    of emulators are in the table, once, with a port of their own. *)
Record ports_ok st : Prop := PortsOk {
  po_len : length (pt_slots st) = ADB_LOCAL_TRANSPORT_MAX;
  po_nodup : NoDup (pt_listed st);
  po_mem a : a ∈ pt_listed st <-> is_Some (pt_mem st !! a);
  po_serial a t : pt_mem st !! a = Some t -> exists s, lt_serial t = Some s
    /\ if decide (lt_adb_port t = 0) then device_serial s else 0 < lt_adb_port t < 2 ^ 31 /\ exists c, 0 <= c < 2 ^ 31 /\ s = emulator_serial c;
  po_slot a : Some a ∈ pt_slots st <-> exists t, pt_mem st !! a = Some t /\ lt_adb_port t <> 0;
  po_once i j a : pt_slots st !! i = Some (Some a) -> pt_slots st !! j = Some (Some a) -> i = j;
  po_unique a b ta tb : pt_mem st !! a = Some ta -> pt_mem st !! b = Some tb -> lt_serial ta = lt_serial tb -> a = b;
  po_port a b ta tb : pt_mem st !! a = Some ta -> pt_mem st !! b = Some tb -> lt_adb_port ta <> 0 -> lt_adb_port ta = lt_adb_port tb -> a = b
}.

Lemma emulator_serial_kind p : 0 <= p < 2 ^ 31 -> ~ device_serial (emulator_serial p) /\ (length (emulator_serial p) <= 19)%nat.
Proof.
  intros Hp. unfold emulator_serial. rewrite print_int_nonneg by lia. destruct (print_dec_digits p ltac:(lia)) as [Hd Hl].
  assert (length (LOCAL_CLIENT_PREFIX ++ print_dec p) <= 19)%nat as H19 by (rewrite length_app; change (length LOCAL_CLIENT_PREFIX) with 9%nat; lia).
  split; [|done]. intros [Hc|Hc]; [|lia]. apply elem_of_app in Hc as [Hc|Hc].
  - revert Hc. vm_compute. set_solver.
  - rewrite Forall_forall in Hd. specialize (Hd _ Hc). unfold is_digit in Hd. change (ub Byte.x3a) with 58 in Hd. lia.
Qed.

Lemma find_port_ok st p : forall slots, (forall a, Some a ∈ slots -> is_Some (pt_mem st !! a)) ->
  exists o, find_port st slots p = Ok o /\ match o with
    | Some a => Some a ∈ slots /\ exists t, pt_mem st !! a = Some t /\ lt_adb_port t = p
    | None => forall a t, Some a ∈ slots -> pt_mem st !! a = Some t -> lt_adb_port t <> p
    end.
Proof.
  induction slots as [|[a|] slots IH]; intros Hs; cbn [find_port].
  - exists None. split; [done|]. by intros a t ?%elem_of_nil.
  - destruct (Hs a) as [t Ht]; [by left|]. unfold get_lt. rewrite Ht. cbn [access res_bind]. case_bool_decide as Hp.
    + exists (Some a). split; [done|]. split; [by left|eauto].
    + destruct IH as (o & -> & Ho); [intros b Hb; apply Hs; by right|]. exists o. split; [done|]. destruct o as [b|].
      * destruct Ho as [Hb Hbt]. split; [by right|done].
      * intros b tb [[= ->]|Hb]%elem_of_cons Hbt; [congruence|by eapply Ho].
  - destruct IH as (o & -> & Ho); [intros b Hb; apply Hs; by right|]. exists o. split; [done|]. destruct o as [b|].
    + destruct Ho as [Hb Hbt]. split; [by right|done].
    + intros b tb [[= ]|Hb]%elem_of_cons Hbt. by eapply Ho.
Qed.

Lemma serial_taken_ok st s : forall l, (forall a, a ∈ l -> is_Some (pt_mem st !! a)) ->
  exists b, serial_taken st l s = Ok b /\ (b = true <-> exists a t, a ∈ l /\ pt_mem st !! a = Some t /\ lt_serial t = Some s).
Proof.
  induction l as [|a l IH]; intros Hl; cbn [serial_taken]; [exists false; split; [done|]; split; [done|by intros (? & ? & ?%elem_of_nil & _)]|].
  destruct (Hl a) as [t Ht]; [by left|]. unfold get_lt. rewrite Ht. cbn [access res_bind]. case_bool_decide as Hs.
  - exists true. split; [done|]. split; [|done]. intros _. exists a, t. split; [by left|done].
  - destruct IH as (b & -> & Hb); [intros x Hx; apply Hl; by right|]. exists b. split; [done|]. rewrite Hb. split.
    + intros (x & tx & Hx & H). exists x, tx. split; [by right|done].
    + intros (x & tx & [->|Hx]%elem_of_cons & Hxt & Hxs); [congruence|]. by exists x, tx.
Qed.

Lemma free_slot_ok slots : match free_slot slots with Some i => slots !! i = Some None | None => None ∉ slots end.
Proof.
  induction slots as [|[a|] slots IH]; cbn [free_slot]; [apply not_elem_of_nil| |done]. destruct (free_slot slots) as [i|]; [done|].
  cbn. apply not_elem_of_cons. done.
Qed.

(** Nothing changes for an allocation that is freed again. *)
Lemma put_free st a t : pt_mem st !! a = None -> free_lt a (put_lt a t st) = st.
Proof. intros H. unfold free_lt, put_lt. cbn. rewrite delete_insert_id by done. by destruct st. Qed.

Lemma fresh_unlisted st a : ports_ok st -> pt_mem st !! a = None -> a ∉ pt_listed st /\ Some a ∉ pt_slots st.
Proof.
  intros P Ha. split; [intros Hin; apply (po_mem _ P) in Hin as [? ?]; congruence|]. intros Hin. apply (po_slot _ P) in Hin as (? & ? & _). congruence.
Qed.

(** The slots with a new transport. *)
Definition put_slot (i : option nat) a (slots : list (option addr)) : list (option addr) := match i with Some i => <[i := Some a]> slots | None => slots end.

Lemma put_slot_elem i a x slots : match i with Some i => slots !! i = Some None | None => True end ->
  Some x ∈ put_slot i a slots <-> Some x ∈ slots \/ x = a /\ i <> None.
Proof.
  intros Hi. destruct i as [i|]; cbn; [|split; [by left|by intros [?|[_ []]]]]. split.
  - intros (j & Hj)%list_elem_of_lookup. apply list_lookup_insert_Some in Hj as [(_ & [= ->] & _)|[_ Hj]]; [by right|left; by eapply list_elem_of_lookup_2].
  - intros [(j & Hj)%list_elem_of_lookup|[-> _]]; apply list_elem_of_lookup.
    + exists j. rewrite list_lookup_insert_ne; [done|]. intros <-. congruence.
    + exists i. apply list_lookup_insert_eq. by eapply lookup_lt_Some.
Qed.

(** A transport with a new serial is listed, an emulator in a free slot. *)
Lemma add_ok st a s port fd i : ports_ok st -> pt_mem st !! a = None -> (forall x t, pt_mem st !! x = Some t -> lt_serial t <> Some s) ->
  match i with
  | Some i => pt_slots st !! i = Some None /\ 0 < port < 2 ^ 31 /\ (exists c, 0 <= c < 2 ^ 31 /\ s = emulator_serial c)
      /\ forall x t, pt_mem st !! x = Some t -> lt_adb_port t <> port
  | None => port = 0 /\ device_serial s
  end ->
  ports_ok (Ports (<[a := LTransport (Some s) port fd]> (pt_mem st)) (put_slot i a (pt_slots st)) (pt_listed st ++ [a]) (pt_closes st)).
Proof.
  intros P Ha Hs Hi. destruct (fresh_unlisted st a P Ha) as [Hnl Hns].
  assert (forall x, Some x ∈ put_slot i a (pt_slots st) <-> Some x ∈ pt_slots st \/ x = a /\ i <> None) as Hslot by (intros x; apply put_slot_elem; by destruct i; [apply Hi|]).
  split; cbn [pt_mem pt_slots pt_listed].
  - destruct i; cbn; [rewrite length_insert|]; apply P.
  - apply NoDup_app. split; [apply P|]. split; [|apply NoDup_singleton]. by intros x Hx ->%list_elem_of_singleton.
  - intros x. rewrite elem_of_app, list_elem_of_singleton, (po_mem _ P). destruct (decide (a = x)) as [<-|]; [rewrite lookup_insert_eq|rewrite lookup_insert_ne by done]; split; eauto. intros [?| ->]; done.
  - intros x t. destruct (decide (a = x)) as [<-|]; [rewrite lookup_insert_eq; intros [= <-]|rewrite lookup_insert_ne by done; apply P].
    exists s. split; [done|]. cbn. destruct i; [destruct Hi as (_ & Hp & Hk & _); by rewrite decide_False by lia|destruct Hi as [-> Hk]; by rewrite decide_True].
  - intros x. rewrite Hslot, (po_slot _ P). destruct (decide (a = x)) as [<-|]; [rewrite lookup_insert_eq|rewrite lookup_insert_ne by done; split; [by intros [?|[-> _]]|by left]].
    split; [intros [(? & ? & _)|[_ Hn]]; [congruence|]|intros (t & [= <-] & Hp); right; split; [done|]].
    + eexists. split; [done|]. cbn. destruct i; [destruct Hi as (_ & Hp & _); lia|done].
    + destruct i; [done|]. by destruct Hi.
  - intros j k x. destruct i as [i|]; cbn; [|by apply (po_once _ P)]. intros [(<- & [= <-] & _)|[Hij Hj]]%list_lookup_insert_Some [(<- & Hx & _)|[Hik Hk]]%list_lookup_insert_Some; try done.
    + destruct Hns. by eapply list_elem_of_lookup_2.
    + injection Hx as ->. destruct Hns. by eapply list_elem_of_lookup_2.
    + by eapply (po_once _ P).
  - intros x y tx ty. destruct (decide (a = x)) as [<-|], (decide (a = y)) as [<-|]; rewrite ?lookup_insert_eq, ?lookup_insert_ne by done; [done| | |apply P].
    + intros [= <-] Hy Hs'. by destruct (Hs y ty Hy).
    + intros Hx [= <-] Hs'. by destruct (Hs x tx Hx).
  - intros x y tx ty. destruct (decide (a = x)) as [<-|], (decide (a = y)) as [<-|]; rewrite ?lookup_insert_eq, ?lookup_insert_ne by done; [done| | |apply P]; destruct i as [i|].
    + intros [= <-] Hy _ Hs'. cbn in Hs'. destruct Hi as (_ & _ & _ & Hi). by destruct (Hi y ty Hy).
    + intros [= <-] _ Hz. by destruct Hi as [-> _].
    + intros Hx [= <-] _ Hs'. cbn in Hs'. destruct Hi as (_ & _ & _ & Hi). by destruct (Hi x tx Hx).
    + intros _ [= <-] Hz Hs'. cbn in Hs'. destruct Hi as [-> _]. done.
Qed.

(** Looking for a port is looking at all transports. *)
Lemma port_known st st' p : ports_ok st -> 0 < p -> (forall x, is_Some (pt_mem st !! x) -> pt_mem st' !! x = pt_mem st !! x) ->
  exists o, find_port st' (pt_slots st) p = Ok o /\ (o = None <-> forall x t, pt_mem st !! x = Some t -> lt_adb_port t <> p).
Proof.
  intros P Hp Hst. assert (forall a, Some a ∈ pt_slots st -> exists t, pt_mem st !! a = Some t /\ pt_mem st' !! a = Some t) as Hs.
  { intros a Ha. apply (po_slot _ P) in Ha as (t & Ht & Hz). exists t. rewrite Hst by eauto. done. }
  destruct (find_port_ok st' p (pt_slots st)) as (o & -> & Ho); [intros a Ha; destruct (Hs a Ha) as (t & _ & Ht); eauto|]. exists o. split; [done|]. destruct o as [a|]; (split; [try done|]).
  - intros Hn. destruct Ho as (Ha & t & Ht & Hport). destruct (Hs a Ha) as (t' & Hm & Ht'). assert (t' = t) as -> by congruence. by destruct (Hn a t Hm).
  - intros _ a t Ha Hport. apply (Ho a t); [apply (po_slot _ P); exists t; split; [done|lia]|rewrite Hst; eauto|done].
  - done.
Qed.

Lemma taken_ok st st' s : ports_ok st -> (forall x, is_Some (pt_mem st !! x) -> pt_mem st' !! x = pt_mem st !! x) ->
  exists b, serial_taken st' (pt_listed st) s = Ok b /\ (b = false <-> forall x t, pt_mem st !! x = Some t -> lt_serial t <> Some s).
Proof.
  intros P Hst. destruct (serial_taken_ok st' s (pt_listed st)) as (b & -> & Hb); [intros x Hx; apply (po_mem _ P) in Hx; rewrite Hst; done|]. exists b. split; [done|]. split.
  - intros -> x t Hx Hs. assert (false = true); [|done]. apply Hb. exists x, t. split; [apply (po_mem _ P); eauto|]. rewrite Hst by eauto. done.
  - intros Hn. destruct b; [|done]. destruct (proj1 Hb eq_refl) as (x & t & Hx & Ht & Hs). apply (po_mem _ P) in Hx. rewrite Hst in Ht by done. by destruct (Hn x t Ht).
Qed.

Definition new_serial st (s : bytes) : Prop := forall x t, pt_mem st !! x = Some t -> lt_serial t <> Some s.

(** The emulator that has this console port, if there is one, has this port. *)
Definition console_free st (console_port adb_port : Z) : Prop :=
  forall x t, pt_mem st !! x = Some t -> lt_serial t = Some (emulator_serial console_port) -> lt_adb_port t = adb_port.

(** What is registered: a serial that is new, of an emulator if there is room
    and its port is new. *)
Lemma register_ok st a fd s port (local : bool) : ports_ok st -> pt_mem st !! a = None ->
  (if local then 0 < port < 2 ^ 31 /\ exists c, 0 <= c < 2 ^ 31 /\ s = emulator_serial c /\ console_free st c port else device_serial s) ->
  exists r st', register_socket_transport a fd s port local st = Ok (r, st') /\ ports_ok st'
  /\ ((r = -1 /\ st' = st /\ (new_serial st s -> local = true)) \/
      (r = 0 /\ new_serial st s /\ pt_listed st' = pt_listed st ++ [a] /\ pt_mem st' = <[a := LTransport (Some s) (if local then port else 0) fd]> (pt_mem st) /\ pt_closes st' = pt_closes st)).
Proof.
  intros P Ha Hk. unfold register_socket_transport, init_socket_transport. set (t0 := LTransport None (if local then port else 0) fd).
  assert (forall x, is_Some (pt_mem st !! x) -> <[a := t0]> (pt_mem st) !! x = pt_mem st !! x) as Hst by (intros x [t Ht]; apply lookup_insert_ne; intros <-; congruence).
  destruct local.
  - destruct Hk as [Hp (c & Hc & -> & Hfree)]. change (LTransport None port fd) with t0. assert (put_lt a t0 (put_lt a (LTransport None 0 fd) st) = put_lt a t0 st) as -> by (unfold put_lt; cbn; by rewrite insert_insert_eq).
    destruct (port_known st (put_lt a t0 st) port P ltac:(lia) Hst) as (o & Eo & Ho). cbn [pt_slots put_lt] in *. rewrite Eo. cbn [res_bind].
    destruct o as [b|]; [|pose proof (proj1 Ho eq_refl) as Hport; pose proof (free_slot_ok (pt_slots st)) as Hf; destruct (free_slot (pt_slots st)) as [i|]].
    1,3: change (bool_decide (-1 < 0)) with true; cbn [res_bind]; cbv iota; rewrite put_free by done; eexists _, _; split; [reflexivity|]; split; [done|]; left; done.
    assert (new_serial st (emulator_serial c)) as Hnew by (intros x t Hx Hs; by destruct (Hport x t Hx), (Hfree x t Hx Hs)).
    cbn [res_bind]. change (bool_decide (0 < 0)) with false. cbv iota. set (st1 := with_slots _ _). destruct (taken_ok st st1 (emulator_serial c) P Hst) as (b & Eb & Hb).
    change (pt_listed st1) with (pt_listed st). rewrite Eb. cbn [res_bind]. rewrite (proj2 Hb Hnew). unfold get_lt. cbn [pt_mem with_slots put_lt st1]. rewrite lookup_insert_eq.
    cbn [access res_bind]. unfold put_lt, with_listed. cbn. rewrite insert_insert_eq. eexists _, _. split; [reflexivity|]. split; [|right; done].
    apply (add_ok st a _ port fd (Some i)); [done..|]. split_and!; [done|lia|lia|by exists c|done].
  - cbn [res_bind]. change (bool_decide (0 < 0)) with false. cbv iota. destruct (taken_ok st (put_lt a t0 st) s P Hst) as (b & Eb & Hb).
    cbn [pt_listed put_lt] in *. change (LTransport None 0 fd) with t0. rewrite Eb. cbn [res_bind]. destruct b.
    { rewrite put_free by done. eexists _, _. split; [reflexivity|]. split; [done|]. left. split; [done|]. split; [done|]. intros Hn. by apply Hb in Hn. }
    unfold get_lt. cbn [pt_mem put_lt]. rewrite lookup_insert_eq. cbn [access res_bind]. unfold put_lt, with_listed. cbn. rewrite insert_insert_eq.
    eexists _, _. split; [reflexivity|]. split; [|right; split; [done|]; split; [exact (proj1 Hb eq_refl)|done]].
    apply (add_ok st a s 0 fd None P Ha (proj1 Hb eq_refl)). done.
Qed.

(** ** Connections *)

Lemma clear_slot_lookup a slots : (forall i j, slots !! i = Some (Some a) -> slots !! j = Some (Some a) -> i = j) ->
  forall i, clear_slot a slots !! i = if decide (slots !! i = Some (Some a)) then Some None else slots !! i.
Proof.
  induction slots as [|x slots IH]; intros Hone i; [done|]. cbn [clear_slot]. case_bool_decide as Hx.
  - subst x. destruct i as [|i]; cbn; [by rewrite decide_True|]. rewrite decide_False; [done|]. intros Hi. by specialize (Hone 0%nat (S i) eq_refl Hi).
  - destruct i as [|i]; cbn; [rewrite decide_False; [done|congruence]|]. apply IH. intros j k Hj Hk. specialize (Hone (S j) (S k) Hj Hk). lia.
Qed.

Lemma clear_slot_length a slots : length (clear_slot a slots) = length slots.
Proof. induction slots as [|x slots IH]; [done|]. cbn. case_bool_decide; cbn; congruence. Qed.

(** A transport that ends leaves no trace. *)
Lemma ends_ok st b t : ports_ok st -> pt_mem st !! b = Some t -> exists st', transport_ends b st = Ok st' /\ ports_ok st' /\ pt_mem st' = delete b (pt_mem st).
Proof.
  intros P Hb. unfold transport_ends, remote_kick, get_lt. rewrite Hb. cbn [access res_bind]. eexists. split; [reflexivity|]. cbn. split; [|by rewrite delete_insert_eq].
  assert (forall i, clear_slot b (pt_slots st) !! i = if decide (pt_slots st !! i = Some (Some b)) then Some None else pt_slots st !! i) as Hlook
    by (apply clear_slot_lookup; intros i j; by apply (po_once _ P)).
  assert (forall x, Some x ∈ clear_slot b (pt_slots st) <-> Some x ∈ pt_slots st /\ x <> b) as Hslot.
  { intros x. split.
    - intros (i & Hi)%list_elem_of_lookup. rewrite Hlook in Hi. case_decide as Hd; [done|]. split; [by eapply list_elem_of_lookup_2|]. by intros ->.
    - intros [(i & Hi)%list_elem_of_lookup Hne]. apply list_elem_of_lookup. exists i. rewrite Hlook, decide_False; [done|]. congruence. }
  unfold free_lt, with_listed, with_slots, close_socket, put_lt. cbn. rewrite delete_insert_eq. split; cbn [pt_mem pt_slots pt_listed].
  - rewrite clear_slot_length. apply P.
  - apply NoDup_filter, P.
  - intros x. rewrite list_elem_of_filter, (po_mem _ P). destruct (decide (x = b)) as [->|]; [rewrite lookup_delete_eq|rewrite lookup_delete_ne by done; naive_solver]. split; [by intros []|by intros []].
  - intros x tx [_ Hx]%lookup_delete_Some. by apply (po_serial _ P x).
  - intros x. rewrite Hslot, (po_slot _ P). setoid_rewrite lookup_delete_Some. naive_solver.
  - intros i j x. rewrite !Hlook. do 2 case_decide; try done. by apply (po_once _ P).
  - intros x y tx ty [_ Hx]%lookup_delete_Some [_ Hy]%lookup_delete_Some. by apply (po_unique _ P x y).
  - intros x y tx ty [_ Hx]%lookup_delete_Some [_ Hy]%lookup_delete_Some. by apply (po_port _ P x y).
Qed.

Lemma device_serial_text hostbuf port : (length hostbuf <= 99)%nat -> device_serial (serial_text hostbuf port).
Proof.
  intros Hl. unfold serial_text. destruct (decide (length hostbuf = 99)%nat) as [He|He].
  - right. rewrite length_take, length_app. cbn. lia.
  - left. rewrite take_app, take_ge by lia. apply elem_of_app. right. destruct (99 - length hostbuf)%nat eqn:E1; [lia|]. cbn. by left.
Qed.

Section Connections.
Context (net bt : bytes -> Z -> Z) (loopback : Z -> Z) (adbhost : option bytes).

(** The port of an address is read, and its host fits. *)
Definition readable (host : bytes) : Prop :=
  match strchr host Byte.x3a with
  | Some (name, portstr) => (100 <= length name)%nat \/ scan_d portstr <> ScanEof
  | None => (length host < 99)%nat
  end.

Lemma register_device_ok st a serial fd port : ports_ok st -> pt_mem st !! a = None -> device_serial serial ->
  exists buf st', register_device serial fd port a st = Ok (buf, st') /\ ports_ok st'
  /\ ((new_serial st serial /\ buf = reply_text (lit "connected to " ++ serial) /\ pt_mem st' = <[a := LTransport (Some serial) 0 fd]> (pt_mem st) /\ pt_closes st' = pt_closes st)
      \/ (~ new_serial st serial /\ buf = reply_text (lit "already connected to " ++ serial) /\ st' = close_socket fd st)).
Proof.
  intros P Ha Hs. unfold register_device. destruct (register_ok st a fd serial port false P Ha Hs) as (r & st' & -> & P' & [(-> & -> & Hn)|(-> & Hn & _ & Hm & Hc)]); cbn [res_bind].
  - eexists _, _. split; [reflexivity|]. split; [by destruct P; split|]. right. split; [|done]. intros Hnew. by specialize (Hn Hnew).
  - eexists _, _. split; [reflexivity|]. split; [done|]. left. done.
Qed.

Lemma connect_device_ok st a host : ports_ok st -> pt_mem st !! a = None -> readable host ->
  exists buf st', connect_device net host a st = Ok (buf, st') /\ ports_ok st'.
Proof.
  intros P Ha. unfold readable, connect_device.
  assert (forall name port, (length name <= 99)%nat -> exists buf st', (if bool_decide (net name port < 0) then Ok (cannot_connect host port, st)
    else register_device (serial_text name port) (net name port) port a st) = Ok (buf, st') /\ ports_ok st') as Hdial.
  { intros name port Hl. case_bool_decide; [by eexists _, _|]. destruct (register_device_ok st a (serial_text name port) (net name port) port P Ha) as (buf & st' & E & P' & _);
      [by apply device_serial_text|]. by eexists _, _. }
  destruct (strchr host Byte.x3a) as [[name portstr]|].
  - intros Hr. case_bool_decide as Hl; [by eexists _, _|]. destruct Hr as [?|Hr]; [lia|]. destruct (scan_d portstr); [done|by eexists _, _|apply Hdial; lia].
  - intros Hl. rewrite bool_decide_false by lia. apply Hdial. lia.
Qed.

Lemma btconnect_device_ok st a host : ports_ok st -> pt_mem st !! a = None -> (length host < 99)%nat ->
  exists buf st', btconnect_device bt host a st = Ok (buf, st') /\ ports_ok st'.
Proof.
  intros P Ha Hl. unfold btconnect_device. rewrite bool_decide_false by lia. case_bool_decide; [by eexists _, _|].
  destruct (register_device_ok st a (serial_text host DEFAULT_BT_PSM) (bt host DEFAULT_BT_PSM) DEFAULT_BT_PSM P Ha) as (buf & st' & E & P' & _); [apply device_serial_text; lia|]. by eexists _, _.
Qed.

Lemma emulator_ok st a console_port adb_port : ports_ok st -> pt_mem st !! a = None -> 0 <= console_port < 2 ^ 31 -> 0 < adb_port < 2 ^ 31 -> console_free st console_port adb_port ->
  exists r st', local_connect_arbitrary_ports net loopback adbhost console_port adb_port a st = Ok (r, st') /\ ports_ok st'.
Proof.
  intros P Ha Hc Hp Hf. unfold local_connect_arbitrary_ports. case_bool_decide; [|by eexists _, _].
  assert (take 63 (LOCAL_CLIENT_PREFIX ++ print_int console_port) = emulator_serial console_port) as ->.
  { apply take_ge. pose proof (proj2 (emulator_serial_kind console_port Hc)). unfold emulator_serial in *. lia. }
  edestruct (register_ok st a) as (r & st' & -> & P' & _); [done|done| |by eexists _, _]. split; [done|]. by exists console_port.
Qed.

(** What [strtol] reads is below [LONG_MAX]. *)
Lemma strtoul_loop_nonneg base : forall s acc any e, 0 <= acc -> 0 <= (strtoul_loop base acc any e s).1.1.
Proof.
  induction s as [|b s IH]; intros acc any e Ha; cbn [strtoul_loop]; [done|]. destruct (digit_value b); [|done]. repeat case_bool_decide; [done|by apply IH| |].
  - apply IH. unfold ULONG_MAX. lia.
  - apply IH. unfold u32. apply Z.mod_pos_bound. lia.
Qed.

Lemma strtol0_bound s : strtol0 s < 2 ^ 31.
Proof.
  unfold strtol0. destruct (take_sign _) as [neg s1]. destruct (take_base s1) as [base s2]. pose proof (strtoul_loop_nonneg base s2 0 0 false ltac:(lia)) as H.
  destruct (strtoul_loop base 0 0 false s2) as [[acc any] e]. cbn in H. unfold clamp. destruct neg; lia.
Qed.

(** The ports of [emu:<console port>,<adb port>]. *)
Definition ports_free st (port_spec : bytes) : Prop :=
  match strchr port_spec Byte.x2c with
  | Some (first, second) => console_free st (strtol0 first) (strtol0 second)
  | None => True
  end.

Lemma connect_emulator_ok st a port_spec : ports_ok st -> pt_mem st !! a = None -> ports_free st port_spec ->
  exists buf st', connect_emulator net loopback adbhost port_spec a st = Ok (buf, st') /\ ports_ok st'.
Proof.
  intros P Ha Hf. unfold connect_emulator, ports_free in *. destruct (strchr port_spec Byte.x2c) as [[first second]|]; [|by eexists _, _].
  case_bool_decide as Hpos; cbn [negb]; [|by eexists _, _]. pose proof (strtol0_bound first). pose proof (strtol0_bound second).
  destruct (port_known st st (strtol0 second) P) as (o & -> & _); [lia|done|]. cbn [res_bind]. destruct o; [by eexists _, _|]. destruct (free_slot _); [|by eexists _, _].
  destruct (emulator_ok st a (strtol0 first) (strtol0 second) P Ha) as (r & st' & -> & P'); [lia..|done|]. cbn [res_bind]. case_bool_decide; by eexists _, _.
Qed.

(** *** In any order *)

Inductive action := ConnectTo (host : bytes) | BtConnectTo (host : bytes) | NewEmulator (port : Z) | Ends (t : addr).
Definition act (x : action) a st : res ports :=
  match x with
  | ConnectTo host => let* ' (_, st) := connect_service net loopback adbhost host a st in Ok st
  | BtConnectTo host => let* ' (_, st) := btconnect_service bt host a st in Ok st
  | NewEmulator port => let* ' (_, st) := local_connect net loopback adbhost port a st in Ok st
  | Ends t => transport_ends t st
  end.
Definition act_ok (x : action) a st : Prop :=
  match x with
  | ConnectTo host => pt_mem st !! a = None /\ if starts_with (lit "emu:") host then ports_free st (drop 4 host) else readable host
  | BtConnectTo host => pt_mem st !! a = None /\ (length host < 99)%nat
  | NewEmulator port => pt_mem st !! a = None /\ 0 < port < 2 ^ 31 /\ console_free st (port - 1) port
  | Ends t => is_Some (pt_mem st !! t)
  end.
Fixpoint acts (l : list (action * addr)) st : res ports :=
  match l with [] => Ok st | (x, a) :: l => let* st := act x a st in acts l st end.
Fixpoint acts_ok (l : list (action * addr)) st : Prop :=
  match l with [] => True | (x, a) :: l => act_ok x a st /\ match act x a st with Ok st => acts_ok l st | _ => True end end.

Lemma act_keeps x a st : ports_ok st -> act_ok x a st -> exists st', act x a st = Ok st' /\ ports_ok st'.
Proof.
  intros P Hx. destruct x as [host|host|port|t]; cbn [act act_ok] in *.
  - destruct Hx as (Ha & Hr). unfold connect_service. destruct (starts_with _ host).
    + destruct (connect_emulator_ok st a (drop 4 host) P Ha Hr) as (buf & st' & -> & P'). by eexists.
    + destruct (connect_device_ok st a host P Ha Hr) as (buf & st' & -> & P'). by eexists.
  - destruct Hx as (Ha & Hl). unfold btconnect_service. destruct (btconnect_device_ok st a host P Ha Hl) as (buf & st' & -> & P'). by eexists.
  - destruct Hx as (Ha & Hp & Hf). unfold local_connect. destruct (emulator_ok st a (port - 1) port P Ha) as (r & st' & -> & P'); [lia|lia|done|]. by eexists.
  - destruct Hx as [u Hu]. destruct (ends_ok st t u P Hu) as (st' & E & P' & _). by eexists.
Qed.

Definition no_ports : ports := Ports ∅ (replicate ADB_LOCAL_TRANSPORT_MAX None) [] [].

Lemma no_ports_ok : ports_ok no_ports.
Proof.
  split; try done.
  - apply NoDup_nil_2.
  - intros a. cbn. rewrite lookup_empty. split; [by intros ?%elem_of_nil|by intros []].
  - intros a. split; [intros (i & [? _]%lookup_replicate)%list_elem_of_lookup; done|by intros (t & Ht & _)].
  - intros i j a Hi. by apply lookup_replicate in Hi as [? _].
Qed.

(** C36: Devices and emulators that are connected ([connect <host>:<port>],
    [connect emu:<console port>,<adb port>], Bluetooth), emulators that come up,
    and transports that end, in any order: no freed transport is ever looked
    at, there are at most 16 emulators, each with a port of its own, every
    transport is listed once, and no two have the same serial.  This is as long
    as no emulator comes with the console port of another one and a different
    port ([emulator_freed_in_table] is what happens then), and no host is of 99
    characters or has nothing that can be read behind its colon
    ([port_not_read]). *)
Theorem ports_kept l : acts_ok l no_ports -> exists st, acts l no_ports = Ok st /\ ports_ok st.
Proof.
  assert (forall l st, ports_ok st -> acts_ok l st -> exists st', acts l st = Ok st' /\ ports_ok st') as H; [|intros Hl; by apply H, Hl; apply no_ports_ok].
  clear l. induction l as [|[x a] l IH]; intros st P Hl; cbn [acts acts_ok] in *; [by exists st|]. destruct Hl as [Hx Hl].
  destruct (act_keeps x a st P Hx) as (st1 & E1 & P1). rewrite E1 in *. cbn [res_bind]. by apply IH.
Qed.

(** [adb connect <name>:<port>]: the connection is made to that host and port,
    and the device is called by exactly this text, which the client is told,
    behind its length; a second connection is refused, and its socket closed. *)
Theorem device_named st a name port : ports_ok st -> pt_mem st !! a = None -> Byte.x3a ∉ name -> starts_with (lit "emu:") (name ++ Byte.x3a :: print_int port) = false -> (length name <= 88)%nat -> 0 <= port < 2 ^ 31 ->
  let host := name ++ Byte.x3a :: print_int port in
  exists buf st', connect_service net loopback adbhost host a st = Ok (response buf, st') /\ ports_ok st'
  /\ unhex (response buf) 4 = Ok (Z.of_nat (length buf)) /\ drop 4 (response buf) = buf
  /\ (net name port < 0 -> buf = lit "unable to connect to " ++ host ++ Byte.x3a :: print_int port /\ st' = st)
  /\ (0 <= net name port -> new_serial st host -> buf = lit "connected to " ++ host /\ pt_mem st' = <[a := LTransport (Some host) 0 (net name port)]> (pt_mem st))
  /\ (0 <= net name port -> ~ new_serial st host -> buf = lit "already connected to " ++ host /\ st' = close_socket (net name port) st).
Proof.
  intros P Ha Hc He Hl Hp host. assert (length (print_int port) <= 10)%nat as Hpl by (rewrite print_int_nonneg by lia; apply print_dec_digits; lia).
  assert (length host <= 99)%nat as Hh by (unfold host; rewrite length_app; cbn [length]; lia).
  assert (serial_text name port = host) as Hser by (apply take_ge; exact Hh).
  assert (forall s, (length s <= 200)%nat -> reply_text s = s /\ unhex (response s) 4 = Ok (Z.of_nat (length s)) /\ drop 4 (response s) = s) as Hreply.
  { intros s Hs. split; [apply take_ge; lia|]. assert (response s = hex4 (Z.of_nat (length s)) ++ s) as ->; [|split; [apply unhex_hex4; lia|done]].
    apply take_ge. rewrite length_app. assert (length (hex4 (Z.of_nat (length s))) = 4%nat) as -> by done. lia. }
  unfold connect_service. fold host in He. rewrite He. unfold connect_device. assert (strchr host Byte.x3a = Some (name, print_int port)) as -> by by apply strchr_found.
  rewrite bool_decide_false by lia. rewrite scan_print by lia. case_bool_decide as Hfd; cbn [res_bind].
  - assert (length (lit "unable to connect to " ++ host ++ Byte.x3a :: print_int port) <= 200)%nat as Hs by (rewrite !length_app; cbn [length]; change (length (lit "unable to connect to ")) with 21%nat; lia).
    eexists _, _. split; [reflexivity|]. split; [done|]. unfold cannot_connect. destruct (Hreply _ Hs) as (-> & H). split; [apply H|]. split; [apply H|]. split; [done|]. split; lia.
  - rewrite Hser. destruct (register_device_ok st a host (net name port) port P Ha) as (buf & st' & -> & P' & Hcase); [rewrite <-Hser; apply device_serial_text; lia|].
    assert (length (lit "connected to " ++ host) <= 200 /\ length (lit "already connected to " ++ host) <= 200)%nat as [H1 H2]
      by (rewrite !length_app; change (length (lit "connected to ")) with 13%nat; change (length (lit "already connected to ")) with 21%nat; lia).
    cbn [res_bind]. eexists _, _. split; [reflexivity|]. split; [done|]. destruct Hcase as [(Hn & -> & Hm & _)|(Hn & -> & Hm)].
    + destruct (Hreply _ H1) as (-> & H3 & H4). split_and!; [done|done|lia|done|done].
    + destruct (Hreply _ H2) as (-> & H3 & H4). split_and!; [done|done|lia|done|done].
Qed.
End Connections.

(** ** Examples *)

(** Every connection succeeds, with the descriptor 30. *)
Definition reach_all (host : bytes) (port : Z) : Z := 30.
Definition reach_port (port : Z) : Z := 31.

Definition some_devices : list (action * addr) :=
  [(ConnectTo (lit "10.0.0.2:5555"), 1%nat); (BtConnectTo (lit "00:11:22:33:44:55"), 2%nat); (NewEmulator 5555, 3%nat); (NewEmulator 5555, 4%nat); (Ends 3, 0%nat); (NewEmulator 5557, 5%nat); (ConnectTo (lit "emu:5558,6001"), 6%nat);
   (ConnectTo (lit "emu:5554,6003"), 7%nat); (ConnectTo (lit "emu:5558,6001"), 8%nat)].

Lemma console_free_decide st c p : bool_decide (map_Forall (fun _ t => lt_serial t = Some (emulator_serial c) -> lt_adb_port t = p) (pt_mem st)) = true -> console_free st c p.
Proof. intros H%bool_decide_eq_true x t. apply H. Qed.

Lemma some_devices_ok : acts_ok reach_all reach_all reach_port None some_devices no_ports.
Proof.
  assert (forall x a l st st', act_ok x a st -> act reach_all reach_all reach_port None x a st = Ok st' -> acts_ok reach_all reach_all reach_port None l st' ->
    acts_ok reach_all reach_all reach_port None ((x, a) :: l) st) as Hcons by (intros x a l st st' Hx E Hl; cbn [acts_ok]; by rewrite E).
  eapply Hcons; [split; [done|by right]|vm_compute; reflexivity|].
  eapply Hcons; [split; [done|vm_compute; lia]|vm_compute; reflexivity|].
  eapply Hcons; [split_and!; [done|done|done|by apply console_free_decide; vm_compute]|vm_compute; reflexivity|].
  eapply Hcons; [split_and!; [done|done|done|by apply console_free_decide; vm_compute]|vm_compute; reflexivity|].
  eapply Hcons; [by eexists|vm_compute; reflexivity|].
  eapply Hcons; [split_and!; [done|done|done|by apply console_free_decide; vm_compute]|vm_compute; reflexivity|].
  eapply Hcons; [split; [done|by apply console_free_decide; vm_compute]|vm_compute; reflexivity|].
  eapply Hcons; [split; [done|by apply console_free_decide; vm_compute]|vm_compute; reflexivity|].
  eapply Hcons; [split; [done|by apply console_free_decide; vm_compute]|vm_compute; reflexivity|done].
Qed.

Lemma ports_kept_witness : exists st, acts reach_all reach_all reach_port None some_devices no_ports = Ok st /\ ports_ok st.
Proof. apply (ports_kept reach_all reach_all reach_port None some_devices some_devices_ok). Defined.

Lemma device_named_witness : exists buf st', connect_service reach_all reach_port None (lit "10.0.0.2" ++ Byte.x3a :: print_int 5555) 1 no_ports = Ok (response buf, st')
  /\ buf = lit "connected to 10.0.0.2:5555".
Proof.
  destruct (device_named reach_all reach_port None no_ports 1 (lit "10.0.0.2") 5555 no_ports_ok) as (buf & st' & E & _ & _ & _ & _ & H & _); [done|vm_compute; set_solver|done|vm_compute; lia|lia|].
  exists buf, st'. split; [exact E|]. apply H; [done|]. intros x t. cbn. by rewrite lookup_empty.
Defined.

(** An emulator whose console port does not go with its other port: the client
    is told that it is connected although its serial was taken; its transport
    was freed but stays in the table, and the next request reads it. *)
Theorem emulator_freed_in_table : exists st1 st2 r,
  connect_emulator reach_all reach_port None (lit "5554,5555") 1 no_ports = Ok (r, st1)
  /\ connect_emulator reach_all reach_port None (lit "5554,6001") 2 st1 = Ok (lit "Connected to emulator on ports 5554,6001", st2)
  /\ Some 2%nat ∈ pt_slots st2 /\ pt_mem st2 !! 2%nat = None
  /\ forall a, connect_emulator reach_all reach_port None (lit "5556,5557") a st2 = Ub.
Proof.
  eexists _, _, _. split; [vm_compute; reflexivity|]. split; [vm_compute; reflexivity|]. split; [right; by left|]. split; [vm_compute; reflexivity|].
  intros a. vm_compute. reflexivity.
Qed.

(** Without a port behind its colon, a host is dialled on a port that was never
    set; a host of 99 characters is not terminated. *)
Theorem port_not_read a st : connect_device reach_all (lit "10.0.0.2:") a st = Ub /\ connect_device reach_all (replicate 99 Byte.x61) a st = Ub
  /\ btconnect_device reach_all (replicate 99 Byte.x61) a st = Ub.
Proof. by vm_compute. Qed.
