(* ===== verification/DeviceServices.v ===== *)
(** * Services of the device (services.c, backup_service.c, remount_service.c, log_service.c)

    The dispatch of a service name to a descriptor, with the threads, the
    processes and the descriptors that it makes, and the services that run in
    these threads.  The answers of the system depend on the calls before
    ([kernel]); a new descriptor is the lowest that is free, as POSIX says.  The
    file service is in SyncService.v, the screenshots in Framebuffer.v and the
    java processes in Jdwp.v. *)

From S2P Require Import Prelude Cstr Numbers Rwx Connect.

(** ** Descriptors and threads *)

(** Who is given the other end of a descriptor: the function of a thread, with
    its cookie, or a java process. *)
Inductive service :=
  | framebuffer_service
  | log_service (log_filepath : bytes)
  | file_sync_service
  | remount_service
  | reboot_service (arg : bytes)
  | restart_root_service
  | restart_tcp_service (port : Z)
  | restart_usb_service
  | subproc_waiter_service (pid : Z)
  | backup_child_waiter (pid : Z)
  | java_process (pid : Z).

Inductive syscall :=
  | Socketpair
  | ThreadCreate (f : service)
  | LoopbackClient (port : Z)
  | LocalClient (name : bytes) (reserved_abstract_filesystem : Z)
  | UnixOpen (path : bytes)
  | Grantpt
  | Fork (args : res (list bytes))    (* what the child executes, if it comes to that *)
  | JdwpConnection (pid : Z).

(** [fails] is about the last call of a history, [pid_of] about its process,
    [garbage] is in a variable that was not set, and [alloca] is the size of the
    block that the compiler sets aside for a number of bytes. *)
Record kernel := Kernel {
  fails : list syscall -> bool;
  pid_of : list syscall -> Z;
  garbage : Z;
  alloca : nat -> nat
}.

Record daemon := Daemon {
  d_open : gset Z;
  d_given : list (service * Z);
  d_log : list syscall
}.
Definition logged (c : syscall) (d : daemon) : daemon := Daemon (d_open d) (d_given d) (d_log d ++ [c]).
Definition with_open (o : gset Z) (d : daemon) : daemon := Daemon o (d_given d) (d_log d).
Definition give (f : service) (fd : Z) (d : daemon) : daemon := Daemon (d_open d) (d_given d ++ [(f, fd)]) (d_log d).

(** The lowest free descriptor. *)
Definition lowest (o : gset Z) : Z :=
  default 0 (head (filter (fun fd => fd ∉ o) (seqZ 0 (Z.of_nat (size o) + 1)))).
Definition new_fd (d : daemon) : Z * daemon := let fd := lowest (d_open d) in (fd, with_open ({[fd]} ∪ d_open d) d).
Definition adb_close (fd : Z) (d : daemon) : daemon := with_open (d_open d ∖ {[fd]}) d.

Section Services.
Context (K : kernel).

(** A call, and whether it succeeds. *)
Definition tries (c : syscall) (d : daemon) : bool * daemon := let d := logged c d in (negb (fails K (d_log d)), d).

(** A call that gives a descriptor. *)
Definition open_call (c : syscall) (d : daemon) : Z * daemon :=
  let '(ok, d) := tries c d in if ok then new_fd d else (-1, d).

Definition adb_socketpair (d : daemon) : option (Z * Z) * daemon :=
  let '(ok, d) := tries Socketpair d in
  if ok then let '(a, d) := new_fd d in let '(b, d) := new_fd d in (Some (a, b), d) else (None, d).

Definition create_service_thread (f : service) (d : daemon) : Z * daemon :=
  let '(s, d) := adb_socketpair d in
  match s with
  | None => (-1, d)
  | Some (s0, s1) =>
      let '(ok, d) := tries (ThreadCreate f) d in
      if ok then (s0, give f s1 d) else (-1, adb_close s1 (adb_close s0 d))
  end.

(** The descriptor of the terminal and the value of [*pid]: the one before,
    unless [fork] was reached. *)
Definition create_subprocess (cmd : bytes) (args : list bytes) (pid : Z) (d : daemon) : Z * Z * daemon :=
  let '(ptm, d) := open_call (UnixOpen (lit "/dev/ptmx")) d in
  if bool_decide (ptm < 0) then (-1, pid, d)
  else
    let '(ok, d) := tries Grantpt d in
    if negb ok then (-1, pid, adb_close ptm d)
    else
      let '(ok, d) := tries (Fork (Ok (cmd :: cmd :: args))) d in
      if ok then (ptm, pid_of K (d_log d), d) else (-1, -1, adb_close ptm d).

Definition SHELL_COMMAND : bytes := lit "/system/bin/sh".

(** The thread is started whether there is a process or not. *)
Definition create_subproc_thread (name : option bytes) (d : daemon) : Z * daemon :=
  let '(ret_fd, pid, d) := create_subprocess SHELL_COMMAND (match name with Some name => [lit "-c"; name] | None => [lit "-"] end) (garbage K) d in
  let '(ok, d) := tries (ThreadCreate (subproc_waiter_service pid)) d in
  if ok then (ret_fd, give (subproc_waiter_service pid) ret_fd d) else (-1, adb_close ret_fd d).

(** *** Backups *)

Inductive BackupOperation := BACKUP | RESTORE.

(** The loop over the parts of the arguments: those that a colon ends, and the
    last one, unless it is empty. *)
Fixpoint bu_parts (cur p : bytes) : list bytes :=
  match p with
  | [] => if bool_decide (cur = []) then [] else [cur]
  | b :: p => if bool_decide (b = Byte.x3a) then cur :: bu_parts [] p else bu_parts (cur ++ [b]) p
  end.

(** The arguments of [bu] in the child: [alloca] is asked for [argc] words and a
    byte, and the words are followed by a null. *)
Definition bu_args (op : BackupOperation) (fd : Z) (args : option bytes) : res (list bytes) :=
  let words := lit "bu" :: take 15 (print_int fd)
    :: (match op with BACKUP => lit "backup" | RESTORE => lit "restore" end) :: bu_parts [] (default [] args) in
  let argc := length words in
  if bool_decide ((argc + 1) * sizeof_ptr <= alloca K (argc * sizeof_ptr + 1))%nat then Ok words else Ub.

Definition backup_service (op : BackupOperation) (args : option bytes) (d : daemon) : Z * daemon :=
  let '(s, d) := adb_socketpair d in
  match s with
  | None => (-1, d)
  | Some (s0, s1) =>
      let '(ok, d) := tries (Fork (bu_args op s1 args)) d in
      if negb ok then (-1, adb_close s1 (adb_close s0 d))
      else
        let pid := pid_of K (d_log d) in
        let d := adb_close s1 d in
        let '(ok, d) := tries (ThreadCreate (backup_child_waiter pid)) d in
        if ok then (s0, give (backup_child_waiter pid) s0 d) else (-1, adb_close s0 d)
  end.

(** The thread, when the child is gone. *)
Definition backup_child_waited (fd : Z) (d : daemon) : daemon := adb_close fd d.

(** *** The dispatch *)

Definition LOG_FILE_DIR : bytes := lit "/dev/log/".
Definition get_log_file_path (log_name : bytes) : bytes := LOG_FILE_DIR ++ log_name.

(** [-1], [0], [1]: the namespaces [RESERVED], [ABSTRACT] and [FILESYSTEM]. *)
Definition client_of_local (name : bytes) : option (bytes * Z) :=
  if starts_with (lit "local:") name then Some (drop 6 name, -1)
  else if starts_with (lit "localreserved:") name then Some (drop 14 name, -1)
  else if starts_with (lit "localabstract:") name then Some (drop 14 name, 0)
  else if starts_with (lit "localfilesystem:") name then Some (drop 16 name, 1)
  else None.

(** The port of [tcpip:]: 0 if there is no number; nothing is read at the end of
    the text. *)
Definition tcpip_port (s : bytes) : Z :=
  match scan_d s with ScanInt port => port | ScanNone => 0 | ScanEof => garbage K end.

(** The services that are a thread. *)
Definition thread_service (name : bytes) : option service :=
  if starts_with (lit "framebuffer:") name then Some framebuffer_service
  else if starts_with (lit "log:") name then Some (log_service (get_log_file_path (drop 4 name)))
  else if starts_with (lit "sync:") name then Some file_sync_service
  else if starts_with (lit "remount:") name then Some remount_service
  else if starts_with (lit "reboot:") name then Some (reboot_service (drop 7 name))
  else if starts_with (lit "root:") name then Some restart_root_service
  else if starts_with (lit "tcpip:") name then Some (restart_tcp_service (tcpip_port (drop 6 name)))
  else if starts_with (lit "usb:") name then Some restart_usb_service
  else None.

Definition jdwp_connection (pid : Z) (d : daemon) : Z * daemon :=
  let '(ok, d) := tries (JdwpConnection pid) d in
  if ok then let '(a, d) := new_fd d in let '(b, d) := new_fd d in (a, give (java_process pid) b d) else (-1, d).

(** In the daemon, with a [strdup] that succeeds. *)
Definition service_to_fd (name : bytes) (d : daemon) : Z * daemon :=
  if starts_with (lit "tcp:") name then
    match strchr (drop 4 name) Byte.x3a with
    | None => open_call (LoopbackClient (atoi (drop 4 name))) d
    | Some _ => (-1, d)
    end
  else
    match client_of_local name with
    | Some (path, namespace) => open_call (LocalClient path namespace) d
    | None =>
        if starts_with (lit "dev:") name then open_call (UnixOpen (drop 4 name)) d
        else if starts_with (lit "jdwp:") name then jdwp_connection (atoi (drop 5 name)) d
        else if starts_with (lit "shell:") name then
          create_subproc_thread (match drop 6 name with [] => None | cmd => Some cmd end) d
        else if starts_with (lit "backup:") name then backup_service BACKUP (Some (drop 7 name)) d
        else if starts_with (lit "restore:") name then backup_service RESTORE None d
        else match thread_service name with Some f => create_service_thread f d | None => (-1, d) end
    end.
End Services.

(** ** The services *)

(** A process that ended, or an error. *)
Inductive wait_status := WSignaled | WStopped | WExited (code : Z).

(** [waitpid(pid, &status, 0)] with the children that are not waited for yet, in
    the order in which they end: the process, or -1 without such a child. *)
Definition waitpid (pid : Z) (children : list (Z * wait_status)) : Z * wait_status * list (Z * wait_status) :=
  if bool_decide (0 < pid) then
    match filter (fun c => c.1 = pid) children with
    | (p, st) :: _ => (p, st, filter (fun c => c.1 <> pid) children)
    | [] => (-1, WStopped, children)
    end
  else match children with (p, st) :: children => (p, st, children) | [] => (-1, WStopped, []) end.

(** The loop of [subproc_waiter_service]: every status of the process ends it. *)
Fixpoint waiter_loop (fuel : nat) (pid : Z) (children : list (Z * wait_status)) : res (list (Z * wait_status)) :=
  match fuel with
  | O => Blocked
  | S fuel =>
      let '(p, status, children) := waitpid pid children in
      if bool_decide (p = pid) then
        match status with
        | WSignaled | WStopped => Ok children
        | WExited code => if bool_decide (0 <= code) then Ok children else waiter_loop fuel pid children
        end
      else waiter_loop fuel pid children
  end.

(** Properties of the system, the last one set first. *)
Definition props := list (bytes * bytes).
Definition property_get (key : bytes) (ps : props) (default_value : bytes) : bytes :=
  match filter (fun p => p.1 = key) ps with (_, v) :: _ => v | [] => default_value end.
Definition property_set (key value : bytes) (ps : props) : props := (key, value) :: ps.

Definition nl : bytes := [Byte.x0a].

(** What a service writes to its descriptor before it closes it, and the
    properties. *)
Definition restart_root (uid : Z) (ps : props) : bytes * props :=
  if bool_decide (uid = 0) then (lit "adbd is already running as root" ++ nl, ps)
  else if bool_decide (property_get (lit "ro.debuggable") ps [] <> lit "1") then
    (lit "adbd cannot run as root in production builds" ++ nl, ps)
  else (lit "restarting adbd as root" ++ nl, property_set (lit "service.adb.root") (lit "1") ps).

Definition restart_tcp (port : Z) (ps : props) : bytes * props :=
  if bool_decide (port <= 0) then (lit "invalid port" ++ nl, ps)
  else (lit "restarting in TCP mode port: " ++ print_int port ++ nl, property_set (lit "service.adb.tcp.port") (print_int port) ps).

Definition restart_usb (ps : props) : bytes * props :=
  (lit "restarting in USB mode" ++ nl, property_set (lit "service.adb.tcp.port") (lit "0") ps).

Definition PROPERTY_VALUE_MAX : Z := 92.

(** [set] is what [property_set] returns; a reboot that was started is waited
    for. *)
Definition reboot (arg : bytes) (set : Z) (ps : props) : res (bytes * props) :=
  let val := lit "reboot," ++ arg in
  let ret := Z.of_nat (length val) in
  if bool_decide (PROPERTY_VALUE_MAX <= ret) then
    Ok (take 99 (lit "reboot string too long. length=" ++ print_int ret ++ nl), ps)
  else if bool_decide (set < 0) then Ok (take 99 (lit "reboot failed: " ++ print_int set ++ nl), ps)
  else Blocked.

(** *** Remounting *)

(** [%<max>s] of [sscanf]: a word of at most [max] characters. *)
Fixpoint scan_word (max : nat) (s : bytes) : bytes * bytes :=
  match max, s with
  | S max, b :: s' => if is_space b then ([], s) else let '(w, r) := scan_word max s' in (b :: w, r)
  | _, _ => ([], s)
  end.
Definition scan_s (max : nat) (s : bytes) : option (bytes * bytes) :=
  match scan_word max (drop_spaces s) with ([], _) => None | (w, s) => Some (w, s) end.

(** A number, and what follows it. *)
Definition scan_int (s : bytes) : option bytes :=
  let '(_, s) := take_sign (drop_spaces s) in
  match s with
  | b :: _ => match digit_of b with Some _ => Some ((fix skip s := match s with b :: s' => match digit_of b with Some _ => skip s' | None => s end | [] => [] end) s) | None => None end
  | [] => None
  end.

(** [sscanf(token, "%255s %255s %*s %*s %d %d\n", ...) == 4]: the device and the
    directory of a line. *)
Definition mount_line (token : bytes) : option (bytes * bytes) :=
  dev ← scan_s 255 token;
  dir ← scan_s 255 dev.2;
  type ← scan_s (length dir.2) dir.2;
  opts ← scan_s (length type.2) type.2;
  freq ← scan_int opts.2;
  passno ← scan_int freq;
  Some (dev.1, dir.1).

Fixpoint find_line (dir : bytes) (tokens : list bytes) : option bytes :=
  match tokens with
  | [] => None
  | token :: tokens =>
      match mount_line token with
      | Some (dev, d) => if bool_decide (dir = d) then Some dev else find_line dir tokens
      | None => find_line dir tokens
      end
  end.

(** [mounts] is what one read of [/proc/mounts] gives, if it can be opened, and
    [tail] the rest of the buffer, which is not set; its last byte is zero. *)
Definition find_mount (dir : bytes) (mounts : option bytes) (tail : bytes) : res (option bytes) :=
  match mounts with
  | None => Ok None
  | Some text =>
      let buf := take 4095 (take 4095 text ++ tail) ++ [Byte.x00] in
      let* s := c_string buf in
      Ok (find_line dir (strtok_r s Byte.x0a))
  end.

(** [system_ro], and whether the device can be opened; [mount] is what it
    returns. *)
Definition remount_system (system_ro : Z) (mounts : option bytes) (tail : bytes) (opens : bytes -> bool) (mount : bytes -> Z) : res (Z * Z) :=
  if bool_decide (system_ro = 0) then Ok (0, system_ro)
  else
    let* dev := find_mount (lit "/system") mounts tail in
    match dev with
    | None => Ok (-1, system_ro)
    | Some dev => if opens dev then let r := mount dev in Ok (r, r) else Ok (-1, system_ro)
    end.

Definition remount (ret : Z) (error : bytes) : bytes :=
  if bool_decide (ret = 0) then lit "remount succeeded" ++ nl else take 199 (lit "remount failed: " ++ error ++ nl).

(** *** The log *)

(** What [unix_read] of the log gives: an entry, whole, or an error. *)
Inductive log_read := Entry (e : bytes) | LogEnd | LogFails (e : errno).

(** The loop of [log_service] after the log was opened; the client is written
    to whether it is there or not. *)
Fixpoint log_loop (reads : list log_read) (fd : fdio) : res fdio :=
  match reads with
  | [] => Blocked
  | Entry e :: reads => let* ' (_, fd) := writex fd e in log_loop reads fd
  | LogEnd :: _ => Ok fd
  | LogFails EIO :: _ => Ok fd
  | LogFails _ :: reads => log_loop reads fd
  end.

(** * Theorems *)

(** ** Descriptors *)

Lemma lowest_free o : lowest o ∉ o /\ 0 <= lowest o.
Proof.
  unfold lowest. destruct (filter _ _) as [|fd l] eqn:E; cbn.
  - exfalso. assert (Hs : list_to_set (seqZ 0 (Z.of_nat (size o) + 1)) ⊆ o).
    { intros fd Hfd. apply elem_of_list_to_set in Hfd. destruct (decide (fd ∈ o)) as [|Hn]; [done|exfalso].
      assert (Hin : fd ∈ filter (fun fd => fd ∉ o) (seqZ 0 (Z.of_nat (size o) + 1))) by (by apply list_elem_of_filter).
      rewrite E in Hin. by apply elem_of_nil in Hin. }
    apply subseteq_size in Hs. rewrite size_list_to_set, length_seqZ in Hs by apply NoDup_seqZ. lia.
  - assert (Hin : fd ∈ filter (fun fd => fd ∉ o) (seqZ 0 (Z.of_nat (size o) + 1))) by (rewrite E; by left).
    apply list_elem_of_filter in Hin as [Hn Hin]. apply elem_of_seqZ in Hin. split; [done|lia].
Qed.

(** What a call for a service does to the daemon: the descriptor that it returns
    is new, the other new ones are given away, and the old ones stay open. *)
Definition fds_of (l : list (service * Z)) : gset Z := list_to_set (filter (fun fd => 0 <= fd) (map snd l)).
Definition returned (r : Z) : gset Z := if bool_decide (0 <= r) then {[r]} else ∅.

(** A thread that waits for a process has the number of a descriptor that it
    does not own. *)
Definition waits_for_process (f : service) : Prop := match f with subproc_waiter_service _ | backup_child_waiter _ => True | _ => False end.

Record gives (d : daemon) (r : Z) (d' : daemon) (new : list (service * Z)) : Prop := Gives {
  gv_fd : r = -1 \/ 0 <= r /\ r ∉ d_open d;
  gv_given : d_given d' = d_given d ++ new;
  gv_one : (length new <= 1)%nat;
  gv_new f fd : (f, fd) ∈ new -> (waits_for_process f /\ fd = r) \/ (r <> -1 /\ fd <> r /\ 0 <= fd /\ fd ∉ d_open d);
  gv_open : d_open d' = d_open d ∪ returned r ∪ fds_of new
}.

Section Gives.
Context (K : kernel).

Lemma gives_nothing d d' : d_open d' = d_open d -> d_given d' = d_given d -> gives d (-1) d' [].
Proof.
  intros Ho Hg. constructor; [by left|by rewrite app_nil_r|cbn; lia|by intros f fd ?%elem_of_nil|].
  unfold returned, fds_of. rewrite bool_decide_false by lia. cbn. rewrite Ho. set_solver.
Qed.

Lemma gives_returned d r d' : 0 <= r -> r ∉ d_open d -> d_open d' = {[r]} ∪ d_open d -> d_given d' = d_given d -> gives d r d' [].
Proof.
  intros H0 Hr Ho Hg. constructor; [by right|by rewrite app_nil_r|cbn; lia|by intros f fd ?%elem_of_nil|].
  unfold returned, fds_of. rewrite bool_decide_true by lia. cbn. rewrite Ho. set_solver.
Qed.

Lemma gives_pair d a b f d' : 0 <= a -> 0 <= b -> a <> b -> a ∉ d_open d -> b ∉ d_open d -> d_open d' = {[b]} ∪ ({[a]} ∪ d_open d) ->
  d_given d' = d_given d ++ [(f, b)] -> gives d a d' [(f, b)].
Proof.
  intros Ha Hb Hne Hoa Hob Ho Hg. constructor; [by right|done|cbn; lia| |].
  - intros f0 fd Hin. apply list_elem_of_singleton in Hin as [= -> ->]. right. split_and!; [lia|done..].
  - unfold returned, fds_of. rewrite bool_decide_true by lia. cbn [map snd]. rewrite filter_cons, decide_True by done. cbn. rewrite Ho. set_solver.
Qed.

Lemma gives_waiter d r f d' : waits_for_process f -> (r = -1 /\ d_open d' = d_open d \/ 0 <= r /\ r ∉ d_open d /\ d_open d' = {[r]} ∪ d_open d) ->
  d_given d' = d_given d ++ [(f, r)] -> gives d r d' [(f, r)].
Proof.
  intros Hf Hr Hg. constructor; [naive_solver|done|cbn; lia| |].
  - intros f0 fd Hin. apply list_elem_of_singleton in Hin as [= -> ->]. by left.
  - unfold returned, fds_of. cbn [map snd]. rewrite filter_cons. destruct Hr as [[-> ->]|(H0 & Hn & ->)].
    + rewrite bool_decide_false, decide_False by lia. cbn. set_solver.
    + rewrite bool_decide_true, decide_True by lia. cbn. set_solver.
Qed.

Lemma new_fd_spec d : let '(fd, d') := new_fd d in 0 <= fd /\ fd ∉ d_open d /\ d_open d' = {[fd]} ∪ d_open d /\ d_given d' = d_given d.
Proof. unfold new_fd. destruct (lowest_free (d_open d)). by split_and!. Qed.

Lemma open_call_gives c d : let '(r, d') := open_call K c d in gives d r d' [].
Proof.
  unfold open_call, tries. destruct (negb _); [|by apply gives_nothing].
  pose proof (new_fd_spec (logged c d)) as H. destruct (new_fd _) as [fd d']. destruct H as (H1 & H2 & H3 & H4). by apply gives_returned.
Qed.

Lemma socketpair_spec d : let '(s, d') := adb_socketpair K d in d_given d' = d_given d /\
  match s with
  | None => d_open d' = d_open d
  | Some (a, b) => 0 <= a /\ 0 <= b /\ a <> b /\ a ∉ d_open d /\ b ∉ d_open d /\ d_open d' = {[b]} ∪ ({[a]} ∪ d_open d)
  end.
Proof.
  unfold adb_socketpair, tries. destruct (negb _); [|done].
  pose proof (new_fd_spec (logged Socketpair d)) as H. destruct (new_fd _) as [a d1]. destruct H as (H1 & H2 & H3 & H4).
  pose proof (new_fd_spec d1) as H. destruct (new_fd _) as [b d2]. destruct H as (H5 & H6 & H7 & H8). rewrite H3 in H6, H7.
  split; [by rewrite H8, H4|]. cbn [logged d_open] in *. split_and!; [done|done| |done| |done]; set_solver.
Qed.

Lemma service_thread_gives f d : exists new, gives d (create_service_thread K f d).1 (create_service_thread K f d).2 new /\
  Forall (fun x => x.1 = f) new.
Proof.
  unfold create_service_thread. pose proof (socketpair_spec d) as H. destruct (adb_socketpair K d) as [[[a b]|] d1]; destruct H as [Hg H]; [|exists []; split; [by apply gives_nothing|done]].
  destruct H as (H1 & H2 & H3 & H4 & H5 & H6). unfold tries. destruct (negb _); cbn.
  - exists [(f, b)]. split; [apply gives_pair; cbn; rewrite ?Hg; done|by apply Forall_singleton].
  - exists []. split; [|done]. apply gives_nothing; cbn; [|done]. rewrite H6. set_solver.
Qed.

(** A descriptor that is returned, or nothing. *)
Definition one_more (d : daemon) (r : Z) (d' : daemon) : Prop :=
  d_given d' = d_given d /\ (r = -1 /\ d_open d' = d_open d \/ 0 <= r /\ r ∉ d_open d /\ d_open d' = {[r]} ∪ d_open d).

Lemma subprocess_spec cmd args pid d : one_more d (create_subprocess K cmd args pid d).1.1 (create_subprocess K cmd args pid d).2.
Proof.
  unfold create_subprocess, open_call, tries. destruct (negb _); [|by split; [|left]].
  pose proof (new_fd_spec (logged (UnixOpen (lit "/dev/ptmx")) d)) as H. destruct (new_fd _) as [fd d1]. destruct H as (H1 & H2 & H3 & H4).
  rewrite bool_decide_false by lia. cbn in H2, H3, H4.
  assert (Hclose : ({[fd]} ∪ d_open d) ∖ {[fd]} = d_open d) by set_solver.
  destruct (negb (fails K _)); cbn [negb].
  - destruct (negb _); cbn; (split; [done|]); [right; by split_and!|left; split; [done|]]. cbn. by rewrite H3.
  - split; [done|]. left. split; [done|]. cbn. by rewrite H3.
Qed.

Lemma subproc_thread_gives name d : -1 ∉ d_open d -> exists new, gives d (create_subproc_thread K name d).1 (create_subproc_thread K name d).2 new /\
  Forall (fun x => waits_for_process x.1) new.
Proof.
  intros Hno. unfold create_subproc_thread. pose proof (subprocess_spec SHELL_COMMAND (match name with Some name => [lit "-c"; name] | None => [lit "-"] end) (garbage K) d) as H.
  destruct (create_subprocess _ _ _ _ _) as [[fd pid] d1]. cbn in H. destruct H as [Hg H]. unfold tries. destruct (negb _); cbn.
  - exists [(subproc_waiter_service pid, fd)]. split; [|by apply Forall_singleton]. apply gives_waiter; cbn; [done|done|by rewrite Hg].
  - exists []. split; [|done]. apply gives_nothing; cbn; [|done]. destruct H as [(-> & ->)|(H0 & H1 & ->)]; set_solver.
Qed.

Lemma backup_gives op args d : exists new, gives d (backup_service K op args d).1 (backup_service K op args d).2 new /\
  Forall (fun x => waits_for_process x.1) new.
Proof.
  unfold backup_service. pose proof (socketpair_spec d) as H. destruct (adb_socketpair K d) as [[[a b]|] d1]; destruct H as [Hg H]; [|exists []; split; [by apply gives_nothing|done]].
  destruct H as (H1 & H2 & H3 & H4 & H5 & H6). unfold tries. destruct (negb (fails K (d_log (logged (Fork _) _)))); cbn [negb].
  - destruct (negb _); cbn.
    + eexists [(backup_child_waiter _, a)]. split; [|by apply Forall_singleton]. apply gives_waiter; cbn; [done| |by rewrite Hg]. right. split_and!; [done..|]. rewrite H6. set_solver.
    + exists []. split; [|done]. apply gives_nothing; cbn; [|done]. rewrite H6. set_solver.
  - exists []. split; [|done]. apply gives_nothing; cbn; [|done]. rewrite H6. set_solver.
Qed.

Lemma jdwp_gives pid d : exists new, gives d (jdwp_connection K pid d).1 (jdwp_connection K pid d).2 new /\ Forall (fun x => x.1 = java_process pid) new.
Proof.
  unfold jdwp_connection, tries. destruct (negb _); [|exists []; split; [by apply gives_nothing|done]].
  pose proof (new_fd_spec (logged (JdwpConnection pid) d)) as H. destruct (new_fd _) as [a d1]. destruct H as (H1 & H2 & H3 & H4).
  pose proof (new_fd_spec d1) as H. destruct (new_fd _) as [b d2]. destruct H as (H5 & H6 & H7 & H8). rewrite H3 in H6, H7. cbn in *.
  exists [(java_process pid, b)]. split; [|by apply Forall_singleton]. apply gives_pair; cbn; [done|done| |done| |done|by rewrite H8, H4]; set_solver.
Qed.

(** Who may be given the other end of a service. *)
Definition served_by (name : bytes) (f : service) : Prop :=
  thread_service K name = Some f
  \/ starts_with (lit "jdwp:") name = true /\ f = java_process (atoi (drop 5 name))
  \/ (starts_with (lit "shell:") name = true \/ starts_with (lit "backup:") name = true \/ starts_with (lit "restore:") name = true) /\ waits_for_process f.

Lemma service_gives name d : -1 ∉ d_open d -> exists new, gives d (service_to_fd K name d).1 (service_to_fd K name d).2 new /\
  Forall (fun x => served_by name x.1) new.
Proof.
  intros Hno. assert (Hnone : exists new, gives d (-1) d new /\ Forall (fun x => served_by name x.1) new) by (exists []; split; [by apply gives_nothing|done]).
  assert (Hopen : forall c, exists new, gives d (open_call K c d).1 (open_call K c d).2 new /\ Forall (fun x => served_by name x.1) new).
  { intros c. exists []. split; [|done]. pose proof (open_call_gives c d) as H. by destruct (open_call K c d). }
  assert (Hmono : forall (r : Z * daemon) (P : service -> Prop), (exists new, gives d r.1 r.2 new /\ Forall (fun x => P x.1) new) -> (forall f, P f -> served_by name f) ->
    exists new, gives d r.1 r.2 new /\ Forall (fun x => served_by name x.1) new).
  { intros r P (new & Hg & Hf) HP. exists new. split; [done|]. eapply Forall_impl; [exact Hf|]. intros x. apply HP. }
  unfold service_to_fd. destruct (starts_with (lit "tcp:") name); [destruct (strchr _ _); [done|apply Hopen]|].
  destruct (client_of_local name) as [[path ns]|]; [apply Hopen|]. destruct (starts_with (lit "dev:") name); [apply Hopen|].
  destruct (starts_with (lit "jdwp:") name) eqn:Ej; [eapply (Hmono _ (fun f => f = _)); [apply jdwp_gives|]; intros f ->; right; left; by split|].
  destruct (starts_with (lit "shell:") name) eqn:Es; [eapply Hmono; [by apply subproc_thread_gives|]; intros f Hf; right; right; by split; [left|]|].
  destruct (starts_with (lit "backup:") name) eqn:Eb; [eapply Hmono; [apply backup_gives|]; intros f Hf; right; right; by split; [right; left|]|].
  destruct (starts_with (lit "restore:") name) eqn:Er; [eapply Hmono; [apply backup_gives|]; intros f Hf; right; right; by split; [right; right|]|].
  destruct (thread_service K name) as [f|] eqn:Et; [|done]. eapply (Hmono _ (fun g => g = f)); [apply service_thread_gives|]. intros g ->. left. exact Et.
Qed.
End Gives.

(** ** Waiting for a process *)

Section Waiter.
Implicit Types children : list (Z * wait_status).

Definition exits (c : Z * wait_status) : Prop := match c.2 with WExited code => 0 <= code | _ => True end.

Lemma waiter_child fuel pid children : 0 < pid -> Forall exits children -> pid ∈ map fst children ->
  waiter_loop (S fuel) pid children = Ok (filter (fun c => c.1 <> pid) children).
Proof.
  intros Hp He Hin. cbn [waiter_loop]. unfold waitpid. rewrite bool_decide_true by done.
  destruct (filter (fun c => c.1 = pid) children) as [|[p st] l] eqn:Ef.
  - exfalso. apply list_elem_of_fmap in Hin as ((p & st) & Hp' & Hin). cbn in Hp'. subst p.
    assert (Hf : (pid, st) ∈ filter (fun c => c.1 = pid) children) by (by apply list_elem_of_filter). rewrite Ef in Hf. by apply elem_of_nil in Hf.
  - assert (Hf : (p, st) ∈ filter (fun c => c.1 = pid) children) by (rewrite Ef; by left). apply list_elem_of_filter in Hf as [Hf Hin'].
    cbn in Hf. subst p. rewrite bool_decide_true by done. rewrite Forall_forall in He. specialize (He _ Hin'). unfold exits in He. cbn in He.
    destruct st; [done..|]. by rewrite bool_decide_true.
Qed.

Lemma waiter_spins fuel pid children : 0 < pid -> pid ∉ map fst children -> waiter_loop fuel pid children = Blocked.
Proof.
  intros Hp Hn. induction fuel as [|fuel IH]; [done|]. cbn [waiter_loop]. unfold waitpid. rewrite bool_decide_true by done.
  rewrite filter_none by (intros c Hc Heq; apply Hn; apply list_elem_of_fmap; by exists c). rewrite bool_decide_false by lia. apply IH.
Qed.

Lemma waiter_takes_all fuel children : Forall (fun c => 0 < c.1) children -> (length children < fuel)%nat -> waiter_loop fuel (-1) children = Ok [].
Proof.
  intros Hc. revert fuel. induction Hc as [|[p st] children Hp Hc IH]; intros [|fuel] Hf; cbn [length] in Hf; [lia|done|lia|].
  cbn [waiter_loop]. unfold waitpid. rewrite bool_decide_false by lia. cbn in Hp. rewrite bool_decide_false by lia. apply IH. lia.
Qed.
End Waiter.

(** ** The mounts *)

(** A line of [/proc/mounts]. *)
Record mount := Mount { m_dev : bytes; m_dir : bytes; m_type : bytes; m_opts : bytes; m_freq : Z; m_passno : Z }.
Definition sp : byte := Byte.x20.
Definition mount_text (m : mount) : bytes :=
  m_dev m ++ sp :: m_dir m ++ sp :: m_type m ++ sp :: m_opts m ++ sp :: print_dec (m_freq m) ++ sp :: print_dec (m_passno m).
Definition mounts_text (ms : list mount) : bytes := concat (map (fun m => mount_text m ++ nl) ms).

Definition word (w : bytes) : Prop := w <> [] /\ Forall (fun b => is_space b = false /\ b <> Byte.x00) w.
Record mount_ok (m : mount) : Prop := MountOk {
  mo_dev : word (m_dev m) /\ (length (m_dev m) <= 255)%nat;
  mo_dir : word (m_dir m) /\ (length (m_dir m) <= 255)%nat;
  mo_type : word (m_type m);
  mo_opts : word (m_opts m);
  mo_freq : 0 <= m_freq m < 2 ^ 32;
  mo_passno : 0 <= m_passno m < 2 ^ 32
}.

Lemma scan_word_word w rest : forall max, Forall (fun b => is_space b = false /\ b <> Byte.x00) w -> (length w <= max)%nat ->
  scan_word max (w ++ sp :: rest) = (w, sp :: rest).
Proof.
  induction w as [|b w IH]; intros max Hw Hl; cbn [length] in Hl.
  - destruct max; done.
  - apply Forall_cons in Hw as [[Hb _] Hw]. destruct max as [|max]; [lia|]. cbn [app scan_word]. by rewrite Hb, IH by (done || lia).
Qed.

Lemma drop_spaces_word w rest : word w -> drop_spaces (w ++ rest) = w ++ rest.
Proof. intros [Hn Hw]. destruct w as [|b w]; [done|]. apply Forall_cons in Hw as [[Hb _] _]. cbn [app drop_spaces]. by rewrite Hb. Qed.

Lemma scan_s_word max w rest : word w -> (length w <= max)%nat ->
  scan_s max (w ++ sp :: rest) = Some (w, sp :: rest) /\ scan_s max (sp :: w ++ sp :: rest) = Some (w, sp :: rest).
Proof.
  intros Hw Hl. assert (H : scan_s max (w ++ sp :: rest) = Some (w, sp :: rest)).
  { unfold scan_s. rewrite drop_spaces_word by done. destruct Hw as [Hn Hw]. rewrite scan_word_word by done. by destruct w. }
  by split.
Qed.

(** [%*s] has no limit. *)
Lemma scan_s_any w rest : word w -> scan_s (length (sp :: w ++ sp :: rest)) (sp :: w ++ sp :: rest) = Some (w, sp :: rest).
Proof. intros Hw. apply scan_s_word; [done|]. cbn [length]. rewrite length_app. lia. Qed.

Definition after_digits : bytes -> bytes := fix skip s := match s with b :: s' => match digit_of b with Some _ => skip s' | None => s end | [] => [] end.

Lemma after_digits_spec ds rest : Forall is_digit ds -> match rest with b :: _ => digit_of b = None | [] => True end -> after_digits (ds ++ rest) = rest.
Proof.
  intros Hd Hr. induction Hd as [|b ds Hb _ IH]; cbn [app after_digits].
  - destruct rest as [|b rest]; [done|]. cbn. by rewrite Hr.
  - unfold digit_of, is_digit in *. by rewrite bool_decide_true.
Qed.

Lemma scan_int_dec n rest : 0 <= n < 2 ^ 32 -> match rest with b :: _ => digit_of b = None | [] => True end ->
  scan_int (sp :: print_dec n ++ rest) = Some rest.
Proof.
  intros Hn Hr. pose proof (print_dec_digits n Hn) as [Hd _]. destruct (dec_digits_spec 10 n []) as (b & ds & Heq & _); [lia..|].
  unfold print_dec in *. rewrite app_nil_r in Heq. rewrite Heq in *. unfold scan_int.
  change (drop_spaces (sp :: (b :: ds) ++ rest)) with (drop_spaces (b :: ds ++ rest)).
  destruct (digit_not_space b (ds ++ rest) (Forall_inv Hd)) as [-> ->]. fold after_digits.
  unfold digit_of at 1. rewrite bool_decide_true by exact (Forall_inv Hd). f_equal. by apply (after_digits_spec (b :: ds)).
Qed.

Lemma mount_line_text m : mount_ok m -> mount_line (mount_text m) = Some (m_dev m, m_dir m).
Proof.
  intros [[H1 H1'] [H2 H2'] H3 H4 H5 H6]. unfold mount_line, mount_text.
  rewrite (proj1 (scan_s_word _ _ _ H1 H1')). cbn [mbind option_bind fst snd]. rewrite (proj2 (scan_s_word _ _ _ H2 H2')). cbn [mbind option_bind fst snd].
  rewrite scan_s_any by done. cbn [mbind option_bind fst snd]. rewrite scan_s_any by done. cbn [mbind option_bind fst snd].
  rewrite scan_int_dec by done. cbn [mbind option_bind]. rewrite <-(app_nil_r (print_dec (m_passno m))). by rewrite scan_int_dec.
Qed.

Lemma spaced_no w b : word w -> (is_space b = true \/ b = Byte.x00) -> b ∉ w.
Proof. intros [_ Hw] Hb Hin. rewrite Forall_forall in Hw. destruct (Hw b Hin) as [H1 H2]. destruct Hb; congruence. Qed.

Lemma digits_no n b : 0 <= n < 2 ^ 32 -> digit_of b = None -> b ∉ print_dec n.
Proof.
  intros Hn Hb Hin. pose proof (print_dec_digits n Hn) as [Hd _]. rewrite Forall_forall in Hd. specialize (Hd b Hin).
  unfold is_digit, digit_of in *. by rewrite bool_decide_true in Hb.
Qed.

(** A line has no newline and no NUL. *)
Lemma mount_text_no m b : mount_ok m -> b = Byte.x0a \/ b = Byte.x00 -> b ∉ mount_text m.
Proof.
  intros [[H1 _] [H2 _] H3 H4 H5 H6] Hb. assert (Hs : is_space b = true \/ b = Byte.x00) by (destruct Hb as [-> | ->]; [by left|by right]).
  assert (Hd : digit_of b = None) by (by destruct Hb as [-> | ->]). assert (Hsp : b <> sp) by (by destruct Hb as [-> | ->]).
  unfold mount_text. rewrite !elem_of_app, !elem_of_cons, !elem_of_app, !elem_of_cons, !elem_of_app, !elem_of_cons, !elem_of_app, !elem_of_cons, !elem_of_app, !elem_of_cons.
  pose proof (spaced_no _ _ H1 Hs). pose proof (spaced_no _ _ H2 Hs). pose proof (spaced_no _ _ H3 Hs). pose proof (spaced_no _ _ H4 Hs).
  pose proof (digits_no _ _ H5 Hd). pose proof (digits_no _ _ H6 Hd). naive_solver.
Qed.

Lemma mounts_tokens ms s : Forall mount_ok ms -> strtok_r (mounts_text ms ++ s) Byte.x0a = map mount_text ms ++ strtok_r s Byte.x0a.
Proof.
  induction 1 as [|m ms Hm _ IH]; [done|]. change (mounts_text (m :: ms)) with ((mount_text m ++ nl) ++ mounts_text ms).
  rewrite <-!app_assoc. unfold nl at 1. cbn [app map].
  rewrite strtok_cons; [by rewrite IH| |apply mount_text_no; auto].
  destruct Hm as [[[Hn _] _] _ _ _ _ _]. unfold mount_text. by destruct (m_dev m).
Qed.

Lemma find_line_first pre m post rest dir : Forall mount_ok (pre ++ m :: post) -> Forall (fun m => m_dir m <> dir) pre -> m_dir m = dir ->
  find_line dir (map mount_text (pre ++ m :: post) ++ rest) = Some (m_dev m).
Proof.
  intros Hok Hpre Hm. induction Hpre as [|x pre Hx Hpre IH]; cbn [app map find_line] in *; apply Forall_cons in Hok as [H1 H2]; rewrite mount_line_text by done.
  - by rewrite bool_decide_true.
  - rewrite bool_decide_false by congruence. by apply IH.
Qed.

(** A directory that is mounted is found, whatever is in the rest of the buffer. *)
Lemma find_mount_first pre m post tail dir : Forall mount_ok (pre ++ m :: post) -> Forall (fun m => m_dir m <> dir) pre -> m_dir m = dir ->
  (length (mounts_text (pre ++ m :: post)) <= 4095)%nat -> find_mount dir (Some (mounts_text (pre ++ m :: post))) tail = Ok (Some (m_dev m)).
Proof.
  intros Hok Hpre Hm Hl. unfold find_mount. set (ms := pre ++ m :: post) in *. rewrite (take_ge (mounts_text ms)) by lia.
  rewrite take_app_ge by lia. rewrite <-app_assoc. destruct (c_string_nul (take (4095 - length (mounts_text ms)) tail)) as (s & _ & Hs).
  specialize (Hs []). assert (c_string (mounts_text ms ++ take (4095 - length (mounts_text ms)) tail ++ [Byte.x00]) = Ok (mounts_text ms ++ s)) as ->.
  { apply c_string_spec in Hs as (Hn & rest & Hrest). apply c_string_spec. rewrite Hrest. split; [|exists rest; by rewrite app_assoc].
    rewrite elem_of_app. intros [Hin|]; [|done]. apply list_elem_of_In, in_concat in Hin as (l & Hl' & Hin).
    apply in_map_iff in Hl' as (x & <- & Hx). apply list_elem_of_In in Hx, Hin. rewrite Forall_forall in Hok. specialize (Hok x Hx).
    apply elem_of_app in Hin as [Hin|Hin]; [by apply (mount_text_no x Byte.x00 Hok) in Hin; [|right]|]. by apply list_elem_of_singleton in Hin. }
  cbn [res_bind]. rewrite mounts_tokens by done. by rewrite (find_line_first pre m post).
Qed.

(** ** The log *)

(** Every entry is sent, in order, to a client that takes them. *)
Lemma log_sent entries fd : (length (concat entries) <= willing (io_evs fd))%nat ->
  returns (log_loop (map Entry entries ++ [LogEnd]) fd) (fun fd' => io_out fd' = io_out fd ++ concat entries).
Proof.
  revert fd. induction entries as [|e entries IH]; intros fd Hw; cbn [map app log_loop concat] in *.
  - exists fd. by rewrite app_nil_r.
  - rewrite length_app in Hw. destruct (writex_complete fd e) as (fd1 & -> & [_ Ho Hm]); [lia|]. cbn [res_bind length] in *.
    eapply returns_mono; [|apply IH; lia]. intros fd2 ->. by rewrite Ho, app_assoc.
Qed.

(** * Properties *)

(** C20: Asking for a service never takes or closes a descriptor that was open, and
    loses none: every descriptor that it opens is returned, or given to the one
    thread or java process that serves the name; without a descriptor to return
    everything is closed again.  What serves a name is what its prefix says. *)
Theorem services_own K name d : -1 ∉ d_open d ->
  let '(r, d') := service_to_fd K name d in exists new, gives d r d' new /\ Forall (fun x => served_by K name x.1) new.
Proof. intros H. pose proof (service_gives K name d H) as Hg. by destruct (service_to_fd K name d). Qed.

Definition all_succeed : kernel := Kernel (fun _ => false) (fun _ => 77) 0 id.
Definition started : daemon := Daemon {[0; 1; 2]} [] [].

Lemma services_own_witness : -1 ∉ d_open started /\ exists new, gives started 3 (service_to_fd all_succeed (lit "sync:") started).2 new
  /\ Forall (fun x => served_by all_succeed (lit "sync:") x.1) new.
Proof.
  assert (H : -1 ∉ d_open started) by (unfold started; cbn; set_solver). split; [exact H|].
  pose proof (services_own all_succeed (lit "sync:") started H) as Hg. exact Hg.
Defined.

(** C21: The thread that waits for the process of a shell ends with the process,
    and takes no other one.  When there is no such child, because another thread
    waited for it, it never ends; the thread of a shell whose [fork] failed is
    such another one, which takes all of them. *)
Theorem waiters_end children : Forall (fun c => 0 < c.1) children -> Forall exits children ->
  (forall pid, pid ∈ map fst children -> waiter_loop 1 pid children = Ok (filter (fun c => c.1 <> pid) children))
  /\ (forall pid fuel, 0 < pid -> pid ∉ map fst children -> waiter_loop fuel pid children = Blocked)
  /\ waiter_loop (S (length children)) (-1) children = Ok [].
Proof.
  intros Hp He. split_and!.
  - intros pid Hin. apply waiter_child; [|done|done]. apply list_elem_of_fmap in Hin as (c & -> & Hin). rewrite Forall_forall in Hp. auto.
  - intros pid fuel. apply waiter_spins.
  - by apply waiter_takes_all; [|lia].
Qed.

Lemma waiters_end_witness : waiter_loop 1 8 [(7, WExited 1); (8, WSignaled)] = Ok [(7, WExited 1)]
  /\ waiter_loop 3 (-1) [(7, WExited 1); (8, WSignaled)] = Ok [].
Proof.
  assert (H1 : Forall (fun c : Z * wait_status => 0 < c.1) [(7, WExited 1); (8, WSignaled)]) by (repeat constructor).
  assert (H2 : Forall exits [(7, WExited 1); (8, WSignaled)]) by (repeat constructor; cbn; lia).
  destruct (waiters_end _ H1 H2) as (H & _ & H'). split; [apply (H 8); right; left|exact H'].
Defined.

(** C33: Remounting takes the device of the first line of the mounts that is about
    [/system], whatever a read leaves in the rest of the buffer. *)
Theorem remount_finds pre m post tail opens remounted : Forall mount_ok (pre ++ m :: post) ->
  Forall (fun m => m_dir m <> lit "/system") pre -> m_dir m = lit "/system" -> (length (mounts_text (pre ++ m :: post)) <= 4095)%nat ->
  remount_system 1 (Some (mounts_text (pre ++ m :: post))) tail opens remounted
  = Ok (if opens (m_dev m) then (remounted (m_dev m), remounted (m_dev m)) else (-1, 1)).
Proof.
  intros Hok Hpre Hm Hl. unfold remount_system. rewrite bool_decide_false by lia. rewrite (find_mount_first pre m post) by done.
  cbn [res_bind]. by destruct (opens (m_dev m)).
Qed.

Definition root_mount : mount := Mount (lit "rootfs") (lit "/") (lit "rootfs") (lit "ro") 0 0.
Definition system_mount : mount := Mount (lit "/dev/block/mtdblock0") (lit "/system") (lit "yaffs2") (lit "ro") 0 0.

Lemma remount_finds_witness : remount_system 1 (Some (mounts_text [root_mount; system_mount])) (lit "x") (fun _ => true) (fun _ => 0) = Ok (0, 0).
Proof.
  apply (remount_finds [root_mount] system_mount [] (lit "x") (fun _ => true) (fun _ => 0)); [|by apply Forall_singleton; vm_compute|reflexivity|by apply Nat.leb_le].
  assert (Hw : forall w : bytes, w <> [] -> forallb (fun b => negb (is_space b) && negb (bool_decide (b = Byte.x00))) w = true -> word w).
  { intros w Hn Hall. split; [done|]. rewrite forallb_forall in Hall. apply Forall_forall. intros b Hb%list_elem_of_In. specialize (Hall b Hb).
    apply andb_true_iff in Hall as [H1 H2]. split; [by apply negb_true_iff|]. apply negb_true_iff in H2. by apply bool_decide_eq_false in H2. }
  repeat (apply Forall_cons; split; [split; try split; try (apply Hw; [discriminate|vm_compute; reflexivity]); cbn; try lia|]). by apply Forall_nil_2.
Defined.

(** ** What goes wrong *)

(** The null behind the arguments of [bu] is written behind what [alloca] was
    asked for. *)
Lemma bu_args_overruns K op fd args : alloca K = id -> bu_args K op fd args = Ub.
Proof. intros Ha. unfold bu_args. rewrite Ha. unfold id. unfold bu_args, sizeof_ptr. rewrite bool_decide_false; [done|lia]. Qed.

(** A line that an earlier call left in the buffer is taken for a mount. *)
Example stale_mount : find_mount (lit "/system") (Some (mounts_text [root_mount])) (mounts_text [system_mount]) = Ok (Some (lit "/dev/block/mtdblock0")).
Proof. by vm_compute. Qed.

(** Without a number behind [tcpip:] the port is what the variable holds. *)
Example tcpip_garbage : thread_service (Kernel (fun _ => false) (fun _ => 77) 4242 id) (lit "tcpip:") = Some (restart_tcp_service 4242).
Proof. by vm_compute. Qed.

(** The thread that waits for [bu] closes the descriptor of the connection, which
    is still open elsewhere, and the next file gets its number. *)
Example backup_descriptor_taken :
  let '(fd, d) := service_to_fd all_succeed (lit "backup:-all") started in
  let '(other, _) := open_call all_succeed (UnixOpen (lit "/dev/x")) (backup_child_waited fd d) in fd = 3 /\ other = 3.
Proof. by vm_compute. Qed.

(** A shell without a process: there is no descriptor, but a thread that waits for
    any process. *)
Example shell_without_process :
  let K := Kernel (fun h => match last h with Some (Fork _) => true | _ => false end) (fun _ => 77) 0 id in
  let '(r, d) := service_to_fd K (lit "shell:ls") started in r = -1 /\ d_given d = [(subproc_waiter_service (-1), -1)].
Proof. by vm_compute. Qed.

(** The log is read on for a client that is gone. *)
Example log_goes_on : log_loop [Entry (lit "a"); Entry (lit "b")] (Fdio [] [] (replicate 9 (Fail EIO)) []) = Blocked.
Proof. by vm_compute. Qed.
