(* ===== verification/SyncService.v ===== *)
(** * The file service of the device (file_sync_service.c)

    The service answers the requests of the sync protocol on one descriptor:
    the status of a file, the entries of a directory, a file to be stored and a
    file to be fetched.  The files are those of the operating system, whose
    calls are the class [Os]; an open file is a descriptor with its schedule of
    answers (Rwx.v), so that each of its reads and writes can be cut short,
    interrupted or fail.

    The buffer of 450 bytes that [file_sync_service] allocates is kept from one
    request to the next; [sy_buf] is the part that was written. *)

From S2P Require Import Prelude Cstr Numbers Rwx.

(** ** file_sync_service.h *)

Definition MKID (a b c d : byte) : Z := of_le32 a b c d.
Definition ID_STAT : Z := MKID Byte.x53 Byte.x54 Byte.x41 Byte.x54.
Definition ID_LIST : Z := MKID Byte.x4c Byte.x49 Byte.x53 Byte.x54.
Definition ID_SEND : Z := MKID Byte.x53 Byte.x45 Byte.x4e Byte.x44.
Definition ID_RECV : Z := MKID Byte.x52 Byte.x45 Byte.x43 Byte.x56.
Definition ID_DENT : Z := MKID Byte.x44 Byte.x45 Byte.x4e Byte.x54.
Definition ID_DONE : Z := MKID Byte.x44 Byte.x4f Byte.x4e Byte.x45.
Definition ID_DATA : Z := MKID Byte.x44 Byte.x41 Byte.x54 Byte.x41.
Definition ID_OKAY : Z := MKID Byte.x4f Byte.x4b Byte.x41 Byte.x59.
Definition ID_FAIL : Z := MKID Byte.x46 Byte.x41 Byte.x49 Byte.x4c.
Definition ID_QUIT : Z := MKID Byte.x51 Byte.x55 Byte.x49 Byte.x54.

(** ** Files *)

Inductive os_error := ENOENT | EEXIST | Eother (e : Z).
Inductive open_how :=
  | ReadOnly     (* O_RDONLY *)
  | WriteOnly    (* O_WRONLY *)
  | CreateNew    (* O_WRONLY | O_CREAT | O_EXCL *)
  | Truncate.    (* creat *)
Record filestat := Filestat { st_mode : Z; st_size : Z; st_mtime : Z }.
Abbreviation file := (Z * fdio)%type.

(** The calls of the operating system on a state [W] of its files. *)
Class Os (W : Type) := {
  os_open : W -> bytes -> open_how -> Z -> W * (os_error + file);
  os_close : W -> file -> W;
  os_unlink : W -> bytes -> W;
  os_mkdir : W -> bytes -> Z -> W * option os_error;
  os_symlink : W -> bytes -> bytes -> W * option os_error;
  os_utime : W -> bytes -> Z -> W;
  os_lstat : W -> bytes -> option filestat;
  os_readlink : W -> bytes -> os_error + bytes;
  os_readdir : W -> bytes -> option (list bytes);
  os_strerror : os_error -> bytes;
  (** [errno] after a call on an open file failed. *)
  os_errno : file -> os_error
}.

Definition S_IFMT : Z := 0xf000.
Definition S_ISLNK (m : Z) : bool := bool_decide (Z.land m S_IFMT = 0xa000).
Definition S_ISREG (m : Z) : bool := bool_decide (Z.land m S_IFMT = 0x8000).

(** ** Messages

    The structures of the protocol are words, followed by the text or the data
    that one of them gives the length of. *)

Definition write_words (s : fdio) (ws : list Z) : res (Z * fdio) := writex s (concat (map le32 ws)).
Definition read_words (s : fdio) (n : nat) : res (option (list Z) * fdio) :=
  let* ' (r, buf, s) := readx s (4 * n) in
  Ok (if bool_decide (r = 0) then Some (le_words n buf) else None, s).

(** [readx(fd, buf, len)] into a buffer of [size] bytes. *)
Definition readx_into (size : nat) (s : fdio) (len : Z) : res (Z * bytes * fdio) :=
  if bool_decide (0 <= len <= Z.of_nat size) then readx s (Z.to_nat len) else Ub.

(** The buffer after [bs] was written to its start. *)
Definition fill (buf bs : bytes) : bytes := bs ++ drop (length bs) buf.

(** [writex(...) || writex(...)] *)
Definition write_both (s : fdio) (ws : list Z) (text : bytes) : res (bool * fdio) :=
  let* ' (r, s) := write_words s ws in
  if bool_decide (r <> 0) then Ok (false, s)
  else let* ' (r, s) := writex s text in Ok (bool_decide (r = 0), s).

Section Service.
Context {W : Type} {OS : Os W} (HAVE_SYMLINKS : bool).

Record sync := Sync { sy_s : fdio; sy_w : W; sy_buf : bytes }.
Definition with_s (s : fdio) (y : sync) : sync := Sync s (sy_w y) (sy_buf y).
Definition with_w (w : W) (y : sync) : sync := Sync (sy_s y) w (sy_buf y).
Definition with_buf (b : bytes) (y : sync) : sync := Sync (sy_s y) (sy_w y) b.

(** ** [mkdirs] *)

(** [done] is what precedes [x], and [rest] what [x] points at. *)
Fixpoint mkdirs_loop (fuel : nat) (w : W) (done rest : bytes) : W * Z :=
  match fuel with
  | O => (w, 0)
  | S fuel =>
      match strchr rest Byte.x2f with
      | None => (w, 0)
      | Some (l, r) =>
          match os_mkdir w (done ++ l) 0x1fd (* 0775 *) with
          | (w, None) | (w, Some EEXIST) => mkdirs_loop fuel w (done ++ l ++ [Byte.x2f]) r
          | (w, Some _) => (w, -1)
          end
      end
  end.

Definition mkdirs (w : W) (name : bytes) : W * Z :=
  match name with
  | Byte.x2f :: rest => mkdirs_loop (length name) w [Byte.x2f] rest
  | _ => (w, -1)
  end.

(** ** Answers *)

Definition fail_message (y : sync) (reason : bytes) : res (Z * sync) :=
  let* ' (ok, s) := write_both (sy_s y) [ID_FAIL; Z.of_nat (length reason)] reason in
  Ok (if ok then 0 else -1, with_s s y).

Definition fail_errno (y : sync) (e : os_error) : res (Z * sync) := fail_message y (os_strerror e).

Definition reply_words (y : sync) (ws : list Z) : res (Z * sync) :=
  let* ' (r, s) := write_words (sy_s y) ws in Ok (r, with_s s y).

Definition do_stat (y : sync) (path : bytes) : res (Z * sync) :=
  match os_lstat (sy_w y) path with
  | None => reply_words y [ID_STAT; 0; 0; 0]
  | Some st => reply_words y [ID_STAT; u32 (st_mode st); u32 (st_size st); u32 (st_mtime st)]
  end.

(** The entries of the directory; the name of an entry is copied behind the
    path and a slash, in an array of 1024 + 256 + 1 bytes. *)
Fixpoint list_entries (y : sync) (path : bytes) (entries : list bytes) : res (Z * sync) :=
  match entries with
  | [] => Ok (0, y)
  | name :: entries =>
      if bool_decide (256 < length name)%nat then list_entries y path entries
      else if bool_decide (1024 + 256 + 1 < length path + 1 + length name + 1)%nat then Ub
      else
        match os_lstat (sy_w y) (path ++ [Byte.x2f] ++ name) with
        | None => list_entries y path entries
        | Some st =>
            let* ' (ok, s) :=
              write_both (sy_s y) [ID_DENT; u32 (st_mode st); u32 (st_size st); u32 (st_mtime st); Z.of_nat (length name)] name in
            let y := with_s s y in
            if ok then list_entries y path entries else Ok (-1, y)
        end
  end.

Definition do_list (y : sync) (path : bytes) : res (Z * sync) :=
  let* ' (r, y) :=
    (match os_readdir (sy_w y) path with
     | None => Ok (0, y)
     | Some entries => list_entries y path entries
     end) in
  if bool_decide (r <> 0) then Ok (r, y) else reply_words y [ID_DONE; 0; 0; 0; 0].

(** ** Storing a file *)

Definition open_for_send (w : W) (path : bytes) (mode : Z) : W * (os_error + file) :=
  let '(w, fd) := os_open w path CreateNew mode in
  let '(w, fd) :=
    match fd with
    | inl ENOENT => let '(w, _) := mkdirs w path in os_open w path CreateNew mode
    | _ => (w, fd)
    end in
  match fd with
  | inl EEXIST => os_open w path WriteOnly mode
  | _ => (w, fd)
  end.

(** The label [fail]. *)
Definition send_fail (y : sync) (path : bytes) (fd : option file) : res (Z * sync) :=
  let w := match fd with Some f => os_close (sy_w y) f | None => sy_w y end in
  Ok (-1, with_w (os_unlink w path) y).

(** The loop: every message takes eight bytes of the stream. *)
Fixpoint send_file_loop (fuel : nat) (y : sync) (path : bytes) (fd : option file) : res (Z * sync) :=
  match fuel with
  | O => Blocked
  | S fuel =>
      let* ' (msg, s) := read_words (sy_s y) 2 in
      let y := with_s s y in
      match msg with
      | Some [id; size] =>
          if bool_decide (id <> ID_DATA) then
            if bool_decide (id = ID_DONE) then
              match fd with
              | Some f => reply_words (with_w (os_utime (os_close (sy_w y) f) path size) y) [ID_OKAY; 0]
              | None => Ok (0, y)
              end
            else
              let* ' (_, y) := fail_message y (lit "invalid data message") in send_fail y path fd
          else if bool_decide (size > Z.of_nat SYNC_DATA_MAX) then
            let* ' (_, y) := fail_message y (lit "oversize data message") in send_fail y path fd
          else
            let* ' (r, bs, s) := readx_into SYNC_DATA_MAX (sy_s y) size in
            let y := with_buf (fill (sy_buf y) bs) (with_s s y) in
            if bool_decide (r <> 0) then send_fail y path fd
            else
              match fd with
              | None => send_file_loop fuel y path None
              | Some (i, f) =>
                  let* ' (r, f) := writex f bs in
                  if bool_decide (r <> 0) then
                    let y := with_w (os_unlink (os_close (sy_w y) (i, f)) path) y in
                    let* ' (r, y) := fail_errno y (os_errno (i, f)) in
                    if bool_decide (r <> 0) then Ok (-1, y) else send_file_loop fuel y path None
                  else send_file_loop fuel y path (Some (i, f))
              end
      | _ => send_fail y path fd
      end
  end.

Definition stream_fuel (y : sync) : nat := S (length (io_in (sy_s y))).

Definition handle_send_file (y : sync) (path : bytes) (mode : Z) : res (Z * sync) :=
  let '(w, fd) := open_for_send (sy_w y) path mode in
  let y := with_w w y in
  match fd with
  | inr f => send_file_loop (stream_fuel y) y path (Some f)
  | inl e =>
      let* ' (r, y) := fail_errno y e in
      if bool_decide (r <> 0) then Ok (-1, y) else send_file_loop (stream_fuel y) y path None
  end.

Definition handle_send_link (y : sync) (path : bytes) : res (Z * sync) :=
  let* ' (msg, s) := read_words (sy_s y) 2 in
  let y := with_s s y in
  match msg with
  | Some [id; size] =>
      if bool_decide (id <> ID_DATA) then
        let* ' (_, y) := fail_message y (lit "invalid data message: expected ID_DATA") in Ok (-1, y)
      else if bool_decide (size > Z.of_nat SYNC_DATA_MAX) then
        let* ' (_, y) := fail_message y (lit "oversize data message") in Ok (-1, y)
      else
        let* ' (r, bs, s) := readx_into SYNC_DATA_MAX (sy_s y) size in
        let y := with_buf (fill (sy_buf y) bs) (with_s s y) in
        if bool_decide (r <> 0) then Ok (-1, y)
        else
          let* target := c_string (sy_buf y) in
          let '(w, ret) := os_symlink (sy_w y) target path in
          let '(w, ret) :=
            match ret with
            | Some ENOENT => let '(w, _) := mkdirs w path in os_symlink w target path
            | _ => (w, ret)
            end in
          let y := with_w w y in
          match ret with
          | Some e => let* ' (_, y) := fail_errno y e in Ok (-1, y)
          | None =>
              let* ' (msg, s) := read_words (sy_s y) 2 in
              let y := with_s s y in
              match msg with
              | Some [id; _] =>
                  if bool_decide (id = ID_DONE) then
                    let* ' (r, y) := reply_words y [ID_OKAY; 0] in Ok (if bool_decide (r = 0) then 0 else -1, y)
                  else
                    let* ' (_, y) := fail_message y (lit "invalid data message: expected ID_DONE") in Ok (-1, y)
              | _ => Ok (-1, y)
              end
          end
  | _ => Ok (-1, y)
  end.

(** The path, and the mode and the kind of the file that follow the last
    comma; [mode_t] has 16 bits. *)
Definition split_mode (path : bytes) : bytes * Z * bool :=
  match strrchr path Byte.x2c with
  | None => (path, 0x1a4, false)
  | Some (p, tmp) =>
      let '(v, erange) := strtoul tmp in
      let mode := u16 v in
      if (erange : bool) then (p, 0x1a4 (* 0644 *), false)
      else (p, Z.land mode 0x1ff (* 0777 *), HAVE_SYMLINKS && S_ISLNK mode)
  end.

(** The permission bits of the user are copied to the group and to others. *)
Definition copy_bits (mode : Z) : Z :=
  let mode := Z.lor mode (Z.land (Z.shiftr mode 3) 0x38 (* 0070 *)) in
  Z.lor mode (Z.land (Z.shiftr mode 3) 0x7).

Definition do_send (y : sync) (path : bytes) : res (Z * sync) :=
  let '(path, mode, is_link) := split_mode path in
  let y := with_w (os_unlink (sy_w y) path) y in
  if (is_link : bool) then handle_send_link y path
  else handle_send_file y path (copy_bits mode).

(** ** Fetching a file *)

Fixpoint recv_loop (fuel : nat) (y : sync) (i : Z) (f : fdio) : res (Z * sync) :=
  match fuel with
  | O => Blocked
  | S fuel =>
      let* ' (r, f) := adb_read f SYNC_DATA_MAX in
      match r with
      | RGot [] =>
          let y := with_w (os_close (sy_w y) (i, f)) y in
          let* ' (r, y) := reply_words y [ID_DONE; 0] in Ok (if bool_decide (r = 0) then 0 else -1, y)
      | RErr EINTR => recv_loop fuel y i f
      | RErr _ =>
          let* ' (r, y) := fail_errno y (os_errno (i, f)) in
          Ok (r, with_w (os_close (sy_w y) (i, f)) y)
      | RGot bs =>
          let y := with_buf (fill (sy_buf y) bs) y in
          let* ' (ok, s) := write_both (sy_s y) [ID_DATA; Z.of_nat (length bs)] bs in
          let y := with_s s y in
          if (ok : bool) then recv_loop fuel y i f else Ok (-1, with_w (os_close (sy_w y) (i, f)) y)
      end
  end.

Definition do_recv (y : sync) (path : bytes) : res (Z * sync) :=
  match os_open (sy_w y) path ReadOnly 0 with
  | (w, inl e) => let* ' (r, y) := fail_errno (with_w w y) e in Ok (if bool_decide (r = 0) then 0 else -1, y)
  | (w, inr (i, f)) => recv_loop (io_fuel f) (with_w w y) i f
  end.

(** ** The service *)

(** The switch over the commands, and whether there is another turn. *)
Definition serve_command (y : sync) (id : Z) (name : bytes) : res (bool * sync) :=
  let command (m : res (Z * sync)) : res (bool * sync) :=
    let* ' (r, y) := m in Ok (bool_decide (r = 0), y) in
  if bool_decide (id = ID_STAT) then command (do_stat y name)
  else if bool_decide (id = ID_LIST) then command (do_list y name)
  else if bool_decide (id = ID_SEND) then command (do_send y name)
  else if bool_decide (id = ID_RECV) then command (do_recv y name)
  else if bool_decide (id = ID_QUIT) then Ok (false, y)
  else let* ' (_, y) := fail_message y (lit "unknown command") in Ok (false, y).

(** One turn of the loop. *)
Definition serve_one (y : sync) : res (bool * sync) :=
  let* ' (msg, s) := read_words (sy_s y) 2 in
  let y := with_s s y in
  match msg with
  | Some [id; namelen] =>
      if bool_decide (namelen > 1024) then
        let* ' (_, y) := fail_message y (lit "invalid namelen") in Ok (false, y)
      else
        let* ' (r, name, s) := readx_into 1025 (sy_s y) namelen in
        let y := with_s s y in
        if bool_decide (r <> 0) then
          let* ' (_, y) := fail_message y (lit "filename read failure") in Ok (false, y)
        else
          let* name := c_string (name ++ [Byte.x00]) in
          serve_command y id name
  | _ => let* ' (_, y) := fail_message y (lit "command read failure") in Ok (false, y)
  end.

Fixpoint serve (fuel : nat) (y : sync) : res sync :=
  match fuel with
  | O => Blocked
  | S fuel =>
      let* ' (more, y) := serve_one y in
      if (more : bool) then serve fuel y else Ok y
  end.

(** When the loop is left, the buffer is freed and [fd] is closed. *)
Definition file_sync_service (fd : fdio) (w : W) : res sync :=
  let y := Sync fd w [] in serve (stream_fuel y) y.

End Service.

(** * Theorems *)

Definition words (ws : list Z) : bytes := concat (map le32 ws).

Lemma length_words ws : length (words ws) = (4 * length ws)%nat.
Proof. induction ws as [|w ws IH]; [done|]. unfold words in *. cbn [map concat]. rewrite length_app, IH. cbn. lia. Qed.

Lemma moved_rest f f' i o rest : moved f f' i o -> io_in f = i ++ rest -> io_in f' = rest.
Proof. intros [H _ _] E. rewrite H in E. by apply app_inv_head in E. Qed.

(** ** Whole messages *)

Lemma write_words_complete s ws : (4 * length ws <= willing (io_evs s))%nat ->
  exists s', write_words s ws = Ok (0, s') /\ moved s s' [] (words ws).
Proof. intros H. apply writex_complete. fold (words ws). by rewrite length_words. Qed.

Lemma read_words_complete s ws rest n : io_in s = words ws ++ rest -> words_in ws -> n = length ws ->
  (4 * n <= willing (io_evs s))%nat -> exists s', read_words s n = Ok (Some ws, s') /\ moved s s' (words ws) [].
Proof.
  intros Hi Hws -> Hw. pose proof (length_words ws) as Hl.
  assert (take (4 * length ws) (io_in s) = words ws) as Ht by (rewrite Hi, <-Hl; apply take_app_length).
  destruct (readx_complete s (4 * length ws)) as (s' & E & Hm); [rewrite Hi, length_app; lia|done|].
  rewrite Ht in E, Hm. exists s'. unfold read_words. rewrite E. cbn [res_bind].
  rewrite bool_decide_true by done. split; [|done]. do 3 f_equal.
  rewrite <-(app_nil_r (words ws)). by apply le_words_le32.
Qed.

Lemma readx_into_complete size s bs rest : io_in s = bs ++ rest -> (length bs <= size)%nat ->
  (length bs <= willing (io_evs s))%nat ->
  exists s', readx_into size s (Z.of_nat (length bs)) = Ok (0, bs, s') /\ moved s s' bs [].
Proof.
  intros Hi Hsize Hw. unfold readx_into. rewrite bool_decide_true by lia. rewrite Nat2Z.id.
  destruct (readx_complete s (length bs)) as (s' & E & Hm); [rewrite Hi, length_app; lia|done|].
  rewrite Hi, take_app_length in E, Hm. eauto.
Qed.

Lemma write_both_complete s ws text : (4 * length ws + length text <= willing (io_evs s))%nat ->
  exists s', write_both s ws text = Ok (true, s') /\ moved s s' [] (words ws ++ text).
Proof.
  intros Hw. unfold write_both. destruct (write_words_complete s ws) as (s1 & E & Hm); [lia|]. rewrite E.
  cbn [res_bind]. rewrite bool_decide_false by lia. pose proof (mv_will _ _ _ _ Hm) as Hwill. rewrite length_words in Hwill.
  cbn in Hwill. destruct (writex_complete s1 text) as (s2 & E2 & Hm2); [lia|]. rewrite E2. cbn [res_bind].
  exists s2. split; [done|]. exact (moved_trans _ _ _ [] _ [] _ Hm Hm2).
Qed.

(** ** Storing a file keeps the protocol in step *)

(** The data messages of the pieces of a file. *)
Definition msg_data (d : bytes) : bytes := words [ID_DATA; Z.of_nat (length d)] ++ d.
Definition data_stream (ds : list bytes) : bytes := concat (map msg_data ds).
Definition done_msg (ts : Z) : bytes := words [ID_DONE; ts].
Definition okay_msg : bytes := words [ID_OKAY; 0].
Definition fail_msg (reason : bytes) : bytes := words [ID_FAIL; Z.of_nat (length reason)] ++ reason.

Lemma length_msg_data d : length (msg_data d) = (8 + length d)%nat.
Proof. unfold msg_data. by rewrite length_app, length_words. Qed.

Lemma length_data_stream ds : (8 * length ds + length (concat ds))%nat = length (data_stream ds).
Proof.
  induction ds as [|d ds IH]; [done|]. unfold data_stream in *. cbn [map concat length].
  rewrite !length_app, length_msg_data. lia.
Qed.

Lemma fail_message_complete {W} (y : sync (W := W)) reason : (8 + length reason <= willing (io_evs (sy_s y)))%nat ->
  exists s', fail_message y reason = Ok (0, with_s s' y) /\ moved (sy_s y) s' [] (fail_msg reason).
Proof.
  intros H. unfold fail_message. destruct (write_both_complete (sy_s y) [ID_FAIL; Z.of_nat (length reason)] reason) as (s' & E & Hm);
    [cbn; lia|]. rewrite E. cbn [res_bind]. eauto.
Qed.

Lemma id_word a b c d n : 0 <= n < 2 ^ 32 -> words_in [MKID a b c d; n].
Proof. intros H. constructor; [apply of_le32_range|constructor; [done|constructor]]. Qed.

(** The two reads of a data message. *)
Lemma data_read s d rest : io_in s = msg_data d ++ rest -> (length d <= SYNC_DATA_MAX)%nat ->
  (8 + length d <= willing (io_evs s))%nat ->
  exists s1 s2, read_words s 2 = Ok (Some [ID_DATA; Z.of_nat (length d)], s1)
  /\ readx_into SYNC_DATA_MAX s1 (Z.of_nat (length d)) = Ok (0, d, s2) /\ moved s s2 (msg_data d) [].
Proof.
  intros Hi Hd Hw. unfold msg_data in Hi. rewrite <-app_assoc in Hi.
  destruct (read_words_complete s _ _ 2 Hi) as (s1 & E1 & Hm1).
  { apply id_word. unfold SYNC_DATA_MAX in Hd. lia. }
  { done. }
  { lia. }
  pose proof (moved_rest _ _ _ _ _ Hm1 Hi) as Hi1. pose proof (mv_will _ _ _ _ Hm1) as Hw1. rewrite length_words in Hw1. cbn in Hw1.
  destruct (readx_into_complete SYNC_DATA_MAX s1 d rest Hi1 Hd) as (s2 & E2 & Hm2); [lia|].
  exists s1, s2. split_and!; [done|done|]. exact (moved_trans _ _ _ _ [] _ [] Hm1 Hm2).
Qed.

Section InStep.
Context {W : Type} {OS : Os W} (path : bytes) (ts : Z) (rest : bytes).
Hypothesis Hts : 0 <= ts < 2 ^ 32.
Implicit Types (y : sync (W := W)) (ds : list bytes).

Abbreviation pieces ds := (Forall (fun d => length d <= SYNC_DATA_MAX)%nat ds).

(** With no file open, the messages are read and dropped. *)
Lemma drain ds : pieces ds -> forall fuel y, (length ds < fuel)%nat ->
  io_in (sy_s y) = data_stream ds ++ done_msg ts ++ rest -> (length (data_stream ds) + 8 <= willing (io_evs (sy_s y)))%nat ->
  exists y', send_file_loop fuel y path None = Ok (0, y') /\ sy_w y' = sy_w y
  /\ moved (sy_s y) (sy_s y') (data_stream ds ++ done_msg ts) [].
Proof.
  induction 1 as [|d ds Hd _ IH]; intros [|fuel] y Hf Hi Hw; try (cbn in Hf; lia); cbn [send_file_loop].
  - destruct (read_words_complete (sy_s y) [ID_DONE; ts] rest 2 Hi) as (s1 & E1 & Hm); [by apply id_word|done|cbn in Hw; lia|].
    rewrite E1. cbn [res_bind]. rewrite bool_decide_true by done. rewrite bool_decide_true by done. by eexists.
  - unfold data_stream in Hi, Hw. cbn [map concat] in Hi, Hw. rewrite <-app_assoc in Hi. rewrite length_app, length_msg_data in Hw.
    destruct (data_read (sy_s y) d _ Hi Hd) as (s1 & s2 & E1 & E2 & Hm); [lia|]. rewrite E1. cbn [res_bind].
    rewrite bool_decide_false by auto. rewrite bool_decide_false by lia. cbn [sy_s with_s]. rewrite E2. cbn [res_bind].
    rewrite bool_decide_false by auto. pose proof (moved_rest _ _ _ _ _ Hm Hi) as Hi2.
    pose proof (mv_will _ _ _ _ Hm) as Hw2. rewrite length_msg_data in Hw2. cbn [length] in Hw2.
    destruct (IH fuel (with_buf (fill (sy_buf (with_s s1 y)) d) (with_s s2 (with_s s1 y)))) as (y' & E & Hw' & Hm');
      [cbn in Hf; lia|exact Hi2|cbn [with_buf with_s sy_s] in *; unfold data_stream; lia|].
    exists y'. split_and!; [done|done|]. unfold data_stream. cbn [map concat]. rewrite <-app_assoc. exact (moved_trans _ _ _ _ [] _ [] Hm Hm').
Qed.

(** What becomes of an open file: it is stored and acknowledged, or what was
    written of it is removed and the transfer is refused. *)
Definition stored (w w' : W) (i : Z) (f : fdio) (data reply : bytes) : Prop :=
  exists f', io_out f' = io_out f ++ data /\ w' = os_utime (os_close w (i, f')) path ts /\ reply = okay_msg.
Definition refused (w w' : W) (i : Z) (f : fdio) (data reply : bytes) : Prop :=
  exists f' k, (k < length data)%nat /\ io_out f' = io_out f ++ take k data
  /\ w' = os_unlink (os_close w (i, f')) path /\ reply = fail_msg (os_strerror (os_errno (i, f'))).

Lemma stored_after w w' i f f' d data reply : io_out f' = io_out f ++ d ->
  stored w w' i f' data reply -> stored w w' i f (d ++ data) reply.
Proof. intros H (f2 & Ho & Hw & Hr). exists f2. by rewrite Ho, H, app_assoc. Qed.

Lemma refused_after w w' i f f' d data reply : io_out f' = io_out f ++ d ->
  refused w w' i f' data reply -> refused w w' i f (d ++ data) reply.
Proof.
  intros H (f2 & k & Hk & Ho & Hw & Hr). exists f2, (length d + k)%nat. rewrite length_app, take_app_add, Ho, H, app_assoc.
  split_and!; [lia|done..].
Qed.

Definition file_room y ds (e : nat) : Prop := (length (data_stream ds) + 16 + e <= willing (io_evs (sy_s y)))%nat.

Lemma store ds E : pieces ds -> (forall e, (length (os_strerror e) <= E)%nat) -> forall fuel y i f, (length ds < fuel)%nat ->
  io_in (sy_s y) = data_stream ds ++ done_msg ts ++ rest -> file_room y ds E -> patient 1 f ->
  exists y' reply, send_file_loop fuel y path (Some (i, f)) = Ok (0, y')
  /\ moved (sy_s y) (sy_s y') (data_stream ds ++ done_msg ts) reply
  /\ (stored (sy_w y) (sy_w y') i f (concat ds) reply \/ refused (sy_w y) (sy_w y') i f (concat ds) reply).
Proof.
  intros Hds HE. unfold file_room. induction Hds as [|d ds Hd Hds IH]; intros [|fuel] y i f Hf Hi Hw Hp; try (cbn in Hf; lia); cbn [send_file_loop].
  - destruct (read_words_complete (sy_s y) [ID_DONE; ts] rest 2 Hi) as (s1 & E1 & Hm); [by apply id_word|done|cbn in Hw; lia|].
    rewrite E1. cbn [res_bind]. rewrite bool_decide_true by done. rewrite bool_decide_true by done.
    pose proof (mv_will _ _ _ _ Hm) as Hw1. rewrite length_words in Hw1. cbn in Hw1, Hw.
    destruct (write_words_complete s1 [ID_OKAY; 0]) as (s2 & E2 & Hm2); [cbn; lia|].
    unfold reply_words. cbn [sy_s with_w with_s]. rewrite E2. cbn [res_bind]. eexists _, okay_msg. split; [done|]. split.
    + exact (moved_trans _ _ _ _ [] [] _ Hm Hm2) .
    + left. exists f. cbn [concat]. by rewrite app_nil_r.
  - unfold data_stream in Hi, Hw. cbn [map concat] in Hi, Hw. rewrite <-app_assoc in Hi. rewrite length_app, length_msg_data in Hw.
    destruct (data_read (sy_s y) d _ Hi Hd) as (s1 & s2 & E1 & E2 & Hm); [lia|]. rewrite E1. cbn [res_bind].
    rewrite bool_decide_false by auto. rewrite bool_decide_false by lia. cbn [sy_s with_s]. rewrite E2. cbn [res_bind].
    rewrite bool_decide_false by auto. pose proof (moved_rest _ _ _ _ _ Hm Hi) as Hi2.
    pose proof (mv_will _ _ _ _ Hm) as Hw2. rewrite length_msg_data in Hw2. cbn [length] in Hw2.
    destruct (writex_patient 0 f d Hp) as ([r f'] & Ew & _ & Hpat). rewrite Ew. cbn [res_bind].
    destruct (writex_sound _ _ _ _ Ew) as [k [_ _ Ho Hr _]]. destruct Hr as [[-> ->]|[-> Hk]].
    + rewrite bool_decide_false by auto. rewrite firstn_all in Ho.
      destruct (IH fuel (with_buf (fill (sy_buf (with_s s1 y)) d) (with_s s2 (with_s s1 y))) i f') as (y' & reply & Hy & Hm' & Hor);
        [cbn in Hf; lia|exact Hi2|cbn [with_buf with_s sy_s] in *; unfold data_stream; lia|auto|].
      exists y', reply. split_and!; [done| |].
      * unfold data_stream. cbn [map concat]. rewrite <-app_assoc. exact (moved_trans _ _ _ _ [] _ reply Hm Hm').
      * cbn [concat]. destruct Hor; [left; by eapply stored_after|right; by eapply refused_after].
    + rewrite bool_decide_true by lia. set (y1 := with_w _ _). pose proof (HE (os_errno (i, f'))) as Hlen.
      destruct (fail_message_complete y1 (os_strerror (os_errno (i, f')))) as (s3 & E3 & Hm3); [cbn [y1 with_w with_buf with_s sy_s]; lia|].
      unfold fail_errno. rewrite E3. cbn [res_bind]. rewrite bool_decide_false by auto.
      pose proof (mv_will _ _ _ _ Hm3) as Hw3. cbn [y1 with_w with_buf with_s sy_s] in Hw3. unfold fail_msg in Hw3.
      rewrite length_app, length_words in Hw3. cbn [length] in Hw3. pose proof (mv_in _ _ _ _ Hm3) as Hi3.
      destruct (drain ds Hds fuel (with_s s3 y1)) as (y' & Hy & Hw' & Hm'); [cbn in Hf; lia| |cbn [with_s sy_s]; unfold data_stream; lia|].
      { cbn [y1 with_w with_buf with_s sy_s app] in *. by rewrite <-Hi3. }
      exists y', (fail_msg (os_strerror (os_errno (i, f')))). split_and!; [done| |].
      * unfold data_stream. cbn [map concat]. rewrite <-app_assoc.
        refine (moved_trans _ _ _ (msg_data d) [] _ _ Hm _). rewrite <-(app_nil_r (fail_msg _)).
        exact (moved_trans _ _ _ [] _ _ [] Hm3 Hm').
      * right. exists f', k. cbn [concat]. rewrite length_app, take_app_le by lia. split_and!; [lia|done|by rewrite Hw'|done].
Qed.
End InStep.

Abbreviation pieces ds := (Forall (fun d => length d <= SYNC_DATA_MAX)%nat ds).

(** A file that can be read to its end. *)
Definition readable (f : fdio) : Prop := (length (io_in f) < willing (io_evs f))%nat.

Lemma read_piece f : readable f -> exists bs f', adb_read f SYNC_DATA_MAX = Ok (RGot bs, f') /\ io_in f = bs ++ io_in f'
  /\ (length bs <= SYNC_DATA_MAX)%nat /\ (length (io_evs f') < length (io_evs f))%nat
  /\ (bs = [] -> io_in f = []) /\ (bs <> [] -> readable f').
Proof.
  intros Hr. destruct (retry_willing (io_evs f)) as (n & evs & E & Hn); [unfold readable in Hr; lia|].
  pose proof (retry_some _ _ _ E) as (_ & Hlen & _). unfold adb_read. rewrite E. eexists _, _. split; [reflexivity|].
  pose proof (xfer_len_range n SYNC_DATA_MAX) as [Hx Hpos]. assert (0 < xfer_len n SYNC_DATA_MAX)%nat as Hp by (apply Hpos; unfold SYNC_DATA_MAX; lia).
  cbn [io_in io_evs]. rewrite take_drop, length_take. split_and!; [done|lia|done| |].
  - intros Ht. destruct (io_in f); [done|]. destruct (xfer_len n SYNC_DATA_MAX); [lia|done].
  - intros Ht. unfold readable in *. cbn [io_in io_evs]. rewrite length_drop.
    assert (length (io_in f) <> 0%nat) by (intros H0; apply nil_length_inv in H0; by rewrite H0, take_nil in Ht). lia.
Qed.

(** Open files fail in the end, and what went wrong has a short text. *)
Record calm {W} (OS : Os W) (E : nat) : Prop := Calm {
  calm_open w path how mode w' i f : os_open w path how mode = (w', inr (i, f)) -> patient 1 f;
  calm_text e : (length (os_strerror e) <= E)%nat;
  calm_string e : Byte.x00 ∉ os_strerror e
}.

(** A request whose name is read. *)
Lemma serve_one_request {W} {OS : Os W} H (y : sync (W := W)) a b c d name rest :
  io_in (sy_s y) = words [MKID a b c d; Z.of_nat (length name)] ++ name ++ rest -> Byte.x00 ∉ name -> (length name <= 1024)%nat ->
  (8 + length name <= willing (io_evs (sy_s y)))%nat ->
  exists s', moved (sy_s y) s' (words [MKID a b c d; Z.of_nat (length name)] ++ name) []
  /\ serve_one H y = serve_command H (with_s s' y) (MKID a b c d) name.
Proof.
  intros Hi Hnul Hlen Hw. destruct (read_words_complete _ _ _ 2 Hi) as (s1 & E1 & Hm1); [apply id_word; lia|done|lia|].
  pose proof (moved_rest _ _ _ _ _ Hm1 Hi) as Hi1. pose proof (mv_will _ _ _ _ Hm1) as Hw1. rewrite length_words in Hw1. cbn in Hw1.
  destruct (readx_into_complete 1025 s1 name rest Hi1) as (s2 & E2 & Hm2); [lia|lia|]. exists s2.
  split; [exact (moved_trans _ _ _ _ [] _ [] Hm1 Hm2)|]. unfold serve_one. rewrite E1. cbn [res_bind].
  rewrite bool_decide_false by lia. cbn [sy_s with_s]. rewrite E2. cbn [res_bind]. rewrite bool_decide_false by auto.
  by rewrite c_string_snoc by done.
Qed.

Section Serving.
Context {W : Type} {OS : Os W} (HAVE_SYMLINKS : bool) (E : nat).
Hypothesis HOS : calm OS E.
Implicit Types (y : sync (W := W)) (ds : list bytes).

Lemma open_for_send_patient w path mode w' i f : open_for_send w path mode = (w', inr (i, f)) -> patient 1 f.
Proof.
  unfold open_for_send. destruct (os_open w path CreateNew mode) as [w1 [e1|f1]] eqn:E1.
  - destruct e1.
    + destruct (mkdirs w1 path) as [w2 r]. destruct (os_open w2 path CreateNew mode) as [w3 [[]|[i3 f3]]] eqn:E3; try done;
        [|intros [= _ -> ->]; by eapply (calm_open _ _ HOS)].
      intros H. by eapply (calm_open _ _ HOS).
    + intros H. by eapply (calm_open _ _ HOS).
    + done.
  - intros [= -> ->]. by eapply (calm_open _ _ HOS).
Qed.

(** Whatever the operating system does, a transfer leaves the stream at the next
    request, with one answer in the other direction: the file is stored with
    its time and acknowledged, or what was written of it is removed, or it was
    never opened, and the transfer is refused with the reason. *)
Theorem send_in_step y name ds ts rest path mode :
  split_mode HAVE_SYMLINKS name = (path, mode, false) -> 0 <= ts < 2 ^ 32 -> pieces ds ->
  io_in (sy_s y) = data_stream ds ++ done_msg ts ++ rest ->
  (length (data_stream ds) + 16 + E <= willing (io_evs (sy_s y)))%nat ->
  exists y' reply, do_send HAVE_SYMLINKS y name = Ok (0, y')
  /\ moved (sy_s y) (sy_s y') (data_stream ds ++ done_msg ts) reply
  /\ match open_for_send (os_unlink (sy_w y) path) path (copy_bits mode) with
     | (w, inr (i, f)) => stored path ts w (sy_w y') i f (concat ds) reply \/ refused path w (sy_w y') i f (concat ds) reply
     | (w, inl e) => sy_w y' = w /\ reply = fail_msg (os_strerror e)
     end.
Proof.
  intros Hsplit Hts Hds Hi Hw. unfold do_send. rewrite Hsplit. unfold handle_send_file. cbn [sy_w with_w].
  pose proof (length_data_stream ds) as Hlen.
  assert (length ds < S (length (io_in (sy_s y))))%nat as Hfuel by (rewrite Hi, !length_app; lia).
  destruct (open_for_send _ path (copy_bits mode)) as [w [e|[i f]]] eqn:Ho.
  - unfold fail_errno. pose proof (calm_text _ _ HOS e) as Ht.
    destruct (fail_message_complete (with_w w (with_w (os_unlink (sy_w y) path) y)) (os_strerror e)) as (s1 & E1 & Hm1);
      [cbn [with_w sy_s]; lia|]. rewrite E1. cbn [res_bind]. rewrite bool_decide_false by auto.
    pose proof (mv_in _ _ _ _ Hm1) as Hi1. pose proof (mv_will _ _ _ _ Hm1) as Hw1. unfold fail_msg in Hw1.
    rewrite length_app, length_words in Hw1. cbn [with_w sy_s app length] in Hi1, Hw1.
    set (y1 := with_s s1 _). destruct (drain path ts rest Hts ds Hds (stream_fuel y1) y1) as (y' & Hy & Hw' & Hm').
    { unfold stream_fuel. cbn. by rewrite <-Hi1. }
    { cbn. by rewrite <-Hi1. }
    { cbn. lia. }
    exists y', (fail_msg (os_strerror e)). split_and!; [done| |by rewrite Hw'|done].
    rewrite <-(app_nil_r (fail_msg _)). exact (moved_trans _ _ _ [] _ _ [] Hm1 Hm').
  - apply (store path ts rest Hts ds E Hds (calm_text _ _ HOS)); [done|done|unfold file_room; cbn; lia|by eapply open_for_send_patient].
Qed.

(** *** Fetching a file *)

Abbreviation full ds := (Forall (fun d => 0 < length d <= SYNC_DATA_MAX)%nat ds).

Lemma recv_loop_sends fuel : forall y i f, patient 1 f -> (length (io_evs f) < fuel)%nat ->
  (9 * length (io_in f) + 8 + E <= willing (io_evs (sy_s y)))%nat ->
  exists y' ds tail f', recv_loop fuel y i f = Ok (0, y') /\ moved (sy_s y) (sy_s y') [] (data_stream ds ++ tail)
  /\ full ds /\ sy_w y' = os_close (sy_w y) (i, f')
  /\ (tail = done_msg 0 /\ concat ds = io_in f \/ tail = fail_msg (os_strerror (os_errno (i, f'))) /\ ~ readable f /\ exists l, io_in f = concat ds ++ l).
Proof.
  induction fuel as [|fuel IH]; intros y i f Hp Hf Hw; [lia|]. cbn [recv_loop].
  destruct (adb_read_patient 0 f SYNC_DATA_MAX Hp) as ([r f1] & Er & _ & Hp1). rewrite Er. cbn [res_bind].
  pose proof (adb_read_cases _ _ _ _ Er) as (Hl & _ & Hr). destruct r as [bs|e].
  - destruct Hr as [Hi Hlen]. specialize (Hp1 bs eq_refl). destruct bs as [|b bs].
    + assert (io_in f = []) as Hnil.
      { unfold adb_read in Er. destruct (temp_failure_retry _) as [[[n|]]|]; [|done..]. injection Er as Ht _.
        destruct (io_in f) as [|b0 l0]; [done|]. pose proof (proj2 (xfer_len_range n SYNC_DATA_MAX)) as Hx. destruct (xfer_len n SYNC_DATA_MAX); [|done]. unfold SYNC_DATA_MAX in Hx. lia. }
      destruct (write_words_complete (sy_s y) [ID_DONE; 0]) as (s1 & E1 & Hm); [cbn; lia|].
      unfold reply_words. cbn [sy_s with_w]. rewrite E1. cbn [res_bind].
      eexists _, [], (done_msg 0), f1. split_and!; [done|done|constructor|done|]. left. by rewrite Hnil.
    + set (d := b :: bs) in *. assert (0 < length d)%nat as Hd by (cbn; lia). rewrite Hi, length_app in Hw.
      cbn [sy_s with_buf].
      destruct (write_both_complete (sy_s y) [ID_DATA; Z.of_nat (length d)] d) as (s1 & E1 & Hm); [cbn [length]; lia|].
      rewrite E1. cbn [res_bind]. pose proof (mv_will _ _ _ _ Hm) as Hw1. rewrite length_app, length_words in Hw1. cbn [length] in Hw1.
      destruct (IH (with_s s1 (with_buf (fill (sy_buf y) d) y)) i f1 Hp1) as (y' & ds & tail & f' & Hy & Hm' & Hds & Hw' & Hor);
        [lia|cbn [with_s with_buf sy_s]; lia|].
      exists y', (d :: ds), tail, f'. split_and!; [done| |by constructor|done|].
      * unfold data_stream. cbn [map concat]. rewrite <-app_assoc. exact (moved_trans _ _ _ [] _ [] _ Hm Hm').
      * cbn [concat]. rewrite Hi. destruct Hor as [[-> ->]|(-> & Hnr & l & ->)]; [by left|right].
        split_and!; [done| |exists l; by rewrite app_assoc]. intros Hread. apply Hnr.
        destruct (read_piece f Hread) as (bs' & f2 & E2 & _ & _ & _ & _ & Hnext). rewrite Er in E2. injection E2 as <- <-. by apply Hnext.
  - destruct Hr as [He Hi]. pose proof (calm_text _ _ HOS (os_errno (i, f1))) as Ht.
    destruct (fail_message_complete y (os_strerror (os_errno (i, f1)))) as (s1 & E1 & Hm); [lia|].
    destruct e; [done|..]; unfold fail_errno; rewrite E1; cbn [res_bind];
      (eexists _, [], (fail_msg (os_strerror (os_errno (i, f1)))), f1; split_and!; [done|done|constructor|done|]; right; split_and!; [done| |by eexists];
       intros Hread; destruct (read_piece f Hread) as (bs' & f2 & E2 & _); by rewrite Er in E2).
Qed.

(** A file is sent in full and closed by DONE; or, when it cannot be opened or
    read, a part of it and the reason. *)
Theorem recv_sends y path : (forall w i f, os_open (sy_w y) path ReadOnly 0 = (w, inr (i, f)) ->
    (9 * length (io_in f) + 8 + E <= willing (io_evs (sy_s y)))%nat) -> (8 + E <= willing (io_evs (sy_s y)))%nat ->
  exists y' ds tail, do_recv y path = Ok (0, y') /\ moved (sy_s y) (sy_s y') [] (data_stream ds ++ tail) /\ full ds
  /\ match os_open (sy_w y) path ReadOnly 0 with
     | (w, inl e) => sy_w y' = w /\ ds = [] /\ tail = fail_msg (os_strerror e)
     | (w, inr (i, f)) => exists f', sy_w y' = os_close w (i, f') /\
         (tail = done_msg 0 /\ concat ds = io_in f
          \/ tail = fail_msg (os_strerror (os_errno (i, f'))) /\ ~ readable f /\ exists l, io_in f = concat ds ++ l)
     end.
Proof.
  intros Hroom Hw. unfold do_recv. destruct (os_open (sy_w y) path ReadOnly 0) as [w [e|[i f]]] eqn:Ho.
  - pose proof (calm_text _ _ HOS e) as Ht. destruct (fail_message_complete (with_w w y) (os_strerror e)) as (s1 & E1 & Hm); [cbn; lia|].
    unfold fail_errno. rewrite E1. cbn [res_bind]. eexists _, [], (fail_msg (os_strerror e)). split_and!; [done|done|constructor|done..].
  - destruct (recv_loop_sends (io_fuel f) (with_w w y) i f) as (y' & ds & tail & f' & Hy & Hm & Hds & Hw' & Hor);
      [by eapply (calm_open _ _ HOS)|unfold io_fuel; lia|by eapply Hroom|].
    exists y', ds, tail. split_and!; [done..|]. by exists f'.
Qed.

End Serving.

(** *** Listing a directory *)

(** The entries that have a status, as the listing gives them. *)
Abbreviation entry := (Z * Z * Z * bytes)%type.
Definition entry_of {W} {OS : Os W} (w : W) (path name : bytes) : option entry :=
  match os_lstat w (path ++ [Byte.x2f] ++ name) with
  | Some st => Some (u32 (st_mode st), u32 (st_size st), u32 (st_mtime st), name)
  | None => None
  end.
Definition entries_of {W} {OS : Os W} (w : W) (path : bytes) : list entry :=
  match os_readdir w path with Some l => omap (entry_of w path) l | None => [] end.
Definition entry_msg (e : entry) : bytes :=
  let '(mode, size, time, name) := e in words [ID_DENT; mode; size; time; Z.of_nat (length name)] ++ name.
Definition list_stream (es : list entry) : bytes := concat (map entry_msg es).
Definition list_done : bytes := words [ID_DONE; 0; 0; 0; 0].

Section Listing.
Context {W : Type} {OS : Os W}.
Implicit Types (y : sync (W := W)).

Lemma list_entries_sends path l : (length path <= 1024)%nat -> Forall (fun name => length name <= 255)%nat l ->
  forall y, (length (list_stream (omap (entry_of (sy_w y) path) l)) <= willing (io_evs (sy_s y)))%nat ->
  exists y', list_entries y path l = Ok (0, y') /\ sy_w y' = sy_w y
  /\ moved (sy_s y) (sy_s y') [] (list_stream (omap (entry_of (sy_w y) path) l)).
Proof.
  intros Hpath. induction 1 as [|name l Hname _ IH]; intros y Hw; cbn [list_entries].
  { eexists. split_and!; [done|done|apply moved_refl]. }
  rewrite bool_decide_false by lia. rewrite bool_decide_false by lia. cbn [omap list_omap] in Hw |- *. unfold entry_of at 1 in Hw. unfold entry_of at 1.
  destruct (os_lstat (sy_w y) (path ++ [Byte.x2f] ++ name)) as [st|]; [|by apply IH].
  unfold list_stream in Hw |- *. cbn [map concat] in Hw |- *. rewrite length_app in Hw. unfold entry_msg at 1 in Hw.
  rewrite length_app, length_words in Hw. cbn [length] in Hw.
  destruct (write_both_complete (sy_s y) [ID_DENT; u32 (st_mode st); u32 (st_size st); u32 (st_mtime st); Z.of_nat (length name)] name)
    as (s1 & E1 & Hm); [cbn [length]; lia|]. rewrite E1. cbn [res_bind].
  pose proof (mv_will _ _ _ _ Hm) as Hw1. rewrite length_app, length_words in Hw1. cbn [length] in Hw1.
  destruct (IH (with_s s1 y)) as (y' & Hy & Hw' & Hm'); [cbn [sy_s sy_w with_s]; unfold list_stream; lia|].
  exists y'. split_and!; [done|done|]. exact (moved_trans _ _ _ [] _ [] _ Hm Hm').
Qed.

Lemma do_list_sends y path : (length path <= 1024)%nat ->
  (forall l, os_readdir (sy_w y) path = Some l -> Forall (fun name => length name <= 255)%nat l) ->
  (length (list_stream (entries_of (sy_w y) path)) + 20 <= willing (io_evs (sy_s y)))%nat ->
  exists y', do_list y path = Ok (0, y') /\ sy_w y' = sy_w y
  /\ moved (sy_s y) (sy_s y') [] (list_stream (entries_of (sy_w y) path) ++ list_done).
Proof.
  intros Hpath Hnames Hw. unfold do_list, entries_of in *.
  assert (exists y1, match os_readdir (sy_w y) path with Some l => list_entries y path l | None => Ok (0, y) end = Ok (0, y1)
    /\ sy_w y1 = sy_w y /\ moved (sy_s y) (sy_s y1) [] (list_stream match os_readdir (sy_w y) path with
         Some l => omap (entry_of (sy_w y) path) l | None => [] end)) as (y1 & E1 & Hw1 & Hm1).
  { destruct (os_readdir (sy_w y) path) as [l|]; [apply list_entries_sends; auto; lia|].
    eexists. split_and!; [done|done|apply moved_refl]. }
  destruct (os_readdir (sy_w y) path); rewrite E1; cbn [res_bind]; rewrite bool_decide_false by auto;
    pose proof (mv_will _ _ _ _ Hm1) as Hwill; cbn [length] in Hwill;
    (destruct (write_words_complete (sy_s y1) [ID_DONE; 0; 0; 0; 0]) as (s2 & E2 & Hm2); [cbn [length]; lia|]);
    unfold reply_words; rewrite E2; cbn [res_bind]; eexists; (split_and!; [done|done|]); exact (moved_trans _ _ _ [] _ [] _ Hm1 Hm2).
Qed.

End Listing.

(** ** Every request, on every stream *)

Section Total.
Context {W : Type} {OS : Os W} (HS : bool) (E : nat).
Hypothesis HOS : calm OS E.
(** A name of a directory has at most NAME_MAX bytes. *)
Hypothesis Hnames : forall (w : W) path l name, os_readdir w path = Some l -> name ∈ l -> (length name <= 255)%nat.
Implicit Types (y : sync (W := W)).

Lemma write_words_patient k s ws : patient (S k) s -> returns (write_words s ws) (fun '(r, s') =>
  patient k s' /\ (r = 0 -> patient (S k) s') /\ io_in s' = io_in s).
Proof.
  intros Hp. unfold write_words. destruct (writex_patient k s (concat (map le32 ws)) Hp) as ([r s'] & Er & H1 & H2).
  exists (r, s'). split; [done|]. destruct (writex_sound _ _ _ _ Er) as [n Hn]. split_and!; [done..|apply Hn].
Qed.

Lemma write_both_patient k s ws text : patient (S k) s -> returns (write_both s ws text) (fun '(ok, s') =>
  patient k s' /\ (ok = true -> patient (S k) s') /\ io_in s' = io_in s).
Proof.
  intros Hp. unfold write_both. eapply returns_bind; [by apply write_words_patient|]. intros [r s1] (H1 & H2 & H3).
  case_bool_decide as Hr; [by apply returns_ok|]. assert (r = 0) as -> by lia.
  destruct (writex_patient k s1 text (H2 eq_refl)) as ([r2 s2] & Er & H4 & H5). rewrite Er. cbn [res_bind]. apply returns_ok.
  destruct (writex_sound _ _ _ _ Er) as [n Hn]. split_and!; [done| |by rewrite (wr_in _ _ _ _ _ _ Hn)]. intros Hok%bool_decide_eq_true. auto.
Qed.

Lemma le_words_spec n : forall buf, length buf = (4 * n)%nat -> length (le_words n buf) = n /\ words_in (le_words n buf).
Proof.
  induction n as [|n IH]; intros [|b0 [|b1 [|b2 [|b3 buf]]]] Hl; cbn in Hl; try lia; [by split; [|constructor]|].
  destruct (IH buf) as [H1 H2]; [lia|]. cbn [le_words length]. split; [lia|]. constructor; [apply of_le32_range|done].
Qed.

Lemma read_words_patient k s n : patient (S k) s -> returns (read_words s n) (fun '(msg, s') => patient k s' /\
  match msg with
  | Some ws => patient (S k) s' /\ length ws = n /\ words_in ws /\ (length (io_in s') + 4 * n)%nat = length (io_in s)
  | None => (length (io_in s') <= length (io_in s))%nat
  end).
Proof.
  intros Hp. unfold read_words. destruct (readx_patient k s (4 * n) Hp) as ([[r buf] s'] & Er & H1 & H2).
  rewrite Er. cbn [res_bind]. apply returns_ok. split; [done|].
  destruct (readx_loop_sound _ _ _ _ _ _ _ Er) as (bs & Hbs & Hi & _ & Hr). cbn in Hbs. subst bs.
  apply (f_equal length) in Hi. rewrite length_app in Hi. case_bool_decide as H0; [|lia].
  destruct Hr as [[_ Hl]|[-> _]]; [|done]. destruct (le_words_spec n buf Hl). split_and!; [auto|done..|lia].
Qed.

Lemma readx_into_patient k size s len : patient (S k) s -> 0 <= len <= Z.of_nat size ->
  returns (readx_into size s len) (fun '(r, bs, s') => patient k s' /\ (r = 0 -> patient (S k) s')
  /\ (length (io_in s') <= length (io_in s))%nat /\ (length bs <= Z.to_nat len)%nat).
Proof.
  intros Hp Hlen. unfold readx_into. rewrite bool_decide_true by done.
  destruct (readx_patient k s (Z.to_nat len) Hp) as ([[r buf] s'] & Er & H1 & H2). exists (r, buf, s'). split; [done|].
  destruct (readx_loop_sound _ _ _ _ _ _ _ Er) as (bs & Hbs & Hi & _ & Hr).
  cbn in Hbs. subst bs. apply (f_equal length) in Hi. rewrite length_app in Hi. split_and!; [done|done|lia..].
Qed.

(** A call that returns, on a stream of [n] bytes: it fails at most once more
    than a call that succeeds. *)
Definition goes (k n : nat) (m : res (Z * sync (W := W))) : Prop := returns m (fun '(r, y') =>
  patient k (sy_s y') /\ (r = 0 -> patient (S k) (sy_s y')) /\ (length (io_in (sy_s y')) <= n)%nat).

Lemma goes_le k n n' m : goes k n m -> (n <= n')%nat -> goes k n' m.
Proof. intros (a & Ea & Ha) Hn. exists a. split; [done|]. destruct a as [r y]. destruct Ha as (? & ? & ?). split_and!; [done..|lia]. Qed.

Lemma goes_ok k n y r : patient k (sy_s y) -> (r = 0 -> patient (S k) (sy_s y)) ->
  (length (io_in (sy_s y)) <= n)%nat -> goes k n (Ok (r, y)).
Proof. intros H1 H2 Hn. by apply returns_ok. Qed.

Lemma goes_on k n y r : patient (S k) (sy_s y) -> (length (io_in (sy_s y)) <= n)%nat -> goes k n (Ok (r, y)).
Proof. intros H Hn. apply goes_ok; auto using patient_S. Qed.

Lemma fail_message_goes k y reason : patient (S k) (sy_s y) -> goes k (length (io_in (sy_s y))) (fail_message y reason).
Proof.
  intros Hp. unfold fail_message. eapply returns_bind; [by apply write_both_patient|]. intros [ok s] (H1 & H2 & H3).
  apply goes_ok; cbn [sy_s with_s]; [done|by destruct ok; auto|by rewrite H3].
Qed.

Lemma reply_words_goes k y ws : patient (S k) (sy_s y) -> goes k (length (io_in (sy_s y))) (reply_words y ws).
Proof.
  intros Hp. unfold reply_words. eapply returns_bind; [by apply write_words_patient|]. intros [r s] (H1 & H2 & H3).
  apply goes_ok; cbn [sy_s with_s]; [done|done|by rewrite H3].
Qed.

Lemma do_stat_goes k y path : patient (S k) (sy_s y) -> goes k (length (io_in (sy_s y))) (do_stat y path).
Proof. intros Hp. unfold do_stat. destruct (os_lstat _ _); by apply reply_words_goes. Qed.

Lemma list_entries_goes k path l : (length path <= 1024)%nat -> Forall (fun name => length name <= 255)%nat l ->
  forall y, patient (S k) (sy_s y) -> goes k (length (io_in (sy_s y))) (list_entries y path l).
Proof.
  intros Hpath. induction 1 as [|name l Hname _ IH]; intros y Hp; cbn [list_entries]; [by apply goes_on|].
  rewrite bool_decide_false by lia. rewrite bool_decide_false by lia. destruct (os_lstat _ _) as [st|]; [|by apply IH].
  eapply returns_bind; [by apply write_both_patient|]. intros [ok s] (H1 & H2 & H3).
  destruct ok; [|apply goes_ok; cbn; [done|done|by rewrite H3]]. eapply goes_le; [apply IH; cbn; auto|]. cbn. by rewrite H3.
Qed.

Lemma do_list_goes k y path : (length path <= 1024)%nat -> patient (S k) (sy_s y) -> goes k (length (io_in (sy_s y))) (do_list y path).
Proof.
  intros Hpath Hp. unfold do_list. eapply (returns_bind _ _ (fun '(r, y') =>
    patient k (sy_s y') /\ (r = 0 -> patient (S k) (sy_s y')) /\ (length (io_in (sy_s y')) <= length (io_in (sy_s y)))%nat)).
  - destruct (os_readdir _ _) as [l|] eqn:Hl; [|by apply goes_on]. apply list_entries_goes; [done| |done].
    apply Forall_forall. intros name Hin. by eapply Hnames.
  - intros [r y1] (H1 & H2 & H3). case_bool_decide as Hr.
    + by apply goes_ok.
    + assert (r = 0) as -> by lia. eapply goes_le; [apply reply_words_goes; auto|done].
Qed.

Lemma send_fail_goes k y path fd : patient k (sy_s y) -> goes k (length (io_in (sy_s y))) (send_fail y path fd).
Proof. intros Hp. unfold send_fail. by apply goes_ok; cbn. Qed.

Lemma fail_then_goes k y reason (next : Z * sync -> res (Z * sync)) n : patient (S k) (sy_s y) -> (length (io_in (sy_s y)) <= n)%nat ->
  (forall r y', patient k (sy_s y') -> (r = 0 -> patient (S k) (sy_s y')) -> (length (io_in (sy_s y')) <= n)%nat -> goes k n (next (r, y'))) ->
  goes k n (res_bind (fail_message y reason) next).
Proof.
  intros Hp Hn H. eapply returns_bind; [by apply fail_message_goes|]. intros [r y'] (H1 & H2 & H3). apply H; [done..|lia].
Qed.

Lemma send_file_loop_goes k path fuel : forall y fd, patient (S k) (sy_s y) -> (length (io_in (sy_s y)) < fuel)%nat ->
  (forall i f, fd = Some (i, f) -> patient 1 f) -> goes k (length (io_in (sy_s y))) (send_file_loop fuel y path fd).
Proof.
  induction fuel as [|fuel IH]; intros y fd Hp Hf Hfd; [lia|]. cbn [send_file_loop].
  eapply returns_bind; [by apply read_words_patient|]. intros [msg s] (H1 & H2).
  destruct msg as [[|id [|size [|]]]|];
    try (destruct H2 as (H2 & Hl & Hws & Hi); cbn in Hl; lia); [|eapply goes_le; [by apply send_fail_goes|done]].
  destruct H2 as (H2 & _ & Hws & Hi). assert (0 <= size) as Hsize by (inversion Hws as [|? ? _ Hws']; inversion Hws'; lia).
  assert (forall r y', patient k (sy_s y') -> (length (io_in (sy_s y')) <= length (io_in (sy_s y)))%nat ->
    goes k (length (io_in (sy_s y))) (let '(_, y') := (r : Z, y') in send_fail y' path fd)) as Hfail.
  { intros r y' Hy Hn. eapply goes_le; [by apply send_fail_goes|done]. }
  case_bool_decide; [case_bool_decide|].
  - destruct fd as [f|]; [eapply goes_le; [by apply reply_words_goes|cbn; lia]|apply goes_on; cbn; [done|lia]].
  - apply fail_then_goes; cbn; [done|lia|]. intros r y' Hy _ Hn. by apply (Hfail r).
  - case_bool_decide; [apply fail_then_goes; cbn; [done|lia|]; intros r y' Hy _ Hn; by apply (Hfail r)|].
    eapply returns_bind; [apply (readx_into_patient k); [done|lia]|]. intros [[r bs] s2] (H3 & H4 & H5 & _). cbn [sy_s with_s] in *.
    case_bool_decide; [apply (Hfail r (with_buf _ (with_s s2 (with_s s y)))); cbn; [done|lia]|]. assert (r = 0) as -> by lia. specialize (H4 eq_refl).
    destruct fd as [[i f]|]; [|eapply goes_le; [apply IH; cbn; [done|lia|done]|cbn; lia]].
    destruct (writex_patient 0 f bs (Hfd _ _ eq_refl)) as ([r f'] & Ew & _ & Hpat). rewrite Ew. cbn [res_bind].
    case_bool_decide as Hr.
    + apply (goes_le _ (length (io_in s2))); [|lia]. apply fail_then_goes; cbn; [done|lia|]. intros r' y' Hy Hy' Hn. case_bool_decide as Hr'.
      * by apply goes_ok.
      * eapply goes_le; [apply IH; [apply Hy'; lia|lia|done]|done].
    + assert (r = 0) as -> by lia. eapply goes_le; [apply IH; cbn; [done|lia|]|cbn; lia]. intros i' f2 [= -> ->]. auto.
Qed.

Lemma handle_send_file_goes k y path mode : patient (S k) (sy_s y) -> goes k (length (io_in (sy_s y))) (handle_send_file y path mode).
Proof.
  intros Hp. unfold handle_send_file. destruct (open_for_send (sy_w y) path mode) as [w [e|[i f]]] eqn:Ho.
  - apply fail_then_goes; cbn; [done|done|]. intros r y' Hy Hy' Hn. case_bool_decide as Hr; [by apply goes_ok|].
    eapply goes_le; [apply (send_file_loop_goes k path (stream_fuel y')); [apply Hy'; lia|unfold stream_fuel; lia|done]|done].
  - apply (send_file_loop_goes k path (stream_fuel (with_w w y)) (with_w w y)); [done|unfold stream_fuel; lia|].
    intros i' f' [= -> ->]. by eapply open_for_send_patient.
Qed.

(** *** Links *)

(** The stream [s] goes on with the target of a link, which leaves no NUL in the
    buffer [buf]. *)
Definition unterminated_target (s : fdio) (buf : bytes) : Prop := exists s1 size bs s2,
  read_words s 2 = Ok (Some [ID_DATA; size], s1) /\ readx_into SYNC_DATA_MAX s1 size = Ok (0, bs, s2)
  /\ Byte.x00 ∉ fill buf bs.

Lemma c_string_found l : (exists s, c_string l = Ok s) \/ c_string l = Ub /\ Byte.x00 ∉ l.
Proof.
  induction l as [|b l IH]; [right; split; [done|apply not_elem_of_nil]|]. cbn [c_string].
  destruct (decide (b = Byte.x00)) as [->|Hb]; [left; by eexists|].
  assert (c_string (b :: l) = let* s := c_string l in Ok (b :: s)) as Hs by (by destruct b).
  cbn [c_string] in Hs. rewrite Hs. destruct IH as [[s ->]|[-> Hn]]; [left; by eexists|]. right. split; [done|]. set_solver.
Qed.

Lemma handle_send_link_goes k y path : patient (S k) (sy_s y) ->
  goes k (length (io_in (sy_s y))) (handle_send_link y path) \/
  handle_send_link y path = Ub /\ unterminated_target (sy_s y) (sy_buf y).
Proof.
  intros Hp. unfold handle_send_link, unterminated_target.
  destruct (read_words_patient k (sy_s y) 2 Hp) as ([msg s] & Er & H1 & H2). rewrite Er. cbn [res_bind].
  destruct msg as [[|id [|size [|]]]|]; try (destruct H2 as (H2 & Hl & Hws & Hi); cbn in Hl; lia); [|left; by apply goes_ok].
  destruct H2 as (H2 & _ & Hws & Hi). assert (0 <= size) as Hsize by (inversion Hws as [|? ? _ Hws']; inversion Hws'; lia).
  assert (forall y1 reason, patient (S k) (sy_s y1) -> (length (io_in (sy_s y1)) <= length (io_in (sy_s y)))%nat ->
    goes k (length (io_in (sy_s y))) (let* ' (_, y') := fail_message y1 reason in Ok (-1, y'))) as Hfail.
  { intros y1 reason Hy Hn. apply fail_then_goes; [done|done|]. intros r y' Hy' _ Hn'. by apply goes_ok. }
  case_bool_decide as Hid; [left; apply Hfail; cbn; [done|lia]|]. assert (id = ID_DATA) as -> by lia.
  case_bool_decide; [left; apply Hfail; cbn; [done|lia]|].
  destruct (readx_into_patient k SYNC_DATA_MAX s size H2) as ([[r bs] s2] & Ei & H3 & H4 & H5 & _); [lia|].
  cbn [sy_s with_s]. rewrite Ei. cbn [res_bind]. case_bool_decide; [left; apply goes_ok; cbn; [done|done|lia]|].
  assert (r = 0) as -> by lia. specialize (H4 eq_refl). cbn [sy_buf with_buf with_s].
  destruct (c_string_found (fill (sy_buf y) bs)) as [[target ->]|[-> Hn]]; [left|right; split; [done|by exists s, size, bs, s2]].
  cbn [res_bind]. destruct (os_symlink _ _ _) as [w1 ret1].
  destruct (match ret1 with Some ENOENT => _ | _ => _ end) as [w2 ret2]. destruct ret2 as [e|]; [apply Hfail; cbn; [done|lia]|].
  eapply returns_bind; [by apply (read_words_patient k)|]. cbn [sy_s with_s with_w with_buf]. intros [msg s3] (G1 & G2).
  destruct msg as [[|id' [|size' [|]]]|]; try (destruct G2 as (G2 & Hl & _); cbn in Hl; lia); [|apply goes_ok; cbn; [done|done|lia]].
  destruct G2 as (G2 & _ & _ & Gi). case_bool_decide; [|apply Hfail; cbn; [done|lia]].
  eapply returns_bind; [by apply (reply_words_goes k)|]. intros [r y'] (K1 & K2 & K3). cbn in K3.
  apply goes_ok; [done| |lia]. case_bool_decide; [auto|done].
Qed.

Lemma do_send_goes k y name : patient (S k) (sy_s y) -> goes k (length (io_in (sy_s y))) (do_send HS y name) \/
  HS = true /\ do_send HS y name = Ub /\ exists path mode, split_mode true name = (path, mode, true)
    /\ unterminated_target (sy_s y) (sy_buf y).
Proof.
  intros Hp. unfold do_send. destruct (split_mode HS name) as [[path mode] is_link] eqn:Hs. destruct is_link.
  - assert (HS = true) as EH.
    { unfold split_mode in Hs. destruct (strrchr name Byte.x2c) as [[p tmp]|]; [|by injection Hs].
      destruct (strtoul tmp) as [v []]; [by injection Hs|]. injection Hs as _ _ Hx. by apply andb_true_iff in Hx as [-> _]. }
    destruct (handle_send_link_goes k (with_w (os_unlink (sy_w y) path) y) path) as [H|[H1 H2]]; [done|by left|].
    right. split; [done|]. split; [done|]. exists path, mode. by rewrite EH in Hs.
  - left. eapply goes_le; [by apply handle_send_file_goes|done].
Qed.

Lemma recv_loop_goes k fuel : forall y i f, patient (S k) (sy_s y) -> patient 1 f -> (length (io_evs f) < fuel)%nat ->
  goes k (length (io_in (sy_s y))) (recv_loop fuel y i f).
Proof.
  induction fuel as [|fuel IH]; intros y i f Hp Hpf Hf; [lia|]. cbn [recv_loop].
  destruct (adb_read_patient 0 f SYNC_DATA_MAX Hpf) as ([r f1] & Er & _ & Hp1). rewrite Er. cbn [res_bind].
  apply adb_read_cases in Er as (Hl & _ & Hr). destruct r as [bs|e].
  - specialize (Hp1 bs eq_refl). destruct bs as [|b bs].
    + eapply returns_bind; [by apply (reply_words_goes k)|]. intros [r y'] (H1 & H2 & H3). apply goes_ok; [done| |done].
      case_bool_decide; [auto|done].
    + eapply returns_bind; [by apply (write_both_patient k)|]. intros [ok s] (H1 & H2 & H3). cbn [sy_s with_buf] in *.
      destruct ok; [|apply goes_ok; cbn; [done|done|by rewrite H3]].
      eapply goes_le; [apply IH; cbn; [auto|done|lia]|cbn; by rewrite H3].
  - destruct Hr as [He _]. destruct e; [done|..]; (apply fail_then_goes; [done|done|]); intros r y' H1 H2 H3; by apply goes_ok.
Qed.

Lemma do_recv_goes k y path : patient (S k) (sy_s y) -> goes k (length (io_in (sy_s y))) (do_recv y path).
Proof.
  intros Hp. unfold do_recv. destruct (os_open (sy_w y) path ReadOnly 0) as [w [e|[i f]]] eqn:Ho.
  - apply fail_then_goes; [done|done|]. intros r y' H1 H2 H3. apply goes_ok; [done| |done]. case_bool_decide; [auto|done].
  - eapply goes_le; [apply recv_loop_goes; [done|by eapply (calm_open _ _ HOS)|unfold io_fuel; lia]|done].
Qed.

(** The next request is to make a link, with such a target. *)
Definition unterminated_link y : Prop := exists namelen s1 name s2 text path mode,
  read_words (sy_s y) 2 = Ok (Some [ID_SEND; namelen], s1) /\ readx_into 1025 s1 namelen = Ok (0, name, s2)
  /\ c_string (name ++ [Byte.x00]) = Ok text /\ split_mode true text = (path, mode, true)
  /\ unterminated_target s2 (sy_buf y).

(** A turn returns; when there is another one, it took eight bytes. *)
Lemma serve_one_returns y : patient 2 (sy_s y) -> returns (serve_one HS y) (fun '(more, y') =>
  more = true -> patient 2 (sy_s y') /\ (length (io_in (sy_s y')) < length (io_in (sy_s y)))%nat)
  \/ HS = true /\ serve_one HS y = Ub /\ unterminated_link y.
Proof.
  intros Hp. unfold serve_one. destruct (read_words_patient 1 (sy_s y) 2 Hp) as ([msg s] & Er & H1 & H2).
  rewrite Er. cbn [res_bind].
  assert (forall y' reason, patient 1 (sy_s y') -> returns (res_bind (fail_message y' reason) (fun '(_, y') => Ok (false, y')))
    (fun '(more, y') => more = true -> patient 2 (sy_s y') /\ (length (io_in (sy_s y')) < length (io_in (sy_s y)))%nat)) as Hfail.
  { intros y' reason Hy. eapply returns_bind; [by apply (fail_message_goes 0)|]. intros [r y2] _. by apply returns_ok. }
  destruct msg as [[|id [|namelen [|]]]|]; try (destruct H2 as (_ & Hl & _); cbn in Hl; lia); [|left; by apply Hfail].
  destruct H2 as (H2 & _ & Hws & Hi). assert (0 <= namelen) as Hpos by (inversion Hws as [|? ? _ Hws']; inversion Hws'; lia).
  case_bool_decide; [left; by apply Hfail|].
  destruct (readx_into_patient 1 1025 s namelen H2) as ([[r name] s2] & Ei & H3 & H4 & H5 & H6); [lia|].
  cbn [sy_s with_s]. rewrite Ei. cbn [res_bind]. case_bool_decide; [left; by apply Hfail|].
  assert (r = 0) as -> by lia. specialize (H4 eq_refl). destruct (c_string_nul name) as (path & Hpath & Hc). rewrite Hc. cbn [res_bind].
  assert (forall m, goes 1 (length (io_in s2)) m -> returns (res_bind m (fun '(r, y') => Ok (bool_decide (r = 0), y')))
    (fun '(more, y') => more = true -> patient 2 (sy_s y') /\ (length (io_in (sy_s y')) < length (io_in (sy_s y)))%nat)) as Hcmd.
  { intros m Hm. eapply returns_bind; [exact Hm|]. intros [r y2] (G1 & G2 & G3). apply returns_ok.
    intros Hr%bool_decide_eq_true. split; [auto|lia]. }
  set (y2 := with_s s2 _). change s2 with (sy_s y2) in H4, Hcmd. unfold serve_command.
  case_bool_decide; [left; by apply Hcmd, do_stat_goes|].
  case_bool_decide; [left; apply Hcmd, do_list_goes; [lia|done]|].
  case_bool_decide.
  { subst id. destruct (do_send_goes 1 y2 path H4) as [Hgo|(EH & -> & p & mode & Hs & Ht)]; [left; by apply Hcmd|].
    right. split; [done|]. split; [done|]. by exists namelen, s, name, s2, path, p, mode. }
  left. case_bool_decide; [by apply Hcmd, do_recv_goes|]. case_bool_decide; [by apply returns_ok|].
  apply Hfail. by apply patient_S.
Qed.

(** The requests served so far. *)
Inductive served : sync (W := W) -> sync (W := W) -> Prop :=
  | served_none y : served y y
  | served_one y y1 y2 : serve_one HS y = Ok (true, y1) -> served y1 y2 -> served y y2.

Lemma serve_returns fuel : forall y, patient 2 (sy_s y) -> (length (io_in (sy_s y)) < fuel)%nat ->
  (exists y', serve HS fuel y = Ok y') \/ HS = true /\ serve HS fuel y = Ub /\ exists y', served y y' /\ unterminated_link y'.
Proof.
  induction fuel as [|fuel IH]; intros y Hp Hf; [lia|]. cbn [serve].
  destruct (serve_one_returns y Hp) as [([more y'] & E1 & H)|(EH & -> & Hu)].
  - rewrite E1. cbn [res_bind]. destruct more; [|left; by eexists]. destruct (H eq_refl) as [H1 H2].
    destruct (IH y') as [?|(EH & Eu & z & Hz & Hu)]; [done|lia|by left|]. right. split; [done|]. split; [done|].
    exists z. split; [by eapply served_one|done].
  - right. split; [done|]. split; [done|]. exists y. split; [constructor|done].
Qed.

(** C34: Whatever stream of bytes the other side sends, cut in whatever way, the
    service returns: no buffer is overrun, and no request loops.  The one
    exception is a symbolic link, where the system has them: after some requests
    that were served, one whose target leaves no NUL in the buffer, behind which
    the service reads on. *)
Theorem service_returns fd w : patient 2 fd ->
  (exists y, file_sync_service HS fd w = Ok y) \/
  HS = true /\ file_sync_service HS fd w = Ub /\ exists y, served (Sync fd w []) y /\ unterminated_link y.
Proof. intros Hp. apply serve_returns; [done|unfold stream_fuel; cbn; lia]. Qed.

End Total.
