(* ===== verification/SyncClient.v ===== *)
(** * The host side of the file service (file_sync_client.c)

    The requests that the host makes on a connection to the service of
    SyncService.v: a listing, the time of a file, sending a file and fetching
    one.  The files of the host are those of an operating system of the same
    class [Os].  What is printed is not modelled, except for the reason of a
    failed copy, which is kept in [c_log]. *)

From S2P Require Import Prelude Cstr Numbers Rwx SyncService.

Section Client.
Context {W : Type} {OS : Os W} (HAVE_SYMLINKS : bool).
(** [adb_lseek(fd, 0, SEEK_END)], and libzipfile's answer to whether a file is an
    archive that holds AndroidManifest.xml. *)
Context (lseek_end : file -> Z) (has_manifest : bytes -> bool).

Record client := Client { c_s : fdio; c_w : W; c_total : Z; c_log : list bytes }.
Definition c_with_s (s : fdio) (c : client) : client := Client s (c_w c) (c_total c) (c_log c).
Definition c_with_w (w : W) (c : client) : client := Client (c_s c) w (c_total c) (c_log c).
(** [total_bytes += n] *)
Definition add_total (n : nat) (c : client) : client := Client (c_s c) (c_w c) (c_total c + Z.of_nat n) (c_log c).
Definition c_report (why : bytes) (c : client) : client := Client (c_s c) (c_w c) (c_total c) (c_log c ++ [why]).

(** ** Requests *)

(** [writex(fd, &msg.req, ...) || writex(fd, path, len)] *)
Definition request (c : client) (id : Z) (path : bytes) : res (bool * client) :=
  let* ' (ok, s) := write_both (c_s c) [id; Z.of_nat (length path)] path in Ok (ok, c_with_s s c).

Definition sync_quit (c : client) : res client :=
  let* ' (_, s) := write_words (c_s c) [ID_QUIT; 0] in Ok (c_with_s s c).


Fixpoint ls_loop (fuel : nat) (c : client) (acc : list entry) : res (Z * list entry * client) :=
  match fuel with
  | O => Blocked
  | S fuel =>
      let* ' (msg, s) := read_words (c_s c) 5 in
      let c := c_with_s s c in
      match msg with
      | Some [id; mode; size; time; namelen] =>
          if bool_decide (id = ID_DONE) then Ok (0, acc, c)
          else if bool_decide (id <> ID_DENT) then Ok (-1, acc, c)
          else
            let len := s32 namelen in
            if bool_decide (len > 256) then Ok (-1, acc, c)
            else
              let* ' (r, buf, s) := readx_into 257 (c_s c) len in
              let c := c_with_s s c in
              if bool_decide (r <> 0) then Ok (-1, acc, c)
              else
                let* name := c_string (buf ++ [Byte.x00]) in
                ls_loop fuel c (acc ++ [(mode, size, time, name)])
      | _ => Ok (-1, acc, c)
      end
  end.

(** Each entry takes twenty bytes of the stream. *)
Definition sync_ls (c : client) (path : bytes) : res (Z * list entry * client) :=
  if bool_decide (1024 < length path)%nat then Ok (-1, [], c)
  else
    let* ' (ok, c) := request c ID_LIST path in
    if (ok : bool) then ls_loop (S (length (io_in (c_s c)))) c [] else Ok (-1, [], c).

Definition sync_start_readtime (c : client) (path : bytes) : res (Z * client) :=
  let* ' (ok, c) := request c ID_STAT path in Ok (if (ok : bool) then 0 else -1, c).

(** The time, the mode and the size. *)
Definition sync_finish_readtime (c : client) : res (option (Z * Z * Z) * client) :=
  let* ' (msg, s) := read_words (c_s c) 4 in
  let c := c_with_s s c in
  match msg with
  | Some [id; mode; size; time] => Ok (if bool_decide (id <> ID_STAT) then None else Some (time, mode, size), c)
  | _ => Ok (None, c)
  end.

Definition sync_readtime (c : client) (path : bytes) : res (option Z * client) :=
  let* ' (r, c) := sync_start_readtime c path in
  if bool_decide (r <> 0) then Ok (None, c)
  else let* ' (st, c) := sync_finish_readtime c in Ok (match st with Some (time, _, _) => Some time | None => None end, c).

Definition sync_readmode (c : client) (path : bytes) : res (option Z * client) :=
  let* ' (r, c) := sync_start_readtime c path in
  if bool_decide (r <> 0) then Ok (None, c)
  else let* ' (st, c) := sync_finish_readtime c in Ok (match st with Some (_, mode, _) => Some mode | None => None end, c).

(** ** Sending a file *)

(** The send buffer is one write: its header and [bs]. *)
Definition write_sbuf (c : client) (bs : bytes) : res (bool * client) :=
  let* ' (r, s) := writex (c_s c) (words [ID_DATA; Z.of_nat (length bs)] ++ bs) in
  Ok (bool_decide (r = 0), c_with_s s c).

(** A failure to read the file ends the data and is not an error. *)
Fixpoint data_file_loop (fuel : nat) (c : client) (i : Z) (lf : fdio) : res (Z * client) :=
  match fuel with
  | O => Blocked
  | S fuel =>
      let* ' (r, lf) := adb_read lf SYNC_DATA_MAX in
      match r with
      | RGot [] => Ok (0, c_with_w (os_close (c_w c) (i, lf)) c)
      | RErr EINTR => data_file_loop fuel c i lf
      | RErr _ => Ok (0, c_with_w (os_close (c_w c) (i, lf)) c)
      | RGot bs =>
          let* ' (ok, c) := write_sbuf c bs in
          if (ok : bool) then data_file_loop fuel (add_total (length bs) c) i lf
          else Ok (-1, c_with_w (os_close (c_w c) (i, lf)) c)
      end
  end.

Definition write_data_file (c : client) (path : bytes) : res (Z * client) :=
  match os_open (c_w c) path ReadOnly 0 with
  | (w, inl _) => Ok (-1, c_with_w w c)
  | (w, inr (i, lf)) => data_file_loop (io_fuel lf) (c_with_w w c) i lf
  end.

Fixpoint write_data_buffer (fuel : nat) (c : client) (file_buffer : bytes) : res (Z * client) :=
  match fuel with
  | O => Blocked
  | S fuel =>
      if bool_decide (file_buffer = []) then Ok (0, c)
      else
        let bs := take SYNC_DATA_MAX file_buffer in
        let* ' (ok, c) := write_sbuf c bs in
        if (ok : bool) then write_data_buffer fuel (add_total (length bs) c) (drop SYNC_DATA_MAX file_buffer)
        else Ok (-1, c)
  end.

Definition write_data_link (c : client) (path : bytes) : res (Z * client) :=
  match os_readlink (c_w c) path with
  | inl _ => Ok (-1, c)
  | inr target =>
      let bs := take (SYNC_DATA_MAX - 1) target ++ [Byte.x00] in
      let* ' (ok, c) := write_sbuf c bs in
      Ok (if (ok : bool) then 0 else -1, if (ok : bool) then add_total (length bs) c else c)
  end.

(** The file in memory, when it was asked to look into the archive: [inl] is
    the return value of a failure. *)
Definition read_apk (c : client) (lpath : bytes) (verifyApk : bool) : res ((Z + option bytes) * client) :=
  if negb verifyApk then Ok (inr None, c)
  else
    match os_open (c_w c) lpath ReadOnly 0 with
    | (w, inl _) => Ok (inl (-1), c_with_w w c)
    | (w, inr (i, lf)) =>
        let size := lseek_end (i, lf) in
        if bool_decide (size < 0) then Ok (inl 1, c_with_w (os_close w (i, lf)) c)
        else
          let* ' (r, lf) := adb_read lf (Z.to_nat size) in
          let c := c_with_w (os_close w (i, lf)) c in
          match r with
          | RGot bs =>
              if bool_decide (Z.of_nat (length bs) <> size) then Ok (inl 1, c)
              else if has_manifest bs then Ok (inr (Some bs), c) else Ok (inl 1, c)
          | RErr _ => Ok (inl 1, c)
          end
    end.

(** The answer of the service. *)
Definition send_status (c : client) : res (Z * client) :=
  let* ' (msg, s) := read_words (c_s c) 2 in
  let c := c_with_s s c in
  match msg with
  | Some [id; msglen] =>
      if bool_decide (id <> ID_OKAY) then
        if bool_decide (id = ID_FAIL) then
          let len := s32 msglen in
          let len := if bool_decide (len > 256) then 256 else len in
          let* ' (r, buf, s) := readx_into SYNC_DATA_MAX (c_s c) len in
          let c := c_with_s s c in
          if bool_decide (r <> 0) then Ok (-1, c)
          else let* why := c_string (buf ++ [Byte.x00]) in Ok (-1, c_report why c)
        else Ok (-1, c_report (lit "unknown reason") c)
      else Ok (0, c)
  | _ => Ok (-1, c)
  end.

(** The data, as the kind of the file wants it; what the functions that write it
    return is ignored, and [false] is a file of another kind. *)
Definition send_data (c : client) (lpath : bytes) (mode : Z) (file_buffer : option bytes) : res (bool * client) :=
  match file_buffer with
  | Some b => let* ' (_, c) := write_data_buffer (S (length b)) c b in Ok (true, c)
  | None =>
      if S_ISREG mode then let* ' (_, c) := write_data_file c lpath in Ok (true, c)
      else if HAVE_SYMLINKS && S_ISLNK mode then let* ' (_, c) := write_data_link c lpath in Ok (true, c)
      else Ok (false, c)
  end.

Definition sync_send (c : client) (lpath rpath : bytes) (mtime mode : Z) (verifyApk : bool) : res (Z * client) :=
  if bool_decide (1024 < length rpath)%nat then Ok (-1, c)
  else
    let tmp := Byte.x2c :: print_dec mode in
    let* ' (apk, c) := read_apk c lpath verifyApk in
    match apk with
    | inl r => Ok (r, c)
    | inr file_buffer =>
        let* ' (ok, s) := write_both (c_s c) [ID_SEND; Z.of_nat (length rpath + length tmp)] rpath in
        let c := c_with_s s c in
        if negb ok then Ok (-1, c)
        else
          let* ' (r, s) := writex (c_s c) tmp in
          let c := c_with_s s c in
          if bool_decide (r <> 0) then Ok (-1, c)
          else
            let* ' (ok, c) := send_data c lpath mode file_buffer in
            if negb ok then Ok (-1, c)
            else
              let* ' (r, s) := write_words (c_s c) [ID_DONE; mtime] in
              let c := c_with_s s c in
              if bool_decide (r <> 0) then Ok (-1, c) else send_status c
    end.

(** ** Fetching a file *)

(** The loop of this file's [mkdirs] starts behind the first character. *)
Definition client_mkdirs (w : W) (name : bytes) : res W :=
  match name with
  | [] => Ub
  | b :: rest => Ok (mkdirs_loop (length name) w [b] rest).1
  end.

(** The label [remote_error]; [lf] is open except after the first message. *)
Definition recv_error (c : client) (lpath : bytes) (id size : Z) (lf : option file) : res (Z * client) :=
  let w := match lf with Some f => os_close (c_w c) f | None => c_w c end in
  let c := c_with_w (os_unlink w lpath) c in
  if bool_decide (id = ID_FAIL) then
    let len := s32 size in
    let len := if bool_decide (len > 256) then 256 else len in
    let* ' (r, buf, s) := readx_into SYNC_DATA_MAX (c_s c) len in
    let c := c_with_s s c in
    if bool_decide (r <> 0) then Ok (-1, c)
    else let* why := c_string (buf ++ [Byte.x00]) in Ok (0, c_report why c)
  else let* why := c_string (le32 id ++ [Byte.x00]) in Ok (0, c_report why c).

(** From [handle_data] on, for the message [id], [size]. *)
Fixpoint fetch_loop (fuel : nat) (c : client) (lpath : bytes) (i : Z) (lf : fdio) (id size : Z) : res (Z * client) :=
  match fuel with
  | O => Blocked
  | S fuel =>
      let len := s32 size in
      if bool_decide (id = ID_DONE) then Ok (0, c_with_w (os_close (c_w c) (i, lf)) c)
      else if bool_decide (id <> ID_DATA) then recv_error c lpath id size (Some (i, lf))
      else if bool_decide (len > Z.of_nat SYNC_DATA_MAX) then Ok (-1, c_with_w (os_close (c_w c) (i, lf)) c)
      else
        let* ' (r, bs, s) := readx_into SYNC_DATA_MAX (c_s c) len in
        let c := c_with_s s c in
        if bool_decide (r <> 0) then Ok (-1, c_with_w (os_close (c_w c) (i, lf)) c)
        else
          let* ' (r, lf) := writex lf bs in
          if bool_decide (r <> 0) then Ok (-1, c_with_w (os_close (c_w c) (i, lf)) c)
          else
            let* ' (msg, s) := read_words (c_s c) 2 in
            let c := c_with_s s (add_total (length bs) c) in
            match msg with
            | Some [id; size] => fetch_loop fuel c lpath i lf id size
            | _ => Ok (-1, c)
            end
  end.

Definition sync_recv (c : client) (rpath lpath : bytes) : res (Z * client) :=
  if bool_decide (1024 < length rpath)%nat then Ok (-1, c)
  else
    let* ' (ok, c) := request c ID_RECV rpath in
    if negb ok then Ok (-1, c)
    else
      let* ' (msg, s) := read_words (c_s c) 2 in
      let c := c_with_s s c in
      match msg with
      | Some [id; size] =>
          if bool_decide (id = ID_DATA \/ id = ID_DONE) then
            let* w := client_mkdirs (os_unlink (c_w c) lpath) lpath in
            match os_open w lpath Truncate 0x1a4 (* 0644 *) with
            | (w, inl _) => Ok (-1, c_with_w w c)
            | (w, inr (i, lf)) => fetch_loop (S (length (io_in (c_s c)))) (c_with_w w c) lpath i lf id size
            end
          else recv_error c lpath id size None
      | _ => Ok (-1, c)
      end.

End Client.

(** * Theorems *)

(** ** The pieces that a file is read in *)

Fixpoint cut (fuel : nat) (f : fdio) : list bytes :=
  match fuel with
  | O => []
  | S fuel =>
      match adb_read f SYNC_DATA_MAX with
      | Ok (RGot [], _) => []
      | Ok (RGot bs, f) => bs :: cut fuel f
      | _ => []
      end
  end.
Definition pieces_of (f : fdio) : list bytes := cut (io_fuel f) f.

Abbreviation full ds := (Forall (fun d => 0 < length d <= SYNC_DATA_MAX)%nat ds).

Lemma cut_reads fuel : forall f, (length (io_evs f) < fuel)%nat -> readable f -> concat (cut fuel f) = io_in f /\ full (cut fuel f).
Proof.
  induction fuel as [|fuel IH]; intros f Hf Hr; [lia|]. cbn [cut].
  destruct (read_piece f Hr) as (bs & f' & E & Hi & Hlen & Hl & Hnil & Hr'). rewrite E. destruct bs as [|b bs]; [split; [by rewrite Hnil|constructor]|].
  destruct (IH f') as [H1 H2]; [lia|by apply Hr'|]. cbn [concat]. rewrite H1. split; [done|]. constructor; [cbn in *; lia|done].
Qed.

Section Client.
Context {W : Type} {OS : Os W} (HAVE_SYMLINKS : bool) (lseek_end : file -> Z) (has_manifest : bytes -> bool).
Implicit Types (c : client (W := W)).

Lemma write_sbuf_complete c d : (8 + length d <= willing (io_evs (c_s c)))%nat ->
  exists s', write_sbuf c d = Ok (true, c_with_s s' c) /\ moved (c_s c) s' [] (msg_data d).
Proof.
  intros Hw. unfold write_sbuf. fold (msg_data d). destruct (writex_complete (c_s c) (msg_data d)) as (s' & E & Hm);
    [rewrite length_msg_data; lia|]. rewrite E. cbn [res_bind]. rewrite bool_decide_true by done. eauto.
Qed.

Lemma data_file_loop_writes fuel : forall c i f, (length (io_evs f) < fuel)%nat -> readable f ->
  (length (data_stream (cut fuel f)) <= willing (io_evs (c_s c)))%nat ->
  exists c', data_file_loop fuel c i f = Ok (0, c') /\ moved (c_s c) (c_s c') [] (data_stream (cut fuel f)) /\ c_log c' = c_log c.
Proof.
  induction fuel as [|fuel IH]; intros c i f Hf Hr Hw; [lia|]. cbn [data_file_loop cut] in *.
  destruct (read_piece f Hr) as (bs & f' & E & Hi & Hlen & Hl & Hnil & Hr'). rewrite E in *. cbn [res_bind].
  destruct bs as [|b bs]; [eexists; split_and!; [done|apply moved_refl|done]|].
  unfold data_stream in Hw. cbn [map concat] in Hw. rewrite length_app, length_msg_data in Hw.
  destruct (write_sbuf_complete c (b :: bs)) as (s' & E1 & Hm); [lia|]. rewrite E1. cbn [res_bind].
  pose proof (mv_will _ _ _ _ Hm) as Hw1. rewrite length_msg_data in Hw1. cbn [length] in Hw1.
  destruct (IH (add_total (length (b :: bs)) (c_with_s s' c)) i f') as (c' & Hc & Hm' & Hlog);
    [lia|by apply Hr'|cbn [add_total c_with_s c_s length] in *; unfold data_stream; lia|].
  exists c'. split_and!; [done| |done]. exact (moved_trans _ _ _ [] _ [] _ Hm Hm').
Qed.

(** ** Sending a file *)

(** What the host writes for a regular file. *)
Definition send_name (rpath : bytes) (mode : Z) : bytes := rpath ++ Byte.x2c :: print_dec mode.
Definition push_stream (rpath : bytes) (mtime mode : Z) (f : fdio) : bytes :=
  words [ID_SEND; Z.of_nat (length (send_name rpath mode))] ++ send_name rpath mode ++ data_stream (pieces_of f) ++ done_msg mtime.

(** The answer of the service, and what the host makes of it. *)
Lemma send_status_okay c more : io_in (c_s c) = okay_msg ++ more -> (8 <= willing (io_evs (c_s c)))%nat ->
  exists c', send_status c = Ok (0, c') /\ moved (c_s c) (c_s c') okay_msg [] /\ c_log c' = c_log c.
Proof.
  intros Hi Hw. unfold send_status. destruct (read_words_complete _ _ _ 2 Hi) as (s1 & E1 & Hm1); [by apply id_word|done|done|].
  rewrite E1. cbn [res_bind]. rewrite bool_decide_false by auto. by eexists.
Qed.

Lemma send_status_fail c why more : io_in (c_s c) = fail_msg why ++ more -> (8 + length why <= willing (io_evs (c_s c)))%nat ->
  (length why <= 256)%nat -> Byte.x00 ∉ why ->
  exists c', send_status c = Ok (-1, c') /\ moved (c_s c) (c_s c') (fail_msg why) [] /\ c_log c' = c_log c ++ [why].
Proof.
  intros Hi Hw Hlen Hnul. unfold send_status. unfold fail_msg in Hi. rewrite <-app_assoc in Hi.
  destruct (read_words_complete _ _ _ 2 Hi) as (s1 & E1 & Hm1); [apply id_word; lia|done|lia|].
  pose proof (moved_rest _ _ _ _ _ Hm1 Hi) as Hi1. pose proof (mv_will _ _ _ _ Hm1) as Hw1. rewrite length_words in Hw1. cbn in Hw1.
  rewrite E1. cbn [res_bind]. rewrite bool_decide_true by done. rewrite bool_decide_true by done.
  assert (s32 (Z.of_nat (length why)) = Z.of_nat (length why)) as -> by (unfold s32; rewrite Z.mod_small by lia; lia).
  rewrite bool_decide_false by lia. destruct (readx_into_complete SYNC_DATA_MAX s1 why more Hi1) as (s2 & E2 & Hm2); [unfold SYNC_DATA_MAX; lia|lia|].
  cbn [c_s c_with_s]. rewrite E2. cbn [res_bind]. rewrite bool_decide_false by auto. rewrite c_string_snoc by done. cbn [res_bind].
  eexists. split_and!; [done| |done]. exact (moved_trans _ _ _ _ [] _ [] Hm1 Hm2).
Qed.

(** The host writes the whole transfer before it looks at the answer. *)
Lemma sync_send_writes c lpath rpath mtime mode w i f : S_ISREG mode = true -> 0 <= mode < 2 ^ 16 -> (length rpath <= 1024)%nat ->
  os_open (c_w c) lpath ReadOnly 0 = (w, inr (i, f)) -> readable f ->
  (length (push_stream rpath mtime mode f) <= willing (io_evs (c_s c)))%nat ->
  exists c1, moved (c_s c) (c_s c1) [] (push_stream rpath mtime mode f) /\ c_log c1 = c_log c
  /\ sync_send HAVE_SYMLINKS lseek_end has_manifest c lpath rpath mtime mode false = send_status c1.
Proof.
  intros Hreg Hmode Hlen Hopen Hr Hw. unfold sync_send, read_apk. rewrite bool_decide_false by lia. cbn [negb res_bind].
  unfold push_stream in *. rewrite !length_app, length_words in Hw. unfold done_msg in *. rewrite length_words in Hw. cbn [length] in Hw.
  unfold send_name in *. set (tmp := Byte.x2c :: print_dec mode) in *. rewrite length_app in *.
  destruct (write_both_complete (c_s c) [ID_SEND; Z.of_nat (length rpath + length tmp)] rpath) as (s1 & E1 & Hm1); [cbn [length]; lia|].
  rewrite E1. cbn [res_bind negb c_s c_with_s]. pose proof (mv_will _ _ _ _ Hm1) as Hw1. rewrite length_app, length_words in Hw1. cbn [length] in Hw1.
  destruct (writex_complete s1 tmp) as (s2 & E2 & Hm2); [lia|]. rewrite E2. cbn [res_bind]. rewrite bool_decide_false by auto.
  pose proof (mv_will _ _ _ _ Hm2) as Hw2. cbn [length] in Hw2. unfold send_data. rewrite Hreg. unfold write_data_file. cbn [c_w c_with_s].
  rewrite Hopen. set (c2 := c_with_w w (c_with_s s2 (c_with_s s1 c))).
  destruct (data_file_loop_writes (io_fuel f) c2 i f) as (c3 & E3 & Hm3 & Hlog); [unfold io_fuel; lia|done|change (c_s c2) with s2; unfold pieces_of in Hw; lia|].
  rewrite E3. cbn [res_bind negb]. pose proof (mv_will _ _ _ _ Hm3) as Hw3. change (c_s c2) with s2 in Hw3, Hm3. cbn [length] in Hw3.
  destruct (write_words_complete (c_s c3) [ID_DONE; mtime]) as (s4 & E4 & Hm4); [cbn [length]; unfold pieces_of in Hw; lia|].
  rewrite E4. cbn [res_bind]. rewrite bool_decide_false by auto. exists (c_with_s s4 c3). split_and!; [|done|done].
  pose proof (moved_trans _ _ _ [] _ [] _ Hm1 (moved_trans _ _ _ [] _ [] _ Hm2 (moved_trans _ _ _ [] _ [] _ Hm3 Hm4))) as Hall.
  cbn [c_s c_with_s]. rewrite <-!app_assoc in Hall |- *. exact Hall.
Qed.

(** ** Fetching a file *)

(** The first words of the messages of [ds], before a message [tid], [tsize]. *)
Definition header (ds : list bytes) (tid tsize : Z) : Z * Z :=
  match ds with [] => (tid, tsize) | d :: _ => (ID_DATA, Z.of_nat (length d)) end.

Lemma s32_small n : (n <= 450)%nat -> s32 (Z.of_nat n) = Z.of_nat n.
Proof. intros H. unfold s32. rewrite Z.mod_small by lia. lia. Qed.

(** The data messages go into the local file, up to the last message. *)
Lemma fetch_data tid tsize text lpath i ds : full ds -> words_in [tid; tsize] -> forall fuel c lf more,
  (length ds < fuel)%nat -> words [(header ds tid tsize).1; (header ds tid tsize).2] ++ io_in (c_s c) = data_stream ds ++ words [tid; tsize] ++ text ++ more ->
  (length (data_stream ds) <= willing (io_evs (c_s c)))%nat -> (length (concat ds) <= willing (io_evs lf))%nat ->
  exists c1 lf1 fuel' took, fetch_loop fuel c lpath i lf (header ds tid tsize).1 (header ds tid tsize).2 = fetch_loop (S fuel') c1 lpath i lf1 tid tsize
  /\ words [(header ds tid tsize).1; (header ds tid tsize).2] ++ took = data_stream ds ++ words [tid; tsize]
  /\ moved (c_s c) (c_s c1) took [] /\ moved lf lf1 [] (concat ds) /\ c_w c1 = c_w c /\ c_log c1 = c_log c.
Proof.
  intros Hds Htail. induction Hds as [|d ds Hd Hds IH]; intros [|fuel] c lf more Hf Hi Hw Hlf; try (cbn in Hf; lia).
  - exists c, lf, fuel, []. split_and!; [done|by rewrite app_nil_r|apply moved_refl|apply moved_refl|done..].
  - cbn [header fst snd] in *. unfold data_stream in Hi, Hw. cbn [map concat] in Hi, Hw, Hlf. rewrite length_app, length_msg_data in Hw. rewrite length_app in Hlf.
    unfold msg_data at 1 in Hi. rewrite <-!app_assoc in Hi. apply app_inv_head in Hi. cbn [fetch_loop].
    unfold SYNC_DATA_MAX in Hd. rewrite bool_decide_false by done. rewrite bool_decide_false by auto. rewrite s32_small by lia.
    rewrite bool_decide_false by (unfold SYNC_DATA_MAX; lia).
    destruct (readx_into_complete SYNC_DATA_MAX (c_s c) d _ Hi) as (s1 & E1 & Hm1); [unfold SYNC_DATA_MAX; lia|lia|]. rewrite E1. cbn [res_bind].
    rewrite bool_decide_false by auto. destruct (writex_complete lf d) as (lf1 & E2 & Hm2); [lia|]. rewrite E2. cbn [res_bind].
    rewrite bool_decide_false by auto. cbn [c_s c_with_s].
    pose proof (moved_rest _ _ _ _ _ Hm1 Hi) as Hi1. pose proof (mv_will _ _ _ _ Hm1) as Hw1. cbn [length] in Hw1.
    assert (exists r, io_in s1 = words [(header ds tid tsize).1; (header ds tid tsize).2] ++ r
      /\ words [(header ds tid tsize).1; (header ds tid tsize).2] ++ r = data_stream ds ++ words [tid; tsize] ++ text ++ more
      /\ words_in [(header ds tid tsize).1; (header ds tid tsize).2]) as (r & Hr & Hr2 & Hr3).
    { destruct ds as [|d2 ds]; cbn [header fst snd].
      - exists (text ++ more). by rewrite Hi1.
      - exists (d2 ++ data_stream ds ++ words [tid; tsize] ++ text ++ more). rewrite Hi1. unfold data_stream. cbn [map concat]. unfold msg_data.
        rewrite <-!app_assoc. split_and!; [done..|]. apply id_word. apply Forall_inv in Hds. unfold SYNC_DATA_MAX in Hds. lia. }
    assert (8 <= willing (io_evs s1))%nat as H8 by lia.
    destruct (read_words_complete s1 _ r 2 Hr Hr3) as (s2 & E3 & Hm3); [done|done|]. rewrite E3. cbn [res_bind].
    pose proof (moved_rest _ _ _ _ _ Hm3 Hr) as Hi3. pose proof (mv_will _ _ _ _ Hm3) as Hw3. rewrite length_words in Hw3. cbn [length] in Hw3.
    pose proof (mv_will _ _ _ _ Hm2) as Hwl. cbn [length] in Hwl.
    destruct (IH fuel (c_with_s s2 (add_total (length d) (c_with_s s1 c))) lf1 more) as (c1 & lf2 & fuel' & took & Heq & Htook & Hm4 & Hm5 & Hcw & Hcl);
      [cbn in Hf; lia|cbn [c_s c_with_s]; by rewrite Hi3|cbn [c_s c_with_s]; unfold data_stream; lia|lia|].
    exists c1, lf2, fuel', (d ++ words [(header ds tid tsize).1; (header ds tid tsize).2] ++ took). split_and!; [done| | | |done|done].
    + rewrite Htook. unfold data_stream. cbn [map concat]. unfold msg_data. by rewrite <-!app_assoc.
    + refine (moved_trans _ _ _ _ [] _ [] Hm1 _). exact (moved_trans _ _ _ _ [] _ [] Hm3 Hm4).
    + exact (moved_trans _ _ _ [] _ [] _ Hm2 Hm5).
Qed.

(** The last message is DONE or a failure; in both cases 0 is returned. *)
Lemma recv_error_fail c lpath lf why more : io_in (c_s c) = why ++ more -> (length why <= willing (io_evs (c_s c)))%nat ->
  (length why <= 256)%nat -> Byte.x00 ∉ why ->
  exists c', recv_error c lpath ID_FAIL (Z.of_nat (length why)) lf = Ok (0, c') /\ moved (c_s c) (c_s c') why []
  /\ c_log c' = c_log c ++ [why] /\ exists w, c_w c' = os_unlink w lpath.
Proof.
  intros Hi Hw Hlen Hnul. unfold recv_error. rewrite bool_decide_true by done. rewrite s32_small by lia. rewrite bool_decide_false by lia.
  cbn [c_s c_with_w]. destruct (readx_into_complete SYNC_DATA_MAX (c_s c) why more Hi) as (s1 & E1 & Hm); [unfold SYNC_DATA_MAX; lia|lia|].
  rewrite E1. cbn [res_bind]. rewrite bool_decide_false by auto. rewrite c_string_snoc by done. cbn [res_bind].
  eexists. split_and!; [done|exact Hm|done|by eexists].
Qed.

Definition pull_request (rpath : bytes) : bytes := words [ID_RECV; Z.of_nat (length rpath)] ++ rpath.

Lemma length_pull_request rpath : length (pull_request rpath) = (8 + length rpath)%nat.
Proof. unfold pull_request. by rewrite length_app, length_words. Qed.

Lemma recv_start c rpath lpath hid hsize body w0 w1 i lf : (length rpath <= 1024)%nat ->
  io_in (c_s c) = words [hid; hsize] ++ body -> words_in [hid; hsize] -> hid = ID_DATA \/ hid = ID_DONE ->
  (16 + length rpath <= willing (io_evs (c_s c)))%nat ->
  client_mkdirs (os_unlink (c_w c) lpath) lpath = Ok w0 -> os_open w0 lpath Truncate 0x1a4 = (w1, inr (i, lf)) ->
  exists c2, sync_recv c rpath lpath = fetch_loop (S (length body)) c2 lpath i lf hid hsize
  /\ moved (c_s c) (c_s c2) (words [hid; hsize]) (pull_request rpath) /\ c_w c2 = w1 /\ c_log c2 = c_log c.
Proof.
  intros Hlen Hi Hws Hid Hw Hmk Hopen. unfold sync_recv, request. rewrite bool_decide_false by lia.
  destruct (write_both_complete (c_s c) [ID_RECV; Z.of_nat (length rpath)] rpath) as (s1 & E1 & Hm1); [cbn [length]; lia|].
  rewrite E1. cbn [res_bind negb c_s c_with_s]. pose proof (mv_in _ _ _ _ Hm1) as Hi1. cbn [app] in Hi1. rewrite Hi1 in Hi.
  pose proof (mv_will _ _ _ _ Hm1) as Hw1. rewrite length_app, length_words in Hw1. cbn [length] in Hw1.
  destruct (read_words_complete s1 _ body 2 Hi Hws) as (s2 & E2 & Hm2); [done|lia|]. rewrite E2. cbn [res_bind].
  rewrite bool_decide_true by done. cbn [c_w c_with_s]. rewrite Hmk. cbn [res_bind]. rewrite Hopen.
  pose proof (moved_rest _ _ _ _ _ Hm2 Hi) as Hi2. cbn [c_s c_with_s]. rewrite Hi2. eexists. split; [done|]. split_and!; [|done..].
  rewrite <-(app_nil_r (pull_request rpath)). exact (moved_trans _ _ _ [] _ _ [] Hm1 Hm2).
Qed.

Lemma header_first ds tid tsize text : full ds -> exists body,
  data_stream ds ++ words [tid; tsize] ++ text = words [(header ds tid tsize).1; (header ds tid tsize).2] ++ body
  /\ (length ds <= length body)%nat.
Proof.
  intros Hds. destruct ds as [|d ds]; [by exists text; split; [|cbn; lia]|].
  exists (d ++ data_stream ds ++ words [tid; tsize] ++ text). unfold data_stream. cbn [map concat header fst snd]. unfold msg_data at 1.
  split; [by rewrite <-!app_assoc|]. fold (data_stream ds). rewrite !length_app, length_words, <-length_data_stream. cbn [length]. lia.
Qed.

(** A stream that ends with DONE is the file. *)
Lemma sync_recv_done c rpath lpath ds more w0 w1 i lf : (length rpath <= 1024)%nat -> full ds ->
  io_in (c_s c) = (data_stream ds ++ done_msg 0) ++ more ->
  (16 + length rpath + length (data_stream ds) <= willing (io_evs (c_s c)))%nat -> (length (concat ds) <= willing (io_evs lf))%nat ->
  client_mkdirs (os_unlink (c_w c) lpath) lpath = Ok w0 -> os_open w0 lpath Truncate 0x1a4 = (w1, inr (i, lf)) ->
  exists c' lf', sync_recv c rpath lpath = Ok (0, c') /\ moved (c_s c) (c_s c') (data_stream ds ++ done_msg 0) (pull_request rpath)
  /\ c_log c' = c_log c /\ io_out lf' = io_out lf ++ concat ds /\ c_w c' = os_close w1 (i, lf').
Proof.
  intros Hlen Hds Hi Hw Hlf Hmk Hopen. unfold done_msg in *. rewrite <-app_assoc in Hi.
  destruct (header_first ds ID_DONE 0 more Hds) as (body & Hb & Hlb). rewrite Hb in Hi.
  assert (words_in [(header ds ID_DONE 0).1; (header ds ID_DONE 0).2]) as Hws.
  { destruct ds as [|d ds]; apply id_word; cbn [header snd]; [lia|]. apply Forall_inv in Hds. unfold SYNC_DATA_MAX in Hds. lia. }
  destruct (recv_start c rpath lpath _ _ body w0 w1 i lf Hlen Hi Hws) as (c2 & E2 & Hm2 & Hw2 & Hl2); [destruct ds; auto|lia|done|done|].
  pose proof (moved_rest _ _ _ _ _ Hm2 Hi) as Hi2. pose proof (mv_will _ _ _ _ Hm2) as Hwill. rewrite length_words, length_pull_request in Hwill. cbn [length] in Hwill.
  destruct (fetch_data ID_DONE 0 [] lpath i ds Hds (id_word _ _ _ _ 0 ltac:(lia)) (S (length body)) c2 lf more)
    as (c3 & lf3 & fuel' & took & E3 & Htook & Hm3 & Hm4 & Hw3 & Hl3); [lia|by rewrite Hi2, <-Hb|lia|done|].
  rewrite E2, E3. cbn [fetch_loop]. rewrite bool_decide_true by done. eexists _, lf3. split_and!; [done| |cbn; congruence| |cbn; by rewrite Hw3, Hw2].
  - rewrite <-Htook, <-(app_nil_r (pull_request rpath)). exact (moved_trans _ _ _ _ _ _ [] Hm2 Hm3).
  - apply (mv_out _ _ _ _ Hm4).
Qed.

(** A stream that ends with a failure leaves no file. *)
Lemma sync_recv_fail c rpath lpath ds why more w0 w1 i lf : (length rpath <= 1024)%nat -> full ds ->
  io_in (c_s c) = (data_stream ds ++ fail_msg why) ++ more -> (length why <= 256)%nat -> Byte.x00 ∉ why ->
  (24 + length rpath + length (data_stream ds) + length why <= willing (io_evs (c_s c)))%nat -> (length (concat ds) <= willing (io_evs lf))%nat ->
  client_mkdirs (os_unlink (c_w c) lpath) lpath = Ok w0 -> os_open w0 lpath Truncate 0x1a4 = (w1, inr (i, lf)) ->
  exists c', sync_recv c rpath lpath = Ok (0, c') /\ moved (c_s c) (c_s c') (data_stream ds ++ fail_msg why) (pull_request rpath)
  /\ c_log c' = c_log c ++ [why] /\ exists w, c_w c' = os_unlink w lpath.
Proof.
  intros Hlen Hds Hi Hlw Hnul Hw Hlf Hmk Hopen. unfold fail_msg in *. rewrite <-!app_assoc in Hi.
  set (n := Z.of_nat (length why)) in *. assert (0 <= n < 2 ^ 32) as Hn by lia.
  destruct ds as [|d ds].
  - change (data_stream []) with (@nil byte) in *. cbn [app] in *. unfold sync_recv, request. rewrite bool_decide_false by lia.
    destruct (write_both_complete (c_s c) [ID_RECV; Z.of_nat (length rpath)] rpath) as (s1 & E1 & Hm1); [cbn [length]; lia|].
    rewrite E1. cbn [res_bind negb c_s c_with_s]. pose proof (mv_in _ _ _ _ Hm1) as Hi1. cbn [app] in Hi1. rewrite Hi1 in Hi.
    pose proof (mv_will _ _ _ _ Hm1) as Hw1. rewrite length_app, length_words in Hw1. cbn [length] in Hw1, Hw.
    destruct (read_words_complete s1 _ _ 2 Hi) as (s2 & E2 & Hm2); [by apply id_word|done|lia|]. rewrite E2. cbn [res_bind].
    rewrite bool_decide_false by (intros [?|?]; discriminate). pose proof (moved_rest _ _ _ _ _ Hm2 Hi) as Hi2.
    pose proof (mv_will _ _ _ _ Hm2) as Hw2. rewrite length_words in Hw2. cbn [length] in Hw2.
    destruct (recv_error_fail (c_with_s s2 (c_with_s s1 c)) lpath None why more Hi2) as (c' & E3 & Hm3 & Hl & Hx); [cbn; lia|done|done|].
    exists c'. split_and!; [done| |done|done]. rewrite <-(app_nil_r (pull_request rpath)).
    refine (moved_trans _ _ _ [] _ _ [] Hm1 _). exact (moved_trans _ _ _ _ [] _ [] Hm2 Hm3).
  - destruct (header_first (d :: ds) ID_FAIL n (why ++ more) Hds) as (body & Hb & Hlb). rewrite Hb in Hi.
    assert (words_in [(header (d :: ds) ID_FAIL n).1; (header (d :: ds) ID_FAIL n).2]) as Hws.
    { apply id_word. cbn [header snd]. apply Forall_inv in Hds. unfold SYNC_DATA_MAX in Hds. lia. }
    destruct (recv_start c rpath lpath _ _ body w0 w1 i lf Hlen Hi Hws) as (c2 & E2 & Hm2 & Hw2 & Hl2); [by left|lia|done|done|].
    pose proof (moved_rest _ _ _ _ _ Hm2 Hi) as Hi2. pose proof (mv_will _ _ _ _ Hm2) as Hwill. rewrite length_words, length_pull_request in Hwill. cbn [length] in Hwill.
    destruct (fetch_data ID_FAIL n why lpath i (d :: ds) Hds (id_word _ _ _ _ n Hn) (S (length body)) c2 lf more)
      as (c3 & lf3 & fuel' & took & E3 & Htook & Hm3 & Hm4 & Hw3 & Hl3); [lia|by rewrite Hi2, <-Hb|lia|done|].
    rewrite E2, E3. cbn [fetch_loop]. rewrite bool_decide_false by done. rewrite bool_decide_true by done.
    pose proof (mv_will _ _ _ _ Hm3) as Hwill3. apply (f_equal length) in Htook as Hlt. rewrite !length_app, !length_words in Hlt. cbn [length] in Hlt, Hwill3.
    assert (io_in (c_s c3) = why ++ more) as Hi3.
    { apply (moved_rest _ _ _ _ _ Hm3). rewrite Hi2. apply (app_inv_head (words [(header (d :: ds) ID_FAIL n).1; (header (d :: ds) ID_FAIL n).2])).
      by rewrite <-Hb, (app_assoc _ took), Htook, <-!app_assoc. }
    destruct (recv_error_fail c3 lpath (Some (i, lf3)) why more Hi3) as (c' & E4 & Hm5 & Hl & Hx); [lia|done|done|].
    exists c'. split_and!; [done| |congruence|done]. rewrite app_assoc, <-Htook, <-(app_nil_r (pull_request rpath)), <-app_assoc.
    refine (moved_trans _ _ _ _ _ _ [] Hm2 _). exact (moved_trans _ _ _ _ [] _ [] Hm3 Hm5).
Qed.

(** ** Listing a directory *)

Definition entry_ok (e : entry) : Prop :=
  let '(mode, size, time, name) := e in words_in [mode; size; time] /\ (length name <= 255)%nat /\ Byte.x00 ∉ name.

Lemma ls_reads es : Forall entry_ok es -> forall fuel c acc more, (length es < fuel)%nat ->
  io_in (c_s c) = list_stream es ++ list_done ++ more -> (length (list_stream es) + 20 <= willing (io_evs (c_s c)))%nat ->
  exists c', ls_loop fuel c acc = Ok (0, acc ++ es, c') /\ moved (c_s c) (c_s c') (list_stream es ++ list_done) [].
Proof.
  induction 1 as [|e es He _ IH]; intros [|fuel] c acc more Hf Hi Hw; try (cbn in Hf; lia); cbn [ls_loop].
  - destruct (read_words_complete (c_s c) [ID_DONE; 0; 0; 0; 0] more 5 Hi) as (s1 & E1 & Hm); [|done|cbn in Hw; lia|].
    { constructor; [apply of_le32_range|]. repeat (constructor; [lia|]). constructor. }
    rewrite E1. cbn [res_bind]. rewrite bool_decide_true by done. rewrite app_nil_r. by eexists.
  - destruct e as [[[mode size] time] name]. destruct He as (Hws & Hname & Hnul). unfold list_stream in Hi, Hw |- *. cbn [map concat] in Hi, Hw |- *.
    unfold entry_msg at 1 in Hi. unfold entry_msg at 1 in Hw. rewrite !length_app, length_words in Hw. cbn [length] in Hw. rewrite <-!app_assoc in Hi.
    destruct (read_words_complete (c_s c) _ _ 5 Hi) as (s1 & E1 & Hm1); [|done|lia|].
    { constructor; [apply of_le32_range|]. change (words_in ([mode; size; time] ++ [Z.of_nat (length name)])). apply words_in_app. split; [done|].
      constructor; [lia|constructor]. }
    rewrite E1. cbn [res_bind]. rewrite bool_decide_false by done. rewrite bool_decide_false by auto. rewrite s32_small by lia. rewrite bool_decide_false by lia.
    pose proof (moved_rest _ _ _ _ _ Hm1 Hi) as Hi1. pose proof (mv_will _ _ _ _ Hm1) as Hw1. rewrite length_words in Hw1. cbn [length] in Hw1.
    cbn [c_s c_with_s]. destruct (readx_into_complete 257 s1 name _ Hi1) as (s2 & E2 & Hm2); [lia|lia|]. rewrite E2. cbn [res_bind].
    rewrite bool_decide_false by auto. rewrite c_string_snoc by done. cbn [res_bind].
    pose proof (moved_rest _ _ _ _ _ Hm2 Hi1) as Hi2. pose proof (mv_will _ _ _ _ Hm2) as Hw2. cbn [length] in Hw2.
    destruct (IH fuel (c_with_s s2 (c_with_s s1 c)) (acc ++ [(mode, size, time, name)]) more) as (c' & E3 & Hm3);
      [cbn in Hf; lia|exact Hi2|cbn [c_s c_with_s]; unfold list_stream; lia|].
    exists c'. rewrite E3, <-app_assoc. split; [done|]. unfold entry_msg at 1. rewrite <-!app_assoc.
    refine (moved_trans _ _ _ _ [] _ [] Hm1 _). exact (moved_trans _ _ _ _ [] _ [] Hm2 Hm3).
Qed.

End Client.

(** *** Both ends *)

Lemma split_send_name H rpath mode : S_ISREG mode = true -> 0 <= mode < 2 ^ 16 ->
  split_mode H (send_name rpath mode) = (rpath, Z.land mode 0x1ff, false).
Proof.
  intros Hreg Hmode. unfold split_mode, send_name. destruct (print_dec_digits mode) as [Hd _]; [lia|].
  rewrite strrchr_last.
  - rewrite strtoul_print_dec by lia. assert (u16 mode = mode) as -> by (apply Z.mod_small; lia).
    unfold S_ISREG, S_ISLNK in *. apply bool_decide_eq_true in Hreg. rewrite Hreg. by rewrite andb_false_r.
  - intros Hin. rewrite Forall_forall in Hd. specialize (Hd _ Hin). unfold is_digit in Hd. cbn in Hd. lia.
Qed.

Lemma send_name_string rpath mode : Byte.x00 ∉ rpath -> 0 <= mode < 2 ^ 16 -> Byte.x00 ∉ send_name rpath mode.
Proof.
  intros Hnul Hmode Hin. unfold send_name in Hin. destruct (print_dec_digits mode) as [Hd _]; [lia|].
  apply elem_of_app in Hin as [?|[?|Hin]%elem_of_cons]; [done..|]. rewrite Forall_forall in Hd. specialize (Hd _ Hin).
  unfold is_digit in Hd. cbn in Hd. lia.
Qed.

Lemma pieces_full f : readable f -> concat (pieces_of f) = io_in f /\ full (pieces_of f).
Proof. apply cut_reads. unfold io_fuel. lia. Qed.

Lemma full_length (ds : list bytes) : full ds -> (length ds <= length (concat ds))%nat.
Proof. induction 1 as [|d ds Hd _ IH]; [done|]. cbn [concat length]. rewrite length_app. lia. Qed.

Lemma full_pieces (ds : list bytes) : full ds -> pieces ds.
Proof. intros H. eapply Forall_impl; [exact H|]. cbn. lia. Qed.

Lemma list_stream_length es : (length es <= length (list_stream es))%nat.
Proof.
  induction es as [|[[[m s] t] n] es IH]; [done|]. unfold list_stream in *. cbn [map concat length]. rewrite length_app. unfold entry_msg at 1.
  rewrite length_app, length_words. cbn [length]. lia.
Qed.

Section Both.
Context {W1 W2 : Type} {OS1 : Os W1} {OS2 : Os W2} (H1 H2 : bool) (lseek_end : file -> Z) (has_manifest : bytes -> bool) (E : nat).
Hypothesis HOS : calm OS2 E.
Hypothesis HE : (E <= 256)%nat.

(** The service gets what [sync_send] wrote. *)
Lemma serve_push (y : sync (W := W2)) rpath mtime mode f rest :
  S_ISREG mode = true -> 0 <= mode < 2 ^ 16 -> 0 <= mtime < 2 ^ 32 -> Byte.x00 ∉ rpath -> (length (send_name rpath mode) <= 1024)%nat ->
  readable f -> io_in (sy_s y) = push_stream rpath mtime mode f ++ rest ->
  (length (push_stream rpath mtime mode f) + 16 + E <= willing (io_evs (sy_s y)))%nat ->
  exists y' reply, serve_one H2 y = Ok (true, y') /\ moved (sy_s y) (sy_s y') (push_stream rpath mtime mode f) reply
  /\ match open_for_send (os_unlink (sy_w y) rpath) rpath (copy_bits (Z.land mode 0x1ff)) with
     | (w, inr (i, g)) => stored rpath mtime w (sy_w y') i g (io_in f) reply \/ refused rpath w (sy_w y') i g (io_in f) reply
     | (w, inl e) => sy_w y' = w /\ reply = fail_msg (os_strerror e)
     end.
Proof.
  intros Hreg Hmode Hts Hnul Hlen Hr Hi Hw. destruct (pieces_full f Hr) as [Hcat Hfull]. unfold push_stream in *.
  rewrite !length_app, length_words in Hw. cbn [length] in Hw. rewrite <-!app_assoc in Hi.
  destruct (serve_one_request H2 y Byte.x53 Byte.x45 Byte.x4e Byte.x44 _ _ Hi) as (s1 & Hm1 & Es);
    [by apply send_name_string|done|lia|]. rewrite app_assoc in Hi. pose proof (moved_rest _ _ _ _ _ Hm1 Hi) as Hi1.
  pose proof (mv_will _ _ _ _ Hm1) as Hw1. rewrite length_app, length_words in Hw1. cbn [length] in Hw1.
  destruct (send_in_step H2 E HOS (with_s s1 y) _ (pieces_of f) mtime rest rpath _ (split_send_name H2 rpath mode Hreg Hmode) Hts)
    as (y' & reply & Hy & Hm2 & Hcase); [by apply full_pieces|done|cbn [sy_s with_s]; unfold done_msg in *; lia|].
  exists y', reply. split_and!.
  - rewrite Es. unfold serve_command. by rewrite !bool_decide_false, bool_decide_true, Hy by done.
  - rewrite app_assoc. exact (moved_trans _ _ _ _ [] _ reply Hm1 Hm2).
  - rewrite Hcat in Hcase. exact Hcase.
Qed.

(** C7: A push, at both ends: the service stores the bytes of the host's file, with
    its time, and the host is told so; or nothing is left of the file on the
    device, and the host is told why.  In either case both ends are at the end
    of the transfer. *)
Theorem push_agrees (c : client (W := W1)) (y : sync (W := W2)) lpath rpath mtime mode w1 i1 f rest :
  S_ISREG mode = true -> 0 <= mode < 2 ^ 16 -> 0 <= mtime < 2 ^ 32 ->
  Byte.x00 ∉ rpath -> (length (send_name rpath mode) <= 1024)%nat ->
  os_open (c_w c) lpath ReadOnly 0 = (w1, inr (i1, f)) -> readable f ->
  io_in (sy_s y) = push_stream rpath mtime mode f ++ rest ->
  (length (push_stream rpath mtime mode f) + 16 + E <= willing (io_evs (sy_s y)))%nat ->
  (length (push_stream rpath mtime mode f) + 16 + E <= willing (io_evs (c_s c)))%nat ->
  exists y' reply, serve_one H2 y = Ok (true, y') /\ moved (sy_s y) (sy_s y') (push_stream rpath mtime mode f) reply
  /\ forall more, io_in (c_s c) = reply ++ more -> exists c' r,
     sync_send H1 lseek_end has_manifest c lpath rpath mtime mode false = Ok (r, c')
     /\ moved (c_s c) (c_s c') reply (push_stream rpath mtime mode f)
     /\ match open_for_send (os_unlink (sy_w y) rpath) rpath (copy_bits (Z.land mode 0x1ff)) with
        | (w, inr (i, g)) => r = 0 /\ c_log c' = c_log c /\ stored rpath mtime w (sy_w y') i g (io_in f) reply
            \/ r = -1 /\ refused rpath w (sy_w y') i g (io_in f) reply /\ exists why, reply = fail_msg why /\ c_log c' = c_log c ++ [why]
        | (w, inl e) => r = -1 /\ sy_w y' = w /\ c_log c' = c_log c ++ [os_strerror e]
        end.
Proof.
  intros Hreg Hmode Hts Hnul Hlen Hopen Hr Hi Hwy Hwc.
  destruct (serve_push y rpath mtime mode f rest Hreg Hmode Hts Hnul Hlen Hr Hi Hwy) as (y' & reply & Hy & Hm & Hcase).
  exists y', reply. split_and!; [done..|]. intros more Hmore. unfold send_name in Hlen. rewrite length_app in Hlen.
  destruct (sync_send_writes H1 lseek_end has_manifest c lpath rpath mtime mode w1 i1 f Hreg Hmode) as (c1 & Hm1 & Hlog & Ec); [lia|done|done|lia|].
  rewrite Ec. pose proof (mv_in _ _ _ _ Hm1) as Hi1. cbn [app] in Hi1. rewrite Hi1 in Hmore. pose proof (mv_will _ _ _ _ Hm1) as Hw1. cbn [length] in Hw1.
  assert (reply = okay_msg -> exists c', send_status c1 = Ok (0, c') /\ moved (c_s c) (c_s c') reply (push_stream rpath mtime mode f) /\ c_log c' = c_log c) as Hokay.
  { intros ->. destruct (send_status_okay c1 more Hmore) as (c' & E1 & Hm2 & Hl2); [lia|]. exists c'. split_and!; [done| |congruence].
    rewrite <-(app_nil_r (push_stream _ _ _ _)). exact (moved_trans _ _ _ [] _ _ [] Hm1 Hm2). }
  assert (forall e, reply = fail_msg (os_strerror e) -> exists c', send_status c1 = Ok (-1, c')
    /\ moved (c_s c) (c_s c') reply (push_stream rpath mtime mode f) /\ c_log c' = c_log c ++ [os_strerror e]) as Hfail.
  { intros e ->. pose proof (calm_text _ _ HOS e). destruct (send_status_fail c1 _ more Hmore) as (c' & E1 & Hm2 & Hl2);
      [lia|lia|by apply (calm_string _ _ HOS)|]. exists c'. split_and!; [done| |congruence].
    rewrite <-(app_nil_r (push_stream _ _ _ _)). exact (moved_trans _ _ _ [] _ _ [] Hm1 Hm2). }
  destruct (open_for_send _ _ _) as [w [e|[i g]]].
  - destruct Hcase as [Hw' Hrep]. destruct (Hfail e Hrep) as (c' & E1 & Hm2 & Hl). exists c', (-1). by split_and!.
  - destruct Hcase as [Hst|Href].
    + pose proof Hst as (g' & _ & _ & Hrep). destruct (Hokay Hrep) as (c' & E1 & Hm2 & Hl). exists c', 0. split_and!; [done..|]. left. by split_and!.
    + pose proof Href as (g' & k & _ & _ & _ & Hrep). destruct (Hfail _ Hrep) as (c' & E1 & Hm2 & Hl). exists c', (-1). split_and!; [done..|]. right.
      split_and!; [done..|]. by eexists.
Qed.

(** C8: A pull, at both ends: the host's file gets the bytes of the device's file;
    only when the device cannot read its file to the end, the host keeps no file
    and is told why.  The host's return value is 0 in both cases. *)
Theorem pull_agrees (c : client (W := W1)) (y : sync (W := W2)) rpath lpath w2 j g w0 w1 i lf rest :
  Byte.x00 ∉ rpath -> (length rpath <= 1024)%nat ->
  os_open (sy_w y) rpath ReadOnly 0 = (w2, inr (j, g)) ->
  client_mkdirs (os_unlink (c_w c) lpath) lpath = Ok w0 -> os_open w0 lpath Truncate 0x1a4 = (w1, inr (i, lf)) ->
  io_in (sy_s y) = pull_request rpath ++ rest ->
  (16 + length rpath + 9 * length (io_in g) + E <= willing (io_evs (sy_s y)))%nat ->
  (24 + length rpath + 9 * length (io_in g) + E <= willing (io_evs (c_s c)))%nat -> (length (io_in g) <= willing (io_evs lf))%nat ->
  exists y' reply, serve_one H2 y = Ok (true, y') /\ moved (sy_s y) (sy_s y') (pull_request rpath) reply
  /\ forall more, io_in (c_s c) = reply ++ more -> exists c', sync_recv c rpath lpath = Ok (0, c')
     /\ moved (c_s c) (c_s c') reply (pull_request rpath)
     /\ ((exists lf', io_out lf' = io_out lf ++ io_in g /\ c_w c' = os_close w1 (i, lf') /\ c_log c' = c_log c)
         \/ ~ readable g /\ (exists why, c_log c' = c_log c ++ [why]) /\ exists w, c_w c' = os_unlink w lpath).
Proof.
  intros Hnul Hlen Hopen Hmk Hlocal Hi Hwy Hwc Hlf. unfold pull_request in Hi. rewrite <-app_assoc in Hi.
  destruct (serve_one_request H2 y Byte.x52 Byte.x45 Byte.x43 Byte.x56 rpath rest Hi) as (s1 & Hm1 & Es); [done|lia|lia|].
  pose proof (mv_will _ _ _ _ Hm1) as Hw1. rewrite length_app, length_words in Hw1. cbn [length] in Hw1.
  destruct (recv_sends E HOS (with_s s1 y) rpath) as (y' & ds & tail & Hy & Hm2 & Hds & Hcase); cbn [sy_w sy_s with_s] in *.
  { rewrite Hopen. intros w' i' f' [= <- <- <-]. lia. }
  { lia. }
  rewrite Hopen in Hcase. destruct Hcase as (g' & _ & Hor). exists y', (data_stream ds ++ tail). split_and!.
  - rewrite Es. unfold serve_command. rewrite !(bool_decide_false (_ = _)), bool_decide_true, Hy by done. done.
  - rewrite <-(app_nil_r (pull_request rpath)). exact (moved_trans _ _ _ _ [] [] _ Hm1 Hm2).
  - intros more Hmore. pose proof (length_data_stream ds) as Hlds. pose proof (full_length ds Hds) as Hfl.
    destruct Hor as [[-> Hcat]|(-> & Hnr & l & Hcat)].
    + rewrite Hcat in *. destruct (sync_recv_done c rpath lpath ds more w0 w1 i lf) as (c' & lf' & E1 & Hm & Hl & Ho & Hcw); [done|done|done|lia|by rewrite Hcat|done|done|].
      exists c'. split_and!; [done..|]. left. exists lf'. by rewrite Ho, Hcat.
    + rewrite Hcat, length_app in *. pose proof (calm_text _ _ HOS (os_errno (j, g'))).
      destruct (sync_recv_fail c rpath lpath ds (os_strerror (os_errno (j, g'))) more w0 w1 i lf) as (c' & E1 & Hm & Hl & Hx);
        [done|done|done|lia|by apply (calm_string _ _ HOS)|lia|lia|done|done|].
      exists c'. split_and!; [done..|]. right. split_and!; [done|by eexists|done].
Qed.

End Both.

Section BothList.
Context {W1 W2 : Type} {OS2 : Os W2} (H2 : bool).

Definition list_request (path : bytes) : bytes := words [ID_LIST; Z.of_nat (length path)] ++ path.

(** A listing: the host gets the entries of the directory that have a status, in
    their order, with the low words of their mode, size and time. *)
Theorem list_agrees (c : client (W := W1)) (y : sync (W := W2)) path rest :
  Byte.x00 ∉ path -> (length path <= 1024)%nat ->
  (forall l, os_readdir (sy_w y) path = Some l -> Forall (fun name => (length name <= 255)%nat /\ Byte.x00 ∉ name) l) ->
  io_in (sy_s y) = list_request path ++ rest ->
  let es := entries_of (sy_w y) path in
  (28 + length path + length (list_stream es) <= willing (io_evs (sy_s y)))%nat ->
  (28 + length path + length (list_stream es) <= willing (io_evs (c_s c)))%nat ->
  exists y' reply, serve_one H2 y = Ok (true, y') /\ moved (sy_s y) (sy_s y') (list_request path) reply
  /\ forall more, io_in (c_s c) = reply ++ more -> exists c', sync_ls c path = Ok (0, es, c')
     /\ moved (c_s c) (c_s c') reply (list_request path).
Proof.
  intros Hnul Hlen Hnames Hi es Hwy Hwc. unfold list_request in *. rewrite <-app_assoc in Hi.
  destruct (serve_one_request H2 y Byte.x4c Byte.x49 Byte.x53 Byte.x54 path rest Hi) as (s1 & Hm1 & Es); [done|lia|lia|].
  pose proof (mv_will _ _ _ _ Hm1) as Hw1. rewrite length_app, length_words in Hw1. cbn [length] in Hw1.
  destruct (do_list_sends (with_s s1 y) path Hlen) as (y' & Hy & _ & Hm2); cbn [sy_w sy_s with_s] in *.
  { intros l Hl. eapply Forall_impl; [by apply Hnames|]. by intros ? []. }
  { fold es. lia. }
  assert (Forall entry_ok es) as Hes.
  { unfold es, entries_of. destruct (os_readdir (sy_w y) path) as [l|] eqn:Hl; [|constructor]. specialize (Hnames l eq_refl).
    apply Forall_forall. intros e (name & Hin & He)%list_elem_of_omap. rewrite Forall_forall in Hnames. destruct (Hnames name Hin) as [Hn1 Hn2].
    unfold entry_of in He. destruct (os_lstat _ _) as [st|]; [|done]. injection He as <-. split_and!; [|done|done].
    repeat (constructor; [apply u32_range|]). constructor. }
  fold es in Hm2. exists y', (list_stream es ++ list_done). split_and!.
  - rewrite Es. unfold serve_command. rewrite (bool_decide_false (_ = ID_STAT)), bool_decide_true, Hy by done. done.
  - rewrite <-(app_nil_r (words _ ++ path)). exact (moved_trans _ _ _ _ [] [] _ Hm1 Hm2).
  - intros more Hmore. unfold sync_ls, request. rewrite bool_decide_false by lia.
    destruct (write_both_complete (c_s c) [ID_LIST; Z.of_nat (length path)] path) as (s2 & E2 & Hm3); [cbn [length]; lia|].
    rewrite E2. cbn [res_bind c_s c_with_s]. pose proof (mv_in _ _ _ _ Hm3) as Hi3. cbn [app] in Hi3. rewrite Hi3, <-app_assoc in Hmore.
    pose proof (mv_will _ _ _ _ Hm3) as Hw3. rewrite length_app, length_words in Hw3. cbn [length] in Hw3.
    destruct (ls_reads (W := W1) es Hes (S (length (io_in s2))) (c_with_s s2 c) [] more) as (c' & E4 & Hm4);
      [rewrite Hmore, !length_app; pose proof (list_stream_length es); lia|exact Hmore|cbn [c_s c_with_s]; lia|].
    exists c'. split; [done|]. rewrite <-(app_nil_r (words _ ++ path)). exact (moved_trans _ _ _ [] _ _ [] Hm3 Hm4).
Qed.

End BothList.

(** ** What a device can do to its host *)

(** A size with its highest bit set is negative for the host, passes the test
    against the size of the buffer, and is given to [readx] as the number of
    bytes to store there. *)
Theorem negative_size_overruns {W} {OS : Os W} (c : client (W := W)) rpath lpath size more w0 w1 i lf :
  2 ^ 31 <= size < 2 ^ 32 -> (length rpath <= 1024)%nat -> io_in (c_s c) = words [ID_DATA; size] ++ more ->
  (16 + length rpath <= willing (io_evs (c_s c)))%nat ->
  client_mkdirs (os_unlink (c_w c) lpath) lpath = Ok w0 -> os_open w0 lpath Truncate 0x1a4 = (w1, inr (i, lf)) ->
  sync_recv c rpath lpath = Ub.
Proof.
  intros Hsize Hlen Hi Hw Hmk Hopen. destruct (recv_start c rpath lpath ID_DATA size more w0 w1 i lf) as (c2 & -> & _);
    [done|done|apply id_word; lia|by left|done..|]. cbn [fetch_loop].
  assert (s32 size < 0) as Hneg by (unfold s32; rewrite <-(Z.mod_add _ (-1)), Z.mod_small by lia; lia).
  rewrite bool_decide_false by done. rewrite bool_decide_false by auto. rewrite bool_decide_false by (unfold SYNC_DATA_MAX; lia).
  unfold readx_into. rewrite bool_decide_false by lia. done.
Qed.

(** ** A disk

    Files by number, with their names; the text of every error is the same. *)
Section Disk.
Record inode := Inode { n_name : option bytes; n_data : bytes; n_mode : Z; n_time : Z }.
Definition disk := list inode.

Definition disk_find (d : disk) (path : bytes) : option (nat * inode) := list_find (fun n => n_name n = Some path) d.
Definition disk_open (d : disk) (path : bytes) (how : open_how) (mode : Z) : disk * (os_error + file) :=
  let evs := replicate 30 (Xfer 7) ++ [Fail EAGAIN] in
  let empty (i : nat) := inr (Z.of_nat i, Fdio [] [] evs []) in
  match disk_find d path, how with
  | Some (i, n), ReadOnly => (d, inr (Z.of_nat i, Fdio (n_data n) [] evs []))
  | None, (ReadOnly | WriteOnly) => (d, inl ENOENT)
  | Some _, CreateNew => (d, inl EEXIST)
  | Some (i, _), _ => (d, empty i)
  | None, _ => (d ++ [Inode (Some path) [] mode 0], empty (length d))
  end.
Definition disk_close (d : disk) (f : file) : disk :=
  alter (fun n => Inode (n_name n) (n_data n ++ io_out f.2) (n_mode n) (n_time n)) (Z.to_nat f.1) d.
Definition disk_set (d : disk) (path : bytes) (g : inode -> inode) : disk :=
  match disk_find d path with Some (i, _) => alter g i d | None => d end.

#[local] Instance disk_os : Os disk := {|
  os_open := disk_open;
  os_close := disk_close;
  os_unlink d path := disk_set d path (fun n => Inode None (n_data n) (n_mode n) (n_time n));
  os_mkdir d _ _ := (d, Some EEXIST);
  os_symlink d _ _ := (d, Some (Eother 38));
  os_utime d path t := disk_set d path (fun n => Inode (n_name n) (n_data n) (n_mode n) t);
  os_lstat d path := match disk_find d path with
                     | Some (_, n) => Some (Filestat (n_mode n) (Z.of_nat (length (n_data n))) (n_time n)) | None => None end;
  os_readlink d _ := inl (Eother 22);
  os_readdir d path := Some [lit "a"; lit "b"];
  os_strerror _ := lit "error";
  os_errno _ := Eother 5
|}.

Lemma disk_calm : calm disk_os 5.
Proof.
  split; [|done|intros e; cbn; set_solver]. intros w path how mode w' i f. cbn. unfold disk_open.
  assert (patient 1 (Fdio [] [] (replicate 30 (Xfer 7) ++ [Fail EAGAIN]) [])) as Hp by (by exists (replicate 30 (Xfer 7))).
  assert (forall l, patient 1 (Fdio l [] (replicate 30 (Xfer 7) ++ [Fail EAGAIN]) [])) as Hp2 by (intros l; by exists (replicate 30 (Xfer 7))).
  destruct (disk_find w path) as [[k n]|], how; intros H; try discriminate H; injection H as <- <- <-; auto.
Qed.

Definition a_file : inode := Inode (Some (lit "/h/a")) (repeat Byte.x41 20) 0x81a4 5.
Definition stream_fd (input : bytes) : fdio := Fdio input [] (replicate 300 (Xfer 9) ++ replicate 2 (Fail EAGAIN)) [].
Definition a_reader : fdio := Fdio (n_data a_file) [] (replicate 30 (Xfer 7) ++ [Fail EAGAIN]) [].
Definition a_push : bytes := push_stream (lit "/d/a") 7 0x81a4 a_reader.
Definition a_client (input : bytes) : client := Client (stream_fd input) [a_file] 0 [].

(** A file of 20 bytes, read eight bytes at a time, is pushed to an empty disk. *)
Example pushed : exists y' c', serve_one (W := disk) true (Sync (stream_fd a_push) [] []) = Ok (true, y')
  /\ sync_send true (fun _ => 0) (fun _ => true) (a_client (io_out (sy_s y'))) (lit "/h/a") (lit "/d/a") 7 0x81a4 false = Ok (0, c')
  /\ io_out (c_s c') = a_push /\ sy_w y' = [Inode (Some (lit "/d/a")) (repeat Byte.x41 20) 0x1b6 7].
Proof. eexists _, _. split; [vm_compute; reflexivity|]. split; [vm_compute; reflexivity|]. split; vm_compute; reflexivity. Qed.

Lemma push_agrees_witness : exists y' reply,
  serve_one (W := disk) true (Sync (stream_fd (a_push ++ lit "more")) [] []) = Ok (true, y')
  /\ moved (stream_fd (a_push ++ lit "more")) (sy_s y') a_push reply.
Proof.
  destruct (push_agrees (OS1 := disk_os) (OS2 := disk_os) true true (fun _ => 0) (fun _ => true) 5 disk_calm (ltac:(lia))
    (a_client []) (Sync (stream_fd (a_push ++ lit "more")) [] []) (lit "/h/a") (lit "/d/a") 7 0x81a4 [a_file] 0 a_reader (lit "more"))
    as (y' & reply & H & Hm & _);
    [reflexivity|lia|lia|vm_compute; set_solver|vm_compute; lia|reflexivity|vm_compute; lia|reflexivity|vm_compute; lia|vm_compute; lia|].
  exists y', reply. split; [exact H|exact Hm].
Defined.

Definition a_pull : bytes := pull_request (lit "/h/a").
Definition a_writer : fdio := Fdio [] [] (replicate 30 (Xfer 7) ++ [Fail EAGAIN]) [].

Lemma pull_agrees_witness : exists y' reply, serve_one (W := disk) true (Sync (stream_fd a_pull) [a_file] []) = Ok (true, y')
  /\ moved (stream_fd a_pull) (sy_s y') a_pull reply.
Proof.
  destruct (pull_agrees (OS1 := disk_os) (OS2 := disk_os) true 5 disk_calm (ltac:(lia)) (Client (stream_fd []) [] 0 [])
    (Sync (stream_fd a_pull) [a_file] []) (lit "/h/a") (lit "/x") [a_file] 0 a_reader [] [Inode (Some (lit "/x")) [] 0x1a4 0] 0 a_writer [])
    as (y' & reply & H & Hm & _);
    [vm_compute; set_solver|vm_compute; lia|reflexivity|reflexivity|reflexivity|reflexivity|vm_compute; lia|vm_compute; lia|vm_compute; lia|].
  exists y', reply. split; [exact H|exact Hm].
Defined.

Lemma list_agrees_witness : exists y' reply,
  serve_one (W := disk) true (Sync (stream_fd (list_request (lit "/h"))) [a_file] []) = Ok (true, y')
  /\ moved (stream_fd (list_request (lit "/h"))) (sy_s y') (list_request (lit "/h")) reply.
Proof.
  destruct (list_agrees (W1 := disk) (OS2 := disk_os) true (Client (stream_fd []) [] 0 [])
    (Sync (stream_fd (list_request (lit "/h"))) [a_file] []) (lit "/h") []) as (y' & reply & H & Hm & _);
    [vm_compute; set_solver|vm_compute; lia| |reflexivity|vm_compute; lia|vm_compute; lia|].
  - intros l [= <-]. repeat (constructor; [split; [vm_compute; lia|vm_compute; set_solver]|]). constructor.
  - exists y', reply. split; [exact H|exact Hm].
Defined.

Lemma service_returns_witness : exists y, file_sync_service (W := disk) true (stream_fd a_push) [] = Ok y.
Proof.
  destruct (service_returns (OS := disk_os) true 5 disk_calm) with (fd := stream_fd a_push) (w := @nil inode)
    as [H|(_ & Hu & _)].
  - intros w path l name [= <-] Hin. apply list_elem_of_In in Hin. destruct Hin as [<-|[<-|[]]]; vm_compute; lia.
  - by exists (replicate 300 (Xfer 9)).
  - exact H.
  - exfalso. vm_compute in Hu. discriminate Hu.
Defined.

Lemma negative_size_overruns_witness :
  sync_recv (W := disk) (Client (stream_fd (words [ID_DATA; 2 ^ 32 - 1])) [] 0 []) (lit "/h/a") (lit "/x") = Ub.
Proof.
  apply (negative_size_overruns _ _ _ (2 ^ 32 - 1) [] [] [Inode (Some (lit "/x")) [] 0x1a4 0] 0 a_writer);
    [lia|vm_compute; lia|reflexivity|vm_compute; lia|reflexivity|reflexivity].
Defined.

(** A link whose target does not end in NUL: the service reads behind it. *)
Example link_target_unterminated :
  serve_one (W := disk) true (Sync (stream_fd (words [ID_SEND; 8] ++ lit "/l,40960" ++ msg_data (lit "target") ++ done_msg 0)) [] []) = Ub.
Proof. vm_compute. reflexivity. Qed.

(** A file that the host cannot open is pushed as an empty file, with success. *)
Example missing_file_pushed : exists y' c',
  serve_one (W := disk) true (Sync (stream_fd (words [ID_SEND; 10] ++ lit "/d/a,33188" ++ done_msg 7)) [] []) = Ok (true, y')
  /\ sync_send true (fun _ => 0) (fun _ => true) (Client (W := disk) (stream_fd (io_out (sy_s y'))) [] 0 []) (lit "/h/a") (lit "/d/a") 7 0x81a4 false = Ok (0, c')
  /\ io_out (c_s c') = words [ID_SEND; 10] ++ lit "/d/a,33188" ++ done_msg 7 /\ sy_w y' = [Inode (Some (lit "/d/a")) [] 0x1b6 7].
Proof. eexists _, _. split; [vm_compute; reflexivity|]. split; [vm_compute; reflexivity|]. split; vm_compute; reflexivity. Qed.

End Disk.
