(* ===== verification/AuthKeys.v ===== *)
(** * Authorised keys (adb_auth_client.c, adb_auth_host.c)

    How the host writes a public key, how the device reads the files of
    authorised keys, and the verification of a signature against them.  The
    files are given by their contents; big numbers of OpenSSL are numbers. *)

From S2P Require Import Prelude Cstr Packet Sha Rsa Base64.

(** ** The structure in memory *)

(** [sizeof(RSAPublicKey)] *)
Definition sizeof_key : nat := 524.

(** The words of a structure: [len], [n0inv], [n], [rr], [exponent]; the two
    integers are signed. *)
Definition key_of_bytes (p : bytes) : RSAPublicKey :=
  let W := le_words 131 p in
  MkKey (s32 (word W 0)) (word W 1) (take RSANUMWORDS (drop 2 W)) (take RSANUMWORDS (drop 66 W)) (s32 (word W 130)).
Definition bytes_of_key (key : RSAPublicKey) : bytes :=
  concat (map le32 ([len key; n0inv key] ++ n key ++ rr key ++ [exponent key])).

(** ** Writing a key (adb_auth_host.c) *)

Section Host.
Context (BN_mod_inverse : Z -> Z -> Z).

(** The loop over the words of [n] and [rr], which are divided on the way. *)
Fixpoint key_words (i : nat) (rr n : Z) : list Z * list Z :=
  match i with
  | O => ([], [])
  | S i => let '(rs, ns) := key_words i (rr / 2 ^ 32) (n / 2 ^ 32) in (rr mod 2 ^ 32 :: rs, n mod 2 ^ 32 :: ns)
  end.

(** [size] is [RSA_size], [e] and [modulus] are those of the key. *)
Definition RSA_to_RSAPublicKey (size : nat) (modulus e : Z) : option RSAPublicKey :=
  if bool_decide (size <> RSANUMBYTES) then None
  else
    let r := 2 ^ (Z.of_nat RSANUMWORDS * 32) in
    let rr := (r * r) mod modulus in
    let n0inv := BN_mod_inverse (modulus mod 2 ^ 32) (2 ^ 32) in
    let '(rs, ns) := key_words RSANUMWORDS rr modulus in
    Some (MkKey (Z.of_nat RSANUMWORDS) (u32 (0 - n0inv)) ns rs e).

(** The line that [write_public_keyfile] writes: OpenSSL's base 64 filter,
    without newlines, and who wrote it. *)
Definition public_key_line (base64 : bytes -> bytes) (key : RSAPublicKey) (user_info : bytes) : bytes :=
  base64 (bytes_of_key key) ++ user_info.
End Host.

(** ** Reading the keys (adb_auth_client.c) *)

(** The successive lines that [fgets(buf, 4096, f)] reads. *)
Fixpoint fgets_lines (s line : bytes) : list bytes :=
  match s with
  | [] => if bool_decide (line = []) then [] else [line]
  | b :: s =>
      let line := line ++ [b] in
      if bool_decide (b = Byte.x0a) || bool_decide (Z.of_nat (length line) = MAX_PAYLOAD - 1) then line :: fgets_lines s []
      else fgets_lines s line
  end.

Fixpoint until (stop : byte -> bool) (s : bytes) : bytes :=
  match s with [] => [] | b :: s => if stop b then [] else b :: until stop s end.

(** The body of the loop of [read_keys]: the key of a line, if it holds one. *)
Definition read_key (line : bytes) : option RSAPublicKey :=
  let buf := until (fun b => bool_decide (b = Byte.x00)) line in
  let buf := until (fun b => bool_decide (b = Byte.x20) || bool_decide (b = Byte.x09)) buf in
  match b64_pton buf (repeat Byte.x00 (sizeof_key + 4)) with
  | Some (ret, target) =>
      if bool_decide (ret <> sizeof_key) then None
      else
        let key := key_of_bytes target in
        if bool_decide (len key <> Z.of_nat RSANUMWORDS) then None else Some key
  | None => None
  end.

Definition read_keys (file : bytes) : list RSAPublicKey := omap read_key (fgets_lines file []).

(** The contents of the files of [key_paths] that exist and can be read. *)
Definition load_keys (files : list bytes) : list RSAPublicKey := concat (map read_keys files).

Fixpoint verify_any (ctx : HASH_CTX) (keys : list RSAPublicKey) (sig token : bytes) : res bool :=
  match keys with
  | [] => Ok false
  | key :: keys =>
      let* ret := RSA_verify ctx key sig token in
      if ret then Ok true else verify_any ctx keys sig token
  end.

Definition adb_auth_verify (ctx : HASH_CTX) (files : list bytes) (token sig : bytes) : res bool :=
  if bool_decide (length sig <> RSANUMBYTES) then Ok false
  else verify_any ctx (load_keys files) sig token.

(** * Theorems *)

(** What is written is what is read, also when bytes follow. *)
Lemma key_of_bytes_of_key key rest : length (n key) = RSANUMWORDS -> length (rr key) = RSANUMWORDS ->
  words_in (n key) -> words_in (rr key) -> 0 <= n0inv key < 2 ^ 32 -> 0 <= len key < 2 ^ 31 -> 0 <= exponent key < 2 ^ 31 ->
  key_of_bytes (bytes_of_key key ++ rest) = key /\ length (bytes_of_key key) = sizeof_key.
Proof.
  intros Ln Lr Hn Hr Hi Hl He. destruct key as [kl ki kn kr ke]. cbn [len n0inv n rr exponent] in *.
  unfold bytes_of_key. cbn [len n0inv n rr exponent]. set (W := [kl; ki] ++ kn ++ kr ++ [ke]).
  assert (length W = 131%nat) as LW by (unfold W; rewrite !length_app, Ln, Lr; done).
  assert (words_in W) as HW.
  { unfold W. apply words_in_app. split; [repeat (constructor; [lia|]); constructor|]. apply words_in_app. split; [done|].
    apply words_in_app. split; [done|]. constructor; [lia|constructor]. }
  assert (forall x, 0 <= x < 2 ^ 31 -> s32 x = x) as Hs.
  { intros x Hx. unfold s32. rewrite Z.mod_small; [lia|]. change (2 ^ 32) with (2 * 2 ^ 31). lia. }
  split.
  - unfold key_of_bytes. rewrite le_words_le32 by done.
    assert (word W 0 = kl) as -> by done. assert (word W 1 = ki) as -> by done.
    assert (word W 130 = ke) as ->.
    { unfold word, W. rewrite (app_assoc _ kn), (app_assoc _ kr).
      rewrite app_nth2 by (rewrite !length_app, Ln, Lr; unfold RSANUMWORDS; cbn; lia). by rewrite !length_app, Ln, Lr. }
    assert (take RSANUMWORDS (drop 2 W) = kn) as ->.
    { change (drop 2 W) with (kn ++ kr ++ [ke]). by rewrite take_app_length'. }
    assert (take RSANUMWORDS (drop 66 W) = kr) as ->; [|by rewrite !Hs].
    unfold W. rewrite app_assoc, drop_app_length' by (rewrite length_app, Ln; done). by rewrite take_app_length'.
  - clear -LW. change sizeof_key with (4 * 131)%nat. rewrite <-LW. clear. induction W as [|x l IH]; [done|].
    cbn [map concat length]. rewrite length_app, IH. cbn [length le32]. lia.
Qed.

(** ** The keys of the host *)

Lemma key_words_val i : forall r m, 0 <= r < R i -> 0 <= m < R i ->
  let '(rs, ns) := key_words i r m in
  val rs = r /\ words_in rs /\ length rs = i /\ val ns = m /\ words_in ns /\ length ns = i.
Proof.
  induction i as [|i IH]; intros r m Hr Hm; cbn [key_words].
  { rewrite R_0 in *. split_and!; try constructor; cbn; lia. }
  rewrite R_S in *. specialize (IH (r / 2 ^ 32) (m / 2 ^ 32)).
  destruct (key_words i (r / 2 ^ 32) (m / 2 ^ 32)) as [rs ns].
  assert (forall x, 0 <= x < 2 ^ 32 * R i -> 0 <= x / 2 ^ 32 < R i) as Hd.
  { intros x Hx. split; [apply Z.div_pos; lia|apply Z.div_lt_upper_bound; lia]. }
  destruct IH as (V1 & W1 & L1 & V2 & W2 & L2); [by apply Hd..|]. cbn [val length]. rewrite V1, V2, L1, L2.
  pose proof (Z.div_mod r (2 ^ 32) ltac:(lia)). pose proof (Z.div_mod m (2 ^ 32) ltac:(lia)).
  split_and!; try lia; constructor; try done; apply Z.mod_pos_bound; lia.
Qed.

Lemma key_words_S i r m : exists rs ns, key_words (S i) r m = (rs, m mod 2 ^ 32 :: ns).
Proof. cbn [key_words]. destruct (key_words i (r / 2 ^ 32) (m / 2 ^ 32)). by eexists _, _. Qed.

Section HostKeys.
Context (BN_mod_inverse : Z -> Z -> Z).
(** An odd number has an inverse modulo a power of two, which OpenSSL finds. *)
Hypothesis mod_inverse_odd : forall a, Z.odd a = true -> (BN_mod_inverse a (2 ^ 32) * a) mod 2 ^ 32 = 1.

Lemma to_public_key modulus e : Z.odd modulus = true -> R RSANUMWORDS <= 2 * modulus -> modulus < R RSANUMWORDS ->
  exists key, RSA_to_RSAPublicKey BN_mod_inverse RSANUMBYTES modulus e = Some key
  /\ key_ok key /\ val (n key) = modulus /\ exponent key = e /\ 0 <= n0inv key < 2 ^ 32.
Proof.
  intros Hodd Hlo Hhi. unfold RSA_to_RSAPublicKey. rewrite bool_decide_false by (intros H; by apply H).
  assert (2 ^ (Z.of_nat RSANUMWORDS * 32) = R RSANUMWORDS) as -> by (unfold R; f_equal; lia).
  pose proof (R_pos RSANUMWORDS) as HR.
  pose proof (Z.mod_pos_bound (R RSANUMWORDS * R RSANUMWORDS) modulus ltac:(lia)) as Hrr.
  pose proof (key_words_val RSANUMWORDS ((R RSANUMWORDS * R RSANUMWORDS) mod modulus) modulus ltac:(lia) ltac:(lia)) as H.
  assert (exists rs ns, key_words RSANUMWORDS ((R RSANUMWORDS * R RSANUMWORDS) mod modulus) modulus = (rs, modulus mod 2 ^ 32 :: ns))
    as (rs & ns & E) by apply (key_words_S 63).
  rewrite E in *. destruct H as (V1 & W1 & L1 & V2 & W2 & L2). eexists. split; [done|]. cbn [n rr len n0inv exponent].
  split; [|split; [done|split; [done|apply u32_range]]]. split; cbn [n rr len n0inv]; try done.
  - cbn [word nth]. unfold u32. rewrite Zmult_mod_idemp_l.
    assert (Z.odd (modulus mod 2 ^ 32) = true) as Ho.
    { rewrite <-Z.bit0_odd, Z.mod_pow2_bits_low by lia. by rewrite Z.bit0_odd. }
    pose proof (mod_inverse_odd _ Ho) as Hi. set (i := BN_mod_inverse _ _) in *.
    replace ((0 - i) * (modulus mod 2 ^ 32)) with (- (i * (modulus mod 2 ^ 32))) by ring.
    rewrite Z.mod_opp_l_nz by (rewrite ?Hi; lia). by rewrite Hi.
  - rewrite V1, V2. rewrite Zminus_mod_idemp_l, Z.sub_diag. apply Z.mod_0_l. lia.
  - by rewrite V2.
Qed.

(** C38: The key that the host writes is well-formed, has the modulus and the
    exponent of the private key, and is read back from its bytes. *)
Theorem host_key_ok modulus e : Z.odd modulus = true -> R RSANUMWORDS <= 2 * modulus -> modulus < R RSANUMWORDS ->
  0 <= e < 2 ^ 31 -> exists key, RSA_to_RSAPublicKey BN_mod_inverse RSANUMBYTES modulus e = Some key
  /\ key_ok key /\ val (n key) = modulus /\ exponent key = e /\ key_of_bytes (bytes_of_key key) = key.
Proof.
  intros Hodd Hlo Hhi He. destruct (to_public_key modulus e Hodd Hlo Hhi) as (key & Hk & K & Hv & <- & Hi).
  exists key. split_and!; try done. pose proof K as [Kl [Ln Hn] [Lr Hr] _ _ _].
  destruct (key_of_bytes_of_key key [] Ln Lr Hn Hr Hi) as [H _]; [rewrite Kl; change (Z.of_nat RSANUMWORDS) with 64; lia|done|]. by rewrite app_nil_r in H.
Qed.

End HostKeys.

(** ** The files *)

Lemma fgets_line line rest : forall cur, Byte.x0a ∉ line -> Z.of_nat (length cur + length line) < MAX_PAYLOAD - 1 ->
  fgets_lines (line ++ Byte.x0a :: rest) cur = (cur ++ line ++ [Byte.x0a]) :: fgets_lines rest [].
Proof.
  induction line as [|b line IH]; intros cur Hn Hl; cbn [app fgets_lines].
  - rewrite bool_decide_true by done. done.
  - apply not_elem_of_cons in Hn as [Hb Hn]. cbn [length] in Hl.
    rewrite (bool_decide_false (b = Byte.x0a)) by (by apply not_eq_sym).
    rewrite bool_decide_false by (rewrite length_app; cbn [length]; lia). cbn [orb].
    rewrite IH; [by rewrite <-app_assoc|done|rewrite length_app; cbn [length]; lia].
Qed.

Lemma until_all stop s : Forall (fun b => stop b = false) s -> until stop s = s.
Proof. induction 1 as [|b s Hb _ IH]; [done|]. cbn [until]. by rewrite Hb, IH. Qed.
Lemma until_app stop s b rest : Forall (fun b => stop b = false) s -> stop b = true -> until stop (s ++ b :: rest) = s.
Proof. intros H Hb. induction H as [|x s Hx _ IH]; cbn [app until]; [by rewrite Hb|]. by rewrite Hx, IH. Qed.

Lemma plain_no_blank c : plain c -> bool_decide (c = Byte.x20) || bool_decide (c = Byte.x09) = false.
Proof. intros [Hs _]. apply orb_false_iff. split; apply bool_decide_eq_false; intros ->; vm_compute in Hs; discriminate Hs. Qed.
Lemma plain_no_newline c : plain c -> c <> Byte.x0a.
Proof. intros [Hs _] ->. vm_compute in Hs. discriminate Hs. Qed.

(** *** The format of the files, independently of the reader *)

(** A key that fits its structure, and its text: the encoding, alone or with a
    blank and a comment behind it. *)
Definition storable (key : RSAPublicKey) : Prop := len key = Z.of_nat RSANUMWORDS
  /\ length (n key) = RSANUMWORDS /\ length (rr key) = RSANUMWORDS /\ words_in (n key) /\ words_in (rr key)
  /\ 0 <= n0inv key < 2 ^ 32 /\ 0 <= exponent key < 2 ^ 31.
Definition key_text (key : RSAPublicKey) (t : bytes) : Prop := storable key /\
  exists targsize text note, b64_ntop (bytes_of_key key) targsize = Some text /\ t = text ++ note
  /\ Byte.x0a ∉ note /\ Byte.x00 ∉ note /\ Z.of_nat (length note) <= 3000
  /\ (note = [] \/ exists blank info, note = blank :: info /\ (blank = Byte.x20 \/ blank = Byte.x09)).

(** A line: a key; a remark, whose first character is none of the alphabet (a
    [#], say, or a blank); or nothing. *)
Inductive line_text : list RSAPublicKey -> bytes -> Prop :=
  | KeyLine key t : key_text key t -> line_text [key] t
  | Remark c t : c ∉ Base64 -> (is_space c = true -> c = Byte.x20 \/ c = Byte.x09) -> Byte.x0a ∉ t -> Z.of_nat (length t) <= 4000 -> line_text [] (c :: t)
  | EmptyLine : line_text [] [].

(** A file, whose last line may lack its newline, and its keys. *)
Inductive key_file : list RSAPublicKey -> bytes -> Prop :=
  | LastLine keys t : line_text keys t -> key_file keys t
  | OneLine keys t keys' rest : line_text keys t -> key_file keys' rest ->
      key_file (keys ++ keys') (t ++ Byte.x0a :: rest).

Lemma key_text_sizes key t : key_text key t -> t <> [] /\ Byte.x0a ∉ t /\ Z.of_nat (length t) <= 4000.
Proof.
  intros ((Kl & Ln & Lr & Hn & Hr & Hi & He) & ts & text & note & Ht & -> & Hnl & Hnul & Hlen & _).
  destruct (ntop_text _ _ _ Ht) as (_ & Hp & Hl).
  destruct (key_of_bytes_of_key key [] Ln Lr Hn Hr Hi) as [_ Lk]; [rewrite Kl; change (Z.of_nat RSANUMWORDS) with 64; lia|done|].
  rewrite Lk in Hl. change (4 * ((sizeof_key + 2) / 3))%nat with 700%nat in Hl.
  split_and!; [intros E; apply (f_equal length) in E; rewrite length_app in E; cbn [length] in E; lia| |rewrite length_app; lia].
  rewrite not_elem_of_app. split; [|done]. intros Hin. apply (proj1 (Forall_forall _ _) Hp) in Hin. by apply plain_no_newline in Hin.
Qed.

(** The reader's view of the text of a key, with or without its newline. *)
Lemma read_key_text key t : key_text key t -> read_key t = Some key /\ read_key (t ++ [Byte.x0a]) = Some key.
Proof.
  intros ((Kl & Ln & Lr & Hn & Hr & Hi & He) & ts & text & note & Ht & -> & Hnl & Hnul & Hlen & Hnote).
  destruct (ntop_text _ _ _ Ht) as (D & Hp & Hl).
  destruct (key_of_bytes_of_key key [] Ln Lr Hn Hr Hi) as [_ Lk]; [rewrite Kl; change (Z.of_nat RSANUMWORDS) with 64; lia|done|].
  destruct (D [] (repeat Byte.x00 (sizeof_key + 4))) as (r & Hpton & _).
  { rewrite repeat_length, Lk. unfold room. case_bool_decide; lia. }
  cbn [app length Nat.add] in Hpton. rewrite Lk in Hpton.
  assert (forall buf, strip buf = text -> match b64_pton buf (repeat Byte.x00 (sizeof_key + 4)) with
    | Some (ret, target) => if bool_decide (ret <> sizeof_key) then None else
        if bool_decide (len (key_of_bytes target) <> Z.of_nat RSANUMWORDS) then None else Some (key_of_bytes target)
    | None => None end = Some key) as Hdec.
  { intros buf Hs. unfold b64_pton. rewrite <-pton_strip, Hs, Hpton, bool_decide_false by (intros H; by apply H).
    destruct (key_of_bytes_of_key key r Ln Lr Hn Hr Hi) as [-> _]; [rewrite Kl; change (Z.of_nat RSANUMWORDS) with 64; lia|done|].
    by rewrite bool_decide_false by (intros H; by apply H). }
  assert (Forall (fun c => bool_decide (c = Byte.x00) = false) (text ++ note)) as Hz.
  { apply Forall_app. split; [eapply Forall_impl; [exact Hp|]; intros c [_ Hc]; by apply bool_decide_eq_false|].
    apply Forall_forall. intros c Hc. apply bool_decide_eq_false. by intros ->. }
  assert (Forall (fun c => bool_decide (c = Byte.x20) || bool_decide (c = Byte.x09) = false) text) as Hb
    by (eapply Forall_impl; [exact Hp|apply plain_no_blank]).
  unfold read_key. rewrite (until_all _ (text ++ note)) by done.
  rewrite (until_all _ ((text ++ note) ++ [Byte.x0a])) by (apply Forall_app; split; [done|by repeat constructor]).
  split; apply Hdec; destruct Hnote as [-> |(blank & info & -> & Hblank)].
  - rewrite app_nil_r, until_all by done. by apply strip_plain.
  - rewrite until_app; [by apply strip_plain|done|by destruct Hblank as [-> | ->]].
  - rewrite app_nil_r, until_all by (apply Forall_app; split; [done|by repeat constructor]).
    unfold strip. rewrite filter_app. fold (strip text). rewrite strip_plain by done. apply app_nil_r.
  - rewrite <-app_assoc. cbn [app]. rewrite until_app; [by apply strip_plain|done|by destruct Hblank as [-> | ->]].
Qed.

Lemma index_from_none s ch : forall k, ch ∉ s -> index_from k s ch = None.
Proof.
  induction s as [|b s IH]; intros k Hn; [done|]. apply not_elem_of_cons in Hn as [Hb Hn]. cbn [index_from].
  rewrite bool_decide_false by congruence. by apply IH.
Qed.

Lemma read_remark c t : c ∉ Base64 -> (is_space c = true -> c = Byte.x20 \/ c = Byte.x09) -> read_key (c :: t) = None.
Proof.
  intros Hc Hs. unfold read_key. cbn [until].
  destruct (bool_decide (c = Byte.x00)); [reflexivity|]. cbn [until].
  destruct (bool_decide (c = Byte.x20) || bool_decide (c = Byte.x09)) eqn:Eb; [reflexivity|].
  apply orb_false_iff in Eb as [E1%bool_decide_eq_false E2%bool_decide_eq_false].
  unfold b64_pton. cbn [b64_pton_loop]. destruct (is_space c); [by destruct Hs|].
  case_bool_decide; [reflexivity|]. unfold base64_index. by rewrite index_from_none.
Qed.

(** What the reader makes of each kind of line, with or without its newline. *)
Lemma read_text keys t : line_text keys t -> Byte.x0a ∉ t /\ Z.of_nat (length t) <= 4001
  /\ (t <> [] -> omap read_key [t] = keys) /\ (t = [] -> keys = []) /\ omap read_key [t ++ [Byte.x0a]] = keys.
Proof.
  intros [key t0 Hk|c t0 Hc Hs Hn Hl|]; cbn [omap list_omap].
  - destruct (key_text_sizes _ _ Hk) as (Hne & Hn & Hl). destruct (read_key_text _ _ Hk) as [-> ->].
    split_and!; [done|lia|done|done|done].
  - cbn [app]. rewrite !read_remark by done. split_and!; try done; [|cbn [length]; lia].
    apply not_elem_of_cons. split; [|done]. intros <-. by destruct Hs.
  - split_and!; try done; first [apply not_elem_of_nil|reflexivity].
Qed.

Lemma fgets_last t : forall cur, Byte.x0a ∉ t -> Z.of_nat (length cur + length t) < MAX_PAYLOAD - 1 ->
  fgets_lines t cur = if bool_decide (cur ++ t = []) then [] else [cur ++ t].
Proof.
  induction t as [|b t IH]; intros cur Hn Hl; cbn [fgets_lines]; [by rewrite app_nil_r|].
  apply not_elem_of_cons in Hn as [Hb Hn]. cbn [length] in Hl.
  rewrite (bool_decide_false (b = Byte.x0a)) by (by apply not_eq_sym).
  rewrite bool_decide_false by (rewrite length_app; cbn [length]; lia). cbn [orb].
  rewrite IH; [by rewrite <-app_assoc|done|rewrite length_app; cbn [length]; lia].
Qed.

(** The reader finds the keys of a file, in order. *)
Lemma key_file_read keys file : key_file keys file -> read_keys file = keys.
Proof.
  unfold read_keys. induction 1 as [keys t Ht|keys t keys' rest Ht _ IH];
    destruct (read_text _ _ Ht) as (Hn & Hl & Hr & He & Hr').
  - rewrite fgets_last by (cbn [length]; unfold MAX_PAYLOAD; first [done|lia]). cbn [app].
    case_bool_decide as E; [by rewrite (He E)|by apply Hr].
  - rewrite fgets_line by (cbn [length]; unfold MAX_PAYLOAD; first [done|lia]). cbn [app].
    change ((t ++ [Byte.x0a]) :: fgets_lines rest []) with ([t ++ [Byte.x0a]] ++ fgets_lines rest []).
    rewrite omap_app, Hr', IH. done.
Qed.

Lemma key_files_load keys files : Forall2 key_file keys files -> load_keys files = concat keys.
Proof.
  unfold load_keys. induction 1 as [|k f keys files Hk _ IH]; [done|]. cbn [map concat]. by rewrite (key_file_read _ _ Hk), IH.
Qed.

(** ** Verification *)

Lemma verify_any_ok ctx keys sig token : context ctx -> exists b, verify_any ctx keys sig token = Ok b
  /\ (b = true <-> exists key, key ∈ keys /\ RSA_verify ctx key sig token = Ok true).
Proof.
  intros Hc. induction keys as [|key keys (b & Hb & IH)]; cbn [verify_any].
  - exists false. split; [done|]. split; [done|]. by intros (key & ?%elem_of_nil & _).
  - destruct (verify_total ctx key sig token Hc) as [v Hv]. rewrite Hv. cbn [res_bind]. destruct v.
    + exists true. split; [done|]. split; [|done]. intros _. exists key. split; [by left|done].
    + exists b. split; [done|]. rewrite IH. split.
      * intros (k & Hk & H). exists k. split; [by right|done].
      * intros (k & [->|Hk]%elem_of_cons & H); [congruence|]. by exists k.
Qed.

(** C13: whatever keys and remarks the files hold, [adb_auth_verify] answers for
    every signature, and accepts it exactly when it has the length of one and
    [RSA_verify] accepts it with some key of the files; with a well-formed key,
    that is when the key has signed the token, unless SHA-1 is broken. *)
Theorem auth_verify_spec ctx files keys token sig : context ctx -> length token = 20%nat ->
  Forall2 key_file keys files ->
  (exists b, adb_auth_verify ctx files token sig = Ok b /\
    (b = true <-> length sig = RSANUMBYTES /\ exists key, key ∈ concat keys /\ RSA_verify ctx key sig token = Ok true)) /\
  (forall key, length sig = RSANUMBYTES -> RSA_verify ctx key sig token = Ok true ->
     len key = Z.of_nat RSANUMWORDS /\ (exponent key = 3 \/ exponent key = 65537)) /\
  (forall key, length sig = RSANUMBYTES -> key_ok key -> exponent key = 3 \/ exponent key = 65537 ->
     (signed key sig token -> RSA_verify ctx key sig token = Ok true) /\
     (RSA_verify ctx key sig token = Ok true ->
        signed key sig token \/ second_preimage 20 (encoded (repeat Byte.x00 20)))).
Proof.
  intros Hc Ht Hf. split; [|split].
  - unfold adb_auth_verify. rewrite (key_files_load _ _ Hf). case_bool_decide as Hl.
    + exists false. split; [done|]. split; [done|]. by intros [? _].
    + assert (length sig = RSANUMBYTES) as Hl' by (by destruct (decide (length sig = RSANUMBYTES))).
      destruct (verify_any_ok ctx (concat keys) sig token Hc) as (b & Hb & Hk). exists b. split; [done|].
      rewrite Hk. split; [done|by intros [_ ?]].
  - intros key Hl Hv. split.
    + destruct (decide (len key = Z.of_nat RSANUMWORDS)); [done|]. by rewrite verify_refuses in Hv by auto.
    + destruct (decide (exponent key = 3)); [by left|]. destruct (decide (exponent key = 65537)); [by right|].
      by rewrite verify_refuses in Hv by auto.
  - intros key Hl K He. destruct (verify_exact ctx key sig token Hc K He Hl (or_introl Ht)) as (v & -> & Hv1 & Hv2).
    rewrite Ht in Hv2. split; [intros Hs; by rewrite Hv1|]. intros [= ->]. auto.
Qed.

(** *** The key of Rsa.v in a file *)

(** Newton's iteration: an inverse modulo [2 ^ 48]. *)
Definition newton (a x : Z) : Z := x * (2 - a * x).
Definition an_inverse (a m : Z) : Z := Nat.iter 4 (newton a) a mod m.

Lemma newton_doubles a x k : 0 <= k -> (2 ^ k | 1 - a * x) -> (2 ^ (2 * k) | 1 - a * newton a x).
Proof.
  intros Hk [q Hq]. exists (q * q). unfold newton.
  replace (1 - a * (x * (2 - a * x))) with ((1 - a * x) * (1 - a * x)) by ring.
  rewrite Hq. replace (2 * k) with (k + k) by lia. rewrite Z.pow_add_r by lia. ring.
Qed.

Lemma an_inverse_ok a : Z.odd a = true -> (an_inverse a (2 ^ 32) * a) mod 2 ^ 32 = 1.
Proof.
  intros Ho. unfold an_inverse. rewrite Zmult_mod_idemp_l.
  assert (2 ^ 3 | 1 - a * a) as H0.
  { apply Z.odd_spec in Ho as [j ->]. destruct (Z.Even_or_Odd j) as [[i ->]|[i ->]].
    - exists (- (2 * i * i + i)). lia.
    - exists (- (2 * i * i + 3 * i + 1)). lia. }
  pose proof (newton_doubles a _ 24 ltac:(lia) (newton_doubles a _ 12 ltac:(lia) (newton_doubles a _ 6 ltac:(lia)
    (newton_doubles a _ 3 ltac:(lia) H0)))) as [q Hq].
  change (newton a (newton a (newton a (newton a a)))) with (Nat.iter 4 (newton a) a) in Hq. set (x := Nat.iter 4 (newton a) a) in *.
  replace (x * a) with (1 + (- q * 2 ^ 16) * 2 ^ 32) by (change (2 ^ (2 * 24)) with (2 ^ 16 * 2 ^ 32) in Hq; lia).
  by rewrite Z.mod_add by lia.
Qed.

Lemma host_key_ok_witness : exists key, RSA_to_RSAPublicKey an_inverse RSANUMBYTES a_modulus 3 = Some key
  /\ key_ok key /\ val (n key) = a_modulus.
Proof.
  pose proof (host_key_ok an_inverse an_inverse_ok a_modulus 3 ltac:(vm_compute; reflexivity)
    ltac:(apply Z.leb_le; vm_compute; reflexivity) ltac:(apply Z.ltb_lt; vm_compute; reflexivity) ltac:(lia))
    as (key & H1 & H2 & H3 & _). exists key. exact (conj H1 (conj H2 H3)).
Defined.

Definition a_line : bytes :=
  default [] (b64_ntop (bytes_of_key a_key) 701) ++ Byte.x20 :: lit "user@host".

Lemma a_line_ok : key_text a_key a_line.
Proof.
  split.
  - split_and!; [reflexivity..|apply words_of_in|apply words_of_in|vm_compute; discriminate|vm_compute; reflexivity|cbn; lia|cbn; lia].
  - exists 701%nat, (default [] (b64_ntop (bytes_of_key a_key) 701)), (Byte.x20 :: lit "user@host").
    split_and!; [vm_compute; reflexivity|reflexivity|apply (bool_decide_eq_false _); vm_compute; reflexivity..| |].
    + vm_compute. discriminate.
    + right. exists Byte.x20, (lit "user@host"). split; [done|]. by left.
Qed.

(** A remark, an empty line, and the key in a line without an end. *)
Definition a_file : bytes := lit "# keys" ++ Byte.x0a :: [] ++ Byte.x0a :: a_line.

Lemma a_file_ok : Forall2 key_file [[a_key]] [a_file].
Proof.
  constructor; [|constructor]. apply (OneLine [] (lit "# keys")).
  { apply (Remark Byte.x23 (lit " keys")); [apply (bool_decide_eq_false _); vm_compute; reflexivity|done| |vm_compute; discriminate].
    apply (bool_decide_eq_false _). vm_compute. reflexivity. }
  apply (OneLine [] []); [constructor|]. apply LastLine. constructor. exact a_line_ok.
Qed.

Lemma a_signature_signed : signed a_key a_signature a_hash.
Proof. unfold signed. vm_compute. reflexivity. Qed.

Lemma auth_verify_spec_witness : length a_hash = 20%nat /\ exists b,
  adb_auth_verify stale_ctx [a_file] a_hash a_signature = Ok b /\ b = true.
Proof.
  split; [reflexivity|].
  pose proof (auth_verify_spec stale_ctx [a_file] [[a_key]] a_hash a_signature (conj eq_refl eq_refl) eq_refl a_file_ok)
    as ((b & H1 & H2) & _ & H3).
  exists b. split; [exact H1|]. apply H2. split; [reflexivity|]. exists a_key. split; [by left|].
  apply (H3 a_key eq_refl a_key_ok (or_introl eq_refl)), a_signature_signed.
Defined.
