(* ===== verification/AuthClient.v ===== *)
(** * Asking the user for a key (adb_auth_client.c)

    A device that does not know a key hands it to the framework, over a socket
    on which the framework answers.  The state of the file is one connection to
    the framework, one transport, and whether its key must be asked for again;
    the events are those of fdevent.c behind its interface.

    The calls into adb.c ([send_auth_request], [adb_auth_verified]) and the
    messages to the framework are recorded in the order they are made. *)

From S2P Require Import Prelude Cstr Rwx Packet Fdevent.

Inductive auth_func := adb_auth_event | adb_auth_listener.

Inductive action :=
  | PublicKey (fd : Z) (msg : bytes)   (* unix_write(framework_fd, "PK...") *)
  | AuthRequest (t : addr)             (* send_auth_request(t) *)
  | AuthVerified (t : addr).           (* adb_auth_verified(t) *)

Section AuthClient.
Context {E : Type} {I : FdEvents E auth_func}.
(** The addresses of [listener_fde] and of [t->auth_fde]. *)
Context (listener_fde : addr) (auth_fde : addr -> addr).

(** [a_disconnect] is the transport in whose list of callbacks the static
    [usb_disconnect] is. *)
Record auth_state := AuthState {
  framework_fd : Z;
  usb_transport : option addr;
  needs_retry : bool;
  a_disconnect : option addr;
  a_ev : E;
  a_log : list action
}.
Implicit Types (st : auth_state) (t : addr).

Definition with_usb (t : option addr) (st : auth_state) : auth_state :=
  AuthState (framework_fd st) t (needs_retry st) t (a_ev st) (a_log st).
Definition with_retry (b : bool) (st : auth_state) : auth_state :=
  AuthState (framework_fd st) (usb_transport st) b (a_disconnect st) (a_ev st) (a_log st).
Definition with_framework (fd : Z) (st : auth_state) : auth_state :=
  AuthState fd (usb_transport st) (needs_retry st) (a_disconnect st) (a_ev st) (a_log st).
Definition with_events (e : E) (st : auth_state) : auth_state :=
  AuthState (framework_fd st) (usb_transport st) (needs_retry st) (a_disconnect st) e (a_log st).
Definition log (x : action) (st : auth_state) : auth_state :=
  AuthState (framework_fd st) (usb_transport st) (needs_retry st) (a_disconnect st) (a_ev st) (a_log st ++ [x]).

(** [adb_auth_init]: the control socket is [fd], or there is none. *)
Definition adb_auth_init (fd : Z) (listens : bool) (st : auth_state) : res auth_state :=
  if bool_decide (fd < 0) then Ok st
  else if negb listens then Ok st
  else
    let* e := ev_install (a_ev st) listener_fde fd adb_auth_listener 0%nat in
    let* e := ev_add (F := auth_func) e listener_fde FDE_READ in
    Ok (with_events e st).

(** [written] tells whether the framework takes the message. *)
Definition adb_auth_confirm_key (key : bytes) (t : addr) (written : bool) (st : auth_state) : res auth_state :=
  let st := match usb_transport st with None => with_usb (Some t) st | Some _ => st end in
  if bool_decide (framework_fd st < 0) then Ok (with_retry true st)
  else
    match last key with
    | None => Ub
    | Some c =>
        if bool_decide (c <> Byte.x00) then Ok st
        else
          let* s := c_string key in
          let msg := lit "PK" ++ s in
          if bool_decide (Z.of_nat (length msg) >= MAX_PAYLOAD) then Ok st
          else if negb written then Ok st
          else
            let st := log (PublicKey (framework_fd st) msg) st in
            let* e := ev_install (a_ev st) (auth_fde t) (framework_fd st) adb_auth_event t in
            let* e := ev_add (F := auth_func) e (auth_fde t) FDE_READ in
            Ok (with_events e st)
    end.

(** The event of the connection to the framework; [g] is what [unix_read] of
    two bytes gives. *)
Definition auth_event (events : Z) (g : got) (st : auth_state) : res auth_state :=
  if has events FDE_READ then
    match g with
    | RErr _ =>
        let* st :=
          (match usb_transport st with
           | Some t => let* e := ev_remove (F := auth_func) (a_ev st) (auth_fde t) in Ok (with_events e st)
           | None => Ok st
           end) in
        Ok (with_framework (-1) st)
    | RGot response =>
        if bool_decide (response = lit "OK") then
          match usb_transport st with Some t => Ok (log (AuthVerified t) st) | None => Ok st end
        else Ok st
    end
  else Ok st.

(** The event of the listener; [s] is what [adb_socket_accept] gives. *)
Definition auth_listener (s : Z) (st : auth_state) : res auth_state :=
  if bool_decide (s < 0) then Ok st
  else
    let st := with_framework s st in
    if needs_retry st then
      let st := with_retry false st in
      let* t := access (usb_transport st) in
      Ok (log (AuthRequest t) st)
    else Ok st.

(** The callback of the transport. *)
Definition usb_disconnected (st : auth_state) : res auth_state :=
  let* _ := access (usb_transport st) in
  Ok (with_retry false (with_usb None st)).

(** ** Runs *)

(** The transport [t] can go away when the callback is in its list. *)
Inductive auth_step st : auth_state -> Prop :=
  | step_confirm key t written st' : adb_auth_confirm_key key t written st = Ok st' -> auth_step st st'
  | step_answer events g st' : auth_event events g st = Ok st' -> auth_step st st'
  | step_accept s st' : auth_listener s st = Ok st' -> auth_step st st'.
Inductive auth_run st : auth_state -> Prop :=
  | run_refl : auth_run st st
  | run_step st1 st2 : auth_run st st1 -> auth_step st1 st2 -> auth_run st st2
  | run_disconnect st1 t st2 : auth_run st st1 -> a_disconnect st1 = Some t -> usb_disconnected st1 = Ok st2 -> auth_run st st2.

(** Runs during which the transport stays. *)
Definition stays : auth_state -> auth_state -> Prop := rtc auth_step.

(** The state of the file at the start. *)
Definition auth_start (e : E) : auth_state := AuthState (-1) None false None e [].

(** A transport is waiting, and its list of callbacks holds ours. *)
Record auth_ok st : Prop := AuthOk {
  ao_disconnect : a_disconnect st = usb_transport st;
  ao_retry : needs_retry st = true -> usb_transport st <> None
}.

(** * Theorems *)

Lemma confirm_cases key t written st st' : adb_auth_confirm_key key t written st = Ok st' ->
  exists u, usb_transport st' = Some u /\ (forall v, usb_transport st = Some v -> u = v) /\
  (a_disconnect st = usb_transport st -> a_disconnect st' = usb_transport st') /\
  (exists l, a_log st' = a_log st ++ l /\ Forall (fun x => exists fd m, x = PublicKey fd m) l) /\
  framework_fd st' = framework_fd st /\ needs_retry st' = needs_retry st || bool_decide (framework_fd st < 0).
Proof.
  unfold adb_auth_confirm_key. set (st1 := match usb_transport st with None => _ | Some _ => st end).
  assert (exists u, usb_transport st1 = Some u /\ (forall v, usb_transport st = Some v -> u = v)
    /\ (a_disconnect st = usb_transport st -> a_disconnect st1 = usb_transport st1) /\ a_log st1 = a_log st
    /\ framework_fd st1 = framework_fd st /\ needs_retry st1 = needs_retry st) as (u & Hu & Hv & Hd & Hl & Hf & Hr).
  { unfold st1. destruct (usb_transport st) as [v|] eqn:Hv; [exists v|exists t]; split_and!; cbn; congruence. }
  clearbody st1. intros H. rewrite Hf in H. exists u.
  assert (exists l, a_log st = a_log st ++ l /\ Forall (fun x => exists fd m, x = PublicKey fd m) l) as Hnil.
  { exists []. split; [by rewrite app_nil_r|constructor]. }
  case_bool_decide as Hneg.
  - injection H as <-. cbn. rewrite orb_true_r. by rewrite Hl.
  - rewrite orb_false_r. destruct (last key) as [c|]; [|done]. case_bool_decide; [injection H as <-; by rewrite Hl|].
    apply res_bind_ok in H as (s & _ & H). case_bool_decide; [injection H as <-; by rewrite Hl|].
    destruct written; cbn [negb] in H; [|injection H as <-; by rewrite Hl].
    apply res_bind_ok in H as (e1 & _ & H). apply res_bind_ok in H as (e2 & _ & H). injection H as <-. cbn. rewrite Hl.
    split_and!; try done. eexists. split; [done|]. constructor; [by eexists _, _|constructor].
Qed.

Lemma answer_cases events g st st' : auth_event events g st = Ok st' ->
  usb_transport st' = usb_transport st /\ a_disconnect st' = a_disconnect st /\ needs_retry st' = needs_retry st
  /\ exists l, a_log st' = a_log st ++ l /\ forall t, AuthRequest t ∉ l.
Proof.
  assert (exists l, a_log st = a_log st ++ l /\ forall t, AuthRequest t ∉ l) as Hnil.
  { exists []. split; [by rewrite app_nil_r|]. intros t ?%elem_of_nil. done. }
  unfold auth_event. destruct (has events FDE_READ); [|by intros [= <-]]. destruct g as [response|e].
  - case_bool_decide; [|by intros [= <-]]. destruct (usb_transport st) as [t|] eqn:Ht; intros [= <-]; cbn; [|by rewrite Ht].
    split_and!; try done. exists [AuthVerified t]. split; [done|]. intros u Hu%list_elem_of_singleton. discriminate Hu.
  - intros H. apply res_bind_ok in H as (st1 & H1 & H). injection H as <-. cbn.
    destruct (usb_transport st) as [t|] eqn:Ht; [apply res_bind_ok in H1 as (e' & _ & H1)|]; injection H1 as <-; cbn; by rewrite Ht.
Qed.

Lemma accept_ok s st : auth_ok st -> 0 <= s -> exists st', auth_listener s st = Ok st' /\ framework_fd st' = s
  /\ usb_transport st' = usb_transport st /\ a_disconnect st' = a_disconnect st /\ needs_retry st' = false
  /\ a_log st' = a_log st ++ (if needs_retry st then match usb_transport st with Some t => [AuthRequest t] | None => [] end else []).
Proof.
  intros [Hd Hr] Hs. unfold auth_listener. rewrite bool_decide_false by lia. cbn [with_framework needs_retry usb_transport].
  destruct (needs_retry st) eqn:Hn.
  - destruct (usb_transport st) as [t|] eqn:Ht; [|by destruct (Hr eq_refl)]. cbn. rewrite Ht. cbn. eexists. split; [done|]. cbn. by rewrite Ht.
  - eexists. split; [done|]. cbn. by rewrite Hn, app_nil_r.
Qed.

Lemma step_keeps st st' : auth_ok st -> auth_step st st' -> auth_ok st'.
Proof.
  intros O [key t written st1 H|events g st1 H|s st1 H].
  - apply confirm_cases in H as (u & Hu & _ & Hd & _). split; [by apply Hd, O|]. by rewrite Hu.
  - apply answer_cases in H as (Hu & Hd & Hn & _). destruct O as [O1 O2]. split; [congruence|]. by rewrite Hn, Hu.
  - destruct (decide (s < 0)) as [Hneg|Hpos].
    + unfold auth_listener in H. rewrite bool_decide_true in H by done. by injection H as <-.
    + destruct (accept_ok s st O ltac:(lia)) as (st2 & H2 & _ & Hu & Hd & Hn & _). rewrite H in H2. injection H2 as <-.
      destruct O. split; [congruence|by rewrite Hn].
Qed.

Lemma start_ok e : auth_ok (auth_start e).
Proof. by split. Qed.

Lemma run_keeps st st' : auth_ok st -> auth_run st st' -> auth_ok st'.
Proof.
  intros O. induction 1 as [|st1 st2 _ IH Hs|st1 t st2 _ IH Ht Hd]; [done|by eapply step_keeps|].
  unfold usb_disconnected in Hd. apply res_bind_ok in Hd as (u & _ & Hd). by injection Hd as <-.
Qed.

(** Whatever keys, answers, connections and disconnections come in whatever
    order, the null pointer [usb_transport] is never followed: accepting a
    connection of the framework returns with no retry left to do, and the
    disconnection of the transport that is asked about returns with none. *)
Theorem auth_client_safe e st : auth_run (auth_start e) st ->
  auth_ok st
  /\ (forall s, exists st', auth_listener s st = Ok st' /\ (0 <= s -> framework_fd st' = s /\ needs_retry st' = false))
  /\ (forall t, a_disconnect st = Some t -> exists st', usb_disconnected st = Ok st' /\ usb_transport st' = None).
Proof.
  intros R. pose proof (run_keeps _ _ (start_ok e) R) as O. split; [done|]. split.
  - intros s. destruct (decide (s < 0)) as [Hneg|Hpos].
    + exists st. unfold auth_listener. rewrite bool_decide_true by done. split; [done|lia].
    + destruct (accept_ok s st O ltac:(lia)) as (st' & H & Hf & _ & _ & Hn & _). by exists st'.
  - intros t Ht. unfold usb_disconnected. rewrite <-(ao_disconnect _ O), Ht. eexists. by split.
Qed.

(** What a step does when the transport [u] is asked about. *)
Lemma step_waits st st' u : auth_ok st -> auth_step st st' -> usb_transport st = Some u ->
  usb_transport st' = Some u /\ exists l, a_log st' = a_log st ++ l
  /\ (needs_retry st = true -> needs_retry st' = true \/ AuthRequest u ∈ l).
Proof.
  intros O [key t written st1 H|events g st1 H|s st1 H] Hu.
  - apply confirm_cases in H as (v & Hv & Hsame & _ & (l & Hl & _) & _ & Hr).
    rewrite Hv, (Hsame u Hu). split; [done|]. exists l. split; [done|]. intros Hn. left. by rewrite Hr, Hn.
  - apply answer_cases in H as (Hv & _ & Hr & l & Hl & _). rewrite Hv, Hr. split; [done|]. exists l. auto.
  - destruct (decide (s < 0)) as [Hneg|Hpos].
    + unfold auth_listener in H. rewrite bool_decide_true in H by done. injection H as <-.
      split; [done|]. exists []. rewrite app_nil_r. auto.
    + destruct (accept_ok s st O ltac:(lia)) as (st2 & H2 & _ & Hv & _ & _ & Hl). rewrite H in H2. injection H2 as <-.
      rewrite Hv, Hl, Hu. split; [done|]. eexists. split; [done|]. intros ->. right. by apply list_elem_of_singleton.
Qed.

Lemma stays_waits st st' u : stays st st' -> auth_ok st -> usb_transport st = Some u -> needs_retry st = true ->
  auth_ok st' /\ usb_transport st' = Some u /\ exists l, a_log st' = a_log st ++ l
  /\ (needs_retry st' = true \/ AuthRequest u ∈ l).
Proof.
  intros Hrun O Hu Hn. revert Hrun. apply (rtc_ind_r (fun st' => auth_ok st' /\ usb_transport st' = Some u
    /\ exists l, a_log st' = a_log st ++ l /\ (needs_retry st' = true \/ AuthRequest u ∈ l)) st).
  - split; [done|]. split; [done|]. exists []. rewrite app_nil_r. auto.
  - intros st1 st2 _ Hstep (O1 & Hu1 & l1 & Hl1 & Hor). split; [by eapply step_keeps|].
    destruct (step_waits _ _ u O1 Hstep Hu1) as (Hu2 & l2 & Hl2 & Hor2). split; [done|].
    exists (l1 ++ l2). rewrite Hl2, Hl1, app_assoc. split; [done|]. rewrite elem_of_app. naive_solver.
Qed.


End AuthClient.

(** ** Runs *)

Section Examples.
#[local] Existing Instance fdevents.
Abbreviation E := (fdstate auth_func).
Let key t := lit (if decide (t = 1)%nat then "AAAA" else "BBBB") ++ [Byte.x00].
Let confirm t (st : auth_state (E := E)) := ok_or st (adb_auth_confirm_key (fun u => 100 + u)%nat (key t) t true st).
Let listen (st : auth_state (E := E)) := ok_or st (auth_listener 20 st).
Let answer (st : auth_state (E := E)) g := ok_or st (auth_event (fun u => 100 + u)%nat FDE_READ g st).


Lemma auth_client_safe_witness :
  let st := confirm 1 (listen (auth_start fd_start)) in
  auth_ok st
  /\ (forall s, exists st', auth_listener s st = Ok st' /\ (0 <= s -> framework_fd st' = s /\ needs_retry st' = false))
  /\ (forall t, a_disconnect st = Some t -> exists st', usb_disconnected st = Ok st' /\ usb_transport st' = None).
Proof.
  cbv zeta. apply (auth_client_safe (fun u => 100 + u)%nat fd_start).
  apply (run_step _ _ (listen (auth_start fd_start))); [apply (run_step _ _ (auth_start fd_start)); [apply run_refl|]|].
  - apply (step_accept _ _ 20). vm_compute. reflexivity.
  - apply (step_confirm _ _ (key 1%nat) 1 true). vm_compute. reflexivity.
Defined.

(** The user is shown the key of the transport 2 and accepts it: the transport
    1, whose key the user did not accept, is the one that is let in. *)
Theorem other_transport_verified :
  let st := confirm 2 (confirm 1 (listen (auth_start fd_start))) in
  a_log st = [PublicKey 20 (lit "PKAAAA"); PublicKey 20 (lit "PKBBBB")]
  /\ a_log (answer st (RGot (lit "OK"))) = a_log st ++ [AuthVerified 1].
Proof. vm_compute. auto. Qed.

(** The framework closes its end: the read of no bytes is ignored, and the
    event stays in the set the loop waits on, ready for ever. *)
Theorem closed_framework_kept :
  let st := confirm 1 (listen (auth_start fd_start)) in
  answer st (RGot []) = st /\ framework_fd st = 20 /\ 20 ∈ fs_read (a_ev st).
Proof. vm_compute. auto. Qed.

(** The transport goes away: its event, in memory that is about to be freed,
    stays registered, and is the one found for the descriptor. *)
Theorem event_left_registered :
  let st := confirm 1 (listen (auth_start fd_start)) in
  let st' := ok_or st (usb_disconnected st) in
  usb_transport st' = None /\ ev_interest (a_ev st') 101%nat = Some FDE_READ
  /\ table_get (a_ev st') 20 = Ok (Ptr 101).
Proof. vm_compute. auto. Qed.

End Examples.
