(* ===== verification/World.v ===== *)
(** * The state of the daemon

    The memory that the components share: sockets, transports, the two rings of
    sockets, the descriptors, and the event loop behind its interface
    [FdEvents].  Objects are found by address; an access to an address that
    holds no object, because it was freed or never allocated, is undefined
    behaviour.  The packets are owned by one holder at a time (a queue, a call,
    a transport), and are values. *)

From S2P Require Import Prelude Rwx Packet Fdevent.

(** ** Function pointers *)

(** [asocket.enqueue], [.ready] and [.close]: the functions of sockets.c. *)
Inductive enqueue_fn := local_enqueue | remote_enqueue | smart_enqueue.
Inductive ready_fn := local_ready | local_ready_notify | remote_ready | smart_ready.
Inductive close_fn := local_close | local_close_notify | remote_close | smart_close.

(** The callbacks of events. *)
Inductive fd_func := socket_events | transport_events.

#[export] Instance enqueue_fn_eq_dec : EqDecision enqueue_fn. Proof. solve_decision. Defined.
#[export] Instance ready_fn_eq_dec : EqDecision ready_fn. Proof. solve_decision. Defined.
#[export] Instance close_fn_eq_dec : EqDecision close_fn. Proof. solve_decision. Defined.

(** ** adb.h *)

(** [next] and [prev] are represented by the rings of the state, [fde] by the
    event registered at the address of the socket, the list from [pkt_first] to
    [pkt_last] by [sk_pkts]. *)
Record asocket := ASocket {
  sk_id : Z;
  sk_closing : bool;
  sk_exit_on_close : bool;
  sk_peer : option addr;
  sk_fd : Z;
  sk_pkts : list apacket;
  sk_enqueue : enqueue_fn;
  sk_ready : ready_fn;
  sk_close : close_fn;
  sk_transport : option addr
}.

Inductive transport_type := kTransportUsb | kTransportLocal | kTransportAny | kTransportHost.
#[export] Instance transport_type_eq_dec : EqDecision transport_type. Proof. solve_decision. Defined.

(** The connection states of adb.h. *)
Definition CS_ANY : Z := -1.
Definition CS_OFFLINE : Z := 0.
Definition CS_BOOTLOADER : Z := 1.
Definition CS_DEVICE : Z := 2.
Definition CS_HOST : Z := 3.
Definition CS_RECOVERY : Z := 4.
Definition CS_NOPERM : Z := 5.
Definition CS_SIDELOAD : Z := 6.
Definition CS_UNAUTHORIZED : Z := 7.

(** [t_out] are the packets written to the socket pair of the transport, in
    order ([packet_address_roundtrip] in Rwx.v); [t_broken] tells that such a
    write fails.  [t_disconnects] is the ring of the disconnect callbacks, each
    of which belongs to a remote socket. *)
Record atransport := ATransport {
  t_out : list apacket;
  t_broken : bool;
  t_connection_state : Z;
  t_online : bool;
  t_type : transport_type;
  t_serial : option bytes;
  t_product : option bytes;
  t_model : option bytes;
  t_device : option bytes;
  t_devpath : option bytes;
  t_kicked : bool;
  t_disconnects : list addr;
  t_token : bytes;
  t_failed_auth_attempts : Z
}.

(** ** The state *)

Section World.
Context {E : Type}.

Record world := World {
  w_socks : gmap addr asocket;
  w_trans : gmap addr atransport;
  w_transport_list : list addr;   (* transport_list *)
  w_locals : list addr;           (* local_socket_list *)
  w_closing : list addr;          (* local_socket_closing_list *)
  w_next_id : Z;                  (* local_socket_next_id *)
  w_ev : E;                       (* fdevent.c *)
  w_io : gmap Z fdio;             (* the open descriptors *)
  w_brk : addr                    (* the next address of the allocator *)
}.

Definition with_socks (m : gmap addr asocket) (w : world) : world :=
  World m (w_trans w) (w_transport_list w) (w_locals w) (w_closing w) (w_next_id w) (w_ev w) (w_io w) (w_brk w).
Definition with_trans (m : gmap addr atransport) (w : world) : world :=
  World (w_socks w) m (w_transport_list w) (w_locals w) (w_closing w) (w_next_id w) (w_ev w) (w_io w) (w_brk w).
Definition with_lists (ls cs : list addr) (w : world) : world :=
  World (w_socks w) (w_trans w) (w_transport_list w) ls cs (w_next_id w) (w_ev w) (w_io w) (w_brk w).
Definition with_next_id (n : Z) (w : world) : world :=
  World (w_socks w) (w_trans w) (w_transport_list w) (w_locals w) (w_closing w) n (w_ev w) (w_io w) (w_brk w).
Definition with_ev (e : E) (w : world) : world :=
  World (w_socks w) (w_trans w) (w_transport_list w) (w_locals w) (w_closing w) (w_next_id w) e (w_io w) (w_brk w).
Definition with_io (m : gmap Z fdio) (w : world) : world :=
  World (w_socks w) (w_trans w) (w_transport_list w) (w_locals w) (w_closing w) (w_next_id w) (w_ev w) m (w_brk w).
Definition with_brk (b : addr) (w : world) : world :=
  World (w_socks w) (w_trans w) (w_transport_list w) (w_locals w) (w_closing w) (w_next_id w) (w_ev w) (w_io w) b.

(** *** Sockets *)

Definition get_sock (w : world) (a : addr) : res asocket := access (w_socks w !! a).
Definition put_sock (a : addr) (s : asocket) (w : world) : world := with_socks (<[a := s]> (w_socks w)) w.
Definition free_sock (a : addr) (w : world) : world := with_socks (delete a (w_socks w)) w.

Definition with_id (i : Z) (s : asocket) : asocket :=
  ASocket i (sk_closing s) (sk_exit_on_close s) (sk_peer s) (sk_fd s) (sk_pkts s) (sk_enqueue s)
    (sk_ready s) (sk_close s) (sk_transport s).
Definition with_closing (b : bool) (s : asocket) : asocket :=
  ASocket (sk_id s) b (sk_exit_on_close s) (sk_peer s) (sk_fd s) (sk_pkts s) (sk_enqueue s)
    (sk_ready s) (sk_close s) (sk_transport s).
Definition with_exit_on_close (b : bool) (s : asocket) : asocket :=
  ASocket (sk_id s) (sk_closing s) b (sk_peer s) (sk_fd s) (sk_pkts s) (sk_enqueue s)
    (sk_ready s) (sk_close s) (sk_transport s).
Definition with_peer (p : option addr) (s : asocket) : asocket :=
  ASocket (sk_id s) (sk_closing s) (sk_exit_on_close s) p (sk_fd s) (sk_pkts s) (sk_enqueue s)
    (sk_ready s) (sk_close s) (sk_transport s).
Definition with_pkts (l : list apacket) (s : asocket) : asocket :=
  ASocket (sk_id s) (sk_closing s) (sk_exit_on_close s) (sk_peer s) (sk_fd s) l (sk_enqueue s)
    (sk_ready s) (sk_close s) (sk_transport s).
Definition with_fns (r : ready_fn) (c : close_fn) (s : asocket) : asocket :=
  ASocket (sk_id s) (sk_closing s) (sk_exit_on_close s) (sk_peer s) (sk_fd s) (sk_pkts s) (sk_enqueue s)
    r c (sk_transport s).
Definition with_transport (t : option addr) (s : asocket) : asocket :=
  ASocket (sk_id s) (sk_closing s) (sk_exit_on_close s) (sk_peer s) (sk_fd s) (sk_pkts s) (sk_enqueue s)
    (sk_ready s) (sk_close s) t.

(** [s->peer], which must not be null. *)
Definition peer_of (s : asocket) : res addr := access (sk_peer s).

(** An assignment to the fields of [*a]. *)
Definition update_sock (w : world) (a : addr) (f : asocket -> asocket) : res world :=
  let* s := get_sock w a in Ok (put_sock a (f s) w).

(** [calloc(1, sizeof(asocket))], with the function pointers stored after it. *)
Definition blank_socket (en : enqueue_fn) (rd : ready_fn) (cl : close_fn) : asocket :=
  ASocket 0 false false None 0 [] en rd cl None.
Definition alloc_sock (w : world) (s : asocket) : addr * world :=
  (w_brk w, with_brk (S (w_brk w)) (put_sock (w_brk w) s w)).

(** *** Transports *)

Definition get_trans (w : world) (t : addr) : res atransport := access (w_trans w !! t).
Definition put_trans (t : addr) (x : atransport) (w : world) : world :=
  with_trans (<[t := x]> (w_trans w)) w.
Definition update_trans (w : world) (t : addr) (f : atransport -> atransport) : res world :=
  let* x := get_trans w t in Ok (put_trans t (f x) w).

Definition with_out (l : list apacket) (t : atransport) : atransport :=
  ATransport l (t_broken t) (t_connection_state t) (t_online t) (t_type t) (t_serial t)
    (t_product t) (t_model t) (t_device t) (t_devpath t) (t_kicked t) (t_disconnects t)
    (t_token t) (t_failed_auth_attempts t).
Definition with_connection_state (c : Z) (t : atransport) : atransport :=
  ATransport (t_out t) (t_broken t) c (t_online t) (t_type t) (t_serial t) (t_product t)
    (t_model t) (t_device t) (t_devpath t) (t_kicked t) (t_disconnects t) (t_token t)
    (t_failed_auth_attempts t).
Definition with_online (b : bool) (t : atransport) : atransport :=
  ATransport (t_out t) (t_broken t) (t_connection_state t) b (t_type t) (t_serial t) (t_product t)
    (t_model t) (t_device t) (t_devpath t) (t_kicked t) (t_disconnects t) (t_token t)
    (t_failed_auth_attempts t).
Definition with_quals (p m d : option bytes) (t : atransport) : atransport :=
  ATransport (t_out t) (t_broken t) (t_connection_state t) (t_online t) (t_type t) (t_serial t) p
    m d (t_devpath t) (t_kicked t) (t_disconnects t) (t_token t) (t_failed_auth_attempts t).
Definition with_kicked (b : bool) (t : atransport) : atransport :=
  ATransport (t_out t) (t_broken t) (t_connection_state t) (t_online t) (t_type t) (t_serial t)
    (t_product t) (t_model t) (t_device t) (t_devpath t) b (t_disconnects t) (t_token t)
    (t_failed_auth_attempts t).
Definition with_disconnects (l : list addr) (t : atransport) : atransport :=
  ATransport (t_out t) (t_broken t) (t_connection_state t) (t_online t) (t_type t) (t_serial t)
    (t_product t) (t_model t) (t_device t) (t_devpath t) (t_kicked t) l (t_token t)
    (t_failed_auth_attempts t).
Definition with_token (k : bytes) (t : atransport) : atransport :=
  ATransport (t_out t) (t_broken t) (t_connection_state t) (t_online t) (t_type t) (t_serial t)
    (t_product t) (t_model t) (t_device t) (t_devpath t) (t_kicked t) (t_disconnects t) k
    (t_failed_auth_attempts t).
Definition with_failed (n : Z) (t : atransport) : atransport :=
  ATransport (t_out t) (t_broken t) (t_connection_state t) (t_online t) (t_type t) (t_serial t)
    (t_product t) (t_model t) (t_device t) (t_devpath t) (t_kicked t) (t_disconnects t)
    (t_token t) n.

(** [send_packet(p, t)] on a transport of the state: the packet is sealed, and
    queued for the thread that writes to the remote. *)
Definition send_to (w : world) (p : apacket) (t : option addr) : res world :=
  let* p := seal p in
  match t with
  | None => Exit
  | Some t =>
      let* x := get_trans w t in
      if t_broken x then Exit else Ok (put_trans t (with_out (t_out x ++ [p]) x) w)
  end.

(** transport.c: [add_transport_disconnect] and [remove_transport_disconnect]
    for the callback of the remote socket [a]. *)
Definition add_disconnect (w : world) (t : addr) (a : addr) : res world :=
  update_trans w t (fun x => with_disconnects (t_disconnects x ++ [a]) x).
Definition remove_disconnect (w : world) (t : option addr) (a : addr) : res world :=
  match t with
  | None => Ub
  | Some t => update_trans w t (fun x => with_disconnects (filter (fun b => b <> a) (t_disconnects x)) x)
  end.

(** *** Descriptors *)

(** The descriptors of sockets do not block: when the system has no answer
    left in its schedule, the call fails with [EAGAIN]. *)
Definition nonblock (f : fdio) : fdio :=
  Fdio (io_in f) (io_out f) (io_evs f ++ [Fail EAGAIN]) (io_calls f).

(** A descriptor that is not open. *)
Definition bad_fd : fdio := Fdio [] [] [Fail EIO] [].

Definition get_io (w : world) (fd : Z) : fdio := nonblock (default bad_fd (w_io w !! fd)).
Definition put_io (fd : Z) (f : fdio) (w : world) : world :=
  match w_io w !! fd with
  | Some _ => with_io (<[fd := f]> (w_io w)) w
  | None => w
  end.

Definition fd_write (w : world) (fd : Z) (bs : bytes) : res (put * world) :=
  let* ' (r, f) := adb_write (get_io w fd) bs in Ok (r, put_io fd f w).
Definition fd_read (w : world) (fd : Z) (len : nat) : res (got * world) :=
  let* ' (r, f) := adb_read (get_io w fd) len in Ok (r, put_io fd f w).
Definition fd_writex (w : world) (fd : Z) (bs : bytes) : res (Z * world) :=
  let* ' (r, f) := writex (get_io w fd) bs in Ok (r, put_io fd f w).

(** * Theorems *)

Lemma get_io_answering w fd : answering (get_io w fd).
Proof. by eexists. Qed.

Lemma put_io_io fd f w : exists m, put_io fd f w = with_io m w.
Proof. unfold put_io. destruct (w_io w !! fd); [by eexists|]. exists (w_io w). by destruct w. Qed.

(** A call on a descriptor changes nothing but descriptors. *)
Lemma fd_write_ok w fd bs : exists r m, fd_write w fd bs = Ok (r, with_io m w).
Proof.
  unfold fd_write. destruct (adb_write_answering _ bs (get_io_answering w fd)) as (r & f & -> & _).
  destruct (put_io_io fd f w) as [m Hm]. cbn [res_bind]. rewrite Hm. by eauto.
Qed.

Lemma fd_writex_ok w fd bs : exists r m, fd_writex w fd bs = Ok (r, with_io m w).
Proof.
  unfold fd_writex. destruct (writex_answering _ bs (get_io_answering w fd)) as (r & f & ->).
  destruct (put_io_io fd f w) as [m Hm]. cbn [res_bind]. rewrite Hm. by eauto.
Qed.

(** The transfers that the schedule of a descriptor still has. *)
Definition credit (w : world) (fd : Z) : nat := xfers (io_evs (get_io w fd)).

Lemma credit_put w fd f : (xfers (io_evs f) < credit w fd)%nat -> (credit (put_io fd f w) fd < credit w fd)%nat.
Proof.
  unfold credit, put_io. intros Hx. unfold get_io at 1. destruct (w_io w !! fd) as [g|] eqn:Hg.
  - cbn. rewrite lookup_insert_eq. cbn. by rewrite xfers_snoc.
  - unfold get_io in Hx. rewrite Hg in Hx. cbn in Hx. lia.
Qed.

Lemma fd_write_credit w fd bs r w' : fd_write w fd bs = Ok (r, w') ->
  match r with
  | WPut k => (k <= length bs)%nat /\ (credit w' fd < credit w fd)%nat
  | WErr e => e <> EINTR
  end.
Proof.
  unfold fd_write. destruct (adb_write_answering _ bs (get_io_answering w fd)) as (r0 & f & Hw & Hr).
  rewrite Hw. intros [= <- <-]. destruct r0 as [k|e]; [|done].
  apply adb_write_cases in Hw as (_ & _ & _ & _ & Hk & _). split; [done|]. apply credit_put, Hr.
Qed.

Lemma fd_read_ok w fd len : exists r m, fd_read w fd len = Ok (r, with_io m w) /\
  match r with
  | RGot bs => (length bs <= len)%nat /\ (credit (with_io m w) fd < credit w fd)%nat
  | RErr e => e <> EINTR
  end.
Proof.
  unfold fd_read. destruct (adb_read_answering _ len (get_io_answering w fd)) as (r & f & -> & Hr).
  destruct (put_io_io fd f w) as [m Hm]. cbn [res_bind]. eexists _, m. rewrite <-Hm. split; [done|].
  destruct r as [bs|e]; [|done]. destruct Hr as (Hl & _ & Hx). split; [done|]. by apply credit_put.
Qed.

End World.
Arguments world E : clear implicits.
