(* ===== verification/Transport.v ===== *)
(** * Choosing a transport (transport.c)

    A request names a device by its serial, by one of its qualifiers, or by the
    kind of its transport; [acquire_one_transport] finds the one transport it
    can mean.  [choose_ref] says what it must return, without the loop. *)

From S2P Require Import Prelude Cstr Rwx Packet Fdevent World.

(** ** Qualifiers *)

Definition qual_char_is_invalid (ch : byte) : bool :=
  let c := ub ch in
  negb (bool_decide (65 <= c <= 90) || bool_decide (97 <= c <= 122) || bool_decide (48 <= c <= 57)).

(** The loops of [qual_match]: characters of [to_test] are consumed while they
    match; the end of [to_test] is its NUL, which matches no character. *)
Fixpoint match_prefix (prefix to_test : bytes) : option bytes :=
  match prefix, to_test with
  | [], _ => Some to_test
  | c :: prefix, d :: to_test => if bool_decide (c = d) then match_prefix prefix to_test else None
  | _ :: _, [] => None
  end.

Fixpoint match_qual (sanitize_qual : bool) (qual to_test : bytes) : option bytes :=
  match qual, to_test with
  | [], _ => Some to_test
  | c :: qual, d :: to_test =>
      let ch := if sanitize_qual && qual_char_is_invalid c then Byte.x5f else c in
      if bool_decide (ch = d) then match_qual sanitize_qual qual to_test else None
  | _ :: _, [] => None
  end.

Definition qual_match (to_test : option bytes) (prefix : option bytes) (qual : option bytes)
    (sanitize_qual : bool) : bool :=
  match to_test with
  | None | Some [] => match qual with None | Some [] => true | _ => false end
  | Some to_test =>
      match qual with
      | None => false
      | Some qual =>
          match match_prefix (default [] prefix) to_test with
          | None => false
          | Some rest =>
              match match_qual sanitize_qual qual rest with
              | None => false
              | Some rest => bool_decide (rest = [])
              end
          end
      end
  end.

(** ** acquire_one_transport *)

(** [!strcmp(serial, s)] for a string that may be null. *)
Definition same_string (serial : bytes) (s : option bytes) : bool := bool_decide (s = Some serial).

Definition serial_matches (serial : bytes) (t : atransport) : bool :=
  same_string serial (t_serial t) || same_string serial (t_devpath t)
  || qual_match (Some serial) (Some (lit "product:")) (t_product t) false
  || qual_match (Some serial) (Some (lit "model:")) (t_model t) true
  || qual_match (Some serial) (Some (lit "device:")) (t_device t) false.

Inductive acquire_error :=
  | DeviceNotFound | InsufficientPermissions | MoreThanOneDevice | MoreThanOneEmulator
  | MoreThanOneDeviceAndEmulator | DeviceUnauthorized | DeviceOffline | InvalidDeviceState.
#[export] Instance acquire_error_eq_dec : EqDecision acquire_error.
Proof. solve_decision. Defined.

(** The texts of the errors. *)
Definition error_text (e : acquire_error) : bytes :=
  lit match e with
      | DeviceNotFound => "device not found"
      | InsufficientPermissions => "insufficient permissions for device"
      | MoreThanOneDevice => "more than one device"
      | MoreThanOneEmulator => "more than one emulator"
      | MoreThanOneDeviceAndEmulator => "more than one device and emulator"
      | DeviceUnauthorized =>
          "device unauthorized. Please check the confirmation dialog on your device."
      | DeviceOffline => "device offline"
      | InvalidDeviceState => "invalid device state"
      end%string.

(** Whether the request means [t], and the error when it also means another. *)
Definition wanted (ttype : transport_type) (serial : option bytes) (t : atransport)
    : option acquire_error :=
  match serial with
  | Some serial => if serial_matches serial t then Some MoreThanOneDevice else None
  | None =>
      match ttype, t_type t with
      | kTransportUsb, kTransportUsb => Some MoreThanOneDevice
      | kTransportLocal, kTransportLocal => Some MoreThanOneEmulator
      | kTransportAny, _ => Some MoreThanOneDeviceAndEmulator
      | _, _ => None
      end
  end.

(** The loop over [transport_list]: the result, whether it broke off because
    the request is ambiguous, and [*error_out]. *)
Fixpoint scan (ttype : transport_type) (serial : option bytes) (ts : list (addr * atransport))
    (result : option (addr * atransport)) (err : acquire_error)
    : option (addr * atransport) * bool * acquire_error :=
  match ts with
  | [] => (result, false, err)
  | (a, t) :: ts =>
      if bool_decide (t_connection_state t = CS_NOPERM) then
        scan ttype serial ts result InsufficientPermissions
      else
        match wanted ttype serial t with
        | None => scan ttype serial ts result err
        | Some more =>
            match result with
            | Some _ => (None, true, more)
            | None => scan ttype serial ts (Some (a, t)) err
            end
        end
  end.

(** What the code does after the loop: the transport, or [None] with the error
    and whether it sleeps and tries again. *)
Definition check_state (state : Z) (serial : option bytes)
    (r : option (addr * atransport) * bool * acquire_error)
    : (addr * atransport) + (acquire_error * bool) :=
  let '(result, ambiguous, err) := r in
  let retry := negb (bool_decide (state = CS_ANY)) && (bool_decide (serial <> None) || negb ambiguous) in
  match result with
  | None => inr (err, retry)
  | Some (a, t) =>
      if bool_decide (t_connection_state t = CS_UNAUTHORIZED) then inr (DeviceUnauthorized, retry)
      else if bool_decide (t_connection_state t = CS_OFFLINE) then inr (DeviceOffline, retry)
      else if bool_decide (state <> CS_ANY /\ t_connection_state t <> state)
           then inr (InvalidDeviceState, retry)
           else inl (a, t)
  end.

(** One pass of [acquire_one_transport]. *)
Definition acquire_once (state : Z) (ttype : transport_type) (serial : option bytes)
    (ts : list (addr * atransport)) : (addr * atransport) + (acquire_error * bool) :=
  check_state state serial (scan ttype serial ts None DeviceNotFound).

(** The retries, over the successive contents of the list of transports. *)
Fixpoint acquire_one_transport (state : Z) (ttype : transport_type) (serial : option bytes)
    (lists : list (list (addr * atransport))) : res ((addr * atransport) + acquire_error) :=
  match lists with
  | [] => Blocked
  | ts :: lists =>
      match acquire_once state ttype serial ts with
      | inl t => Ok (inl t)
      | inr (err, retry) =>
          if retry then acquire_one_transport state ttype serial lists else Ok (inr err)
      end
  end.

(** The transports that [acquire_one_transport] looks at. *)
Definition transports {E} (w : world E) : list (addr * atransport) :=
  omap (fun a => pair a <$> w_trans w !! a) (w_transport_list w).

(** ** Names of states and listings *)

Definition statename (t : atransport) : bytes :=
  let c := t_connection_state t in
  lit (if bool_decide (c = CS_OFFLINE) then "offline"
       else if bool_decide (c = CS_BOOTLOADER) then "bootloader"
       else if bool_decide (c = CS_DEVICE) then "device"
       else if bool_decide (c = CS_HOST) then "host"
       else if bool_decide (c = CS_RECOVERY) then "recovery"
       else if bool_decide (c = CS_SIDELOAD) then "sideload"
       else if bool_decide (c = CS_NOPERM) then "no permissions"
       else if bool_decide (c = CS_UNAUTHORIZED) then "unauthorized"
       else "unknown")%string.

(** The line that [snprintf] would write without a bound. *)
Definition short_line (t : atransport) : bytes :=
  let serial := match t_serial t with None | Some [] => lit "????????????" | Some s => s end in
  serial ++ [Byte.x09] ++ statename t ++ [Byte.x0a].

(** The short listing: whole lines, as long as they fit with the NUL. *)
Fixpoint list_lines (ts : list (addr * atransport)) (room : nat) : bytes :=
  match ts with
  | [] => []
  | (_, t) :: ts =>
      let line := short_line t in
      if bool_decide (room <= length line)%nat then [] else line ++ list_lines ts (room - length line)
  end.

(** [list_transports(buf, bufsize, 0)]: the characters before the NUL. *)
Definition list_transports (ts : list (addr * atransport)) (bufsize : nat) : bytes :=
  list_lines ts bufsize.

(** [list_transports_msg]: the listing behind its length in hexadecimal. *)
Definition list_transports_msg (ts : list (addr * atransport)) (bufferlen : nat) : bytes :=
  let body := list_transports ts (bufferlen - 4) in
  hex4 (Z.of_nat (length body)) ++ body.

(** ** Kicking *)

(** [kick_transport]: whether [t->kick] is called, and the transport after. *)
Definition kick_transport (t : atransport) : bool * atransport :=
  if t_kicked t then (false, t) else (true, with_kicked true t).

(** ** The abstract specification *)

(** The transports the request can mean. *)
Definition candidates (ttype : transport_type) (serial : option bytes) (ts : list (addr * atransport))
    : list (addr * atransport) :=
  filter (fun x => t_connection_state x.2 <> CS_NOPERM /\ wanted ttype serial x.2 <> None) ts.

(** A state in which the transport can be taken. *)
Definition usable (state : Z) (t : atransport) : Prop :=
  t_connection_state t <> CS_UNAUTHORIZED /\ t_connection_state t <> CS_OFFLINE
  /\ (state = CS_ANY \/ t_connection_state t = state).

(** A qualifier as it appears in the listings. *)
Definition sanitize (q : bytes) : bytes :=
  map (fun c => if qual_char_is_invalid c then Byte.x5f else c) q.

(** * Theorems *)

Lemma match_prefix_spec p s r : match_prefix p s = Some r <-> s = p ++ r.
Proof.
  revert s. induction p as [|c p IH]; intros [|d s]; cbn [match_prefix app]; try (split; congruence).
  case_bool_decide as H; [subst; rewrite IH; split; congruence|]. split; [done|congruence].
Qed.

Lemma match_qual_spec b q s r :
  match_qual b q s = Some r <-> s = (if b then sanitize q else q) ++ r.
Proof.
  revert s. induction q as [|c q IH]; intros [|d s]; cbn [match_qual]; try (destruct b; cbn; split; congruence).
  destruct b; cbn [andb sanitize map app].
  - case_bool_decide as H; [subst; rewrite IH; split; [by intros ->|by intros [= ->]]|].
    split; [done|]. intros [= ? _]. done.
  - case_bool_decide as H; [subst; rewrite IH; split; [by intros ->|by intros [= ->]]|].
    split; [done|]. intros [= ? _]. done.
Qed.

(** a string matches a qualifier exactly when it is the prefix followed by
    the qualifier, its odd characters shown as underscores when asked for; two
    missing strings match. *)
Theorem qual_match_spec to_test prefix qual b :
  qual_match to_test prefix qual b = true <->
  (default [] to_test = [] /\ default [] qual = []) \/
  (default [] to_test <> [] /\ exists q, qual = Some q /\
     to_test = Some (default [] prefix ++ (if b then sanitize q else q))).
Proof.
  unfold qual_match. destruct to_test as [[|c s]|]; cbn [default id].
  - destruct qual as [[|x q]|]; cbn [default id]; naive_solver.
  - destruct qual as [q|]; [|naive_solver].
    destruct (match_prefix _ _) as [r|] eqn:E1; [destruct (match_qual b q r) as [r'|] eqn:E2|].
    + apply match_prefix_spec in E1. apply match_qual_spec in E2. rewrite bool_decide_eq_true, E1, E2. split.
      * intros ->. right. split; [by rewrite <-E2, <-E1|]. exists q. by rewrite app_nil_r.
      * intros [[? _]|(_ & q' & [= <-] & [= H])]; [by rewrite <-E2, <-E1 in *|].
        apply app_inv_head in H. rewrite <-(app_nil_r (if b then _ else _)) in H at 2.
        by apply app_inv_head in H.
    + split; [done|]. intros [[? _]|(_ & q' & [= <-] & [= H])]; [done|].
      apply match_prefix_spec in E1. rewrite E1 in H. apply app_inv_head in H. subst r.
      assert (match_qual b q (if b then sanitize q else q) = Some []) as E3
        by (apply match_qual_spec; by rewrite app_nil_r). congruence.
    + split; [done|]. intros [[? _]|(_ & q' & [= <-] & [= H])]; [done|].
      assert (match_prefix (default [] prefix) (c :: s) = Some (if b then sanitize q else q)) as E3
        by (by apply match_prefix_spec). congruence.
  - destruct qual as [[|x q]|]; cbn [default id]; naive_solver.
Qed.

(** *** The loop *)

Lemma scan_in ttype serial ts : forall result err t b e, scan ttype serial ts result err = (Some t, b, e) ->
  t ∈ ts \/ result = Some t.
Proof.
  induction ts as [|[a x] ts IH]; intros result err t b e; cbn [scan]; [intros [= <- _ _]; by right|].
  case_bool_decide; [intros [?|?]%IH; [left; by right|by right]|].
  destruct (wanted ttype serial x); [|intros [?|?]%IH; [left; by right|by right]].
  destruct result; [done|]. intros [?|[= <-]]%IH; [left; by right|]. left. by left.
Qed.

Lemma acquire_once_in state ttype serial ts t : acquire_once state ttype serial ts = inl t -> t ∈ ts.
Proof.
  unfold acquire_once, check_state. destruct (scan _ _ _ _ _) as [[[[a x]|] b] e] eqn:Hs; [|done].
  repeat case_bool_decide; try done. intros [= <-]. by apply scan_in in Hs as [?|?].
Qed.

Lemma candidates_wanted ttype serial ts x : x ∈ candidates ttype serial ts ->
  wanted ttype serial x.2 <> None.
Proof. unfold candidates. by intros [[_ ?] _]%list_elem_of_filter. Qed.

Lemma candidates_cons ttype serial a t ts :
  candidates ttype serial ((a, t) :: ts) =
  if bool_decide (t_connection_state t = CS_NOPERM) then candidates ttype serial ts
  else if wanted ttype serial t then (a, t) :: candidates ttype serial ts
  else candidates ttype serial ts.
Proof.
  unfold candidates. rewrite filter_cons. cbn [snd]. case_bool_decide as Hn.
  - rewrite decide_False; [done|]. by intros [? _].
  - destruct (wanted ttype serial t).
    + rewrite decide_True; [done|]. split; [done|discriminate].
    + rewrite decide_False; [done|]. by intros [_ ?].
Qed.

(** The result of the loop, by the candidates that it still meets. *)
Lemma scan_spec ttype serial ts : forall result err, exists e,
  scan ttype serial ts result err =
  match result, candidates ttype serial ts with
  | None, [] => (None, false, if bool_decide (Exists (fun x => t_connection_state x.2 = CS_NOPERM) ts)
                              then InsufficientPermissions else err)
  | None, [x] => (Some x, false, e)
  | Some r, [] => (Some r, false, e)
  | Some _, x :: _ | None, _ :: x :: _ => (None, true, default err (wanted ttype serial x.2))
  end.
Proof.
  induction ts as [|[a t] ts IH]; intros result err.
  { exists err. destruct result; reflexivity. }
  cbn [scan]. rewrite candidates_cons.
  destruct (decide (t_connection_state t = CS_NOPERM)) as [Hn|Hn];
    [rewrite !(bool_decide_true (t_connection_state t = CS_NOPERM)) by done
    |rewrite !(bool_decide_false (t_connection_state t = CS_NOPERM)) by done;
     destruct (wanted ttype serial t) as [more|] eqn:Ew].
  - destruct (IH result InsufficientPermissions) as [e ->]. exists e.
    assert (forall x d, x ∈ candidates ttype serial ts ->
      default InsufficientPermissions (wanted ttype serial x.2) = default d (wanted ttype serial x.2)) as Hd
      by (intros x d Hx%candidates_wanted; by destruct (wanted _ _ x.2)).
    destruct result as [r|], (candidates ttype serial ts) as [|x [|y l]]; try done;
      try (f_equal; apply Hd; rewrite !elem_of_cons; by auto).
    rewrite (bool_decide_true (Exists _ (_ :: _))) by (by constructor). by case_bool_decide.
  - destruct result as [r|]; [exists err; cbn; by rewrite Ew|].
    destruct (IH (Some (a, t)) err) as [e ->]. exists e.
    destruct (candidates ttype serial ts) as [|x l]; [done|]. done.
  - destruct (IH result err) as [e ->]. exists e.
    destruct result as [r|]; [done|]. destruct (candidates ttype serial ts) as [|x l]; [|done].
    do 2 f_equal. apply (f_equal (fun b : bool => if b then InsufficientPermissions else err)).
    apply bool_decide_ext. rewrite Exists_cons. cbn [snd]. tauto.
Qed.

(** a pass takes a transport exactly when it is the only one that the
    request can mean and it is online, authorised and in the state asked for;
    none makes a device not found, or one without permissions, and several make
    the request ambiguous. *)
Theorem acquire_unique state ttype serial ts :
  (forall x, acquire_once state ttype serial ts = inl x <->
     candidates ttype serial ts = [x] /\ usable state x.2) /\
  (candidates ttype serial ts = [] -> exists retry, acquire_once state ttype serial ts =
     inr (if bool_decide (Exists (fun x => t_connection_state x.2 = CS_NOPERM) ts)
          then InsufficientPermissions else DeviceNotFound, retry)) /\
  (forall x y l, candidates ttype serial ts = x :: y :: l -> exists e retry,
     wanted ttype serial y.2 = Some e /\ acquire_once state ttype serial ts = inr (e, retry)
     /\ (serial = None -> retry = false)).
Proof.
  unfold acquire_once. destruct (scan_spec ttype serial ts None DeviceNotFound) as [err ->].
  destruct (candidates ttype serial ts) as [|[a t] [|y l]] eqn:Ec; split_and!.
  - intros x. split; [done|by intros [? _]].
  - intros _. eexists. reflexivity.
  - done.
  - intros x. cbn [check_state]. unfold usable. split.
    + case_bool_decide; [done|]. case_bool_decide; [done|]. case_bool_decide as Hs; [done|].
      intros [= <-]. split; [done|]. split_and!; try done.
      destruct (decide (state = CS_ANY)); [by left|right]. cbn.
      destruct (decide (t_connection_state t = state)); [done|]. exfalso. apply Hs. done.
    + intros ([= <-] & Hu & Ho & Hs). cbn [snd] in *.
      rewrite !bool_decide_false; [done|by intros [? ?]; destruct Hs|done|done].
  - done.
  - done.
  - intros x. split; [done|by intros [? _]].
  - done.
  - intros x y' l' [= <- <- <-].
    assert (y ∈ candidates ttype serial ts) as Hin by (rewrite Ec; by right; left).
    unfold candidates in Hin. apply list_elem_of_filter in Hin as [[_ Hw] _].
    destruct (wanted ttype serial y.2) as [e|]; [|done]. exists e. eexists. split; [done|]. cbn.
    split; [done|]. intros ->. cbn. by rewrite andb_false_r.
Qed.

(** without a required state the request is answered at once, with an error
    or a usable transport; with one, the code waits until a pass succeeds, and
    a request without a serial that is ambiguous fails. *)
Theorem acquire_answers state ttype serial lists r :
  (forall ts, acquire_one_transport CS_ANY ttype serial (ts :: lists) <> Blocked) /\
  (acquire_one_transport state ttype serial lists = Ok (inl r) ->
     exists ts, ts ∈ lists /\ candidates ttype serial ts = [r] /\ usable state r.2) /\
  (state <> CS_ANY -> serial <> None ->
     forall e, acquire_one_transport state ttype serial lists <> Ok (inr e)).
Proof.
  split_and!.
  - intros ts. cbn [acquire_one_transport]. unfold acquire_once, check_state.
    destruct (scan _ _ _ _ _) as [[[[a t]|] amb] err]; cbn; [|done].
    repeat case_bool_decide; done.
  - induction lists as [|ts lists IH]; [done|]. cbn [acquire_one_transport].
    destruct (acquire_once state ttype serial ts) as [x|[e retry]] eqn:E.
    + intros [= ->]. apply acquire_unique in E as [E Hu]. exists ts. split; [by left|done].
    + destruct retry; [|done]. intros H. destruct (IH H) as (ts' & Hin & ?). exists ts'. split; [by right|done].
  - intros Hs Hser e. induction lists as [|ts lists IH]; [done|]. cbn [acquire_one_transport].
    destruct (acquire_once state ttype serial ts) as [x|[e' retry]] eqn:E; [done|].
    assert (retry = true) as ->; [|done]. revert E. unfold acquire_once, check_state.
    destruct (scan _ _ _ _ _) as [[[[a t]|] amb] err]; cbn;
      rewrite (bool_decide_false (state = CS_ANY)), (bool_decide_true (serial <> None)) by done; cbn;
      repeat case_bool_decide; congruence.
Qed.

(** *** Listings *)

Lemma list_lines_fit ts room : (0 < room)%nat -> (length (list_lines ts room) < room)%nat
  /\ exists k, list_lines ts room = concat (map (fun x => short_line x.2) (take k ts)).
Proof.
  revert room. induction ts as [|[a t] ts IH]; intros room Hr; cbn [list_lines].
  - split; [done|]. by exists 0%nat.
  - case_bool_decide as Hl; [split; [done|by exists 0%nat]|].
    destruct (IH (room - length (short_line t))%nat ltac:(lia)) as [Hlen [k Hk]]. rewrite length_app. split; [lia|].
    exists (S k). cbn [take map concat snd]. by rewrite <-Hk.
Qed.

(** a listing leaves room for its NUL and holds whole lines, one for each of
    the first transports; the message of the device tracker announces its
    length, which its reader decodes. *)
Theorem listing_fits ts bufsize :
  (4 < bufsize)%nat -> Z.of_nat bufsize < 2 ^ 16 ->
  (length (list_transports ts bufsize) < bufsize)%nat /\
  (exists k, list_transports ts bufsize = concat (map (fun x => short_line x.2) (take k ts))) /\
  (length (list_transports_msg ts bufsize) < bufsize)%nat /\
  unhex (list_transports_msg ts bufsize) 4 = Ok (Z.of_nat (length (list_transports ts (bufsize - 4)))).
Proof.
  intros Hb Hb'. unfold list_transports_msg, list_transports.
  destruct (list_lines_fit ts bufsize) as [H1 H2]; [lia|].
  destruct (list_lines_fit ts (bufsize - 4)) as [H3 _]; [lia|].
  split; [done|]. split; [done|]. split.
  - rewrite length_app. cbn [length hex4]. lia.
  - apply unhex_hex4. lia.
Qed.

(** *** Concrete transports *)

Definition a_transport (serial : string) (state : Z) (ty : transport_type) : atransport :=
  ATransport [] false state true ty (Some (lit serial)) None (Some (lit "Galaxy-S3")) None None false [] [] 0.

Definition two_transports : list (addr * atransport) :=
  [(1%nat, a_transport "0123456789" CS_DEVICE kTransportUsb);
   (2%nat, a_transport "host" CS_DEVICE kTransportLocal)].

Lemma qual_match_spec_witness :
  qual_match (Some (lit "model:Galaxy_S3")) (Some (lit "model:")) (Some (lit "Galaxy-S3")) true = true.
Proof.
  apply qual_match_spec. right. split; [discriminate|]. eexists. split; [reflexivity|].
  vm_compute. reflexivity.
Defined.

Lemma acquire_unique_witness :
  acquire_once CS_ANY kTransportUsb None two_transports = inl (1%nat, a_transport "0123456789" CS_DEVICE kTransportUsb)
  /\ exists retry, acquire_once CS_ANY kTransportAny None two_transports
       = inr (MoreThanOneDeviceAndEmulator, retry).
Proof.
  split.
  - apply acquire_unique. split; [reflexivity|]. repeat split; [discriminate|discriminate|by left].
  - destruct (proj2 (proj2 (acquire_unique CS_ANY kTransportAny None two_transports)) _ _ _ eq_refl)
      as (e & retry & He & E & _).
    exists retry. rewrite E. injection He as <-. reflexivity.
Defined.

Lemma acquire_answers_witness :
  exists ts, ts ∈ [[]; two_transports]
    /\ candidates kTransportLocal None ts = [(2%nat, a_transport "host" CS_DEVICE kTransportLocal)].
Proof.
  destruct (proj1 (proj2 (acquire_answers CS_DEVICE kTransportLocal None [[]; two_transports]
    (2%nat, a_transport "host" CS_DEVICE kTransportLocal))) eq_refl) as (ts & Hin & Hc & _).
  exists ts. exact (conj Hin Hc).
Defined.

Lemma listing_fits_witness :
  (length (list_transports_msg two_transports 36) < 36)%nat.
Proof. apply (listing_fits two_transports 36); lia. Defined.
