(* ===== verification/Trackers.v ===== *)
(** * Clients that follow the list of devices (transport.c)

    The trackers of [track-devices]: a list that is linked by the pointers
    [next], from [device_tracker_list].  A tracker has a peer, a local socket,
    that may close both while it is given a packet.  The abstract state is the
    list of the trackers. *)

From S2P Require Import Prelude Cstr Fdevent Packet World Transport.

Record device_tracker := DeviceTracker { dt_update_needed : bool; dt_next : option addr; dt_peer : option addr }.
Definition with_next (v : option addr) (t : device_tracker) : device_tracker := DeviceTracker (dt_update_needed t) v (dt_peer t).
Definition with_peer (v : option addr) (t : device_tracker) : device_tracker := DeviceTracker (dt_update_needed t) (dt_next t) v.
Definition updated (t : device_tracker) : device_tracker := DeviceTracker false (dt_next t) (dt_peer t).

(** What the peers are given, and those that are closed. *)
Inductive peer_event := Given (peer : addr) (data : bytes) | Closed (peer : addr).

Record trackers := Trackers {
  dt_mem : gmap addr device_tracker;
  device_tracker_list : option addr;
  dt_log : list peer_event
}.
Implicit Types (st : trackers) (a : addr).

Definition get_dt st a : res device_tracker := access (dt_mem st !! a).
Definition put_dt a (t : device_tracker) st : trackers := Trackers (<[a := t]> (dt_mem st)) (device_tracker_list st) (dt_log st).
Definition with_list (h : option addr) st : trackers := Trackers (dt_mem st) h (dt_log st).
Definition log (e : peer_event) st : trackers := Trackers (dt_mem st) (device_tracker_list st) (dt_log st ++ [e]).

(** [*pnode = v], where [pnode] points to the head or to the [next] of a node. *)
Definition set_link (pnode : option addr) (v : option addr) st : res trackers :=
  match pnode with
  | None => Ok (with_list v st)
  | Some a => let* t := get_dt st a in Ok (put_dt a (with_next v t) st)
  end.

(** The loop of [device_tracker_remove]. *)
Fixpoint remove_loop (fuel : nat) (tracker : addr) (pnode node : option addr) st : res trackers :=
  match node with
  | None => Ok st
  | Some n =>
      match fuel with
      | O => Blocked
      | S fuel =>
          let* t := get_dt st n in
          if bool_decide (n = tracker) then set_link pnode (dt_next t) st
          else remove_loop fuel tracker (Some n) (dt_next t) st
      end
  end.
Definition device_tracker_remove (tracker : addr) st : res trackers :=
  remove_loop (size (dt_mem st)) tracker None (device_tracker_list st) st.

Definition device_tracker_close (tracker : addr) st : res trackers :=
  let* t := get_dt st tracker in
  let st := match dt_peer t with Some peer => log (Closed peer) st | None => st end in
  let* st := device_tracker_remove tracker st in
  Ok (Trackers (delete tracker (dt_mem st)) (device_tracker_list st) (dt_log st)).

Definition device_tracker_enqueue (tracker : addr) st : res (Z * trackers) :=
  let* st := device_tracker_close tracker st in Ok (-1, st).

Section Peers.
(** The peers whose connection is closed when they are written to: a local
    socket that closes leaves its peer without a peer and closes it. *)
Context (broken : addr -> bool).

Definition device_tracker_send (tracker : addr) (buffer : bytes) st : res trackers :=
  let* t := get_dt st tracker in
  let* peer := access (dt_peer t) in
  let st := log (Given peer buffer) st in
  if broken peer then device_tracker_close tracker (put_dt tracker (with_peer None t) st) else Ok st.

Definition device_tracker_ready (tracker : addr) (ts : list (addr * atransport)) st : res trackers :=
  let* t := get_dt st tracker in
  if dt_update_needed t then device_tracker_send tracker (list_transports_msg ts 1024) (put_dt tracker (updated t) st)
  else Ok st.

(** [a] is the address of the new tracker, [peer] the socket that it gets. *)
Definition create_device_tracker a (peer : addr) st : trackers :=
  with_list (Some a) (put_dt a (DeviceTracker true (device_tracker_list st) (Some peer)) st).

Fixpoint trackers_loop (fuel : nat) (tracker : option addr) (buffer : bytes) st : res trackers :=
  match tracker with
  | None => Ok st
  | Some a =>
      match fuel with
      | O => Blocked
      | S fuel =>
          let* t := get_dt st a in
          let next := dt_next t in
          let* st := device_tracker_send a buffer st in
          trackers_loop fuel next buffer st
      end
  end.
Definition update_transports (ts : list (addr * atransport)) st : res trackers :=
  trackers_loop (size (dt_mem st)) (device_tracker_list st) (list_transports_msg ts 1024) st.

End Peers.

(** ** The list *)

(** [l] are the trackers from [h] on. *)
Fixpoint chain (m : gmap addr device_tracker) (h : option addr) (l : list addr) : Prop :=
  match l with
  | [] => h = None
  | a :: l => h = Some a /\ exists t, m !! a = Some t /\ chain m (dt_next t) l
  end.

(** The trackers of the list, in memory and nowhere else, each with a peer. *)
Record trackers_ok st (l : list addr) : Prop := TrackersOk {
  to_chain : chain (dt_mem st) (device_tracker_list st) l;
  to_nodup : NoDup l;
  to_mem a : a ∈ l <-> is_Some (dt_mem st !! a);
  to_peer a t : dt_mem st !! a = Some t -> is_Some (dt_peer t)
}.

(** The peer of a tracker. *)
Definition peer_of st a : addr := match dt_mem st !! a with Some t => default 0%nat (dt_peer t) | None => 0%nat end.

(** * Theorems *)

Lemma chain_ext m m' h l : (forall a, a ∈ l -> dt_next <$> m !! a = dt_next <$> m' !! a) -> chain m h l -> chain m' h l.
Proof.
  revert h. induction l as [|a l IH]; intros h Hm; [done|]. cbn. intros [-> (t & Ht & Hc)]. split; [done|].
  pose proof (Hm a ltac:(by left)) as Ha. rewrite Ht in Ha. cbn in Ha. destruct (m' !! a) as [t'|]; [|done]. injection Ha as Ha. exists t'. split; [done|].
  rewrite <-Ha. apply IH; [|done]. intros b Hb. apply Hm. by right.
Qed.

(** The loop stops at the tracker and unlinks it; [p] is the node before. *)
Lemma remove_loop_ok a : forall l fuel st p node, chain (dt_mem st) node l -> NoDup l -> (length l <= fuel)%nat -> a ∈ l ->
  (forall n, p = Some n -> n ∉ l /\ exists t, dt_mem st !! n = Some t /\ dt_next t = node) -> (p = None -> device_tracker_list st = node) ->
  exists st', remove_loop fuel a p node st = Ok st' /\ dt_log st' = dt_log st
  /\ (forall b, (fun t => (dt_peer t, dt_update_needed t)) <$> dt_mem st' !! b = (fun t => (dt_peer t, dt_update_needed t)) <$> dt_mem st !! b)
  /\ (forall b, b ∉ l -> p <> Some b -> dt_mem st' !! b = dt_mem st !! b)
  /\ (p <> None -> device_tracker_list st' = device_tracker_list st)
  /\ chain (dt_mem st') (match p with None => device_tracker_list st' | Some n => dt_mem st' !! n ≫= dt_next end) (filter (fun b => b <> a) l).
Proof.
  induction l as [|n l IH]; intros fuel st p node Hc Hn Hl Hin Hp Hhead; [by apply elem_of_nil in Hin|].
  cbn in Hc. destruct Hc as [-> (t & Ht & Hc)]. apply NoDup_cons in Hn as [Hnl Hn]. destruct fuel as [|fuel]; [cbn in Hl; lia|]. cbn [length] in Hl.
  cbn [remove_loop]. unfold get_dt at 1. rewrite Ht. cbn [access res_bind]. rewrite filter_cons. case_bool_decide as Hna.
  - subst n. rewrite decide_False by (intros H; by apply H). rewrite filter_same by (intros x Hx ->; done). destruct p as [q|].
    + destruct (Hp q eq_refl) as (Hq & tq & Htq & _). cbn [set_link]. unfold get_dt. rewrite Htq. cbn [access res_bind]. eexists. split; [reflexivity|]. cbn.
      apply not_elem_of_cons in Hq as [Hqa Hq]. split; [done|]. split; [|split; [|split; [done|]]].
      * intros b. destruct (decide (q = b)) as [<-|]; [by rewrite lookup_insert_eq, Htq|by rewrite lookup_insert_ne].
      * intros b _ Hb. apply lookup_insert_ne. congruence.
      * rewrite lookup_insert_eq. cbn. eapply chain_ext; [|exact Hc]. intros b Hb. rewrite lookup_insert_ne; [done|]. by intros <-.
    + cbn [set_link]. by eexists.
  - rewrite decide_True by done. apply elem_of_cons in Hin as [->|Hin]; [done|].
    destruct (IH fuel st (Some n) (dt_next t) Hc Hn ltac:(lia) Hin) as (st' & E1 & Hlog & Hrest & Hout & Hlist & Hc'); [intros m [= <-]; eauto|done|].
    exists st'. split; [done|]. split; [done|]. split; [done|]. split; [|split; [intros _; by apply Hlist|]].
    + intros b [Hbn Hbl]%not_elem_of_cons Hb. apply Hout; [done|]. congruence.
    + cbn [chain]. assert (exists t', dt_mem st' !! n = Some t') as [t' Ht'] by (specialize (Hrest n); rewrite Ht in Hrest; destruct (dt_mem st' !! n); [eauto|done]).
      rewrite Ht' in Hc'. cbn in Hc'. split; [|eauto]. destruct p as [q|].
      * destruct (Hp q eq_refl) as (Hq & tq & Htq & Hnext). rewrite (Hout q), Htq; [done| |by intros [= ->]; apply Hq; left]. intros Hql. apply Hq. by right.
      * rewrite Hlist by done. by apply Hhead.
Qed.

Lemma chain_size st l : trackers_ok st l -> length l = size (dt_mem st).
Proof.
  intros W. rewrite <-size_dom, <-(size_list_to_set (C := gset addr) l) by apply W. f_equal. apply set_eq. intros x.
  rewrite elem_of_list_to_set, elem_of_dom. apply W.
Qed.

(** A tracker closes, with or without its peer: it is unlinked and freed. *)
Lemma close_ok st l a t : trackers_ok st l -> dt_mem st !! a = Some t -> forall v, exists st',
  device_tracker_close a (put_dt a (with_peer v t) st) = Ok st' /\ trackers_ok st' (filter (fun b => b <> a) l)
  /\ dt_log st' = dt_log st ++ (match v with Some peer => [Closed peer] | None => [] end) /\ (forall b, b <> a -> peer_of st' b = peer_of st b)
  /\ (forall b, b <> a -> (fun t => (dt_peer t, dt_update_needed t)) <$> dt_mem st' !! b = (fun t => (dt_peer t, dt_update_needed t)) <$> dt_mem st !! b).
Proof.
  intros W Ha v. unfold device_tracker_close, get_dt. cbn [dt_mem put_dt]. rewrite lookup_insert_eq. cbn [access res_bind dt_peer with_peer].
  set (st1 := match v with Some peer => log (Closed peer) _ | None => _ end).
  assert (dt_mem st1 = <[a := with_peer v t]> (dt_mem st) /\ device_tracker_list st1 = device_tracker_list st
    /\ dt_log st1 = dt_log st ++ (match v with Some peer => [Closed peer] | None => [] end)) as (Hm & Hlist & Hlog) by (unfold st1; destruct v; cbn; rewrite ?app_nil_r; done).
  assert (size (dt_mem st1) = length l) as Hsize by (rewrite Hm, map_size_insert_Some by eauto; by rewrite (chain_size st l)).
  unfold device_tracker_remove. rewrite Hsize.
  destruct (remove_loop_ok a l (length l) st1 None (device_tracker_list st1)) as (st2 & -> & Hlog2 & Hrest & _ & _ & Hc); [|apply W|done|apply (to_mem _ _ W); eauto|done|done|].
  { rewrite Hm, Hlist. eapply chain_ext; [|apply W]. intros b _. destruct (decide (a = b)) as [<-|]; [by rewrite lookup_insert_eq, Ha|by rewrite lookup_insert_ne]. }
  assert (forall b, b <> a -> (fun t => (dt_peer t, dt_update_needed t)) <$> dt_mem st2 !! b = (fun t => (dt_peer t, dt_update_needed t)) <$> dt_mem st !! b) as Hkeep.
  { intros b Hb. rewrite Hrest, Hm. by rewrite lookup_insert_ne by (by apply not_eq_sym). }
  cbn [res_bind]. eexists. split; [reflexivity|]. cbn [dt_mem dt_log device_tracker_list]. split; [|split; [by rewrite Hlog2|split]].
  - split; cbn [dt_mem device_tracker_list].
    + eapply chain_ext; [|exact Hc]. intros b [Hb _]%list_elem_of_filter. by rewrite lookup_delete_ne by (by apply not_eq_sym).
    + apply NoDup_filter, W.
    + intros b. rewrite list_elem_of_filter, (to_mem _ _ W). destruct (decide (b = a)) as [->|Hb]; [rewrite lookup_delete_eq; split; [by intros []|by intros []]|].
      rewrite lookup_delete_ne by (by apply not_eq_sym). specialize (Hkeep b Hb). split.
      * intros [_ [tb Hb']]. rewrite Hb' in Hkeep. destruct (dt_mem st2 !! b); [eauto|done].
      * intros [tb Hb']. rewrite Hb' in Hkeep. destruct (dt_mem st !! b); [split; [done|eauto]|done].
    + intros b tb Hb'. destruct (decide (b = a)) as [->|Hb]; [by rewrite lookup_delete_eq in Hb'|]. rewrite lookup_delete_ne in Hb' by (by apply not_eq_sym).
      specialize (Hkeep b Hb). rewrite Hb' in Hkeep. destruct (dt_mem st !! b) as [tb'|] eqn:Hst; [|done]. injection Hkeep as Hpeer _. rewrite Hpeer. by eapply to_peer.
  - intros b Hb. unfold peer_of. cbn. rewrite lookup_delete_ne by (by apply not_eq_sym). specialize (Hkeep b Hb).
    destruct (dt_mem st2 !! b), (dt_mem st !! b); try done. injection Hkeep as -> _. done.
  - intros b Hb. rewrite lookup_delete_ne by (by apply not_eq_sym). by apply Hkeep.
Qed.

Lemma chain_head m h l : chain m h l -> h = head l.
Proof. by destruct l; [|intros [-> _]]. Qed.

Lemma chain_next m h pre a l : chain m h (pre ++ a :: l) -> exists t, m !! a = Some t /\ dt_next t = head l.
Proof.
  revert h. induction pre as [|b pre IH]; intros h; cbn; [|by intros [_ (t & _ & Hc%IH)]]. intros [_ (t & Ht & Hc)]. exists t. split; [done|]. by eapply chain_head.
Qed.

Lemma log_ok st l e : trackers_ok st l -> trackers_ok (log e st) l.
Proof. intros [H1 H2 H3 H4]. by split. Qed.

Lemma tracker_create_ok st l a peer : trackers_ok st l -> dt_mem st !! a = None -> trackers_ok (create_device_tracker a peer st) (a :: l).
Proof.
  intros W Ha. assert (a ∉ l) as Hl by (intros [t Ht]%(to_mem _ _ W); congruence). split; cbn.
  - split; [done|]. eexists. rewrite lookup_insert_eq. split; [done|]. cbn. eapply chain_ext; [|apply W]. intros b Hb. rewrite lookup_insert_ne; [done|]. by intros <-.
  - apply NoDup_cons. split; [done|apply W].
  - intros b. rewrite elem_of_cons, (to_mem _ _ W). destruct (decide (a = b)) as [<-|Hne]; [rewrite lookup_insert_eq|rewrite lookup_insert_ne by done]; split; eauto. intros [->|?]; done.
  - intros b t. destruct (decide (a = b)) as [<-|Hne]; [rewrite lookup_insert_eq; intros [= <-]; by eexists|rewrite lookup_insert_ne by done; apply W].
Qed.

Section Updates.
Context (broken : addr -> bool) (msg : bytes).

(** A packet to a tracker reaches its peer; when that closes, the tracker is gone. *)
Lemma tracker_send_ok st l a : trackers_ok st l -> a ∈ l -> exists st', device_tracker_send broken a msg st = Ok st'
  /\ trackers_ok st' (if broken (peer_of st a) then filter (fun b => b <> a) l else l)
  /\ dt_log st' = dt_log st ++ [Given (peer_of st a) msg] /\ (forall b, b <> a -> peer_of st' b = peer_of st b).
Proof.
  intros W Ha. apply (to_mem _ _ W) in Ha as [t Ht]. destruct (to_peer _ _ W a t Ht) as [peer Hpeer]. unfold device_tracker_send, get_dt.
  assert (peer_of st a = peer) as -> by (unfold peer_of; by rewrite Ht, Hpeer). rewrite Ht. cbn [access res_bind]. rewrite Hpeer. cbn [access res_bind].
  destruct (broken peer); [|eexists; split; [reflexivity|]; split; [by apply log_ok|done]].
  destruct (close_ok (log (Given peer msg) st) l a t (log_ok _ _ _ W) Ht None) as (st' & -> & W' & Hlog & Hp & _). exists st'. split; [done|]. split; [done|].
  split; [by rewrite Hlog, app_nil_r|done].
Qed.

Lemma trackers_loop_ok l : forall fuel pre st, trackers_ok st (pre ++ l) -> (length l <= fuel)%nat -> exists st', trackers_loop broken fuel (head l) msg st = Ok st'
  /\ trackers_ok st' (pre ++ filter (fun a => broken (peer_of st a) = false) l) /\ dt_log st' = dt_log st ++ map (fun a => Given (peer_of st a) msg) l.
Proof.
  induction l as [|a l IH]; intros fuel pre st W Hl.
  { exists st. split; [by destruct fuel|]. rewrite app_nil_r in W. cbn. by rewrite !app_nil_r. }
  destruct fuel as [|fuel]; [cbn in Hl; lia|]. cbn [head trackers_loop length] in *. destruct (chain_next _ _ _ _ _ (to_chain _ _ W)) as (t & Ht & Hnext).
  unfold get_dt at 1. rewrite Ht. cbn [access res_bind]. cbv zeta. rewrite Hnext.
  pose proof (to_nodup _ _ W) as [Hnin Hnd]%NoDup_middle. apply not_elem_of_app in Hnin as [Hpre Hal].
  destruct (tracker_send_ok st (pre ++ a :: l) a W) as (st1 & -> & W1 & Hlog & Hp); [apply elem_of_app; right; by left|]. cbn [res_bind].
  assert (forall (k : list addr), a ∉ k -> map (fun a => Given (peer_of st1 a) msg) k = map (fun a => Given (peer_of st a) msg) k
    /\ filter (fun a => broken (peer_of st1 a) = false) k = filter (fun a => broken (peer_of st a) = false) k) as Hsame.
  { induction k as [|b k IHk]; [done|]. intros [Hba Hk]%not_elem_of_cons. cbn [map]. rewrite !filter_cons. destruct (IHk Hk) as [-> ->]. by rewrite Hp by (by apply not_eq_sym). }
  destruct (Hsame l Hal) as [Hmap Hfilter]. rewrite filter_cons. destruct (broken (peer_of st a)) eqn:Hb.
  - rewrite decide_False by done. assert (filter (fun b => b <> a) (pre ++ a :: l) = pre ++ l) as Hf.
    { rewrite filter_app, filter_cons, decide_False by (intros H; by apply H). by rewrite !filter_same by (intros x Hx ->; done). }
    rewrite Hf in W1.
    destruct (IH fuel pre st1 W1 ltac:(lia)) as (st' & -> & W' & Hlog'). exists st'. rewrite Hfilter in W'. split; [done|]. split; [done|].
    by rewrite Hlog', Hlog, Hmap, <-app_assoc.
  - rewrite decide_True by done. rewrite cons_middle, app_assoc in W1. destruct (IH fuel (pre ++ [a]) st1 W1 ltac:(lia)) as (st' & -> & W' & Hlog').
    exists st'. rewrite Hfilter, <-app_assoc in W'. split; [done|]. split; [done|]. by rewrite Hlog', Hlog, Hmap, <-app_assoc.
Qed.
End Updates.

(** C12: A change of the transports: every tracker is given the list of devices,
    once and in the order of the list, even when some are closed and freed on
    the way; these are gone afterwards, and the others are as they were. *)
Theorem update_reaches_all broken ts st l : trackers_ok st l -> exists st', update_transports broken ts st = Ok st'
  /\ trackers_ok st' (filter (fun a => broken (peer_of st a) = false) l)
  /\ dt_log st' = dt_log st ++ map (fun a => Given (peer_of st a) (list_transports_msg ts 1024)) l.
Proof.
  intros W. unfold update_transports. rewrite (chain_head _ _ _ (to_chain _ _ W)). apply (trackers_loop_ok broken _ l _ [] st W).
  by rewrite (chain_size _ _ W).
Qed.

(** The other operations, on the list. *)
Theorem trackers_list broken ts st l a : trackers_ok st l ->
  (forall peer, dt_mem st !! a = None -> trackers_ok (create_device_tracker a peer st) (a :: l))
  /\ (a ∈ l -> exists st', device_tracker_enqueue a st = Ok (-1, st') /\ trackers_ok st' (filter (fun b => b <> a) l) /\ dt_log st' = dt_log st ++ [Closed (peer_of st a)])
  /\ (forall t, dt_mem st !! a = Some t -> exists st', device_tracker_ready broken a ts st = Ok st'
      /\ trackers_ok st' (if dt_update_needed t && broken (peer_of st a) then filter (fun b => b <> a) l else l)
      /\ dt_log st' = dt_log st ++ (if dt_update_needed t then [Given (peer_of st a) (list_transports_msg ts 1024)] else [])).
Proof.
  intros W. split; [|split].
  - intros peer Ha. by apply tracker_create_ok.
  - intros [t Ht]%(to_mem _ _ W). destruct (to_peer _ _ W a t Ht) as [peer Hpeer]. destruct (close_ok st l a t W Ht (dt_peer t)) as (st' & E1 & W' & Hlog & _).
    assert (put_dt a (with_peer (dt_peer t) t) st = st) as Hid by (unfold put_dt; replace (with_peer (dt_peer t) t) with t by (by destruct t); rewrite insert_id by done; by destruct st).
    rewrite Hid in E1. unfold device_tracker_enqueue. rewrite E1. cbn [res_bind]. eexists. split; [reflexivity|]. split; [done|]. rewrite Hlog. unfold peer_of. by rewrite Ht, Hpeer.
  - intros t Ht. unfold device_tracker_ready, get_dt. rewrite Ht. cbn [access res_bind]. destruct (dt_update_needed t); [|exists st; by rewrite app_nil_r].
    cbn [andb]. set (st1 := put_dt a (updated t) st). assert (trackers_ok st1 l) as W1.
    { split; cbn.
      - eapply chain_ext; [|apply W]. intros b _. destruct (decide (a = b)) as [<-|]; [by rewrite lookup_insert_eq, Ht|by rewrite lookup_insert_ne].
      - apply W.
      - intros b. rewrite (to_mem _ _ W). destruct (decide (a = b)) as [<-|]; [rewrite lookup_insert_eq, Ht|by rewrite lookup_insert_ne]. by split; eexists.
      - intros b tb. destruct (decide (a = b)) as [<-|]; [rewrite lookup_insert_eq; intros [= <-]; cbn; by eapply to_peer|rewrite lookup_insert_ne by done; apply W]. }
    assert (peer_of st1 a = peer_of st a) as Hp by (unfold peer_of; cbn; by rewrite lookup_insert_eq, Ht).
    destruct (tracker_send_ok broken (list_transports_msg ts 1024) st1 l a W1) as (st' & -> & W' & Hlog & _); [apply (to_mem _ _ W); eauto|]. rewrite Hp in *. by exists st'.
Qed.

(** Three clients, of which the one in the middle went away. *)
Definition no_trackers : trackers := Trackers ∅ None [].
Definition three_trackers : trackers := create_device_tracker 3 30 (create_device_tracker 2 20 (create_device_tracker 1 10 no_trackers)).

Lemma no_trackers_ok : trackers_ok no_trackers [].
Proof.
  split; cbn; try done; [apply NoDup_nil_2|]. intros a. rewrite lookup_empty. split; [by intros ?%elem_of_nil|by intros []].
Qed.

Lemma three_trackers_ok : trackers_ok three_trackers [3; 2; 1]%nat.
Proof.
  apply tracker_create_ok; [apply tracker_create_ok; [apply tracker_create_ok; [apply no_trackers_ok|done]|done]|done].
Qed.

Lemma update_reaches_all_witness : exists st', update_transports (fun p => bool_decide (p = 20%nat)) [] three_trackers = Ok st'
  /\ dt_log st' = [Given 30 (lit "0000"); Given 20 (lit "0000"); Given 10 (lit "0000")] /\ device_tracker_list st' = Some 3%nat.
Proof.
  destruct (update_reaches_all (fun p => bool_decide (p = 20%nat)) [] three_trackers [3; 2; 1]%nat three_trackers_ok) as (st' & E & W & H).
  exists st'. split; [exact E|]. split; [exact H|]. destruct W as [[H1 _] _ _ _]. exact H1.
Defined.

Lemma trackers_list_witness : exists st', device_tracker_enqueue 2 three_trackers = Ok (-1, st') /\ trackers_ok st' [3; 1]%nat /\ dt_log st' = [Closed 20].
Proof. apply (trackers_list (fun _ => false) [] three_trackers [3; 2; 1]%nat 2 three_trackers_ok). by right; left. Defined.
