(* ===== verification/TransportLife.v ===== *)
(** * The life of a transport (transport.c)

    A transport is made by whoever finds a device, put on the list of transports
    by the main loop, served by two threads, and freed by the main loop when
    both are gone.  What is modelled is this protocol: the two rings of
    transports as the pointer writes of Dlist.v make them, the socket of
    registrations, the counter of references, the flag of kicking, the threads
    as they interleave, and the descriptors, which the process shares.  What the
    transport carries meanwhile is the matter of the other files. *)

From S2P Require Import Prelude Dlist World.

(** The part of a transport that belongs to one kind: [t->usb] until
    [usb_close], and [t->sfd]. *)
Inductive link := LUsb (usb : option Z) | LSocket (sfd : Z).

Record tnode := TNode {
  tn_link : link;
  tn_serial : option bytes;
  tn_connection_state : Z;
  tn_ref_count : Z;
  tn_kicked : bool;
  tn_fd : Z;
  tn_transport_socket : Z
}.
Definition with_link (l : link) (x : tnode) : tnode :=
  TNode l (tn_serial x) (tn_connection_state x) (tn_ref_count x) (tn_kicked x) (tn_fd x) (tn_transport_socket x).
Definition with_refs (n : Z) (x : tnode) : tnode :=
  TNode (tn_link x) (tn_serial x) (tn_connection_state x) n (tn_kicked x) (tn_fd x) (tn_transport_socket x).
Definition with_kick (x : tnode) : tnode :=
  TNode (tn_link x) (tn_serial x) (tn_connection_state x) (tn_ref_count x) true (tn_fd x) (tn_transport_socket x).
Definition with_pair (s0 s1 : Z) (x : tnode) : tnode :=
  TNode (tn_link x) (tn_serial x) (tn_connection_state x) 2 (tn_kicked x) s1 s0.

(** Where a thread of a transport is: in its loop; before the test of
    [t->kicked], the lock, and the call of [t->kick] in [kick_transport]; before
    [transport_unref]; gone. *)
Inductive pc := Looping | KickTest | KickLock | KickCall | Unref | Gone.
#[export] Instance pc_eq_dec : EqDecision pc. Proof. solve_decision. Defined.

(** [m.action] of a [tmsg]. *)
Inductive act := Removed | Added.
#[export] Instance act_eq_dec : EqDecision act. Proof. solve_decision. Defined.

Record life := Life {
  lf_mem : gmap addr tnode;
  lf_heap : heap;                        (* next and prev *)
  lf_queue : list (addr * act);          (* the socket of registrations *)
  lf_threads : gmap addr (pc * pc);      (* output_thread and input_thread *)
  lf_open : gmap Z (option addr);        (* the open descriptors, and whose *)
  lf_kicks : list addr;                  (* the calls of t->kick *)
  lf_brk : addr
}.

Definition transport_list : addr := 1%nat.
Definition pending_list : addr := 2%nat.

Definition get_t (st : life) (t : addr) : res tnode := access (lf_mem st !! t).
Definition put_t (t : addr) (x : tnode) (st : life) : life :=
  Life (<[t := x]> (lf_mem st)) (lf_heap st) (lf_queue st) (lf_threads st) (lf_open st) (lf_kicks st) (lf_brk st).
Definition with_heap (h : heap) (st : life) : life :=
  Life (lf_mem st) h (lf_queue st) (lf_threads st) (lf_open st) (lf_kicks st) (lf_brk st).
Definition with_queue (q : list (addr * act)) (st : life) : life :=
  Life (lf_mem st) (lf_heap st) q (lf_threads st) (lf_open st) (lf_kicks st) (lf_brk st).
Definition with_threads (m : gmap addr (pc * pc)) (st : life) : life :=
  Life (lf_mem st) (lf_heap st) (lf_queue st) m (lf_open st) (lf_kicks st) (lf_brk st).
Definition with_open (m : gmap Z (option addr)) (st : life) : life :=
  Life (lf_mem st) (lf_heap st) (lf_queue st) (lf_threads st) m (lf_kicks st) (lf_brk st).
Definition log_kick (t : addr) (st : life) : life :=
  Life (lf_mem st) (lf_heap st) (lf_queue st) (lf_threads st) (lf_open st) (lf_kicks st ++ [t]) (lf_brk st).

(** [calloc] and [free]. *)
Definition alloc_t (x : tnode) (st : life) : life :=
  Life (<[lf_brk st := x]> (lf_mem st)) (<[lf_brk st := Node NULL NULL]> (lf_heap st)) (lf_queue st) (lf_threads st)
    (lf_open st) (lf_kicks st) (S (lf_brk st)).
Definition free_t (t : addr) (st : life) : life :=
  Life (delete t (lf_mem st)) (delete t (lf_heap st)) (lf_queue st) (lf_threads st) (lf_open st) (lf_kicks st) (lf_brk st).

(** [adb_close]: the descriptor is closed, whosever it is. *)
Definition adb_close (fd : Z) (st : life) : life := with_open (delete fd (lf_open st)) st.

(** ** Kicking and closing (transport_usb.c, transport_local.c) *)

(** [t->kick(t)] *)
Definition remote_kick (t : addr) (st : life) : res life :=
  let* x := get_t st t in
  match tn_link x with
  | LUsb None => Ub
  | LUsb (Some _) => Ok (log_kick t st)
  | LSocket sfd => Ok (adb_close sfd (log_kick t (put_t t (with_link (LSocket (-1)) x) st)))
  end.

(** [t->close(t)] *)
Definition remote_close (t : addr) (st : life) : res life :=
  let* x := get_t st t in
  match tn_link x with
  | LUsb None => Ub
  | LUsb (Some _) => Ok (put_t t (with_link (LUsb None) x) st)
  | LSocket _ => Ok (adb_close (tn_fd x) st)
  end.

(** The three parts of [kick_transport], between which other threads run: each
    gives the next one, or [Unref] when it returns. *)
Definition kick_test (t : addr) (st : life) : res (pc * life) :=
  let* x := get_t st t in Ok (if tn_kicked x then (Unref, st) else (KickLock, st)).
Definition kick_lock (t : addr) (st : life) : res (pc * life) :=
  let* x := get_t st t in
  Ok (if tn_kicked x then (Unref, st) else (KickCall, put_t t (with_kick x) st)).

(** The same without an interruption, as the main loop calls it. *)
Definition kick_transport (t : addr) (st : life) : res life :=
  let* x := get_t st t in
  if tn_kicked x then Ok st else remote_kick t (put_t t (with_kick x) st).

Definition remove_transport (t : addr) (st : life) : life := with_queue (lf_queue st ++ [(t, Removed)]) st.
Definition register_transport (t : addr) (st : life) : life := with_queue (lf_queue st ++ [(t, Added)]) st.

Definition transport_unref (t : addr) (st : life) : res life :=
  let* x := get_t st t in
  let n := tn_ref_count x - 1 in
  let st := put_t t (with_refs n x) st in
  if bool_decide (n = 0) then
    let* st := kick_transport t st in
    let* st := remote_close t st in
    Ok (remove_transport t st)
  else Ok st.

(** ** Threads *)

(** A step of a thread that is at [p]; a turn of its loop reads the transport,
    and any turn may be the last. *)
Definition thread_step (t : addr) (p : pc) (leave : bool) (st : life) : res (pc * life) :=
  match p with
  | Looping => let* _ := get_t st t in Ok (if leave then KickTest else Looping, st)
  | KickTest => kick_test t st
  | KickLock => kick_lock t st
  | KickCall => let* st := remote_kick t st in Ok (Unref, st)
  | Unref => let* st := transport_unref t st in Ok (Gone, st)
  | Gone => Blocked
  end.

Definition run_thread (t : addr) (output leave : bool) (st : life) : res life :=
  match lf_threads st !! t with
  | None => Blocked
  | Some (o, i) =>
      let* ' (p, st) := thread_step t (if output then o else i) leave st in
      Ok (with_threads (<[t := if output then (p, i) else (o, p)]> (lf_threads st)) st)
  end.

(** ** Registration *)

(** The lists of transports have at most as many nodes as were ever made. *)
Definition list_fuel (st : life) : nat := S (lf_brk st).

Definition find_in (list : addr) (p : tnode -> bool) (st : life) : res (option addr) :=
  let* s := rd_next (lf_heap st) list in
  find_from (list_fuel st) (lf_heap st) (fun t => match lf_mem st !! t with Some x => p x | None => false end) s list.

Definition has_serial (serial : bytes) (x : tnode) : bool := bool_decide (tn_serial x = Some serial).

Definition register_usb_transport (usb : Z) (serial : option bytes) (writeable : bool) (st : life) : res life :=
  let t := lf_brk st in
  let st := alloc_t (TNode (LUsb (Some usb)) serial (if writeable then CS_OFFLINE else CS_NOPERM) 0 false 0 0) st in
  let* h := insert_tail (lf_heap st) t pending_list in
  Ok (register_transport t (with_heap h st)).

(** The transport of the socket [s], which is refused when its serial is taken. *)
Definition register_socket_transport (s : Z) (serial : bytes) (st : life) : res (Z * life) :=
  let t := lf_brk st in
  let st := alloc_t (TNode (LSocket s) None CS_OFFLINE 0 false 0 0) st in
  let* n := find_in pending_list (has_serial serial) st in
  match n with
  | Some _ => Ok (-1, free_t t st)
  | None =>
      let* n := find_in transport_list (has_serial serial) st in
      match n with
      | Some _ => Ok (-1, free_t t st)
      | None =>
          let* h := insert_tail (lf_heap st) t pending_list in
          let st := put_t t (TNode (LSocket s) (Some serial) CS_OFFLINE 0 false 0 0) (with_heap h st) in
          Ok (0, register_transport t st)
      end
  end.

(** A message of the socket of registrations; [s0] and [s1] are the descriptors
    of the socket pair.  The threads are started before the transport is on its
    list, but they do not look at the lists. *)
Definition transport_registration_func (s0 s1 : Z) (st : life) : res life :=
  match lf_queue st with
  | [] => Blocked
  | (t, Removed) :: q =>
      let st := with_queue q st in
      let* x := get_t st t in
      let st := adb_close (tn_fd x) (adb_close (tn_transport_socket x) st) in
      let* h := unlink_transport (lf_heap st) t in
      Ok (free_t t (with_heap h st))
  | (t, Added) :: q =>
      let st := with_queue q st in
      let* x := get_t st t in
      let st :=
        if bool_decide (tn_connection_state x <> CS_NOPERM) then
          with_open (<[s0 := Some t]> (<[s1 := Some t]> (lf_open st)))
            (with_threads (<[t := (Looping, Looping)]> (lf_threads st)) (put_t t (with_pair s0 s1 x) st))
        else st in
      let* h := unlink_transport (lf_heap st) t in
      let* h := insert_tail h t transport_list in
      Ok (with_heap h st)
  end.

(** ** What the host can ask for *)

Definition find_transport (serial : bytes) (st : life) : res (option addr) :=
  find_in transport_list (has_serial serial) st.

Definition unregister_transport (t : addr) (st : life) : res life :=
  let* h := unlink_transport (lf_heap st) t in
  let* st := kick_transport t (with_heap h st) in
  transport_unref t st.

(** A transport that nothing else refers to. *)
Definition unregister_usb_transport (usb : Z) (st : life) : res life :=
  let mine x := match tn_link x with
                | LUsb (Some u) => bool_decide (u = usb) && bool_decide (tn_connection_state x = CS_NOPERM)
                | _ => false
                end in
  let* n := find_in transport_list mine st in
  match n with
  | Some t => let* h := unlink_transport (lf_heap st) t in Ok (with_heap h st)
  | None => Ok st
  end.

(** ** Interleavings *)

Inductive action :=
  | RegisterUsb (usb : Z) (serial : option bytes) (writeable : bool)
  | RegisterSocket (s : Z) (serial : bytes)
  | Register (s0 s1 : Z)
  | Thread (t : addr) (output leave : bool)
  | UnregisterUsb (usb : Z)
  | Disconnect (serial : bytes)
  | Open (fd : Z).

Definition run_action (a : action) (st : life) : res life :=
  match a with
  | RegisterUsb usb serial writeable => register_usb_transport usb serial writeable st
  | RegisterSocket s serial =>
      match lf_open st !! s with
      | Some _ => Blocked
      | None => let* ' (_, st) := register_socket_transport s serial (with_open (<[s := None]> (lf_open st)) st) in Ok st
      end
  | Register s0 s1 =>
      if bool_decide (s0 <> s1 /\ lf_open st !! s0 = None /\ lf_open st !! s1 = None)
      then transport_registration_func s0 s1 st else Blocked
  | Thread t output leave => run_thread t output leave st
  | UnregisterUsb usb => unregister_usb_transport usb st
  | Disconnect serial =>
      let* n := find_transport serial st in
      match n with Some t => unregister_transport t st | None => Ok st end
  | Open fd => match lf_open st !! fd with Some _ => Blocked | None => Ok (with_open (<[fd := None]> (lf_open st)) st) end
  end.

Definition no_transports : life :=
  Life ∅ {[transport_list := Node transport_list transport_list; pending_list := Node pending_list pending_list]} [] ∅ ∅ [] 3%nat.

(** Runs in which the host disconnects nothing. *)
Definition peaceful (a : action) : Prop := match a with Disconnect _ => False | _ => True end.
Definition life_step (st st' : life) : Prop := exists a, peaceful a /\ run_action a st = Ok st'.
Definition alive (st : life) : Prop := rtc life_step no_transports st.

Fixpoint run_actions (l : list action) (st : life) : res life :=
  match l with [] => Ok st | a :: l => let* st := run_action a st in run_actions l st end.

(** ** The invariant *)

Definition link_open (x : tnode) : Prop := tn_link x <> LUsb None.
Definition live (p : pc) : Z := if decide (p = Gone) then 0 else 1.
Definition through (p : pc) : Prop := p = Unref \/ p = Gone.

(** A transport [x] whose threads are at [q] and [r]; [kicked] tells whether
    [t->kick] was called: one call is made by the thread that set the flag,
    no thread is past the kick before the flag is set, and once it is set the
    call was made or is about to be. *)
Record served (x : tnode) (kicked : Prop) (q r : pc) : Prop := Served {
  sv_refs : tn_ref_count x = live q + live r;
  sv_state : tn_connection_state x <> CS_NOPERM;
  sv_link : q <> Gone \/ r <> Gone -> link_open x;
  sv_logged : kicked -> tn_kicked x = true /\ q <> KickCall /\ r <> KickCall;
  sv_call : q = KickCall \/ r = KickCall -> tn_kicked x = true;
  sv_one : q = KickCall -> r <> KickCall;
  sv_through : through q \/ through r -> tn_kicked x = true;
  sv_flag : tn_kicked x = true -> kicked \/ q = KickCall \/ r = KickCall
}.

(** What holds of the transport [t], the list of transports being [l] and the
    pending list [p]. *)
Definition node_ok (l p : list addr) (st : life) (t : addr) : Prop :=
  match lf_threads st !! t with
  | None =>
      (t, Removed) ∉ lf_queue st /\ t ∉ lf_kicks st /\ ((t, Added) ∈ lf_queue st <-> t ∈ p)
      /\ (t ∈ p -> exists x, lf_mem st !! t = Some x /\ tn_kicked x = false /\ link_open x)
      /\ (t ∈ l -> exists x, lf_mem st !! t = Some x /\ tn_connection_state x = CS_NOPERM)
      /\ (forall x, lf_mem st !! t = Some x -> t ∈ p \/ tn_connection_state x = CS_NOPERM)
  | Some (o, i) =>
      t ∉ p /\ (t, Added) ∉ lf_queue st /\
      match lf_mem st !! t with
      | Some x => t ∈ l /\ served x (t ∈ lf_kicks st) o i /\ ((t, Removed) ∈ lf_queue st <-> o = Gone /\ i = Gone)
      | None => o = Gone /\ i = Gone /\ t ∉ l /\ (t, Removed) ∉ lf_queue st
      end
  end.

Record life_ok (l p : list addr) (st : life) : Prop := LifeOk {
  lk_list : ring (lf_heap st) transport_list l;
  lk_pending : ring (lf_heap st) pending_list p;
  lk_apart a : a ∈ transport_list :: l -> a ∉ pending_list :: p;
  lk_nodes a : is_Some (lf_heap st !! a) <-> a = transport_list \/ a = pending_list \/ is_Some (lf_mem st !! a);
  lk_brk a : is_Some (lf_heap st !! a) \/ is_Some (lf_threads st !! a) \/ a ∈ lf_kicks st
    \/ a ∈ map fst (lf_queue st) -> (a < lf_brk st)%nat;
  lk_queue : NoDup (lf_queue st);
  lk_kicks : NoDup (lf_kicks st);
  lk_node t : node_ok l p st t
}.

(** * Theorems *)

(** ** Rings *)

Lemma ring_frame h h' hd l : (forall x, x ∈ hd :: l -> h' !! x = h !! x) -> ring h hd l -> ring h' hd l.
Proof.
  intros H (Hnd & Hnull & Hs). split; [done|]. split; [done|]. revert Hs. apply seg_frame; intros x n Hx Hn; exists n;
    (split; [rewrite H; [done|]|done]); rewrite elem_of_cons; naive_solver.
Qed.

Lemma ring_insert h hd l s : ring h hd l -> s ∉ hd :: l -> s <> NULL -> is_Some (h !! s) ->
  exists h', insert_tail h s hd = Ok h' /\ ring h' hd (l ++ [s]) /\ (forall x, x ∉ s :: hd :: l -> h' !! x = h !! x)
  /\ forall x, is_Some (h' !! x) <-> is_Some (h !! x).
Proof.
  intros Hr Hf Hn Hs. destruct (insert_tail_appended h hd l s Hr Hf Hs) as (h' & E & Ha). exists h'.
  split; [done|]. split; [by apply (appended_ring h)|]. destruct (insert_nodes h hd l s Hr Hf Hs) as (ns & nh & nz & Hns & Hnh & Hnz & _ & _).
  destruct Ha as (z & Hz & Ha). rewrite Hnh in Hz. injection Hz as <-. split; intros x.
  - intros Hx. rewrite Ha. apply not_elem_of_cons in Hx as [Hxs Hx]. rewrite decide_False by done. destruct (h !! x) as [[nx pv]|]; [|done]. cbn.
    rewrite !decide_False; [done|set_solver|]. intros ->. destruct Hr as (_ & _ & Hseg). destruct (seg_prev _ _ _ _ Hseg) as (n & Hn' & Hp).
    assert (n = nh) as -> by congruence. apply Hx. rewrite Hp. destruct (last l) as [y|] eqn:Hl; [|by left].
    right. by apply last_Some_elem_of.
  - rewrite Ha. destruct (decide (x = s)) as [->|]; [rewrite Hns; split; by eexists|]. by rewrite fmap_is_Some.
Qed.

Lemma ring_unlink h hd l s : ring h hd l -> s ∈ l ->
  exists h', unlink_transport h s = Ok h' /\ ring h' hd (filter (fun a => a <> s) l) /\ (forall x, x ∉ hd :: l -> h' !! x = h !! x)
  /\ forall x, is_Some (h' !! x) <-> is_Some (h !! x).
Proof.
  intros Hr Hs. apply list_elem_of_split in Hs as (l1 & l2 & ->). destruct (unlink_ok _ _ _ _ _ Hr) as (h' & n & E & Hn & Hn' & Hu & Hnx & Hpv).
  exists h'. rewrite (unlink_transport_same _ _ _ _ _ Hr). split; [done|]. pose proof (unlinked_ring _ _ _ _ _ _ Hr Hu) as Hr'.
  destruct Hr as (Hnd & _). apply (NoDup_middle (hd :: l1)) in Hnd as [Hout _].
  assert (filter (fun a => a <> s) (l1 ++ s :: l2) = l1 ++ l2) as ->.
  { rewrite filter_app, filter_cons, decide_False by auto. f_equal; apply filter_same; intros x Hx ->; apply Hout; set_solver. }
  split; [done|]. destruct Hu as (m & Hm & Hu). assert (m = n) as -> by congruence. split; intros x.
  - intros Hx. rewrite Hu by set_solver. destruct (h !! x) as [[nx pv]|]; [|done]. cbn. rewrite !decide_False; [done|intros ->; set_solver..].
  - destruct (decide (x = s)) as [->|Hx]; [rewrite Hn, Hn'; split; by eexists|]. rewrite Hu by done. by rewrite fmap_is_Some.
Qed.

(** ** Threads *)

Lemma served_sym x K q r : served x K q r -> served x K r q.
Proof.
  intros [H1 H2 H3 H4 H5 H6 H7 H8]. split; [lia|done|tauto|tauto|tauto| |tauto|tauto]. intros Hr Hq. by apply H6.
Qed.

(** What a step of a thread does to the state: to its transport [t], to the
    socket of registrations, and to the log of kicks. *)
Definition stepped (st : life) (t : addr) (x : tnode) (qs : list (addr * act)) (ks : list addr) (op : gmap Z (option addr)) : life :=
  Life (<[t := x]> (lf_mem st)) (lf_heap st) (lf_queue st ++ qs) (lf_threads st) op (lf_kicks st ++ ks) (lf_brk st).

Lemma stepped_none st t x : lf_mem st !! t = Some x -> stepped st t x [] [] (lf_open st) = st.
Proof. intros H. unfold stepped. rewrite insert_id, !app_nil_r by done. by destruct st. Qed.

(** Both threads are gone. *)
Definition over (q r : pc) : Prop := q = Gone /\ r = Gone.

(** The outcome of a step of a thread whose other thread is at [r]. *)
Definition steps_to (st : life) (t : addr) (r : pc) (m : res (pc * life)) : Prop :=
  exists q x qs ks op, m = Ok (q, stepped st t x qs ks op)
  /\ ((ks = [] /\ served x (t ∈ lf_kicks st) q r) \/ (ks = [t] /\ t ∉ lf_kicks st /\ served x True q r))
  /\ ((qs = [] /\ ~ over q r) \/ (qs = [(t, Removed)] /\ over q r)).

(** A step that only moves the thread and sets the flag. *)
Lemma quiet_step st t x q r m : lf_mem st !! t <> None -> q <> Gone -> served x (t ∈ lf_kicks st) q r ->
  m = Ok (q, put_t t x st) -> steps_to st t r m.
Proof.
  intros Hx Hq Hs ->. exists q, x, [], [], (lf_open st). split; [unfold stepped; by rewrite !app_nil_r|].
  split; left; (split; [done|]); [done|by intros [? _]].
Qed.

Lemma put_same st t x : lf_mem st !! t = Some x -> put_t t x st = st.
Proof. intros H. unfold put_t. rewrite insert_id by done. by destruct st. Qed.

Ltac serve := split; unfold through, link_open in *; cbn; try done; intuition (congruence || lia).

Lemma kick_call st t x r : lf_mem st !! t = Some x -> served x (t ∈ lf_kicks st) KickCall r ->
  steps_to st t r (let* st := remote_kick t st in Ok (Unref, st)).
Proof.
  intros Hx [Hr Hst Hl Hlog Hcall Hone Hthr Hflag]. assert (link_open x) as Hlink by (apply Hl; by left).
  assert (t ∉ lf_kicks st) as Hnk by (intros (_ & ? & _)%Hlog; done).
  unfold remote_kick, get_t. rewrite Hx. cbn [access res_bind]. unfold link_open in Hlink. destruct (tn_link x) as [[u|]|sfd] eqn:El; [|done|]; cbn [res_bind].
  - exists Unref, x, [], [t], (lf_open st). split; [unfold stepped, log_kick; by rewrite app_nil_r, insert_id|].
    split; [right; split; [done|]; split; [done|]; serve|left; split; [done|by intros [? _]]].
  - exists Unref, (with_link (LSocket (-1)) x), [], [t], (delete sfd (lf_open st)). split; [unfold stepped; cbn; by rewrite app_nil_r|].
    split; [right; split; [done|]; split; [done|]; serve|left; split; [done|by intros [? _]]].
Qed.

Lemma unref_call st t x r : lf_mem st !! t = Some x -> served x (t ∈ lf_kicks st) Unref r ->
  steps_to st t r (let* st := transport_unref t st in Ok (Gone, st)).
Proof.
  intros Hx [Hr Hst Hl Hlog Hcall Hone Hthr Hflag]. assert (tn_kicked x = true) as Hk by (apply Hthr; left; by left).
  assert (link_open x) as Hlink by (apply Hl; by left). unfold transport_unref, get_t. rewrite Hx. cbn [access res_bind]. cbv zeta.
  replace (tn_ref_count x - 1) with (live r) by (rewrite Hr; change (live Unref) with 1; lia).
  case_bool_decide as Hz; unfold live in Hz |- *; case_decide as Hrg; try done.
  - subst r. unfold kick_transport, remote_close, get_t. cbn [put_t lf_mem]. rewrite lookup_insert_eq. cbn [access res_bind with_refs tn_kicked]. rewrite Hk. cbn [res_bind lf_mem put_t].
    rewrite lookup_insert_eq. cbn [access res_bind with_refs tn_link]. unfold link_open in Hlink. destruct (tn_link x) as [[u|]|sfd] eqn:El; [|done|]; cbn [res_bind].
    + eexists Gone, _, [(t, Removed)], [], (lf_open st). split; [unfold stepped, remove_transport, with_queue; cbn; rewrite app_nil_r, insert_insert_eq; reflexivity|].
      split; [left; split; [done|]; serve|by right].
    + eexists Gone, _, [(t, Removed)], [], (delete (tn_fd x) (lf_open st)). split; [unfold stepped, remove_transport, with_queue, adb_close; cbn; rewrite app_nil_r; reflexivity|].
      split; [left; split; [done|]; serve|by right].
  - eexists Gone, _, [], [], (lf_open st). split; [unfold stepped; cbn; rewrite !app_nil_r; reflexivity|].
    split; left; (split; [done|]); [|by intros [_ ?]]. assert (live r = 1) by (unfold live; by rewrite decide_False). serve.
Qed.

Lemma thread_core st t x q r leave : lf_mem st !! t = Some x -> served x (t ∈ lf_kicks st) q r -> q <> Gone ->
  steps_to st t r (thread_step t q leave st).
Proof.
  intros Hx Hs Hq. unfold thread_step, kick_test, kick_lock, get_t. destruct q; [| | |by apply (kick_call st t x)|by apply (unref_call st t x)|done];
    rewrite Hx; cbn [access res_bind]; destruct Hs as [Hr Hst Hl Hlog Hcall Hone Hthr Hflag].
  - apply (quiet_step _ _ x (if leave then KickTest else Looping)); [congruence|by destruct leave| |by rewrite put_same]. destruct leave; serve.
  - apply (quiet_step _ _ x (if tn_kicked x then Unref else KickLock)); [congruence|by destruct (tn_kicked x)| |rewrite put_same by done; by destruct (tn_kicked x)].
    destruct (tn_kicked x) eqn:Hk; serve.
  - destruct (tn_kicked x) eqn:Hk.
    + apply (quiet_step _ _ x Unref); [congruence|done| |by rewrite put_same]. serve.
    + apply (quiet_step _ _ (with_kick x) KickCall); [congruence|done| |done]. serve.
Qed.

(** A transport that nothing is done to. *)
Lemma node_frame l p l' p' st st' t : lf_threads st' !! t = lf_threads st !! t -> lf_mem st' !! t = lf_mem st !! t ->
  (t ∈ lf_kicks st' <-> t ∈ lf_kicks st) -> (forall a, (t, a) ∈ lf_queue st' <-> (t, a) ∈ lf_queue st) ->
  (t ∈ l' <-> t ∈ l) -> (t ∈ p' <-> t ∈ p) -> node_ok l p st t -> node_ok l' p' st' t.
Proof.
  intros Ht Hm Hk Hq Hl Hp. unfold node_ok. rewrite Ht, Hm. destruct (lf_threads st !! t) as [[o i]|].
  - rewrite Hq, Hp. destruct (lf_mem st !! t); rewrite Hq, Hl; [|done].
    intros (H1 & H2 & H3 & [? ? ? ? ? ? ? ?] & H5). split_and!; try done. split; try done; by rewrite Hk.
  - intros (H1 & H2 & H3 & H4 & H5 & H6). rewrite !Hq, Hk, Hp, Hl. split_and!; try done. intros x Hx. rewrite Hp. by apply H6.
Qed.

Lemma run_thread_ok l p st t output leave : life_ok l p st ->
  run_thread t output leave st = Blocked \/ exists st', run_thread t output leave st = Ok st' /\ life_ok l p st'.
Proof.
  intros L. unfold run_thread. destruct (lf_threads st !! t) as [[o i]|] eqn:Ht; [|by left].
  pose proof (lk_node _ _ _ L t) as Hn. unfold node_ok in Hn. rewrite Ht in Hn. destruct Hn as (Hp & Hadd & Hn).
  set (q := if output then o else i). set (r := if output then i else o).
  destruct (decide (q = Gone)) as [Hq|Hq]; [left; by rewrite Hq|]. right.
  destruct (lf_mem st !! t) as [x|] eqn:Hx; [|exfalso; apply Hq; unfold q; destruct output; tauto].
  destruct Hn as (Hl & Hs & Hrem). assert (served x (t ∈ lf_kicks st) q r) as Hs' by (unfold q, r; destruct output; [done|by apply served_sym]).
  destruct (thread_core st t x q r leave Hx Hs' Hq) as (q' & x' & qs & ks & op & -> & Hks & Hqs). cbn [res_bind]. eexists. split; [reflexivity|].
  assert (~ over o i) as Hnover by (unfold q, over in *; destruct output; tauto).
  assert ((t, Removed) ∉ lf_queue st) as Hnr by (rewrite Hrem; exact Hnover).
  assert (forall b a, b <> t -> (b, a) ∈ lf_queue st ++ qs <-> (b, a) ∈ lf_queue st) as Hqo.
  { intros b a Hb. rewrite elem_of_app. destruct Hqs as [[-> _]|[-> _]]; [set_solver|]. rewrite list_elem_of_singleton. naive_solver. }
  assert (forall b, b <> t -> b ∈ lf_kicks st ++ ks <-> b ∈ lf_kicks st) as Hko.
  { intros b Hb. rewrite elem_of_app. destruct Hks as [[-> _]|(-> & _ & _)]; [set_solver|]. rewrite list_elem_of_singleton. naive_solver. }
  destruct L as [L1 L2 L3 L4 L5 L6 L7 L8]. split; cbn [stepped with_threads lf_heap lf_queue lf_threads lf_kicks lf_brk lf_mem]; try done.
  - intros a. rewrite L4, lookup_insert_is_Some. destruct (decide (t = a)) as [<-|]; [rewrite Hx|]; naive_solver.
  - intros a Ha. apply L5. destruct (decide (a = t)) as [->|Hne]; [right; left; eauto|]. rewrite lookup_insert_ne, Hko in Ha by done.
    destruct Ha as [?|[?|[?|((b & c) & -> & Hb)%list_elem_of_fmap]]]; [by left|by right; left|by right; right; left|].
    right; right; right. apply list_elem_of_fmap. exists (b, c). split; [done|]. by apply (Hqo b c).
  - destruct Hqs as [[-> _]|[-> _]]; [by rewrite app_nil_r|]. apply NoDup_app. split_and!; [done| |apply NoDup_singleton]. intros y Hy ->%list_elem_of_singleton. done.
  - destruct Hks as [[-> _]|(-> & Hk & _)]; [by rewrite app_nil_r|]. apply NoDup_app. split_and!; [done| |apply NoDup_singleton]. intros y Hy ->%list_elem_of_singleton. done.
  - intros b. destruct (decide (b = t)) as [->|Hne].
    + unfold node_ok. cbn [stepped with_threads lf_threads lf_mem lf_queue lf_kicks]. rewrite !lookup_insert_eq.
      assert (served x' (t ∈ lf_kicks st ++ ks) q' r) as Hs2.
      { destruct Hks as [[-> H]|(-> & _ & H)]; [by rewrite app_nil_r|]. destruct H as [? ? ? H4 ? ? ? ?]. split; try done; [intros _; by apply H4|].
        intros _. left. apply elem_of_app. right. by left. }
      assert ((t, Removed) ∈ lf_queue st ++ qs <-> over q' r) as Hrem2.
      { rewrite elem_of_app. destruct Hqs as [[-> H]|[-> H]]; [set_solver|]. rewrite list_elem_of_singleton. tauto. }
      assert ((t, Added) ∉ lf_queue st ++ qs) as Hadd2.
      { rewrite elem_of_app. destruct Hqs as [[-> H]|[-> H]]; [set_solver|]. rewrite list_elem_of_singleton. by intros [?|?]. }
      unfold over in Hrem2. destruct output; cbn [fst snd]; (split; [done|]; split; [done|]; split; [done|]; split; [|by rewrite Hrem2; tauto]); [done|by apply served_sym].
    + apply (node_frame l p l p st); cbn; try done; rewrite ?lookup_insert_ne by done; auto.
Qed.

(** ** The other steps *)

(** More addresses used up, and other descriptors. *)
Lemma life_ok_again l p st st' : lf_mem st' = lf_mem st -> lf_heap st' = lf_heap st -> lf_queue st' = lf_queue st ->
  lf_threads st' = lf_threads st -> lf_kicks st' = lf_kicks st -> (lf_brk st <= lf_brk st')%nat -> life_ok l p st -> life_ok l p st'.
Proof.
  intros E1 E2 E3 E4 E5 Hb [L1 L2 L3 L4 L5 L6 L7 L8]. split; rewrite ?E1, ?E2, ?E3, ?E4, ?E5; try done.
  - intros a Ha. specialize (L5 a Ha). lia.
  - intros t. apply (node_frame l p l p st); by rewrite ?E1, ?E3, ?E4, ?E5.
Qed.

Lemma length_below (l : list addr) n : NoDup l -> (forall a, a ∈ l -> (a < n)%nat) -> (length l <= n)%nat.
Proof.
  intros Hnd Hb. assert (length (seq 0 n) = n) as <- by apply length_seq. apply submseteq_length, NoDup_submseteq; [done|].
  intros a Ha. apply elem_of_seq. split; [lia|]. by apply Hb.
Qed.

Lemma find_in_ok hd l pr st : ring (lf_heap st) hd l -> (forall a, is_Some (lf_heap st !! a) -> (a < lf_brk st)%nat) ->
  exists o, find_in hd pr st = Ok o /\ forall t, o = Some t -> t ∈ l /\ exists x, lf_mem st !! t = Some x /\ pr x = true.
Proof.
  intros Hr Hb. pose proof Hr as (Hnd & _ & Hseg). apply NoDup_cons in Hnd as [Hhd Hnd].
  assert (length l <= lf_brk st)%nat as Hlen.
  { apply length_below; [done|]. intros a Ha. apply Hb. eapply ring_live; [exact Hr|by right]. }
  unfold find_in. rewrite (find_from_spec _ _ _ l (list_fuel st) hd Hseg Hhd) by (unfold list_fuel; lia). eexists. split; [reflexivity|].
  intros t Hf. apply List.find_some in Hf as [Hin Hp]. split; [by apply list_elem_of_In|]. destruct (lf_mem st !! t) as [x|]; [eauto|done].
Qed.

Lemma brk_fresh l p st : life_ok l p st -> let n := lf_brk st in
  lf_mem st !! n = None /\ lf_heap st !! n = None /\ lf_threads st !! n = None /\ n ∉ lf_kicks st /\ (forall a, (n, a) ∉ lf_queue st)
  /\ n ∉ transport_list :: l /\ n ∉ pending_list :: p /\ n <> NULL.
Proof.
  intros L n. assert (forall P : Prop, (P -> (n < lf_brk st)%nat) -> ~ P) as Hno by (intros P H HP; specialize (H HP); unfold n in H; lia).
  assert (lf_heap st !! n = None) as Hh by (apply eq_None_not_Some, Hno; intros H; apply (lk_brk _ _ _ L); by left).
  split_and!; try done.
  - apply eq_None_not_Some. intros H. assert (is_Some (lf_heap st !! n)) as [? ?] by (apply (lk_nodes _ _ _ L); tauto). congruence.
  - apply eq_None_not_Some, Hno. intros H. apply (lk_brk _ _ _ L). tauto.
  - apply Hno. intros H. apply (lk_brk _ _ _ L). tauto.
  - intros a. apply Hno. intros H. apply (lk_brk _ _ _ L). right; right; right. apply list_elem_of_fmap. by exists (n, a).
  - intros H. destruct (ring_live _ _ _ _ (lk_list _ _ _ L) H). congruence.
  - intros H. destruct (ring_live _ _ _ _ (lk_pending _ _ _ L) H). congruence.
  - intros H. assert (transport_list < lf_brk st)%nat as Ht; [|unfold n in H; unfold transport_list, NULL in *; lia]. apply (lk_brk _ _ _ L). left. eapply ring_live; [apply (lk_list _ _ _ L)|by left].
Qed.

(** A new transport is put on the pending list and announced. *)
Lemma announce_ok l p st x0 x op : life_ok l p st -> tn_kicked x = false -> link_open x -> let n := lf_brk st in
  exists h, insert_tail (lf_heap (alloc_t x0 st)) n pending_list = Ok h
  /\ life_ok l (p ++ [n]) (Life (<[n := x]> (lf_mem st)) h (lf_queue st ++ [(n, Added)]) (lf_threads st) op (lf_kicks st) (S n)).
Proof.
  intros L Hk Hl n. destruct (brk_fresh _ _ _ L) as (Hm & Hh & Ht & Hkk & Hq & Hnl & Hnp & Hnull). fold n in Hm, Hh, Ht, Hkk, Hq, Hnl, Hnp, Hnull.
  assert (forall a, a ∈ transport_list :: l \/ a ∈ pending_list :: p -> lf_heap (alloc_t x0 st) !! a = lf_heap st !! a) as Hsame.
  { intros a Ha. cbn. rewrite lookup_insert_ne; [done|]. fold n. intros <-. destruct Ha; done. }
  assert (ring (lf_heap (alloc_t x0 st)) pending_list p) as Hrp by (apply (ring_frame (lf_heap st)); [intros a Ha; apply Hsame; by right|apply (lk_pending _ _ _ L)]).
  destruct (ring_insert _ _ _ n Hrp Hnp Hnull) as (h & E & Hr & Hf & Hd); [cbn; fold n; rewrite lookup_insert_eq; by eexists|]. exists h. split; [done|].
  destruct L as [L1 L2 L3 L4 L5 L6 L7 L8]. split; cbn [lf_heap lf_queue lf_threads lf_kicks lf_brk lf_mem]; try done.
  - apply (ring_frame (lf_heap st)); [|done]. intros a Ha. rewrite Hf; [apply Hsame; by left|]. apply not_elem_of_cons. split; [by intros ->|by apply L3].
  - intros a Ha. rewrite app_comm_cons. intros [H|H%list_elem_of_singleton]%elem_of_app; [by eapply L3|]. by subst a.
  - intros a. rewrite Hd. cbn. fold n. rewrite !lookup_insert_is_Some', L4. tauto.
  - intros a Ha. destruct (decide (a = n)) as [->|Hne]; [lia|]. assert (a < n)%nat; [|lia]. apply L5. rewrite Hd in Ha. cbn in Ha. fold n in Ha.
    rewrite lookup_insert_ne, map_app, elem_of_app in Ha by done. cbn in Ha. rewrite list_elem_of_singleton in Ha. tauto.
  - apply NoDup_app. split_and!; [done| |apply NoDup_singleton]. intros y Hy ->%list_elem_of_singleton. by apply (Hq Added).
  - intros t. destruct (decide (t = n)) as [->|Hne].
    + unfold node_ok. cbn. rewrite Ht, lookup_insert_eq. split_and!.
      * rewrite elem_of_app, list_elem_of_singleton. intros [?|?]; [by apply (Hq Removed)|done].
      * done.
      * rewrite !elem_of_app, !list_elem_of_singleton. naive_solver.
      * eauto.
      * intros Hin. exfalso. apply Hnl. by right.
      * intros y [= <-]. left. apply elem_of_app. right. by left.
    + apply (node_frame l p l (p ++ [n]) st); cbn; try done; rewrite ?lookup_insert_ne by done; try done.
      * intros a. rewrite elem_of_app, list_elem_of_singleton. naive_solver.
      * rewrite elem_of_app, list_elem_of_singleton. naive_solver.
Qed.

Definition goes_on (m : res life) : Prop := exists st' l p, m = Ok st' /\ life_ok l p st'.

Lemma register_usb_ok l p st usb serial w : life_ok l p st -> goes_on (register_usb_transport usb serial w st).
Proof.
  intros L. unfold register_usb_transport. cbv zeta. set (x := TNode _ _ _ _ _ _ _).
  destruct (announce_ok l p st x x (lf_open st) L eq_refl ltac:(done)) as (h & -> & L'). cbn [res_bind]. by eexists _, _, _.
Qed.

Lemma register_socket_ok l p st s serial : life_ok l p st -> goes_on (let* ' (_, st) := register_socket_transport s serial st in Ok st).
Proof.
  intros L. unfold register_socket_transport. cbv zeta. set (x := TNode _ _ _ _ _ _ _). destruct (brk_fresh _ _ _ L) as (Hm & Hh & Ht & _ & _ & Hnl & Hnp & _).
  assert (forall hd k, ring (lf_heap st) hd k -> ring (lf_heap (alloc_t x st)) hd k) as Hring.
  { intros hd k Hr. apply (ring_frame (lf_heap st)); [|done]. intros a Ha. cbn. rewrite lookup_insert_ne; [done|]. intros <-.
    destruct (ring_live _ _ _ _ Hr Ha). congruence. }
  assert (forall a, is_Some (lf_heap (alloc_t x st) !! a) -> (a < lf_brk (alloc_t x st))%nat) as Hb.
  { intros a Ha. cbn in Ha |- *. apply lookup_insert_is_Some' in Ha as [<-|Ha]; [lia|]. assert (a < lf_brk st)%nat; [|lia]. apply (lk_brk _ _ _ L). by left. }
  assert (goes_on (Ok (free_t (lf_brk st) (alloc_t x st)))) as Hfree.
  { eexists _, l, p. split; [done|]. apply (life_ok_again l p st); cbn; try done; [by apply delete_insert_id..|lia]. }
  destruct (find_in_ok pending_list p (has_serial serial) (alloc_t x st)) as (o & -> & _); [by apply Hring, L|done|]. cbn [res_bind]. destruct o; [exact Hfree|].
  destruct (find_in_ok transport_list l (has_serial serial) (alloc_t x st)) as (o & -> & _); [by apply Hring, L|done|]. cbn [res_bind]. destruct o; [exact Hfree|].
  destruct (announce_ok l p st x (TNode (LSocket s) (Some serial) CS_OFFLINE 0 false 0 0) (lf_open st) L eq_refl ltac:(done)) as (h & -> & L'). cbn [res_bind].
  eexists _, _, _. split; [reflexivity|]. eapply life_ok_again; [..|exact L']; cbn; try done. by rewrite insert_insert_eq.
Qed.

(** A node goes from the pending list to the list of transports. *)
Lemma move_ok h l p t : ring h transport_list l -> ring h pending_list p -> (forall a, a ∈ transport_list :: l -> a ∉ pending_list :: p) -> t ∈ p ->
  let p' := filter (fun a => a <> t) p in
  exists h1 h2, unlink_transport h t = Ok h1 /\ insert_tail h1 t transport_list = Ok h2 /\ ring h2 transport_list (l ++ [t])
  /\ ring h2 pending_list p' /\ (forall a, a ∈ transport_list :: l ++ [t] -> a ∉ pending_list :: p')
  /\ forall a, is_Some (h2 !! a) <-> is_Some (h !! a).
Proof.
  intros Hl Hp Hap Htp p'. assert (t ∈ pending_list :: p) as Htp' by (by right).
  destruct (ring_unlink _ _ _ t Hp Htp) as (h1 & E1 & Hp1 & Hf1 & Hd1).
  assert (t ∉ transport_list :: l) as Htl by (intros H; by apply Hap in H).
  assert (ring h1 transport_list l) as Hl1 by (apply (ring_frame h); [intros a Ha; apply Hf1; by apply Hap|done]).
  assert (t <> NULL) as Hnull by (intros ->; by destruct Hp as (_ & Hno & _)).
  assert (t <> pending_list) as Htpl by (intros ->; destruct Hp as (Hno & _); by apply NoDup_cons in Hno as [? _]).
  destruct (ring_insert _ _ _ t Hl1 Htl Hnull) as (h2 & E2 & Hl2 & Hf2 & Hd2); [apply Hd1; by apply (ring_live _ _ _ _ Hp)|].
  assert (forall a, a ∈ pending_list :: p' -> a <> t /\ a ∈ pending_list :: p) as Hfilter.
  { intros a [->|[Ha Hin]%list_elem_of_filter]%elem_of_cons; [split; [done|by left]|split; [done|by right]]. }
  exists h1, h2. split_and!; try done.
  - apply (ring_frame h1); [|done]. intros a [Hat Ha]%Hfilter. apply Hf2. apply not_elem_of_cons. split; [done|]. intros H. by apply Hap in H.
  - intros a Ha [Hat Hin]%Hfilter. rewrite app_comm_cons in Ha. apply elem_of_app in Ha as [Ha|Ha%list_elem_of_singleton]; [by apply Hap in Ha|done].
  - intros a. by rewrite Hd2, Hd1.
Qed.

(** A message that announces a transport. *)
Lemma added_ok l p st t q s0 s1 : life_ok l p st -> lf_queue st = (t, Added) :: q -> goes_on (transport_registration_func s0 s1 st).
Proof.
  intros L Hqueue. unfold transport_registration_func. rewrite Hqueue. cbv zeta. pose proof (lk_node _ _ _ L t) as Hn. unfold node_ok in Hn.
  assert ((t, Added) ∈ lf_queue st) as Hin by (rewrite Hqueue; by left).
  destruct (lf_threads st !! t) as [[o i]|] eqn:Ht; [by destruct Hn as (_ & ? & _)|]. destruct Hn as (H1 & H2 & H3 & H4 & _).
  assert (t ∈ p) as Htp by (by apply H3). destruct (H4 Htp) as (x & Hx & Hk & Hl). unfold get_t. cbn [with_queue lf_mem]. rewrite Hx. cbn [access res_bind].
  destruct L as [L1 L2 L3 L4 L5 L6 L7 L8]. destruct (move_ok _ _ _ t L1 L2 L3 Htp) as (h1 & h2 & E1 & E2 & M1 & M2 & M3 & M4).
  rewrite Hqueue in L6. apply NoDup_cons in L6 as [Hnq Hq].
  assert (forall a b, (a, b) ∈ q <-> (a, b) ∈ lf_queue st /\ (a, b) <> (t, Added)) as Hmem.
  { intros a b. rewrite Hqueue, elem_of_cons. split; [intros H; split; [by right|by intros [= -> ->]]|intros [[?|?] ?]; done]. }
  set (p' := filter (fun a => a <> t) p) in *.
  assert (forall b, b <> t -> (b ∈ l ++ [t] <-> b ∈ l) /\ (b ∈ p' <-> b ∈ p)) as Hother.
  { intros b Hb. rewrite elem_of_app, list_elem_of_singleton. unfold p'. rewrite list_elem_of_filter. tauto. }
  assert (t ∉ p') as Htp' by (unfold p'; rewrite list_elem_of_filter; tauto). assert (t ∈ l ++ [t]) as Htl by (apply elem_of_app; right; by left).
  assert (forall st', lf_heap st' = h2 -> lf_queue st' = q -> lf_kicks st' = lf_kicks st -> lf_brk st' = lf_brk st ->
    (forall b, b <> t -> lf_mem st' !! b = lf_mem st !! b) -> is_Some (lf_mem st' !! t) -> (forall b, b <> t -> lf_threads st' !! b = lf_threads st !! b) ->
    node_ok (l ++ [t]) p' st' t -> goes_on (Ok st')) as Hdone.
  { intros st' Eh Eq Ek Eb Hmo Hmt Hto Hnode. eexists st', (l ++ [t]), p'. split; [done|]. split; rewrite ?Eh, ?Eq, ?Ek, ?Eb; try done.
    - intros a. rewrite M4, L4. destruct (decide (a = t)) as [->|Hne]; [|by rewrite Hmo]. rewrite Hx. naive_solver.
    - intros a. rewrite M4. intros Ha. apply L5. destruct (decide (a = t)) as [->|Hne]; [left; apply L4; rewrite Hx; eauto|]. rewrite Hto in Ha by done.
      rewrite Hqueue, map_cons, elem_of_cons. tauto.
    - intros b. destruct (decide (b = t)) as [->|Hne]; [done|]. destruct (Hother b Hne). apply (node_frame l p _ _ st); rewrite ?Eq, ?Ek; auto.
      intros a. rewrite Hmem. naive_solver. }
  case_bool_decide as Hst; cbn [with_open with_threads put_t with_queue with_heap lf_mem lf_heap lf_queue lf_threads lf_open lf_kicks lf_brk]; rewrite E1; cbn [res_bind]; rewrite E2; cbn [res_bind];
    (apply Hdone; cbn; try done; intros; rewrite ?lookup_insert_ne, ?lookup_insert_eq by done; eauto); unfold node_ok; cbn; rewrite ?lookup_insert_eq, ?Ht, ?Hx.
  - split; [done|]. split; [done|]. split; [done|]. split; [serve|]. rewrite Hmem. split; [tauto|by intros [? _]].
  - split; [rewrite Hmem; tauto|]. split; [done|]. split; [tauto|]. split; [done|]. split; [eauto|]. intros y [= <-]. by right.
Qed.

(** A node leaves the list of transports. *)
Lemma leave_ok h l p t : ring h transport_list l -> ring h pending_list p -> (forall a, a ∈ transport_list :: l -> a ∉ pending_list :: p) -> t ∈ l ->
  let l' := filter (fun a => a <> t) l in
  exists h1, unlink_transport h t = Ok h1 /\ ring h1 transport_list l' /\ ring h1 pending_list p /\ t ∉ transport_list :: l' /\ t ∉ pending_list :: p
  /\ (forall a, a ∈ transport_list :: l' -> a ∉ pending_list :: p) /\ forall a, is_Some (h1 !! a) <-> is_Some (h !! a).
Proof.
  intros Hl Hp Hap Ht l'. destruct (ring_unlink _ _ _ t Hl Ht) as (h1 & E1 & Hl1 & Hf1 & Hd1). exists h1.
  assert (t ∉ pending_list :: p) as Htp by (apply Hap; by right).
  assert (t <> transport_list) as Hne by (intros ->; destruct Hl as (Hno & _); by apply NoDup_cons in Hno as [? _]).
  assert (forall a, a ∈ transport_list :: l' -> a <> t /\ a ∈ transport_list :: l) as Hfilter.
  { intros a [->|[Ha Hin]%list_elem_of_filter]%elem_of_cons; [split; [done|by left]|split; [done|by right]]. }
  split_and!; try done.
  - apply (ring_frame h); [|done]. intros a Ha. apply Hf1. intros H. by apply Hap in H.
  - by intros [? _]%Hfilter.
  - intros a [_ Ha]%Hfilter. by apply Hap.
Qed.

(** A message that removes a transport. *)
Lemma removed_ok l p st t q s0 s1 : life_ok l p st -> lf_queue st = (t, Removed) :: q ->
  exists st' l', transport_registration_func s0 s1 st = Ok st' /\ life_ok l' p st' /\ lf_mem st' !! t = None
  /\ lf_queue st' = q /\ lf_threads st' = lf_threads st.
Proof.
  intros L Hqueue. unfold transport_registration_func. rewrite Hqueue. cbv zeta. pose proof (lk_node _ _ _ L t) as Hn. unfold node_ok in Hn.
  assert ((t, Removed) ∈ lf_queue st) as Hin by (rewrite Hqueue; by left).
  destruct (lf_threads st !! t) as [[o i]|] eqn:Ht; [|by destruct Hn as (? & _)]. destruct Hn as (H1 & H2 & Hn). unfold get_t. cbn [with_queue lf_mem].
  destruct (lf_mem st !! t) as [x|] eqn:Hx; [|by destruct Hn as (_ & _ & _ & ?)]. destruct Hn as (Htl & _ & Hover). apply Hover in Hin as [-> ->]. clear Hover.
  destruct L as [L1 L2 L3 L4 L5 L6 L7 L8]. destruct (leave_ok _ _ _ t L1 L2 L3 Htl) as (h1 & E1 & M1 & M2 & M3 & M4 & M5 & M6).
  rewrite Hqueue in L6. apply NoDup_cons in L6 as [Hnq Hq]. cbn [access res_bind adb_close with_open lf_heap]. cbn [with_queue lf_heap]. rewrite E1. cbn [res_bind].
  set (l' := filter (fun a => a <> t) l) in *. eexists _, l'. split; [reflexivity|].
  assert (forall a, a <> t -> delete t h1 !! a = h1 !! a) as Hdel by (intros a Ha; by rewrite lookup_delete_ne).
  assert (forall a b, (a, b) ∈ q <-> (a, b) ∈ lf_queue st /\ (a, b) <> (t, Removed)) as Hmem.
  { intros a b. rewrite Hqueue, elem_of_cons. split; [intros H; split; [by right|by intros [= -> ->]]|intros [[?|?] ?]; done]. }
  split; [|split; [cbn; by rewrite lookup_delete_eq|done]].
  split; cbn [free_t with_heap with_queue adb_close with_open lf_mem lf_heap lf_queue lf_threads lf_kicks lf_brk]; try done.
  - apply (ring_frame h1); [|done]. intros a Ha. apply Hdel. by intros ->.
  - apply (ring_frame h1); [|done]. intros a Ha. apply Hdel. by intros ->.
  - intros a. destruct (decide (a = t)) as [->|Hne]; [rewrite !lookup_delete_eq|rewrite !lookup_delete_ne, M6, L4 by done; done].
    apply not_elem_of_cons in M3, M4. split; [by intros []|]. intros [?|[?|[]]]; tauto || done.
  - intros a Ha. apply L5. rewrite Hqueue, map_cons, elem_of_cons. destruct (decide (a = t)) as [->|Hne]; [right; left; by rewrite Ht|].
    rewrite Hdel, M6 in Ha by done. tauto.
  - intros b. destruct (decide (b = t)) as [->|Hne].
    + unfold node_ok. cbn. rewrite Ht, lookup_delete_eq. split; [done|]. split; [rewrite Hmem; tauto|]. split; [done|]. split; [done|].
      split; [|done]. intros H. apply M3. by right.
    + apply (node_frame l p _ _ st); cbn; try done; rewrite ?lookup_delete_ne by done; try done.
      * intros a. rewrite Hmem. naive_solver.
      * unfold l'. rewrite list_elem_of_filter. tauto.
Qed.

Lemma unregister_usb_ok l p st usb : life_ok l p st -> goes_on (unregister_usb_transport usb st).
Proof.
  intros L. unfold unregister_usb_transport. cbv zeta.
  destruct (find_in_ok transport_list l (fun x => match tn_link x with LUsb (Some u) => bool_decide (u = usb) && bool_decide (tn_connection_state x = CS_NOPERM) | _ => false end) st)
    as (o & -> & Ho); [apply L|intros a Ha; apply (lk_brk _ _ _ L); by left|]. cbn [res_bind]. destruct o as [t|]; [|by eexists _, _, _].
  destruct (Ho t eq_refl) as (Htl & x & Hx & Hm). assert (tn_connection_state x = CS_NOPERM) as Hs.
  { destruct (tn_link x) as [[u|]|]; try done. apply andb_true_iff in Hm as [_ Hm]. by apply bool_decide_eq_true in Hm. }
  destruct L as [L1 L2 L3 L4 L5 L6 L7 L8]. destruct (leave_ok _ _ _ t L1 L2 L3 Htl) as (h1 & E1 & M1 & M2 & M3 & M4 & M5 & M6). rewrite E1. cbn [res_bind].
  eexists _, _, p. split; [reflexivity|]. split; cbn; try done; [intros a; by rewrite M6|intros a; rewrite M6; apply L5|].
  intros b. destruct (decide (b = t)) as [->|Hne].
  - pose proof (L8 t) as Hn. unfold node_ok in *. cbn. rewrite Hx in *. destruct (lf_threads st !! t) as [[o i]|]; [by destruct Hn as (_ & _ & _ & [] & _)|].
    destruct Hn as (H1 & H2 & H3 & H4 & H5 & H6). split_and!; try done. intros H. exfalso. apply M3. by right.
  - apply (node_frame l p _ _ st); cbn; try done. rewrite list_elem_of_filter. tauto.
Qed.

Lemma action_ok l p st a : life_ok l p st -> peaceful a -> run_action a st = Blocked \/ goes_on (run_action a st).
Proof.
  intros L Ha. assert (forall op, life_ok l p (with_open op st)) as Hop by (intros op; by apply (life_ok_again l p st)).
  destruct a as [usb serial w|s serial|s0 s1|t output leave|usb|serial|fd]; cbn [run_action]; [| | | | |done|].
  - right. by apply (register_usb_ok l p).
  - destruct (lf_open st !! s); [by left|]. right. by apply (register_socket_ok l p).
  - case_bool_decide; [|by left]. destruct (lf_queue st) as [|[t []] q] eqn:Hq; [left; unfold transport_registration_func; by rewrite Hq|right..].
    + destruct (removed_ok l p st t q s0 s1 L Hq) as (st' & l' & E1 & L' & _). by exists st', l', p.
    + by apply (added_ok l p st t q).
  - destruct (run_thread_ok l p st t output leave L) as [?|(st' & E1 & L')]; [by left|right]. by exists st', l, p.
  - right. by apply (unregister_usb_ok l p).
  - destruct (lf_open st !! fd); [by left|right]. by eexists _, l, p.
Qed.

Lemma no_transports_ok : life_ok [] [] no_transports.
Proof.
  assert (forall hd, hd = transport_list \/ hd = pending_list -> ring (lf_heap no_transports) hd []) as Hring.
  { intros hd Hhd. split; [apply NoDup_singleton|]. split; [|by destruct Hhd as [-> | ->]; split; eexists].
    rewrite list_elem_of_singleton. by destruct Hhd as [-> | ->]. }
  split; [by apply Hring; left|by apply Hring; right| | | |constructor|constructor|].
  - intros a ->%list_elem_of_singleton. by intros ?%list_elem_of_singleton.
  - intros a. cbn. rewrite !lookup_insert_is_Some', !lookup_empty. unfold pending_list. split.
    + intros [<-|[<-|[? ?]]]; [auto..|done].
    + intros [->|[->|[? ?]]]; [auto..|done].
  - intros a. cbn. rewrite !lookup_insert_is_Some', !lookup_empty, !elem_of_nil. unfold transport_list.
    intros [[<-|[<-|[? ?]]]|[[? ?]|[[]|[]]]]; done || lia.
  - intros t. unfold node_ok. cbn. rewrite !lookup_empty, !elem_of_nil. split_and!; try done; by intros [].
Qed.

Lemma alive_ok st : alive st -> exists l p, life_ok l p st.
Proof.
  intros H. assert (exists l p, life_ok l p no_transports) as H0 by (exists [], []; exact no_transports_ok).
  revert H0. unfold alive in H. induction H as [|st st1 st' (a & Ha & E1) _ IH]; [done|]. intros (l & p & L). apply IH.
  destruct (action_ok l p st a L Ha) as [E2|(st2 & l2 & p2 & E2 & L2)]; [congruence|]. exists l2, p2. congruence.
Qed.

(** C4: However the threads of the transports, the threads that find devices and the
    main loop interleave, as long as no client disconnects a device: no step
    touches a transport that was freed, a transport is kicked at most once, and
    it is freed only when both of its threads are gone. *)
Theorem life_safe st : alive st ->
  (forall a, peaceful a -> run_action a st <> Ub /\ run_action a st <> Exit)
  /\ NoDup (lf_kicks st)
  /\ (forall t o i, lf_threads st !! t = Some (o, i) -> lf_mem st !! t = None -> o = Gone /\ i = Gone).
Proof.
  intros H. destruct (alive_ok st H) as (l & p & L). split; [|split].
  - intros a Ha. destruct (action_ok l p st a L Ha) as [->|(st' & l' & p' & -> & _)]; done.
  - apply L.
  - intros t o i Ht Hm. pose proof (lk_node _ _ _ L t) as Hn. unfold node_ok in Hn. rewrite Ht, Hm in Hn. tauto.
Qed.

(** *** Every transport can end *)

(** The steps that a thread still has to make, at most. *)
Definition steps_left (q : pc) : nat := match q with Looping => 5 | KickTest => 4 | KickLock => 3 | KickCall => 2 | Unref => 1 | Gone => 0 end.

Lemma step_descends st t q leave q' st' : thread_step t q leave st = Ok (q', st') -> q <> Looping \/ leave = true ->
  (steps_left q' < steps_left q)%nat.
Proof.
  intros H Hor. destruct q; cbn [thread_step] in H; unfold kick_test, kick_lock in H; inv_ok; subst; cbn; try lia.
  1: destruct leave; [cbn; lia|by destruct Hor].
  all: destruct (tn_kicked _); simplify_eq; cbn; lia.
Qed.

Lemma step_leaves st t q q' st' : thread_step t q true st = Ok (q', st') -> (steps_left q' < steps_left q)%nat.
Proof. intros H. eapply step_descends; [exact H|by right]. Qed.

(** The steps of the transport [t], and the messages of the main loop. *)
Definition ending (t : addr) (a : action) : Prop :=
  match a with Thread u _ _ => u = t | Register _ _ => True | _ => False end.

Lemma ending_peaceful t a : ending t a -> peaceful a.
Proof. by destruct a. Qed.
Lemma run_alive a st st' : peaceful a -> alive st -> run_action a st = Ok st' -> alive st'.
Proof. intros Ha H E1. eapply rtc_r; [exact H|]. by exists a. Qed.

Lemma thread_moves l p st t o i (output : bool) : life_ok l p st -> lf_threads st !! t = Some (o, i) -> (if output then o else i) <> Gone ->
  exists st' o' i', run_action (Thread t output true) st = Ok st' /\ lf_threads st' !! t = Some (o', i')
  /\ (steps_left o' + steps_left i' < steps_left o + steps_left i)%nat.
Proof.
  intros L Ht Hq. pose proof (lk_node _ _ _ L t) as Hn. unfold node_ok in Hn. rewrite Ht in Hn. destruct Hn as (_ & _ & Hn).
  destruct (lf_mem st !! t) as [x|] eqn:Hx; [|exfalso; destruct output; tauto]. destruct Hn as (_ & Hs & _). cbn [run_action]. unfold run_thread. rewrite Ht.
  assert (served x (t ∈ lf_kicks st) (if output then o else i) (if output then i else o)) as Hs' by (destruct output; [done|by apply served_sym]).
  destruct (thread_core st t x _ _ true Hx Hs' Hq) as (q' & x' & qs & ks & op & E1 & _). pose proof (step_leaves _ _ _ _ _ E1) as Hle. rewrite E1. cbn [res_bind].
  eexists _, (if output then q' else o), (if output then i else q'). split; [reflexivity|]. cbn. rewrite lookup_insert_eq.
  destruct output; (split; [done|lia]).
Qed.

Lemma run_actions_app acts acts' st : run_actions (acts ++ acts') st = let* st := run_actions acts st in run_actions acts' st.
Proof.
  revert st. induction acts as [|a acts IH]; intros st; [done|]. cbn [run_actions app]. destruct (run_action a st); [cbn [res_bind]; apply IH|done..].
Qed.

Lemma threads_end t : forall n st o i, alive st -> lf_threads st !! t = Some (o, i) -> (steps_left o + steps_left i <= n)%nat ->
  exists acts st', Forall (ending t) acts /\ run_actions acts st = Ok st' /\ alive st' /\ lf_threads st' !! t = Some (Gone, Gone).
Proof.
  induction n as [|n IH]; intros st o i Ha Ht Hn; (destruct (decide (over o i)) as [[-> ->]|Hover]; [by exists [], st|]).
  - exfalso. apply Hover. by destruct o, i; cbn in Hn; try lia.
  - destruct (alive_ok st Ha) as (l & p & L). unfold over in Hover.
    assert (exists output : bool, (if output then o else i) <> Gone) as [output Hq] by (destruct (decide (o = Gone)); [exists false|exists true]; tauto).
    destruct (thread_moves l p st t o i output L Ht Hq) as (st1 & o1 & i1 & E1 & Ht1 & Hlt).
    destruct (IH st1 o1 i1) as (acts & st2 & Hacts & E2 & Ha2 & Ht2); [by apply (run_alive (Thread t output true) st)|done|lia|].
    exists (Thread t output true :: acts), st2. split; [by constructor|]. cbn [run_actions]. rewrite E1. done.
Qed.

(** A message of the main loop takes the first one, and starts at most the
    threads of a transport that had none. *)
Lemma message_ok l p st u a q : life_ok l p st -> lf_queue st = (u, a) :: q -> exists s0 s1 st',
  run_action (Register s0 s1) st = Ok st' /\ lf_queue st' = q /\ forall t, is_Some (lf_threads st !! t) -> lf_threads st' !! t = lf_threads st !! t.
Proof.
  intros L Hq. set (s0 := fresh (dom (lf_open st))). set (s1 := fresh ({[s0]} ∪ dom (lf_open st))).
  pose proof (is_fresh (dom (lf_open st))) as H0. pose proof (is_fresh ({[s0]} ∪ dom (lf_open st))) as H1. fold s0 in H0. fold s1 in H1.
  apply not_elem_of_union in H1 as [Hne H1]. apply not_elem_of_dom in H0, H1. apply not_elem_of_singleton in Hne.
  exists s0, s1. cbn [run_action]. rewrite bool_decide_true by (split; [by apply not_eq_sym|done]).
  destruct a.
  - destruct (removed_ok l p st u q s0 s1 L Hq) as (st' & l' & E1 & _ & _ & Hq' & Hthr). exists st'. rewrite Hthr. done.
  - destruct (added_ok l p st u q s0 s1 L Hq) as (st' & l' & p' & E1 & _). exists st'. split; [done|].
    pose proof (lk_node _ _ _ L u) as Hn. unfold node_ok in Hn. assert ((u, Added) ∈ lf_queue st) as Hin by (rewrite Hq; by left).
    destruct (lf_threads st !! u) eqn:Hu; [by destruct p0, Hn as (_ & ? & _)|]. revert E1. unfold transport_registration_func. rewrite Hq. cbv zeta. intros E1. inv_ok. subst st'.
    case_bool_decide; cbn; (split; [done|]); intros t [? Ht]; [|done]. rewrite lookup_insert_ne; [done|]. congruence.
Qed.

Lemma queue_drains t : forall q st, alive st -> lf_threads st !! t = Some (Gone, Gone) -> lf_queue st = q ->
  exists acts st', Forall (ending t) acts /\ run_actions acts st = Ok st' /\ alive st' /\ lf_threads st' !! t = Some (Gone, Gone) /\ lf_queue st' = [].
Proof.
  induction q as [|[u a] q IH]; intros st Ha Ht Hq; [by exists [], st|]. destruct (alive_ok st Ha) as (l & p & L).
  destruct (message_ok l p st u a q L Hq) as (s0 & s1 & st1 & E1 & Hq1 & Hthr).
  destruct (IH st1) as (acts & st2 & Hacts & E2 & H2); [by apply (run_alive (Register s0 s1) st)|rewrite Hthr; eauto|done|].
  exists (Register s0 s1 :: acts), st2. split; [by constructor|]. cbn [run_actions]. by rewrite E1.
Qed.

(** There is a way to the end: it is freed, and on no list any more. *)
Theorem transport_can_end st t : alive st -> is_Some (lf_threads st !! t) ->
  exists acts st', Forall (ending t) acts /\ run_actions acts st = Ok st' /\ lf_mem st' !! t = None
  /\ exists l p, ring (lf_heap st') transport_list l /\ ring (lf_heap st') pending_list p /\ t ∉ l ++ p.
Proof.
  intros Ha [[o i] Ht]. destruct (threads_end t _ st o i Ha Ht (le_n _)) as (acts & st1 & H1 & E1 & Ha1 & Ht1).
  destruct (queue_drains t _ st1 Ha1 Ht1 eq_refl) as (acts' & st2 & H2 & E2 & Ha2 & Ht2 & Hq).
  exists (acts ++ acts'), st2. split; [by apply Forall_app|]. rewrite run_actions_app, E1. split; [done|].
  destruct (alive_ok st2 Ha2) as (l & p & L). pose proof (lk_node _ _ _ L t) as Hn. unfold node_ok in Hn. rewrite Ht2, Hq in Hn.
  destruct Hn as (Hp & _ & Hn). destruct (lf_mem st2 !! t) as [x|] eqn:Hx.
  - destruct Hn as (_ & _ & Hn). exfalso. by apply (not_elem_of_nil (t, Removed)), Hn.
  - split; [done|]. exists l, p. split; [apply L|]. split; [apply L|]. rewrite not_elem_of_app. tauto.
Qed.

(** *** Every schedule ends them *)

(** An action that cannot be taken is passed over: a thread that is gone does
    not run, and no message is read when there is none. *)
Definition attempt (a : action) (st : life) : life := match run_action a st with Ok st' => st' | _ => st end.
Definition attempts (acts : list action) (st : life) : life := fold_left (fun st a => attempt a st) acts st.

(** What [t->kick] is for: the reads and writes of the device fail from then on,
    so that a turn of a loop after it is the last. *)
Fixpoint heeded (t : addr) (acts : list action) (st : life) : Prop :=
  match acts with
  | [] => True
  | a :: acts =>
      match a with Thread u _ leave => u = t -> t ∈ lf_kicks st -> leave = true | _ => True end
      /\ heeded t acts (attempt a st)
  end.

(** The turns that a thread of [t] is given, and the messages that are read. *)
Definition turn_of (t : addr) (b : bool) (a : action) : bool :=
  match a with Thread u o _ => bool_decide (u = t /\ o = b) | _ => false end.
Fixpoint turns (t : addr) (b : bool) (acts : list action) : nat :=
  match acts with [] => 0 | a :: acts => (if turn_of t b a then 1 else 0) + turns t b acts end.
Fixpoint messages (acts : list action) (st : life) : nat :=
  match acts with
  | [] => 0
  | a :: acts => (match a, run_action a st with Register _ _, Ok _ => 1 | _, _ => 0 end) + messages acts (attempt a st)
  end.

Lemma attempt_alive a st : peaceful a -> alive st -> alive (attempt a st).
Proof. intros Ha H. unfold attempt. destruct (run_action a st) eqn:E1; [by eapply run_alive|done..]. Qed.
Lemma attempts_alive acts : forall st, Forall peaceful acts -> alive st -> alive (attempts acts st).
Proof.
  induction acts as [|a acts IH]; intros st Hp H; [done|]. apply Forall_cons in Hp as [Ha Hp].
  apply IH; [done|by apply attempt_alive].
Qed.
Lemma attempts_app acts acts' st : attempts (acts ++ acts') st = attempts acts' (attempts acts st).
Proof. apply fold_left_app. Qed.
Lemma heeded_app t acts acts' : forall st, heeded t (acts ++ acts') st -> heeded t acts st /\ heeded t acts' (attempts acts st).
Proof. induction acts as [|a acts IH]; intros st; cbn [heeded app]; [done|]. intros [H1 [H2 H3]%IH]. done. Qed.

(** What an action other than a turn of a thread of [t] does to [t]. *)
Record apart (t : addr) (a : action) (st st' : life) : Prop := Apart {
  ap_threads : lf_threads st' !! t = lf_threads st !! t;
  ap_kicks : t ∈ lf_kicks st -> t ∈ lf_kicks st';
  ap_queue : match a with
             | Register _ _ => exists h, lf_queue st = h :: lf_queue st'
             | _ => exists qs, lf_queue st' = lf_queue st ++ qs /\ (t, Removed) ∉ qs
             end
}.

Lemma thread_apart st u output leave st' t : alive st -> u <> t -> run_thread u output leave st = Ok st' ->
  apart t (Thread u output leave) st st'.
Proof.
  intros H Hne E1. destruct (alive_ok st H) as (l & p & L). unfold run_thread in E1.
  destruct (lf_threads st !! u) as [[o i]|] eqn:Hu; [|done]. pose proof (lk_node _ _ _ L u) as Hn. unfold node_ok in Hn. rewrite Hu in Hn.
  set (q := if output then o else i) in *. destruct (decide (q = Gone)) as [Hg|Hg]; [by rewrite Hg in E1|].
  destruct Hn as (_ & _ & Hn). destruct (lf_mem st !! u) as [x|] eqn:Hx; [|exfalso; apply Hg; unfold q; destruct output; tauto].
  destruct Hn as (_ & Hs & _). assert (served x (u ∈ lf_kicks st) q (if output then i else o)) as Hs'
    by (unfold q; destruct output; [done|by apply served_sym]).
  destruct (thread_core st u x q _ leave Hx Hs' Hg) as (q' & x' & qs & ks & op & E2 & _ & Hqs). rewrite E2 in E1. cbn [res_bind] in E1.
  injection E1 as <-. split; cbn.
  - by rewrite lookup_insert_ne.
  - intros Hk. apply elem_of_app. by left.
  - exists qs. split; [done|]. destruct Hqs as [[-> _]|[-> _]]; [apply not_elem_of_nil|]. intros [= Heq]%list_elem_of_singleton. by destruct Hne.
Qed.

Lemma announce_apart st t a n st' : (forall s0 s1, a <> Register s0 s1) ->
  lf_threads st' = lf_threads st -> lf_kicks st' = lf_kicks st ->
  (lf_queue st' = lf_queue st \/ lf_queue st' = lf_queue st ++ [(n, Added)]) -> apart t a st st'.
Proof.
  intros Ha Ht Hk Hq. split; [by rewrite Ht|by rewrite Hk|].
  assert (exists qs, lf_queue st' = lf_queue st ++ qs /\ (t, Removed) ∉ qs) as H.
  { destruct Hq as [->| ->]; [exists []; rewrite app_nil_r; split; [done|apply not_elem_of_nil]|].
    eexists. split; [done|]. intros Hx%list_elem_of_singleton. discriminate Hx. }
  destruct a; try exact H. by destruct (Ha s0 s1).
Qed.

Lemma message_apart st t s0 s1 st' : alive st -> is_Some (lf_threads st !! t) ->
  transport_registration_func s0 s1 st = Ok st' -> apart t (Register s0 s1) st st'.
Proof.
  intros H [oi Ht] E1. destruct (alive_ok st H) as (l & p & L). unfold transport_registration_func in E1.
  destruct (lf_queue st) as [|[u []] q] eqn:Hq; [done|..]; cbv zeta in E1.
  - inv_ok. subst st'. split; cbn; [done|done|by eexists].
  - pose proof (lk_node _ _ _ L u) as Hn. unfold node_ok in Hn.
    assert (lf_threads st !! u = None) as Hu.
    { destruct (lf_threads st !! u) as [[o i]|]; [|done]. destruct Hn as (_ & Hno & _). destruct Hno. rewrite Hq. by left. }
    inv_ok. subst st'. case_bool_decide; (split; cbn; [|done|by eexists]); [|done].
    rewrite lookup_insert_ne; [done|]. congruence.
Qed.

Lemma action_apart a st st' t : alive st -> peaceful a -> is_Some (lf_threads st !! t) -> run_action a st = Ok st' ->
  (forall output leave, a <> Thread t output leave) -> apart t a st st'.
Proof.
  intros H Hp Ht E1 Hne. destruct a as [usb serial w|s serial|s0 s1|u output leave|usb|serial|fd]; cbn [run_action] in E1; [| | | | |done|].
  - unfold register_usb_transport in E1. cbv zeta in E1. inv_ok. subst st'. apply (announce_apart _ _ _ (lf_brk st)); try done. by right.
  - destruct (lf_open st !! s); [done|]. unfold register_socket_transport in E1. cbv zeta in E1.
    apply res_bind_ok in E1 as ([v st1] & E1 & [= <-]).
    repeat (apply res_bind_ok in E1 as ([n|] & _ & E1); [injection E1 as _ <-; by apply (announce_apart _ _ _ (lf_brk st)); [..|left]|]).
    apply res_bind_ok in E1 as (h & _ & E1). injection E1 as _ <-. by apply (announce_apart _ _ _ (lf_brk st)); [..|right].
  - case_bool_decide; [|done]. by apply message_apart.
  - apply thread_apart; [done| |done]. intros ->. by apply (Hne output leave).
  - unfold unregister_usb_transport in E1. cbv zeta in E1. inv_ok. destruct x as [u|]; inv_ok; subst st';
      (apply (announce_apart _ _ _ (lf_brk st)); try done; by left).
  - destruct (lf_open st !! fd); [done|]. injection E1 as <-. apply (announce_apart _ _ _ (lf_brk st)); try done. by left.
Qed.

(** A turn of a thread of [t]: it is taken unless the thread is gone. *)
Lemma turn_moves st t o i (b leave : bool) : alive st -> lf_threads st !! t = Some (o, i) ->
  let q := if b then o else i in exists q', let st' := attempt (Thread t b leave) st in
  lf_threads st' !! t = Some (if b then (q', i) else (o, q')) /\ (t ∈ lf_kicks st -> t ∈ lf_kicks st')
  /\ (steps_left q' <= steps_left q)%nat /\ (q <> Looping -> q' <> Looping)
  /\ (q <> Gone -> q <> Looping \/ leave = true -> (steps_left q' < steps_left q)%nat)
  /\ (q = Gone -> st' = st).
Proof.
  intros H Ht q. destruct (alive_ok st H) as (l & p & L). unfold attempt. cbn [run_action]. unfold run_thread. rewrite Ht. fold q.
  destruct (decide (q = Gone)) as [Hg|Hg].
  { exists q. rewrite Hg. cbn [thread_step res_bind]. split_and!; try done. rewrite Ht. unfold q in Hg. destruct b; by rewrite Hg. }
  pose proof (lk_node _ _ _ L t) as Hn. unfold node_ok in Hn. rewrite Ht in Hn. destruct Hn as (_ & _ & Hn).
  destruct (lf_mem st !! t) as [x|] eqn:Hx; [|exfalso; apply Hg; unfold q; destruct b; tauto]. destruct Hn as (_ & Hs & _).
  assert (served x (t ∈ lf_kicks st) q (if b then i else o)) as Hs' by (unfold q; destruct b; [done|by apply served_sym]).
  destruct (thread_core st t x q _ leave Hx Hs' Hg) as (q' & x' & qs & ks & op & E1 & _). rewrite E1. cbn [res_bind]. exists q'.
  assert (q <> Looping \/ leave = true -> (steps_left q' < steps_left q)%nat) as Hd by (by apply (step_descends _ _ _ _ _ _ E1)).
  split_and!; cbn; [rewrite lookup_insert_eq; by destruct b|intros Hk; apply elem_of_app; by left| | |by auto|done].
  - destruct (decide (q = Looping)) as [->|Hq]; [cbn; destruct q'; cbn; lia|]. specialize (Hd (or_introl Hq)). lia.
  - intros Hq ->. specialize (Hd (or_introl Hq)). destruct q; cbn in Hd; done || lia.
Qed.

Lemma is_turn a t : (exists output leave, a = Thread t output leave) \/ forall output leave, a <> Thread t output leave.
Proof. destruct a as [| | |u output leave| | |]; try (by right). destruct (decide (u = t)) as [->|]; [left; eauto|right; congruence]. Qed.

(** One action, as the thread [b] of [t] sees it. *)
Lemma attempt_side a st t (b : bool) o i : alive st -> peaceful a -> lf_threads st !! t = Some (o, i) ->
  let q := if b then o else i in
  exists o' i', lf_threads (attempt a st) !! t = Some (o', i') /\ (t ∈ lf_kicks st -> t ∈ lf_kicks (attempt a st))
  /\ let q' := if b then o' else i' in (steps_left q' <= steps_left q)%nat /\ (q <> Looping -> q' <> Looping)
  /\ (turn_of t b a = true -> (match a with Thread _ _ leave => q <> Looping \/ leave = true | _ => True end) ->
       (steps_left q' <= steps_left q - 1)%nat).
Proof.
  intros H Hp Ht q.
  destruct (is_turn a t) as [(output & leave & ->)|Hne].
  - destruct (turn_moves st t o i output leave H Ht) as (q' & H1 & H2 & H3 & H4 & H5 & H6).
    exists (if output then q' else o), (if output then i else q'). split; [by destruct output|]. split; [done|].
    cbn [turn_of]. destruct output, b; cbn in H3, H4, H5 |- *; (split; [done|]); (split; [done|]); intros Hturn Hor;
      try (apply bool_decide_eq_true in Hturn as [_ ?]; done);
      (match goal with q := ?z |- _ => destruct (decide (z = Gone)) as [Hg|Hg] end);
      [rewrite Hg in H3; cbn in H3; lia|specialize (H5 Hg Hor); unfold q; lia|
       rewrite Hg in H3; cbn in H3; lia|specialize (H5 Hg Hor); unfold q; lia].
  - assert (turn_of t b a = false) as Hnt.
    { destruct a; try done. cbn. apply bool_decide_eq_false. intros [-> _]. by eapply Hne. }
    exists o, i. rewrite Hnt. unfold attempt. destruct (run_action a st) as [st'| | |] eqn:E1; try done.
    destruct (action_apart a st st' t H Hp) as [T K _]; [by eexists|done|done|by rewrite T].
Qed.

(** A thread that is out of its loop, or whose device was kicked, gets one step
    further with each turn. *)
Lemma side_descends (t : addr) (b : bool) : forall acts st o i, alive st -> Forall peaceful acts -> lf_threads st !! t = Some (o, i) ->
  let q := if b then o else i in q <> Looping \/ t ∈ lf_kicks st -> heeded t acts st ->
  exists o' i', lf_threads (attempts acts st) !! t = Some (o', i')
  /\ (steps_left (if b then o' else i') <= steps_left q - turns t b acts)%nat.
Proof.
  induction acts as [|a acts IH]; intros st o i H Hp Ht q Hor Hh; [exists o, i; split; [done|fold q; cbn; lia]|].
  apply Forall_cons in Hp as [Ha Hp]. destruct Hh as [Hleave Hh]. cbn [attempts fold_left turns].
  destruct (attempt_side a st t b o i H Ha Ht) as (o1 & i1 & Ht1 & Hk & Hle & Hnl & Hturn). fold q in Hle, Hnl, Hturn.
  destruct (IH (attempt a st) o1 i1) as (o2 & i2 & Ht2 & Hle2); [by apply attempt_alive|done|done|tauto|done|].
  exists o2, i2. split; [exact Ht2|]. destruct (turn_of t b a) eqn:Et; [|lia].
  specialize (Hturn eq_refl). destruct a as [| | |u output leave| | |]; try done. cbn in Et. apply bool_decide_eq_true in Et as [-> _].
  assert (q <> Looping \/ leave = true) as Hor' by (destruct Hor; auto). specialize (Hturn Hor'). lia.
Qed.

Lemma no_steps_left q : (steps_left q <= 0)%nat -> q = Gone.
Proof. destruct q; cbn; lia || done. Qed.

(** When a thread is gone, the other one is out of its loop, or its device was
    kicked. *)
Lemma gone_kicked st t o i (b : bool) : alive st -> lf_threads st !! t = Some (o, i) -> (if b then o else i) = Gone ->
  (if b then i else o) <> Looping \/ t ∈ lf_kicks st.
Proof.
  intros H Ht Hg. destruct (alive_ok st H) as (l & p & L). pose proof (lk_node _ _ _ L t) as Hn. unfold node_ok in Hn. rewrite Ht in Hn.
  destruct Hn as (_ & _ & Hn). destruct (lf_mem st !! t) as [x|].
  - destruct Hn as (_ & [_ _ _ _ _ _ Hthr Hflag] & _). unfold through in Hthr.
    assert (t ∈ lf_kicks st \/ o = KickCall \/ i = KickCall) as Hk by (apply Hflag, Hthr; destruct b; auto).
    destruct Hk as [?|Hk]; [by right|left]. destruct b, Hk as [Hk|Hk]; congruence.
  - left. destruct Hn as (-> & -> & _). by destruct b.
Qed.

(** The messages up to the one that removes [t] are read. *)
Lemma removal_read (t : addr) : forall acts (st : life) (k : nat), alive st -> Forall peaceful acts -> lf_threads st !! t = Some (Gone, Gone) ->
  (t, Removed) ∉ drop k (lf_queue st) -> (k <= messages acts st)%nat ->
  lf_threads (attempts acts st) !! t = Some (Gone, Gone) /\ (t, Removed) ∉ lf_queue (attempts acts st).
Proof.
  induction acts as [|a acts IH]; intros st k H Hp Ht Hq Hk; cbn [messages attempts fold_left] in *.
  { assert (k = 0%nat) as -> by lia. done. }
  apply Forall_cons in Hp as [Ha Hp].
  assert (exists k', lf_threads (attempt a st) !! t = Some (Gone, Gone) /\ (t, Removed) ∉ drop k' (lf_queue (attempt a st))
    /\ (k' <= messages acts (attempt a st))%nat) as (k' & H1 & H2 & H3).
  { destruct (is_turn a t) as [(output & leave & ->)|Hne].
    - destruct (turn_moves st t Gone Gone output leave H Ht) as (q' & _ & _ & _ & _ & _ & Hsame).
      rewrite Hsame in * by (by destruct output). exists k. split; [done|]. split; [done|]. lia.
    - unfold attempt in *. revert Hk. destruct (run_action a st) as [st'| | |] eqn:E1; intros Hk; try (exists k; split; [done|]; split; [done|]; destruct a; rewrite ?E1 in Hk; lia).
      destruct (action_apart a st st' t H Ha) as [T _ Q]; [by eexists|done|done|]. rewrite T.
      destruct a as [usb serial w|s serial|s0 s1|u output leave|usb|serial|fd]; rewrite ?E1 in Hk; [| | | | |done|];
        try (destruct Q as (qs & -> & Hqs); exists k; split; [done|]; split; [|lia]; rewrite drop_app, not_elem_of_app; split; [done|];
          intros Hin; apply Hqs; rewrite <-(take_drop (k - length (lf_queue st)) qs); apply elem_of_app; by right).
      destruct Q as (h & Hh). rewrite Hh in Hq. destruct k as [|k]; cbn [drop] in Hq.
      + exists 0%nat. split; [done|]. split; [|lia]. cbn [drop]. apply not_elem_of_cons in Hq as [_ ?]. done.
      + exists k. split; [done|]. split; [done|]. lia. }
  by apply (IH (attempt a st) k'); [apply attempt_alive|..].
Qed.

(** C35: As long as no client disconnects a device, a transport one of whose
    threads leaves its loop ends, whatever runs in between and in whatever order:
    four turns of that thread end it; the device has been kicked then, or the
    other thread has left its loop as well, so that five turns end that one, a
    turn of its loop after the kick being the last; and once the messages that
    wait then are read, the transport is freed, and on no list.  These turns
    and messages are there to be taken: a thread that is not gone has a next
    step, and a message that waits is read with any two free descriptors. *)
Theorem transport_ends st t o i (b : bool) acts1 acts2 acts3 :
  alive st -> lf_threads st !! t = Some (o, i) -> (if b then o else i) <> Looping ->
  Forall peaceful (acts1 ++ acts2 ++ acts3) -> heeded t (acts1 ++ acts2) st ->
  (4 <= turns t b acts1)%nat -> (5 <= turns t (negb b) acts2)%nat ->
  let st2 := attempts (acts1 ++ acts2) st in (length (lf_queue st2) <= messages acts3 st2)%nat ->
  let st3 := attempts acts3 st2 in
  (lf_mem st3 !! t = None /\ exists l p, ring (lf_heap st3) transport_list l /\ ring (lf_heap st3) pending_list p /\ t ∉ l ++ p)
  /\ ((if b then o else i) <> Gone -> exists st', run_action (Thread t b true) st = Ok st')
  /\ (lf_queue st <> [] -> exists s0 s1 st', run_action (Register s0 s1) st = Ok st').
Proof.
  intros H Ht Hq Hp Hh H4 H5 st2 Hm st3. apply Forall_app in Hp as [Hp1 [Hp2 Hp3]%Forall_app].
  destruct (heeded_app _ _ _ _ Hh) as [Hh1 Hh2]. unfold st3, st2 in *. rewrite attempts_app in *. set (st1 := attempts acts1 st) in *.
  split; [|split].
  - destruct (side_descends t b acts1 st o i H Hp1 Ht (or_introl Hq) Hh1) as (o1 & i1 & Ht1 & Hle1). fold st1 in Ht1.
    assert ((if b then o1 else i1) = Gone) as Hg1.
    { apply no_steps_left. destruct (if b then o else i); cbn in Hle1; done || lia. }
    assert (alive st1) as Ha1 by (by apply attempts_alive).
    pose proof (gone_kicked st1 t o1 i1 b Ha1 Ht1 Hg1) as Hk1.
    destruct (side_descends t (negb b) acts2 st1 o1 i1 Ha1 Hp2 Ht1) as (o2 & i2 & Ht2 & Hle2); [by destruct b|done|].
    destruct (side_descends t b acts2 st1 o1 i1 Ha1 Hp2 Ht1) as (o3 & i3 & Ht3 & Hle3); [left; by rewrite Hg1|done|].
    rewrite Ht2 in Ht3. injection Ht3 as <- <-. rewrite Hg1 in Hle3.
    assert (o2 = Gone /\ i2 = Gone) as [-> ->].
    { assert (forall q, (steps_left q <= 5)%nat) as H5' by (intros q; destruct q; cbn; lia).
      pose proof (H5' o1). pose proof (H5' i1). change (steps_left Gone) with 0%nat in Hle3.
      destruct b; cbn [negb] in *; split; apply no_steps_left; lia. }
    assert (alive (attempts acts2 st1)) as Ha2 by (by apply attempts_alive).
    destruct (removal_read t acts3 _ (length (lf_queue (attempts acts2 st1))) Ha2 Hp3 Ht2) as [Ht3 Hq3]; [|done|].
    { rewrite drop_all. apply not_elem_of_nil. }
    destruct (alive_ok (attempts acts3 (attempts acts2 st1))) as (l & p & L); [by apply attempts_alive|].
    pose proof (lk_node _ _ _ L t) as Hn. unfold node_ok in Hn. rewrite Ht3 in Hn. destruct Hn as (Hnp & _ & Hn).
    destruct (lf_mem _ !! t) as [x|]; [destruct Hn as (_ & _ & Hn); exfalso; by apply Hq3, Hn|].
    split; [done|]. exists l, p. split; [apply L|]. split; [apply L|]. rewrite not_elem_of_app. tauto.
  - intros Hg. destruct (alive_ok st H) as (l & p & L). destruct (thread_moves l p st t o i b L Ht Hg) as (st' & _ & _ & E1 & _). eauto.
  - intros Hne. destruct (alive_ok st H) as (l & p & L). destruct (lf_queue st) as [|[u a] q] eqn:Hqu; [done|].
    destruct (message_ok l p st u a q L Hqu) as (s0 & s1 & st' & E1 & _). eauto.
Qed.

(** ** Runs *)

Lemma run_actions_alive acts st st' : Forall peaceful acts -> alive st -> run_actions acts st = Ok st' -> alive st'.
Proof.
  intros H. revert st. induction H as [|a acts Ha _ IH]; intros st Hs; cbn [run_actions]; [by intros [= <-]|].
  intros E1. inv_ok. eapply IH; [|done]. by eapply run_alive.
Qed.

(** A device on the socket 5, served by the descriptors 10 and 11; its output
    thread ends while the other one still reads. *)
Definition connected : list action := [RegisterSocket 5 (lit "10.0.0.2:5555"); Register 10 11].
Definition output_ends : list action := [Thread 3 true true; Thread 3 true true; Thread 3 true true; Thread 3 true true; Thread 3 true true].
Definition input_ends : list action := [Thread 3 false true; Thread 3 false true; Thread 3 false true].
Definition half_gone : life := match run_actions (connected ++ output_ends) no_transports with Ok st => st | _ => no_transports end.

Lemma half_gone_alive : alive half_gone.
Proof. apply (run_actions_alive (connected ++ output_ends) no_transports); [by repeat constructor|apply rtc_refl|vm_compute; reflexivity]. Qed.

Lemma life_safe_witness : lf_threads half_gone !! 3%nat = Some (Gone, Looping) /\ lf_kicks half_gone = [3%nat]
  /\ run_action (Thread 3 false false) half_gone <> Ub.
Proof.
  split; [vm_compute; reflexivity|]. split; [vm_compute; reflexivity|].
  destruct (life_safe half_gone half_gone_alive) as (H & _ & _). destruct (H (Thread 3 false false) I) as [H1 _]. exact H1.
Defined.

(** The output thread has left its loop; the input thread reads once more before
    the kick, and another device comes meanwhile. *)
Definition leaving : life := match run_actions (connected ++ [Thread 3 true true]) no_transports with Ok st => st | _ => no_transports end.
Definition first_turns : list action := [Thread 3 true true; RegisterUsb 7 None true; Thread 3 false false] ++ repeat (Thread 3 true true) 3.
Definition other_turns : list action := repeat (Thread 3 false true) 5.
Definition main_turns : list action := [Register 12 13; Register 14 15].

Lemma leaving_alive : alive leaving.
Proof. apply (run_actions_alive (connected ++ [Thread 3 true true]) no_transports); [by repeat constructor|apply rtc_refl|vm_compute; reflexivity]. Qed.

Lemma transport_ends_witness : lf_threads leaving !! 3%nat = Some (KickTest, Looping)
  /\ lf_mem (attempts main_turns (attempts (first_turns ++ other_turns) leaving)) !! 3%nat = None.
Proof.
  split; [vm_compute; reflexivity|].
  destruct (transport_ends leaving 3%nat KickTest Looping true first_turns other_turns main_turns leaving_alive) as [[H _] _].
  - vm_compute. reflexivity.
  - discriminate.
  - repeat constructor.
  - repeat (split; [try done; intros _ Hin; vm_compute in Hin; by apply elem_of_nil in Hin|]). exact I.
  - vm_compute. lia.
  - vm_compute. lia.
  - vm_compute. lia.
  - exact H.
Defined.

(** A client disconnects the device: this takes a reference that belongs to a
    thread, and the transport is freed when the first thread is gone; the other
    one goes on with it. *)
Theorem disconnect_frees_early : run_actions (connected ++ [Disconnect (lit "10.0.0.2:5555"); Thread 3 true true; Thread 3 true true; Thread 3 true true; Register 12 13; Thread 3 false false]) no_transports = Ub.
Proof. vm_compute. reflexivity. Qed.

(** The end of a transport over a socket closes [t->fd] twice, in
    [remote_close] and in the main loop: a file that the process opens in
    between, and that gets the number, is closed with it. *)
Theorem descriptor_closed_twice : exists st st', run_actions (connected ++ output_ends ++ input_ends ++ [Open 11]) no_transports = Ok st
  /\ lf_open st !! 11 = Some None /\ run_action (Register 12 13) st = Ok st' /\ lf_open st' !! 11 = None.
Proof. eexists _, _. split; [vm_compute; reflexivity|]. split; [vm_compute; reflexivity|]. split; [vm_compute; reflexivity|]. vm_compute. reflexivity. Qed.
