(* ===== verification/Sockets.v ===== *)
(** * Sockets (sockets.c)

    A socket has three methods, [enqueue], [ready] and [close], which call the
    methods of its peer: local sockets write to a descriptor and queue what it
    does not take, remote sockets turn calls into messages for a transport, and
    a smart socket reads the name of a service and connects its peer to it.

    The handlers are defined over [rec], the call of a method of another
    socket; [exec] ties the knot, with a bound on the depth of nested calls
    ([exec_depth] suffices: SocketsInv.v).  This is the build without
    [ADB_HOST]. *)

From S2P Require Import Prelude Cstr Rwx Packet Fdevent World Transport.

(** A call of a method; [CCloseLocked] is [local_socket_close_locked], called
    with the lock held. *)
Inductive call :=
  | CEnqueue (a : addr) (p : apacket)
  | CReady (a : addr)
  | CClose (a : addr)
  | CCloseLocked (a : addr).

Section Sockets.
Context {E : Type} {I : FdEvents E fd_func}.
Implicit Types (w : world E) (a t : addr) (p : apacket).

(** The value of a call is the return value of [enqueue], and 0 otherwise. *)
Abbreviation handler := (world E -> res (Z * world E)).

(** Calls of fdevent.c on the event of the socket. *)
Definition sock_fde_add (w : world E) (a : addr) (m : Z) : res (world E) :=
  let* e := ev_add (F := fd_func) (w_ev w) a m in Ok (with_ev e w).
Definition sock_fde_del (w : world E) (a : addr) (m : Z) : res (world E) :=
  let* e := ev_del (F := fd_func) (w_ev w) a m in Ok (with_ev e w).
Definition sock_fde_remove (w : world E) (a : addr) : res (world E) :=
  let* e := ev_remove (F := fd_func) (w_ev w) a in Ok (with_ev e w).
Definition sock_fde_install (w : world E) (a : addr) (fd : Z) : res (world E) :=
  let* e := ev_install (w_ev w) a fd socket_events a in Ok (with_ev e w).

(** ** The lists *)

Definition find_local_socket (w : world E) (id : Z) : res (option addr) :=
  (fix go (l : list addr) : res (option addr) :=
     match l with
     | [] => Ok None
     | a :: l => let* s := get_sock w a in
                 if bool_decide (sk_id s = id) then Ok (Some a) else go l
     end) (w_locals w).

Definition install_socket (w : world E) (a : addr) : res (world E) :=
  let* w := update_sock w a (with_id (w_next_id w)) in
  let w := with_next_id (u32 (w_next_id w + 1)) w in
  Ok (with_lists (w_locals w ++ [a]) (w_closing w) w).

(** [s->prev && s->next] holds for a socket in one of the two lists. *)
Definition remove_from_lists (w : world E) (a : addr) : res (world E) :=
  let* s := get_sock w a in
  if bool_decide (a ∈ w_locals w \/ a ∈ w_closing w) then
    let w := with_lists (filter (fun b => b <> a) (w_locals w)) (filter (fun b => b <> a) (w_closing w)) w in
    Ok (put_sock a (with_id 0 s) w)
  else Ok w.

(** ** Writing to a descriptor *)

Inductive flow := Done | Again | Failed.

(** [while(p->len > 0)]: write the rest of a packet; the event function goes on
    after an interruption, [local_socket_enqueue] does not tell it from an
    error. *)
Fixpoint write_loop (retry : bool) (fuel : nat) (w : world E) (fd : Z) (p : apacket) : res (flow * apacket * world E) :=
  match fuel with
  | O => Blocked
  | S fuel =>
      if bool_decide (p_len p > 0) then
        let n := Z.to_nat (p_len p) in
        if bool_decide (length (p_data p) < p_ptr p + n)%nat then Ub
        else
          let* ' (r, w) := fd_write w fd (take n (drop (p_ptr p) (p_data p))) in
          match r with
          | WPut O => Ok (Failed, p, w)
          | WPut k => write_loop retry fuel w fd (set_ptr (p_ptr p + k) (set_len (p_len p - Z.of_nat k) p))
          | WErr EAGAIN => Ok (Again, p, w)
          | WErr EINTR => if retry then write_loop retry fuel w fd p else Ok (Failed, p, w)
          | WErr _ => Ok (Failed, p, w)
          end
      else Ok (Done, p, w)
  end.

(** Every iteration uses an answer of the schedule of the descriptor. *)
Definition loop_fuel (w : world E) (fd : Z) : nat := io_fuel (get_io w fd).

(** ** Local sockets *)

Section Handlers.
Context (rec : call -> handler).

(** The tail of [local_socket_enqueue]: the packet waits for the descriptor. *)
Definition queue_packet (w : world E) (a : addr) (p : apacket) : res (Z * world E) :=
  let* w := update_sock w a (fun s => with_pkts (sk_pkts s ++ [p]) s) in
  let* w := sock_fde_add w a FDE_WRITE in
  Ok (1, w).

Definition local_socket_enqueue (a : addr) (p : apacket) : handler := fun w =>
  let* s := get_sock w a in
  let p := set_ptr 0 p in
  match sk_pkts s with
  | _ :: _ => queue_packet w a p
  | [] =>
      let* ' (r, p, w) := write_loop false (loop_fuel w (sk_fd s)) w (sk_fd s) p in
      match r with
      | Failed => let* ' (_, w) := rec (CClose a) w in Ok (1, w)
      | _ => if bool_decide (p_len p = 0) then Ok (0, w) else queue_packet w a p
      end
  end.

Definition local_socket_ready (a : addr) : handler := fun w =>
  let* _ := get_sock w a in
  let* w := sock_fde_add w a FDE_READ in Ok (0, w).

Definition local_socket_destroy (w : world E) (a : addr) : res (world E) :=
  let* s := get_sock w a in
  let* w := sock_fde_remove w a in
  let* w := remove_from_lists w a in
  let w := free_sock a w in
  if sk_exit_on_close s then Exit else Ok w.

Definition local_socket_close_locked (a : addr) : handler := fun w =>
  let* s := get_sock w a in
  let* w :=
    (match sk_peer s with
     | Some b =>
         let* w := update_sock w b (with_peer None) in
         let* sb := get_sock w b in
         let* ' (_, w) := rec (if bool_decide (sk_close sb = local_close) then CCloseLocked b else CClose b) w in
         update_sock w a (with_peer None)
     | None => Ok w
     end) in
  let* s := get_sock w a in
  if sk_closing s || bool_decide (sk_pkts s = []) then
    let* w := local_socket_destroy w a in Ok (0, w)
  else
    let* w := update_sock w a (with_closing true) in
    let* w := sock_fde_del w a FDE_READ in
    let* w := remove_from_lists w a in
    Ok (0, with_lists (w_locals w) (w_closing w ++ [a]) w).

Definition local_socket_close (a : addr) : handler := local_socket_close_locked a.

(** The write half of [local_socket_event_func]: [true] when it goes on to the
    read half; [fuel] bounds the number of queued packets. *)
Fixpoint flush (fuel : nat) (w : world E) (a : addr) (fd : Z) : res (bool * world E) :=
  let* s := get_sock w a in
  match sk_pkts s with
  | [] =>
      if sk_closing s then
        let* ' (_, w) := rec (CClose a) w in Ok (false, w)
      else
        let* w := sock_fde_del w a FDE_WRITE in
        let* b := peer_of s in
        let* ' (_, w) := rec (CReady b) w in
        Ok (true, w)
  | p :: ps =>
      match fuel with
      | O => Blocked
      | S fuel =>
          let* ' (r, p, w) := write_loop true (loop_fuel w fd) w fd p in
          let* w := update_sock w a (with_pkts (match r with Done => ps | _ => p :: ps end)) in
          match r with
          | Again => Ok (false, w)
          | Failed => let* ' (_, w) := rec (CClose a) w in Ok (false, w)
          | Done => flush fuel w a fd
          end
      end
  end.

(** The read loop: what was read, the last value of [r], and [is_eof]. *)
Fixpoint read_loop (fuel : nat) (w : world E) (fd : Z) (avail : nat) (buf : bytes) (r : Z)
    : res (bytes * Z * bool * world E) :=
  match fuel with
  | O => Blocked
  | S fuel =>
      if bool_decide (0 < avail)%nat then
        let* ' (g, w) := fd_read w fd avail in
        match g with
        | RGot [] => Ok (buf, 0, true, w)
        | RGot bs => read_loop fuel w fd (avail - length bs) (buf ++ bs) (Z.of_nat (length bs))
        | RErr EAGAIN => Ok (buf, -1, false, w)
        | RErr EINTR => read_loop fuel w fd avail buf (-1)
        | RErr _ => Ok (buf, -1, true, w)
        end
      else Ok (buf, r, false, w)
  end.

(** The end of the read half: close at the end of the stream. *)
Definition read_end (w : world E) (a : addr) (r : Z) (is_eof : bool) : res (world E) :=
  let* force_eof := ev_eof (F := fd_func) (w_ev w) a in
  if (bool_decide (force_eof <> 0) && bool_decide (r = 0)) || is_eof then
    let* ' (_, w) := rec (CClose a) w in Ok w
  else Ok w.

Definition read_half (w : world E) (a : addr) (fd : Z) : res (world E) :=
  let* ' (buf, r, is_eof, w) := read_loop (loop_fuel w fd) w fd (Z.to_nat MAX_PAYLOAD) [] 0 in
  let* s := get_sock w a in
  match sk_peer s with
  | Some b =>
      if bool_decide (buf = []) then read_end w a r is_eof
      else
        let p := set_len (Z.of_nat (length buf)) (set_data buf get_apacket) in
        let* ' (r, w) := rec (CEnqueue b p) w in
        if bool_decide (r < 0) then Ok w
        else
          let* _ := get_sock w a in
          let* w := if bool_decide (r > 0) then sock_fde_del w a FDE_READ else Ok w in
          read_end w a r is_eof
  | None => read_end w a r is_eof
  end.

(** [local_socket_event_func(fd, ev, s)] *)
Definition local_socket_event_func (fd ev : Z) (a : addr) (w : world E) : res (world E) :=
  let* s := get_sock w a in
  let* ' (go, w) :=
    (if has ev FDE_WRITE then flush (length (sk_pkts s)) w a fd else Ok (true, w)) in
  if go && has ev FDE_READ then read_half w a fd else Ok w.

(** ** Remote sockets *)

Definition remote_socket_enqueue (a : addr) (p : apacket) : handler := fun w =>
  let* s := get_sock w a in
  let* b := peer_of s in
  let* sb := get_sock w b in
  let p := set_data_length (p_len p) (set_header A_WRTE (sk_id sb) (sk_id s) p) in
  let* w := send_to w p (sk_transport s) in
  Ok (1, w).

Definition remote_socket_ready (a : addr) : handler := fun w =>
  let* s := get_sock w a in
  let* b := peer_of s in
  let* sb := get_sock w b in
  let* w := send_to w (set_header A_OKAY (sk_id sb) (sk_id s) get_apacket) (sk_transport s) in
  Ok (0, w).

Definition remote_socket_close (a : addr) : handler := fun w =>
  let* s := get_sock w a in
  let* ' (arg0, w) :=
    (match sk_peer s with
     | Some b =>
         let* sb := get_sock w b in
         let* w := update_sock w b (with_peer None) in
         let* ' (_, w) := rec (CClose b) w in
         Ok (sk_id sb, w)
     | None => Ok (0, w)
     end) in
  let* s := get_sock w a in
  let* w := send_to w (set_header A_CLSE arg0 (sk_id s) get_apacket) (sk_transport s) in
  let* w := remove_disconnect w (sk_transport s) a in
  Ok (0, free_sock a w).

(** The callback of a transport that goes away. *)
Definition remote_socket_disconnect (a : addr) (w : world E) : res (world E) :=
  let* s := get_sock w a in
  let* w :=
    (match sk_peer s with
     | Some b =>
         let* w := update_sock w b (with_peer None) in
         let* ' (_, w) := rec (CClose b) w in Ok w
     | None => Ok w
     end) in
  let* s := get_sock w a in
  let* w := remove_disconnect w (sk_transport s) a in
  Ok (free_sock a w).

Definition create_remote_socket (w : world E) (id : Z) (t : addr) : res (addr * world E) :=
  let '(a, w) := alloc_sock w
    (with_transport (Some t) (with_id id (blank_socket remote_enqueue remote_ready remote_close))) in
  let* w := add_disconnect w t a in
  Ok (a, w).

(** transport.c: [run_transport_disconnects]; the successor is read before the
    callback runs. *)
Fixpoint successor (l : list addr) (d : addr) : res (option addr) :=
  match l with
  | [] => Ub
  | x :: l => if bool_decide (x = d) then Ok (head l) else successor l d
  end.

Fixpoint run_disconnects (fuel : nat) (w : world E) (t : addr) (dis : option addr) : res (world E) :=
  match dis with
  | None => Ok w
  | Some d =>
      match fuel with
      | O => Blocked
      | S fuel =>
          let* x := get_trans w t in
          let* next := successor (t_disconnects x) d in
          let* w := remote_socket_disconnect d w in
          run_disconnects fuel w t next
      end
  end.

Definition run_transport_disconnects (w : world E) (t : addr) : res (world E) :=
  let* x := get_trans w t in
  run_disconnects (length (t_disconnects x)) w t (head (t_disconnects x)).

(** ** Connecting *)

Definition connect_to_remote (w : world E) (a : addr) (destination : bytes) : res (world E) :=
  let* s := get_sock w a in
  let len := Z.of_nat (length destination) + 1 in
  if bool_decide (len > MAX_PAYLOAD - 1) then Exit
  else
    let p := set_data (destination ++ [Byte.x00]) (set_data_length len (set_header A_OPEN (sk_id s) 0 get_apacket)) in
    send_to w p (sk_transport s).

Definition sendfailmsg (w : world E) (fd : Z) (reason : bytes) : res (Z * world E) :=
  let len := Z.min (Z.of_nat (length reason)) 0xffff in
  let* ' (r, w) := fd_writex w fd (lit "FAIL" ++ hex4 len) in
  if bool_decide (r <> 0) then Ok (-1, w) else fd_writex w fd (take (Z.to_nat len) reason).

Definition local_socket_ready_notify (a : addr) : handler := fun w =>
  let* w := update_sock w a (with_fns local_ready local_close) in
  let* s := get_sock w a in
  let* ' (_, w) := fd_write w (sk_fd s) (lit "OKAY") in
  rec (CReady a) w.

Definition local_socket_close_notify (a : addr) : handler := fun w =>
  let* w := update_sock w a (with_fns local_ready local_close) in
  let* s := get_sock w a in
  let* ' (_, w) := sendfailmsg w (sk_fd s) (lit "closed") in
  rec (CClose a) w.

(** ** Smart sockets *)

Definition smart_socket_ready (a : addr) : handler := fun w =>
  let* _ := get_sock w a in Ok (0, w).

Definition smart_socket_close (a : addr) : handler := fun w =>
  let* s := get_sock w a in
  let* w :=
    (match sk_peer s with
     | Some b =>
         let* w := update_sock w b (with_peer None) in
         let* ' (_, w) := rec (CClose b) w in
         update_sock w a (with_peer None)
     | None => Ok w
     end) in
  let* _ := get_sock w a in
  Ok (0, free_sock a w).

(** [fail:] closes the peer as well. *)
Definition smart_fail (w : world E) (a : addr) : res (Z * world E) :=
  let* ' (_, w) := rec (CClose a) w in Ok (-1, w).

(** A store of [bs] at offset [n] of the data, [n] being initialised. *)
Definition store_data (n : nat) (bs : bytes) (p : apacket) : res apacket :=
  if bool_decide (n <= length (p_data p) /\ n + length bs <= Z.to_nat MAX_PAYLOAD)%nat
  then Ok (Apacket (p_len p) (p_ptr p) (msg p)
             (take n (p_data p) ++ bs ++ drop (n + length bs) (p_data p)))
  else Ub.

(** The request is complete: connect the peer to the service [name]. *)
Definition smart_connect (w : world E) (a : addr) (name : bytes) : res (Z * world E) :=
  let* s := get_sock w a in
  let* b := peer_of s in
  let* sb := get_sock w b in
  let* ' (found, w) :=
    (match sk_transport s with
     | Some t => Ok (Some t, w)
     | None =>
         match acquire_once CS_ANY kTransportAny None (transports w) with
         | inl (t, _) =>
             let* w := update_sock w a (with_transport (Some t)) in Ok (Some t, w)
         | inr (err, _) =>
             let* ' (_, w) := sendfailmsg w (sk_fd sb) (error_text err) in Ok (None, w)
         end
     end) in
  match found with
  | None => smart_fail w a
  | Some t =>
      let* x := get_trans w t in
      if bool_decide (t_connection_state x = CS_OFFLINE) then
        let* ' (_, w) := sendfailmsg w (sk_fd sb) (lit "device offline (x)") in
        smart_fail w a
      else
        let* w := update_sock w b (fun sb => with_transport (Some t) (with_peer None
                    (with_fns local_ready_notify local_close_notify sb))) in
        let* w := connect_to_remote w b name in
        let* w := update_sock w a (with_peer None) in
        let* ' (_, w) := rec (CClose a) w in
        Ok (1, w)
  end.

Definition smart_socket_enqueue (a : addr) (p : apacket) : handler := fun w =>
  let* s := get_sock w a in
  let* ' (overflow, p) :=
    (match sk_pkts s with
     | [] => Ok (false, p)
     | q :: _ =>
         if bool_decide (u32 (p_len q + p_len p) > MAX_PAYLOAD) then Ok (true, q)
         else
           let* x := data_prefix p (p_len p) in
           let* q := store_data (Z.to_nat (p_len q)) x q in
           Ok (false, set_len (p_len q + p_len p) q)
     end) in
  let* w := update_sock w a (with_pkts [p]) in
  if overflow then smart_fail w a
  else if bool_decide (p_len p < 4) then Ok (0, w)
  else
    let* len := unhex (p_data p) 4 in
    if bool_decide (len < 1 \/ len > 1024) then smart_fail w a
    else if bool_decide (len + 4 > p_len p) then Ok (0, w)
    else
      let* p := store_data (Z.to_nat (len + 4)) [Byte.x00] p in
      let* w := update_sock w a (with_pkts [p]) in
      let* name := c_string (drop 4 (p_data p)) in
      smart_connect w a name.

Definition create_smart_socket (w : world E) : addr * world E :=
  alloc_sock w (blank_socket smart_enqueue smart_ready smart_close).

Definition connect_to_smartsocket (w : world E) (a : addr) : res (Z * world E) :=
  let '(ss, w) := create_smart_socket w in
  let* w := update_sock w a (with_peer (Some ss)) in
  let* w := update_sock w ss (with_peer (Some a)) in
  rec (CReady a) w.

(** ** Dispatch *)

(** [s->enqueue(s, p)], [s->ready(s)] and [s->close(s)]. *)
Definition dispatch (c : call) : handler := fun w =>
  match c with
  | CEnqueue a p =>
      let* s := get_sock w a in
      match sk_enqueue s with
      | local_enqueue => local_socket_enqueue a p w
      | remote_enqueue => remote_socket_enqueue a p w
      | smart_enqueue => smart_socket_enqueue a p w
      end
  | CReady a =>
      let* s := get_sock w a in
      match sk_ready s with
      | local_ready => local_socket_ready a w
      | local_ready_notify => local_socket_ready_notify a w
      | remote_ready => remote_socket_ready a w
      | smart_ready => smart_socket_ready a w
      end
  | CClose a =>
      let* s := get_sock w a in
      match sk_close s with
      | local_close => local_socket_close a w
      | local_close_notify => local_socket_close_notify a w
      | remote_close => remote_socket_close a w
      | smart_close => smart_socket_close a w
      end
  | CCloseLocked a => local_socket_close_locked a w
  end.

End Handlers.

Fixpoint exec (fuel : nat) (c : call) (w : world E) : res (Z * world E) :=
  match fuel with
  | O => Blocked
  | S fuel => dispatch (exec fuel) c w
  end.

(** Deeper than any chain of calls. *)
Definition exec_depth : nat := 8.
Definition run : call -> handler := exec exec_depth.

(** ** Entry points *)

Definition socket_event (fd ev : Z) (a : addr) (w : world E) : res (world E) :=
  local_socket_event_func run fd ev a w.

Definition create_local_socket (w : world E) (fd : Z) : res (addr * world E) :=
  let '(a, w) := alloc_sock w (ASocket 0 false false None fd [] local_enqueue local_ready local_close None) in
  let* w := install_socket w a in
  let* w := sock_fde_install w a fd in
  Ok (a, w).

(** [close_all_sockets(t)]: the scan starts again after every close. *)
Definition on_transport (w : world E) (t : addr) (a : addr) : res bool :=
  let* s := get_sock w a in
  if bool_decide (sk_transport s = Some t) then Ok true
  else
    match sk_peer s with
    | None => Ok false
    | Some b => let* sb := get_sock w b in Ok (bool_decide (sk_transport sb = Some t))
    end.

Fixpoint first_on_transport (w : world E) (t : addr) (l : list addr) : res (option addr) :=
  match l with
  | [] => Ok None
  | a :: l => let* b := on_transport w t a in
              if b then Ok (Some a) else first_on_transport w t l
  end.

Fixpoint close_all_loop (fuel : nat) (w : world E) (t : addr) : res (world E) :=
  let* s := first_on_transport w t (w_locals w) in
  match s with
  | None => Ok w
  | Some a =>
      match fuel with
      | O => Blocked
      | S fuel =>
          let* ' (_, w) := run (CCloseLocked a) w in
          close_all_loop fuel w t
      end
  end.

Definition close_all_sockets (w : world E) (t : addr) : res (world E) :=
  close_all_loop (length (w_locals w)) w t.

End Sockets.
