(* ===== verification/SocketsInv.v ===== *)
(** * The invariant of sockets

    [wf] says what the memory of sockets.c looks like between two callbacks:
    the rings hold the live local sockets, a local socket asks to be told when
    it may write exactly while packets wait for it, peers point to each other,
    a remote socket is listed for the disconnection of its transport.  The
    theorems say that the methods keep it, never touch freed memory, and end. *)

From S2P Require Import Prelude Cstr Rwx Packet Fdevent World Transport Sockets.

(** Evaluate the projections of an updated world. *)
Ltac wcbn := cbn [w_socks w_trans w_transport_list w_locals w_closing w_next_id w_ev w_io w_brk
  with_socks with_trans with_lists with_next_id with_ev with_io with_brk put_sock free_sock put_trans] in *.

(** A socket that is not among those being worked on. *)
Ltac outside :=
  repeat match goal with H : _ ∉ _ :: _ |- _ => apply not_elem_of_cons in H; destruct H as [? ?] end;
  try (apply not_elem_of_cons; split); try done; try congruence.

Section Invariant.
Context {E : Type} {I : FdEvents E fd_func} {L : FdEventsLaws E fd_func I}.
Implicit Types (w : world E) (a b t : addr) (s : asocket) (p : apacket).

Abbreviation fde_wants w a := (ev_interest (F := fd_func) (w_ev w) a).

(** ** Shapes *)

(** A socket that waits for its connection answers the request first. *)
Definition local_fns s : Prop :=
  (sk_ready s = local_ready /\ sk_close s = local_close) \/
  (sk_ready s = local_ready_notify /\ sk_close s = local_close_notify /\ sk_pkts s = [] /\ sk_peer s = None).

(** A packet that waits to be written: what is left of it is initialised. *)
Definition pkt_ok p : Prop :=
  0 <= p_len p /\ (p_ptr p + Z.to_nat (p_len p) <= length (p_data p))%nat.

Record local_ok w a s : Prop := LocalOk {
  lo_fns : local_fns s;
  lo_pkts : Forall pkt_ok (sk_pkts s);
  lo_int : exists i, fde_wants w a = Some i /\ (has i FDE_WRITE = true <-> sk_pkts s <> [])
             /\ (sk_closing s = true -> has i FDE_READ = false);
  lo_closing : sk_closing s = true ->
    sk_peer s = None /\ sk_pkts s <> [] /\ sk_close s = local_close /\ sk_ready s = local_ready;
  lo_list : sk_closing s = true <-> a ∈ w_closing w
}.

Record remote_ok w s : Prop := RemoteOk {
  ro_fns : sk_ready s = remote_ready /\ sk_close s = remote_close;
  ro_trans : exists t, sk_transport s = Some t /\ is_Some (w_trans w !! t);
  ro_closing : sk_closing s = false
}.

(** The request that a smart socket collects. *)
Definition smart_pkts (l : list apacket) : Prop :=
  match l with
  | [] => True
  | [p] => 0 <= p_len p <= Z.of_nat (length (p_data p)) /\ Z.of_nat (length (p_data p)) <= MAX_PAYLOAD
  | _ => False
  end.

Record smart_ok w s : Prop := SmartOk {
  so_fns : sk_ready s = smart_ready /\ sk_close s = smart_close;
  so_pkts : smart_pkts (sk_pkts s);
  so_trans : forall t, sk_transport s = Some t -> is_Some (w_trans w !! t);
  so_closing : sk_closing s = false
}.

Definition sock_ok w a s : Prop :=
  match sk_enqueue s with
  | local_enqueue => local_ok w a s
  | remote_enqueue => remote_ok w s
  | smart_enqueue => smart_ok w s
  end.

(** What closing needs: the packets of a local socket may all have been
    written, and its event be out of step with them. *)
Definition closable w a s : Prop :=
  match sk_enqueue s with
  | local_enqueue =>
      local_fns s /\ Forall pkt_ok (sk_pkts s)
      /\ (sk_pkts s <> [] -> exists i, fde_wants w a = Some i /\ has i FDE_WRITE = true)
      /\ (sk_closing s = true -> sk_peer s = None /\ sk_close s = local_close /\ sk_ready s = local_ready)
      /\ (sk_closing s = true <-> a ∈ w_closing w)
  | remote_enqueue => remote_ok w s
  | smart_enqueue => sk_ready s = smart_ready /\ sk_close s = smart_close
  end.

(** A remote socket of the transport [t]. *)
Definition remote_of w t a : Prop :=
  exists s, w_socks w !! a = Some s /\ sk_enqueue s = remote_enqueue /\ sk_transport s = Some t.

(** ** The invariant without the peers

    [X] are sockets that are being worked on: only their memory and their events
    are accounted for. *)
Record base (X : list addr) w : Prop := Base {
  b_ev : ev_ok (w_ev w);
  b_nodup : NoDup (w_locals w ++ w_closing w);
  b_fresh : forall a, is_Some (w_socks w !! a) \/ is_Some (w_trans w !! a) \/ is_Some (fde_wants w a) ->
    (a < w_brk w)%nat;
  b_listed : forall a, a ∈ w_locals w ++ w_closing w <->
    exists s, w_socks w !! a = Some s /\ sk_enqueue s = local_enqueue;
  b_events : forall a, is_Some (fde_wants w a) ->
    (a ∈ w_locals w ++ w_closing w) \/ is_Some (w_trans w !! a);
  b_int : forall a, a ∈ w_locals w ++ w_closing w -> is_Some (fde_wants w a);
  b_apart : forall a, is_Some (w_socks w !! a) -> w_trans w !! a = None;
  b_trans : forall t y, w_trans w !! t = Some y ->
    NoDup (t_disconnects y) /\ forall a, a ∈ t_disconnects y <-> remote_of w t a;
  b_target : forall a s, w_socks w !! a = Some s -> sk_enqueue s = remote_enqueue ->
    exists t, sk_transport s = Some t /\ is_Some (w_trans w !! t);
  b_sock : forall a s, w_socks w !! a = Some s -> a ∉ X -> sock_ok w a s
}.

(** ** The peers *)

(** A socket without a peer is not a remote one, and queues nothing unless it
    is closing; of two peers, exactly one is local, and it queues nothing while
    the other is a smart one. *)
Definition peer_ok w a s : Prop :=
  match sk_peer s with
  | None => sk_enqueue s = local_enqueue /\ (sk_closing s = false -> sk_pkts s = [])
  | Some b => b <> a /\ exists sb, w_socks w !! b = Some sb /\ sk_peer sb = Some a
      /\ (sk_enqueue s = local_enqueue <-> sk_enqueue sb <> local_enqueue)
      /\ (sk_enqueue sb = smart_enqueue -> sk_pkts s = [])
  end.

Definition peers (X : list addr) w : Prop :=
  forall a s, w_socks w !! a = Some s -> a ∉ X -> peer_ok w a s.

Definition wf_world w : Prop := base [] w /\ peers [] w.

(** ** What the calls leave alone *)

(** A transport may be given packets, and lose callbacks. *)
Definition same_trans (x x' : atransport) : Prop :=
  exists l d, x' = with_disconnects d (with_out (t_out x ++ l) x) /\ d `sublist_of` t_disconnects x.

(** Sockets outside [A] are not touched. *)
Record framed (A : list addr) w w' : Prop := Framed {
  fr_socks : forall b, b ∉ A -> w_socks w' !! b = w_socks w !! b;
  fr_int : forall b, b ∉ A -> fde_wants w' b = fde_wants w b;
  fr_closing : forall b, b ∉ A -> b ∈ w_closing w' <-> b ∈ w_closing w;
  fr_locals : forall b, b ∈ w_locals w' -> b ∈ w_locals w;
  fr_trans : forall t x, w_trans w !! t = Some x -> exists x', w_trans w' !! t = Some x' /\ same_trans x x';
  fr_none : forall t, w_trans w !! t = None -> w_trans w' !! t = None;
  fr_list : w_transport_list w' = w_transport_list w;
  fr_brk : w_brk w' = w_brk w;
  fr_next : w_next_id w' = w_next_id w;
  fr_free : forall fd, ev_free_fd (F := fd_func) (w_ev w) fd -> ev_free_fd (F := fd_func) (w_ev w') fd
}.

(** A socket that was closed: freed, or waiting for its packets to be written. *)
Definition closed w a : Prop :=
  a ∉ w_locals w /\
  forall s, w_socks w !! a = Some s -> sk_enqueue s = local_enqueue /\ sk_closing s = true.

(** * Theorems *)

Lemma same_trans_refl x : same_trans x x.
Proof.
  exists [], (t_disconnects x). unfold with_out, with_disconnects. rewrite app_nil_r. split; [by destruct x|done].
Qed.

Lemma same_trans_trans x y z : same_trans x y -> same_trans y z -> same_trans x z.
Proof.
  intros (l & d & -> & H) (l' & d' & -> & H'). exists (l ++ l'), d'. unfold with_out, with_disconnects. cbn in *.
  rewrite app_assoc. split; [done|by etrans].
Qed.

Lemma framed_refl A w : framed A w w.
Proof. split; try done. intros t x Hx. exists x. split; [done|apply same_trans_refl]. Qed.

Lemma framed_trans A B w1 w2 w3 : framed A w1 w2 -> framed B w2 w3 -> framed (A ++ B) w1 w3.
Proof.
  intros F G. split.
  - intros b [Ha Hb]%not_elem_of_app. rewrite (fr_socks _ _ _ G) by done. by apply F.
  - intros b [Ha Hb]%not_elem_of_app. rewrite (fr_int _ _ _ G) by done. by apply F.
  - intros b [Ha Hb]%not_elem_of_app. rewrite (fr_closing _ _ _ G) by done. by apply F.
  - intros b Hb. by apply F, G.
  - intros t x Hx. destruct (fr_trans _ _ _ F t x Hx) as (y & Hy & Sy).
    destruct (fr_trans _ _ _ G t y Hy) as (z & Hz & Sz). exists z. split; [done|].
    by eapply same_trans_trans.
  - intros t Ht. by apply G, F.
  - rewrite (fr_list _ _ _ G). apply F.
  - rewrite (fr_brk _ _ _ G). apply F.
  - rewrite (fr_next _ _ _ G). apply F.
  - intros fd Hfd. by apply G, F.
Qed.

Lemma framed_mono A B w w' : A ⊆ B -> framed A w w' -> framed B w w'.
Proof.
  intros HAB F. split; try apply F; intros b Hb; apply F; intros Hx; apply Hb, HAB, Hx.
Qed.

Lemma get_sock_ok w a s : w_socks w !! a = Some s -> get_sock w a = Ok s.
Proof. intros H. unfold get_sock. by rewrite H. Qed.

Lemma update_sock_ok w a s f : w_socks w !! a = Some s -> update_sock w a f = Ok (put_sock a (f s) w).
Proof. intros H. unfold update_sock. by rewrite (get_sock_ok _ _ _ H). Qed.

Lemma put_sock_lookup w a s b :
  w_socks (put_sock a s w) !! b = if decide (a = b) then Some s else w_socks w !! b.
Proof. wcbn. case_decide; subst; [apply lookup_insert_eq|by apply lookup_insert_ne]. Qed.

(** The shape of a socket only depends on its event, its list and its transport. *)
Lemma sock_ok_frame w w' a s :
  fde_wants w' a = fde_wants w a -> (a ∈ w_closing w' <-> a ∈ w_closing w) ->
  (forall t, is_Some (w_trans w !! t) -> is_Some (w_trans w' !! t)) ->
  sock_ok w a s -> sock_ok w' a s.
Proof.
  intros Hi Hc Ht. unfold sock_ok. destruct (sk_enqueue s).
  - intros [? ? Hin ? ?]. split; try done; [by rewrite Hi|by rewrite Hc].
  - intros [? (t & Hs & Hx) ?]. split; eauto.
  - intros [? ? Hs ?]. split; eauto.
Qed.

(** *** Steps of the invariant *)

(** A socket is rewritten in place. *)
Lemma base_put X w a s s' : base (a :: X) w -> w_socks w !! a = Some s ->
  sk_enqueue s' = sk_enqueue s -> (sk_enqueue s = remote_enqueue -> sk_transport s' = sk_transport s) ->
  base (a :: X) (put_sock a s' w).
Proof.
  intros B Ha Hk Ht.
  assert (forall t b, remote_of (put_sock a s' w) t b <-> remote_of w t b) as Hro.
  { intros t b. unfold remote_of. rewrite put_sock_lookup. case_decide; subst; [|done]. split.
    - intros (s0 & [= <-] & He & Hst). exists s. rewrite Hk in He. rewrite Ht in Hst by done. done.
    - intros (s0 & Hs0 & He & Hst). assert (s0 = s) as -> by congruence. exists s'.
      split; [done|]. split; [congruence|]. by rewrite Ht. }
  split; wcbn; try apply B.
  - intros b [[? Hb]|Hb]; [|by apply B; right].
    apply B. left. destruct (decide (a = b)) as [<-|]; [by eexists|].
    rewrite lookup_insert_ne in Hb by done. by eexists.
  - intros b. rewrite (b_listed _ _ B). destruct (decide (a = b)) as [<-|].
    + rewrite lookup_insert_eq. split; intros (s0 & Hs0 & He); eexists; split; try done; congruence.
    + by rewrite lookup_insert_ne.
  - intros b [s0 Hb]. apply (b_apart _ _ B). destruct (decide (a = b)) as [<-|]; [by eexists|].
    rewrite lookup_insert_ne in Hb by done. by eexists.
  - intros t y Hy. destruct (b_trans _ _ B t y Hy) as [Hnd Hin]. split; [done|]. intros b.
    rewrite Hin. symmetry. apply Hro.
  - intros b s0. destruct (decide (a = b)) as [<-|].
    + rewrite lookup_insert_eq. intros [= <-] He. rewrite Hk in He. rewrite Ht by done.
      by apply (b_target _ _ B _ _ Ha).
    + rewrite lookup_insert_ne by done. apply B.
  - intros b s0 Hb Hne. assert (a <> b) by outside. rewrite lookup_insert_ne in Hb by done.
    eapply sock_ok_frame; [..|apply (b_sock _ _ B _ _ Hb)]; try done; by outside.
Qed.

(** A socket that was worked on is whole again. *)
Lemma base_done X w a : base (a :: X) w ->
  (forall s, w_socks w !! a = Some s -> sock_ok w a s) -> base X w.
Proof.
  intros B Ha. destruct B as [? ? ? ? ? ? ? ? ? Hs]. split; try done.
  intros b s Hb HX. destruct (decide (b = a)) as [->|]; [by apply Ha|]. apply Hs; [done|]. by apply not_elem_of_cons.
Qed.

Lemma base_open X w a : base X w -> base (a :: X) w.
Proof.
  intros B. destruct B as [? ? ? ? ? ? ? ? ? Hs]. split; try done.
  intros b s Hb HX. apply Hs; [done|]. by apply not_elem_of_cons in HX as [].
Qed.

(** Descriptors do not matter. *)
Lemma base_io X w m : base X w -> base X (with_io m w).
Proof.
  intros B. destruct B as [? ? ? ? ? ? ? ? ? Hs]. split; try done.
  intros a s Ha Hne. by eapply sock_ok_frame; [..|by apply Hs].
Qed.
Lemma peers_io X w m : peers X w -> peers X (with_io m w).
Proof. done. Qed.
Lemma framed_io w m : framed [] w (with_io m w).
Proof. split; try done. intros t x Hx. exists x. split; [done|apply same_trans_refl]. Qed.

(** The interest of one socket changes. *)
Lemma base_ev X w a e i : base (a :: X) w ->
  ev_ok e -> is_Some (fde_wants w a) -> ev_interest (F := fd_func) e a = Some i ->
  (forall b, b <> a -> ev_interest (F := fd_func) e b = fde_wants w b) ->
  base (a :: X) (with_ev e w).
Proof.
  intros B He Ha Hi Hb. split; wcbn; try apply B; try done.
  - intros b H. apply B. destruct H as [?|[?|?]]; auto.
    destruct (decide (b = a)) as [->|]; [by auto|]. rewrite Hb in * by done. auto.
  - intros b H. apply B. destruct (decide (b = a)) as [->|]; [done|]. by rewrite Hb in H by done.
  - intros b H. destruct (decide (b = a)) as [->|]; [by eexists|]. rewrite Hb by done. by apply B.
  - intros b s Hs Hne. assert (b <> a) by outside.
    eapply sock_ok_frame; [..|apply (b_sock _ _ B _ _ Hs)]; try done; [by apply Hb|by outside..].
Qed.

(** *** Events *)

Lemma framed_ev w a e : 
  (forall b, b <> a -> ev_interest (F := fd_func) e b = fde_wants w b) ->
  (forall fd, ev_free_fd (F := fd_func) (w_ev w) fd -> ev_free_fd (F := fd_func) e fd) ->
  framed [a] w (with_ev e w).
Proof.
  intros Hb Hf. split; wcbn; try done.
  - intros b Hn. apply Hb. intros ->. apply Hn. by left.
  - intros t x Hx. exists x. split; [done|apply same_trans_refl].
Qed.

Lemma fde_add_ok X w a i m : base (a :: X) w -> fde_wants w a = Some i ->
  exists e, sock_fde_add w a m = Ok (with_ev e w) /\ base (a :: X) (with_ev e w)
    /\ fde_wants (with_ev e w) a = Some (Z.lor i (Z.land m FDE_EVENTMASK))
    /\ framed [a] w (with_ev e w).
Proof.
  intros B Hi. destruct (law_add (w_ev w) a i m (b_ev _ _ B) Hi) as (e & E' & Hok & Ha & Hb & _ & Hf).
  exists e. unfold sock_fde_add. rewrite E'. split; [done|]. split; [|split; [done|by apply framed_ev]].
  eapply base_ev; eauto.
Qed.

Lemma fde_del_ok X w a i m : base (a :: X) w -> fde_wants w a = Some i ->
  exists e, sock_fde_del w a m = Ok (with_ev e w) /\ base (a :: X) (with_ev e w)
    /\ fde_wants (with_ev e w) a = Some (Z.land i (Z.lnot (Z.land m FDE_EVENTMASK)))
    /\ framed [a] w (with_ev e w).
Proof.
  intros B Hi. destruct (law_del (w_ev w) a i m (b_ev _ _ B) Hi) as (e & E' & Hok & Ha & Hb & _ & Hf).
  exists e. unfold sock_fde_del. rewrite E'. split; [done|]. split; [|split; [done|by apply framed_ev]].
  eapply base_ev; eauto.
Qed.

(** The interests after the calls that sockets make. *)
Lemma wants_add_write i : has (Z.lor i (Z.land FDE_WRITE FDE_EVENTMASK)) FDE_WRITE = true
  /\ has (Z.lor i (Z.land FDE_WRITE FDE_EVENTMASK)) FDE_READ = has i FDE_READ.
Proof. split; flags; done. Qed.
Lemma wants_add_read i : has (Z.lor i (Z.land FDE_READ FDE_EVENTMASK)) FDE_READ = true
  /\ has (Z.lor i (Z.land FDE_READ FDE_EVENTMASK)) FDE_WRITE = has i FDE_WRITE.
Proof. split; flags; done. Qed.
Lemma wants_del_read i : has (Z.land i (Z.lnot (Z.land FDE_READ FDE_EVENTMASK))) FDE_READ = false
  /\ has (Z.land i (Z.lnot (Z.land FDE_READ FDE_EVENTMASK))) FDE_WRITE = has i FDE_WRITE.
Proof. split; flags; done. Qed.
Lemma wants_del_write i : has (Z.land i (Z.lnot (Z.land FDE_WRITE FDE_EVENTMASK))) FDE_WRITE = false
  /\ has (Z.land i (Z.lnot (Z.land FDE_WRITE FDE_EVENTMASK))) FDE_READ = has i FDE_READ.
Proof. split; flags; done. Qed.

(** *** Transports *)

Lemma base_put_trans X w t y y' : base X w -> w_trans w !! t = Some y ->
  t_disconnects y' = t_disconnects y -> base X (put_trans t y' w).
Proof.
  intros B Ht Hd.
  assert (forall u, is_Some (<[t := y']> (w_trans w) !! u) <-> is_Some (w_trans w !! u)) as Hs.
  { intros u. destruct (decide (t = u)) as [<-|]; [by rewrite lookup_insert_eq, Ht|by rewrite lookup_insert_ne]. }
  destruct B as [? ? Hfr ? Hev ? Hap Htr Htg Hso]. split; wcbn; try done.
  - intros a H. apply Hfr. by rewrite <-Hs.
  - intros a H. rewrite Hs. by apply Hev.
  - intros a H. apply eq_None_not_Some. rewrite Hs. apply eq_None_not_Some. by apply Hap.
  - intros u z. destruct (decide (t = u)) as [<-|].
    + rewrite lookup_insert_eq. intros [= <-]. rewrite Hd. by apply (Htr t y).
    + rewrite lookup_insert_ne by done. apply Htr.
  - intros a s Ha He. destruct (Htg a s Ha He) as (u & Hu & Hx). exists u. by rewrite Hs.
  - intros a s Ha Hne. apply (sock_ok_frame w); [done|done| |by apply Hso]. intros u. wcbn. by rewrite Hs.
Qed.

Lemma framed_put_trans w t y l : w_trans w !! t = Some y ->
  framed [] w (put_trans t (with_out (t_out y ++ l) y) w).
Proof.
  intros Ht. split; wcbn; try done.
  - intros u z Hu. destruct (decide (t = u)) as [<-|].
    + rewrite lookup_insert_eq. eexists. split; [done|]. exists l, (t_disconnects y).
      assert (z = y) as -> by congruence. split; [by destruct y|done].
    + rewrite lookup_insert_ne by done. exists z. split; [done|apply same_trans_refl].
  - intros u Hu. rewrite lookup_insert_ne; [done|]. intros <-. congruence.
Qed.

(** A packet whose announced payload is there. *)
Definition sealable p : Prop :=
  0 <= data_length (msg p) <= MAX_PAYLOAD /\ data_length (msg p) <= Z.of_nat (length (p_data p)).

Lemma seal_ok p : sealable p -> exists q, seal p = Ok q.
Proof. intros [H1 H2]. unfold seal, data_prefix. rewrite bool_decide_true by lia. by eexists. Qed.

Lemma send_to_ok X w p t : base X w -> is_Some (w_trans w !! t) -> sealable p ->
  ensures (send_to w p (Some t)) (fun w' => exists y q, w_trans w !! t = Some y /\ seal p = Ok q
    /\ w' = put_trans t (with_out (t_out y ++ [q]) y) w /\ base X w' /\ framed [] w w').
Proof.
  intros B [y Ht] Hp. destruct (seal_ok p Hp) as [q Hq]. unfold send_to, get_trans. rewrite Hq, Ht.
  cbn [access res_bind]. destruct (t_broken y); [done|]. exists y, q. split_and!; try done.
  - eapply base_put_trans; eauto.
  - by apply framed_put_trans.
Qed.

(** *** Freeing *)

Lemma in_filter_ne (l : list addr) a b : b ∈ filter (fun b => b <> a) l <-> b <> a /\ b ∈ l.
Proof. by rewrite list_elem_of_filter. Qed.

Lemma NoDup_filter_app (l k : list addr) a : NoDup (l ++ k) ->
  NoDup (filter (fun b => b <> a) l ++ filter (fun b => b <> a) k).
Proof. rewrite <-filter_app. apply NoDup_filter. Qed.

(** The world after a local socket was destroyed. *)
Definition destroyed w a e : world E :=
  free_sock a (put_sock a (with_id 0 (blank_socket local_enqueue local_ready local_close))
    (with_lists (filter (fun b => b <> a) (w_locals w)) (filter (fun b => b <> a) (w_closing w)) (with_ev e w))).

Lemma base_destroyed X w a s e : base (a :: X) w -> w_socks w !! a = Some s ->
  sk_enqueue s = local_enqueue -> ev_ok e -> ev_interest (F := fd_func) e a = None ->
  (forall b, b <> a -> ev_interest (F := fd_func) e b = fde_wants w b) ->
  base X (destroyed w a e).
Proof.
  intros B Ha Hk He Hea Heb. unfold destroyed. split; wcbn; rewrite ?delete_insert_eq.
  - done.
  - apply NoDup_filter_app, B.
  - intros b H. apply B. destruct H as [Hs|[?|Hi]]; [|by auto|].
    + left. destruct (decide (a = b)) as [<-|]; [by rewrite lookup_delete_eq in Hs; destruct Hs|].
      by rewrite lookup_delete_ne in Hs.
    + destruct (decide (b = a)) as [->|]; [rewrite Hea in Hi; by destruct Hi|]. rewrite Heb in Hi by done. auto.
  - intros b. rewrite <-filter_app, in_filter_ne, (b_listed _ _ B). destruct (decide (a = b)) as [<-|Hne].
    + rewrite lookup_delete_eq. split; [by intros [? _]|by intros (? & ? & _)].
    + rewrite lookup_delete_ne by done. split; [by intros [_ ?]|auto].
  - intros b Hi. destruct (decide (b = a)) as [->|Hne]; [rewrite Hea in Hi; by destruct Hi|].
    rewrite Heb in Hi by done. apply (b_events _ _ B) in Hi as [?|?]; [|by right]. left.
    rewrite <-filter_app, in_filter_ne. done.
  - intros b. rewrite <-filter_app, in_filter_ne. intros [Hne Hin]. rewrite Heb by done. by apply B.
  - intros b Hs. apply (b_apart _ _ B). destruct (decide (a = b)) as [<-|].
    + rewrite lookup_delete_eq in Hs. by destruct Hs.
    + by rewrite lookup_delete_ne in Hs.
  - intros t y Hy. destruct (b_trans _ _ B t y Hy) as [Hnd Hin]. split; [done|]. intros b. rewrite Hin.
    unfold remote_of. wcbn. rewrite delete_insert_eq. destruct (decide (a = b)) as [<-|].
    + rewrite lookup_delete_eq. split; [intros (s0 & Hs0 & He0 & _); congruence|by intros (? & ? & _)].
    + by rewrite lookup_delete_ne.
  - intros b s0 Hb. destruct (decide (a = b)) as [<-|]; [by rewrite lookup_delete_eq in Hb|].
    rewrite lookup_delete_ne in Hb by done. by apply (b_target _ _ B b s0).
  - intros b s0 Hb HX. destruct (decide (a = b)) as [<-|Hne]; [by rewrite lookup_delete_eq in Hb|].
    rewrite lookup_delete_ne in Hb by done.
    eapply sock_ok_frame; [..|apply (b_sock _ _ B _ _ Hb)]; try done.
    + wcbn. by apply Heb.
    + wcbn. rewrite in_filter_ne. split; [by intros []|intros; split; [congruence|done]].
    + by outside.
Qed.

Lemma destroy_ok X w a s : base (a :: X) w -> w_socks w !! a = Some s ->
  sk_enqueue s = local_enqueue ->
  ensures (local_socket_destroy w a) (fun w' => base X w' /\ framed [a] w w' /\ closed w' a
    /\ w_socks w' = delete a (w_socks w) /\ w_trans w' = w_trans w).
Proof.
  intros B Ha Hk. assert (a ∈ w_locals w ++ w_closing w) as Hin by (apply B; eauto).
  destruct (b_int _ _ B a Hin) as [i Hi].
  destruct (law_remove (w_ev w) a i (b_ev _ _ B) Hi) as (e & E' & Hok & Hea & Heb & _ & Hf).
  unfold local_socket_destroy, sock_fde_remove. rewrite (get_sock_ok _ _ _ Ha), E'. cbn [res_bind].
  unfold remove_from_lists. rewrite (get_sock_ok _ _ s) by (wcbn; exact Ha). cbn [res_bind].
  rewrite bool_decide_true by (by apply elem_of_app in Hin). cbn [res_bind].
  destruct (sk_exit_on_close s); [done|].
  match goal with |- ensures (Ok ?w1) _ => assert (w1 = destroyed w a e) as -> end.
  { unfold destroyed, free_sock, put_sock, with_socks, with_lists, with_ev. cbn. by rewrite !delete_insert_eq. }
  cbn [ensures]. split; [by eapply base_destroyed|]. split; [|split; [|split; [|done]]].
  - unfold destroyed. split; wcbn; try done.
    + intros b Hb. assert (a <> b) by (intros ->; apply Hb; by left).
      by rewrite delete_insert_eq, lookup_delete_ne.
    + intros b Hb. apply Heb. intros ->. apply Hb. by left.
    + intros b Hb. rewrite in_filter_ne. split; [by intros []|]. intros. split; [|done].
      intros ->. apply Hb. by left.
    + intros b Hb. by apply in_filter_ne in Hb as [].
    + intros t y Hy. exists y. split; [done|apply same_trans_refl].
  - unfold destroyed. split; wcbn.
    + rewrite in_filter_ne. by intros [].
    + intros s0. by rewrite delete_insert_eq, lookup_delete_eq.
  - unfold destroyed. wcbn. by rewrite delete_insert_eq.
Qed.

(** A remote socket leaves the list of its transport and is freed. *)
Lemma free_remote_ok X w a s t y : base (a :: X) w -> w_socks w !! a = Some s ->
  sk_enqueue s = remote_enqueue -> sk_transport s = Some t -> w_trans w !! t = Some y ->
  let w' := free_sock a (put_trans t (with_disconnects (filter (fun b => b <> a) (t_disconnects y)) y) w) in
  base X w' /\ framed [a] w w' /\ closed w' a /\ w_socks w' = delete a (w_socks w).
Proof.
  intros B Ha Hk Ht Hy w'.
  assert (forall u, is_Some (w_trans w' !! u) <-> is_Some (w_trans w !! u)) as Hs.
  { intros u. unfold w'. wcbn. destruct (decide (t = u)) as [<-|];
      [by rewrite lookup_insert_eq, Hy|by rewrite lookup_insert_ne]. }
  assert (forall b, w_socks w' !! b = if decide (a = b) then None else w_socks w !! b) as Hl.
  { intros b. unfold w'. wcbn. case_decide; subst; [apply lookup_delete_eq|by apply lookup_delete_ne]. }
  assert (a ∉ w_locals w ++ w_closing w) as Hnl.
  { intros Hin. apply (b_listed _ _ B) in Hin as (s0 & Hs0 & He). congruence. }
  split; [|split; [|split; [|done]]].
  - destruct B as [? ? Hfr Hli Hev ? Hap Htr Htg Hso]. split; try done.
    + intros b H. apply Hfr. rewrite Hs in H. destruct H as [Hb|?]; [|auto]. left. rewrite Hl in Hb.
      case_decide; [by destruct Hb|done].
    + intros b. change (w_locals w' ++ w_closing w') with (w_locals w ++ w_closing w). rewrite Hli, Hl.
      case_decide; [|done]. subst. split; [intros (s0 & Hs0 & He); congruence|by intros (? & ? & _)].
    + intros b Hb. rewrite Hs. by apply Hev.
    + intros b Hb. rewrite Hl in Hb. apply eq_None_not_Some. rewrite Hs. apply eq_None_not_Some.
      case_decide; [by destruct Hb|]. by apply Hap.
    + intros u z Hz. unfold remote_of.
      assert (exists z0, w_trans w !! u = Some z0 /\ NoDup (t_disconnects z) /\
        forall b, b ∈ t_disconnects z <-> b <> a /\ b ∈ t_disconnects z0) as (z0 & Hz0 & Hnd & Hin).
      { unfold w' in Hz. wcbn. destruct (decide (t = u)) as [<-|Hne].
        - rewrite lookup_insert_eq in Hz. injection Hz as <-. exists y. cbn. split; [done|].
          split; [apply NoDup_filter; by apply (Htr t y)|]. intros b. apply in_filter_ne.
        - rewrite lookup_insert_ne in Hz by done. exists z. split; [done|].
          destruct (Htr u z Hz) as [Hnd Hin]. split; [done|]. intros b. split; [|by intros []].
          intros Hb. split; [|done]. intros ->. apply Hin in Hb as (s0 & Hs0 & _ & Hst). congruence. }
      split; [done|]. intros b. rewrite Hin, Hl. destruct (Htr u z0 Hz0) as [_ Hz0in]. rewrite Hz0in.
      case_decide; subst; [split; [by intros [? _]|by intros (? & ? & _)]|].
      split; [by intros [_ ?]|auto].
    + intros b s0 Hb He. rewrite Hl in Hb. case_decide; [done|].
      destruct (Htg b s0 Hb He) as (u & Hu & Hxu). exists u. by rewrite Hs.
    + intros b s0 Hb HX. rewrite Hl in Hb. case_decide; [done|]. apply (sock_ok_frame w); [done|done| |].
      * intros u. by rewrite Hs.
      * apply Hso; [done|]; by outside.
  - split; try done.
    + intros b Hb. rewrite Hl, decide_False; [done|]. intros ->. apply Hb. by left.
    + intros u z Hz. unfold w'. wcbn. destruct (decide (t = u)) as [<-|].
      * rewrite lookup_insert_eq. eexists. split; [done|]. exists [], (filter (fun b => b <> a) (t_disconnects y)).
        assert (z = y) as -> by congruence. unfold with_disconnects, with_out. cbn. rewrite app_nil_r.
        split; [done|apply sublist_filter].
      * rewrite lookup_insert_ne by done. exists z. split; [done|apply same_trans_refl].
    + intros u Hu. apply eq_None_not_Some. rewrite Hs. by apply eq_None_not_Some.
  - split; [intros Hin; apply Hnl; apply elem_of_app; by left|].
    intros s0. rewrite Hl, decide_True by done. done.
Qed.

Lemma free_smart_ok X w a s : base (a :: X) w -> w_socks w !! a = Some s ->
  sk_enqueue s = smart_enqueue ->
  base X (free_sock a w) /\ framed [a] w (free_sock a w) /\ closed (free_sock a w) a.
Proof.
  intros B Ha Hk.
  assert (forall b, w_socks (free_sock a w) !! b = if decide (a = b) then None else w_socks w !! b) as Hl.
  { intros b. wcbn. case_decide; subst; [apply lookup_delete_eq|by apply lookup_delete_ne]. }
  assert (a ∉ w_locals w ++ w_closing w) as Hnl.
  { intros Hin. apply (b_listed _ _ B) in Hin as (s0 & Hs0 & He). congruence. }
  split; [|split].
  - destruct B as [? ? Hfr Hli Hev ? Hap Htr Htg Hso]. split; try done.
    + intros b H. apply Hfr. destruct H as [Hb|?]; [|auto]. left. rewrite Hl in Hb.
      case_decide; [by destruct Hb|done].
    + intros b. change (w_locals (free_sock a w) ++ w_closing (free_sock a w)) with (w_locals w ++ w_closing w).
      rewrite Hli, Hl. case_decide; [|done]. subst.
      split; [intros (s0 & Hs0 & He); congruence|by intros (? & ? & _)].
    + intros b Hb. rewrite Hl in Hb. case_decide; [by destruct Hb|]. by apply Hap.
    + intros u z Hz. destruct (Htr u z Hz) as [Hnd Hin]. split; [done|]. intros b. rewrite Hin.
      unfold remote_of. rewrite Hl. case_decide; [|done]. subst.
      split; [intros (s0 & Hs0 & He & _); congruence|by intros (? & ? & _)].
    + intros b s0 Hb He. rewrite Hl in Hb. case_decide; [done|]. by apply (Htg b s0).
    + intros b s0 Hb HX. rewrite Hl in Hb. case_decide; [done|]. apply (sock_ok_frame w); [done|done|done|].
      apply Hso; [done|]; by outside.
  - split; try done.
    + intros b Hb. rewrite Hl, decide_False; [done|]. intros ->. apply Hb. by left.
    + intros u z Hz. exists z. split; [done|apply same_trans_refl].
  - split; [intros Hin; apply Hnl; apply elem_of_app; by left|].
    intros s0. rewrite Hl, decide_True by done. done.
Qed.

(** *** Closing a socket without a peer *)

(** The second half of [local_socket_close_locked]. *)
Definition close_rest w a : res (Z * world E) :=
  let* s := get_sock w a in
  if sk_closing s || bool_decide (sk_pkts s = []) then
    let* w := local_socket_destroy w a in Ok (0, w)
  else
    let* w := update_sock w a (with_closing true) in
    let* w := sock_fde_del w a FDE_READ in
    let* w := remove_from_lists w a in
    Ok (0, with_lists (w_locals w) (w_closing w ++ [a]) w).

(** The world after a local socket was moved to the closing list. *)
Definition parked w a s e : world E :=
  with_lists (filter (fun b => b <> a) (w_locals w)) (filter (fun b => b <> a) (w_closing w) ++ [a])
    (put_sock a (with_id 0 (with_closing true s)) (with_ev e w)).

Lemma parked_lists w a s e b : a ∈ w_locals w ++ w_closing w ->
  b ∈ w_locals (parked w a s e) ++ w_closing (parked w a s e) <-> b ∈ w_locals w ++ w_closing w.
Proof.
  intros Ha. unfold parked. wcbn. rewrite !elem_of_app, !in_filter_ne, list_elem_of_singleton in *.
  destruct (decide (b = a)) as [->|]; tauto.
Qed.

Lemma base_parked X w a s e i : base (a :: X) w -> w_socks w !! a = Some s ->
  sk_enqueue s = local_enqueue -> sk_peer s = None -> sk_ready s = local_ready -> sk_close s = local_close ->
  Forall pkt_ok (sk_pkts s) -> sk_pkts s <> [] -> a ∉ w_closing w ->
  ev_ok e -> ev_interest (F := fd_func) e a = Some i -> has i FDE_WRITE = true -> has i FDE_READ = false ->
  (forall b, b <> a -> ev_interest (F := fd_func) e b = fde_wants w b) ->
  base X (parked w a s e).
Proof.
  intros B Ha Hk Hp Hr Hc Hpk Hne Hnin He Hi Hiw Hir Hb.
  assert (a ∈ w_locals w ++ w_closing w) as Hin by (apply B; eauto).
  pose proof (b_int _ _ B a Hin) as Hwa.
  set (s' := with_id 0 (with_closing true s)).
  assert (base (a :: X) (with_ev e w)) as B1 by (eapply base_ev; eauto).
  assert (base (a :: X) (put_sock a s' (with_ev e w))) as B2
    by (eapply base_put; eauto).
  assert (forall b, b <> a -> b ∈ w_closing (parked w a s e) <-> b ∈ w_closing w) as Hcl.
  { intros b Hne'. unfold parked. wcbn. rewrite elem_of_app, in_filter_ne, list_elem_of_singleton. tauto. }
  pose proof (parked_lists w a s e) as Hl.
  destruct B2 as [Hok ? Hfr Hli Hev Hint Hap Htr Htg Hso]. split; try done.
  - unfold parked. wcbn. rewrite (filter_not_in (w_closing w)) by done.
    rewrite app_assoc. apply NoDup_app. split; [|split; [|apply NoDup_singleton]].
    + rewrite <-(filter_not_in (w_closing w) a Hnin). apply NoDup_filter_app, B.
    + intros b Hm ->%list_elem_of_singleton.
      apply elem_of_app in Hm as [Hm|Hm]; [by apply in_filter_ne in Hm as []|done].
  - intros b. rewrite Hl by done. apply Hli.
  - intros b. rewrite Hl by done. apply Hev.
  - intros b. rewrite Hl by done. apply Hint.
  - intros b s0 Hs HX. destruct (decide (b = a)) as [->|Hne'].
    + unfold parked in Hs. wcbn. rewrite lookup_insert_eq in Hs. injection Hs as <-.
      unfold sock_ok. cbn [with_id with_closing sk_enqueue]. rewrite Hk.
      split; cbn [with_id with_closing sk_ready sk_close sk_pkts sk_closing sk_peer]; try done.
      * by left.
      * exists i. by rewrite Hiw.
      * unfold parked. wcbn. rewrite elem_of_app, list_elem_of_singleton. tauto.
    + apply (sock_ok_frame (put_sock a s' (with_ev e w))); [done|by apply Hcl|done|].
      apply Hso; [done|by outside].
Qed.

Lemma framed_parked w a s e :
  (forall b, b <> a -> ev_interest (F := fd_func) e b = fde_wants w b) ->
  (forall fd, ev_free_fd (F := fd_func) (w_ev w) fd -> ev_free_fd (F := fd_func) e fd) ->
  framed [a] w (parked w a s e).
Proof.
  intros Heq Hf. unfold parked. split; wcbn; try done.
  - intros b Hn. rewrite lookup_insert_ne; [done|]. intros ->. by apply Hn, list_elem_of_singleton.
  - intros b Hn. apply Heq. intros ->. by apply Hn, list_elem_of_singleton.
  - intros b Hn. rewrite elem_of_app, in_filter_ne, list_elem_of_singleton in *. tauto.
  - intros b Hn. by apply in_filter_ne in Hn as [].
  - intros t y Ht. exists y. split; [done|apply same_trans_refl].
Qed.

Lemma close_rest_ok X w a s : base (a :: X) w -> w_socks w !! a = Some s ->
  sk_enqueue s = local_enqueue -> sk_peer s = None -> closable w a s ->
  ensures (close_rest w a) (fun r => base X r.2 /\ framed [a] w r.2 /\ closed r.2 a
    /\ w_trans r.2 = w_trans w).
Proof.
  intros B Ha Hk Hp Hc. unfold close_rest. rewrite (get_sock_ok _ _ _ Ha). cbn [res_bind].
  destruct (sk_closing s || bool_decide (sk_pkts s = [])) eqn:Hd.
  { apply ensures_bind. eapply ensures_mono; [|by eapply destroy_ok].
    intros w' (B' & F & C & Hs & Ht). cbn [ensures snd]. by split_and!. }
  apply orb_false_iff in Hd as [Hcl Hne%bool_decide_eq_false].
  unfold closable in Hc. rewrite Hk in Hc. destruct Hc as ([[Hr Hf]|(_ & _ & ? & _)] & Hpk & Hint & _ & Hin); [|done].
  destruct (Hint Hne) as (i & Hi & Hiw). assert (a ∉ w_closing w) as Hnin by (intros ?%Hin; congruence).
  destruct (law_del (w_ev w) a i FDE_READ (b_ev _ _ B) Hi) as (e & E' & Hok & Hea & Heb & _ & Hfd).
  rewrite (update_sock_ok _ _ _ _ Ha). cbn [res_bind]. unfold sock_fde_del. wcbn. rewrite E'.
  cbn [res_bind]. unfold remove_from_lists.
  rewrite (get_sock_ok _ a (with_closing true s)) by (wcbn; apply lookup_insert_eq). cbn [res_bind].
  rewrite bool_decide_true by (wcbn; apply elem_of_app, B; eauto). cbn [res_bind ensures snd].
  match goal with |- base X ?w1 /\ _ => assert (w1 = parked w a s e) as -> end.
  { unfold parked, put_sock, with_socks, with_lists, with_ev. cbn. by rewrite insert_insert_eq. }
  destruct (wants_del_read i) as [W1 W2]. split_and!; [|by apply framed_parked| |done].
  - eapply base_parked; eauto; by rewrite ?W2.
  - split; unfold parked; wcbn; [rewrite in_filter_ne; by intros []|].
    intros s0. rewrite lookup_insert_eq. by intros [= <-].
Qed.

End Invariant.
