(* ===== verification/SocketsClose.v ===== *)
(** * Closing sockets

    Closing a socket closes its peer; a remote socket says [CLSE].  The
    theorems say which sockets go, what is sent, and that nothing is used after
    it was freed, for every world that meets the invariant of SocketsInv.v. *)

From S2P Require Import Prelude Cstr Rwx Packet Fdevent World Transport Sockets SocketsInv.

(** A message without payload, as [send_packet] queues it. *)
Definition header_packet (c i j : Z) : apacket :=
  Apacket 0 0 (Amessage c i j 0 0 (Z.lxor c 0xffffffff)) [].

Section Close.
Context {E : Type} {I : FdEvents E fd_func} {L : FdEventsLaws E fd_func I}.
Implicit Types (w : world E) (a b : addr) (t : option addr) (s : asocket) (p : apacket) (X A : list addr).

Abbreviation fde_wants w a := (ev_interest (F := fd_func) (w_ev w) a).

(** The packets queued for a transport. *)
Definition outs w (u : addr) : option (list apacket) := t_out <$> w_trans w !! u.

(** [l] was sent to [t], and nothing else. *)
Definition sent t (l : list apacket) w w' : Prop :=
  forall u, outs w' u = (if decide (t = Some u) then (fun o => o ++ l) else id) <$> outs w u.

(** What closing the sockets [A] does. *)
Record closes X A t (l : list apacket) w w' : Prop := Closes {
  cl_base : base X w';
  cl_framed : framed A w w';
  cl_closed : Forall (closed w') A;
  cl_sent : sent t l w w'
}.

(** The farewell of a remote socket. *)
Definition goodbye (i : Z) s : list apacket :=
  match sk_enqueue s with
  | remote_enqueue => [header_packet A_CLSE i (sk_id s)]
  | _ => []
  end.

(** * Theorems *)

Lemma seal_header c i j : seal (set_header c i j get_apacket) = Ok (header_packet c i j).
Proof. done. Qed.

Lemma sent_quiet t w w' : (forall u, outs w' u = outs w u) -> sent t [] w w'.
Proof.
  intros H u. rewrite H. destruct (decide _); destruct (outs w u); cbn; [by rewrite app_nil_r|done..].
Qed.

Lemma sent_trans t l l' w1 w2 w3 : sent t l w1 w2 -> sent t l' w2 w3 -> sent t (l ++ l') w1 w3.
Proof.
  intros H H' u. rewrite H', H. destruct (decide _); destruct (outs w1 u); cbn; [by rewrite app_assoc|done..].
Qed.

Lemma sent_any t t' w w' : sent t [] w w' -> sent t' [] w w'.
Proof.
  intros H. apply sent_quiet. intros u. rewrite H.
  destruct (decide _); destruct (outs w u); cbn; [by rewrite app_nil_r|done..].
Qed.

Lemma sent_after t l w1 w2 w3 : sent t [] w1 w2 -> sent t l w2 w3 -> sent t l w1 w3.
Proof. apply (sent_trans t [] l). Qed.

Lemma sent_before t l w1 w2 w3 : sent t l w1 w2 -> sent t [] w2 w3 -> sent t l w1 w3.
Proof. intros H H'. rewrite <-(app_nil_r l). by eapply sent_trans. Qed.

Lemma outs_put_trans (t : addr) y y' w u : w_trans w !! t = Some y ->
  outs (put_trans t y' w) u = if decide (t = u) then Some (t_out y') else outs w u.
Proof.
  intros Hy. unfold outs. wcbn. case_decide; subst; [by rewrite lookup_insert_eq|by rewrite lookup_insert_ne].
Qed.

(** Sending a packet. *)
Lemma send_ok X w p (t : addr) : base X w -> is_Some (w_trans w !! t) -> sealable p ->
  ensures (send_to w p (Some t)) (fun w' => base X w' /\ framed [] w w' /\ w_socks w' = w_socks w
    /\ w_io w' = w_io w /\ w_ev w' = w_ev w /\ exists q, seal p = Ok q /\ sent (Some t) [q] w w').
Proof.
  intros B Ht Hp. eapply ensures_mono; [|by eapply send_to_ok].
  intros w' (y & q & Hy & Hq & -> & B' & F). split_and!; try done. exists q. split; [done|].
  intros u. rewrite (outs_put_trans t y) by done. unfold outs.
  destruct (decide (t = u)) as [<-|Hne]; [|rewrite decide_False by congruence; by destruct (w_trans w !! u)].
  rewrite decide_True, Hy by done. done.
Qed.

Lemma sealable_header c i j : sealable (set_header c i j get_apacket).
Proof. by split; vm_compute. Qed.

(** A message with a payload. *)
Lemma sealable_data bs n c i j : 0 <= n <= MAX_PAYLOAD -> n <= Z.of_nat (length bs) ->
  sealable (set_data bs (set_data_length n (set_header c i j get_apacket))).
Proof. intros H1 H2. split; [done|]. cbn [set_data p_data data_length msg set_data_length set_msg]. rewrite length_app. lia. Qed.

Lemma send_header_ok X w c i j (t : addr) : base X w -> is_Some (w_trans w !! t) ->
  ensures (send_to w (set_header c i j get_apacket) (Some t)) (fun w' => base X w' /\ framed [] w w'
    /\ w_socks w' = w_socks w /\ w_io w' = w_io w /\ w_ev w' = w_ev w
    /\ sent (Some t) [header_packet c i j] w w').
Proof.
  intros B Ht. eapply ensures_mono; [|eapply send_ok; [exact B|exact Ht|apply sealable_header]].
  intros w' (B' & F & Hs & Hio & Hev & q & [= <-]%(eq_trans (eq_sym (seal_header _ _ _))) & S). by split_and!.
Qed.

(** ** A socket without a peer *)

Lemma remote_free_ok X w a s : base (a :: X) w -> w_socks w !! a = Some s -> sk_enqueue s = remote_enqueue ->
  ensures (remove_disconnect w (sk_transport s) a) (fun w' => closes X [a] None [] w (free_sock a w')).
Proof.
  intros B Ha Hk. destruct (b_target _ _ B a s Ha Hk) as (t & Ht & [y Hy]).
  rewrite Ht. unfold remove_disconnect, update_trans, get_trans. rewrite Hy. cbn [access res_bind ensures].
  destruct (free_remote_ok X w a s t y B Ha Hk Ht Hy) as (B' & F & C & _).
  split; [done..|by constructor|]. apply sent_quiet. intros u.
  etransitivity; [apply (outs_put_trans t y); done|]. unfold outs. case_decide; subst; by rewrite ?Hy.
Qed.

(** The end of [remote_socket_close]. *)
Lemma farewell_ok X w a s i : base (a :: X) w -> w_socks w !! a = Some s -> sk_enqueue s = remote_enqueue ->
  ensures (let* s := get_sock w a in
           let* w := send_to w (set_header A_CLSE i (sk_id s) get_apacket) (sk_transport s) in
           let* w := remove_disconnect w (sk_transport s) a in
           Ok (0, free_sock a w))
    (fun r => closes X [a] (sk_transport s) (goodbye i s) w r.2).
Proof.
  intros B Ha Hk. destruct (b_target _ _ B a s Ha Hk) as (t & Ht & Hy).
  rewrite (get_sock_ok _ _ _ Ha). cbn [res_bind]. apply ensures_bind. rewrite Ht.
  eapply ensures_mono; [|by apply send_header_ok]. intros w1 (B1 & F1 & Hs & _ & _ & S1).
  apply ensures_bind. rewrite <-Ht. eapply ensures_mono; [|eapply remote_free_ok; [exact B1|by rewrite Hs|done]].
  intros w2 [B2 F2 C2 S2]. cbn [ensures snd]. unfold goodbye. rewrite Hk. split; [done| |done|].
  - by apply (framed_trans [] [a] w w1).
  - rewrite Ht. by eapply sent_before; [|eapply sent_any].
Qed.

Lemma close_locked_alone rec w a s : w_socks w !! a = Some s -> sk_peer s = None ->
  local_socket_close_locked rec a w = close_rest w a.
Proof. intros Ha Hp. unfold local_socket_close_locked. rewrite (get_sock_ok _ _ _ Ha). cbn [res_bind]. by rewrite Hp. Qed.

Lemma close_locked_alone_ok rec X w a s : base (a :: X) w -> w_socks w !! a = Some s ->
  sk_enqueue s = local_enqueue -> sk_peer s = None -> closable w a s ->
  ensures (local_socket_close_locked rec a w) (fun r => closes X [a] None [] w r.2).
Proof.
  intros B Ha Hk Hp Hc. rewrite (close_locked_alone _ _ _ _ Ha Hp).
  eapply ensures_mono; [|by eapply close_rest_ok]. intros r (B' & F & C & Ht).
  split; [done..|by constructor|]. apply sent_quiet. intros u. unfold outs. by rewrite Ht.
Qed.

Lemma close_leaf rec X w a s : base (a :: X) w -> w_socks w !! a = Some s -> closable w a s ->
  sk_peer s = None -> sk_close s <> local_close_notify ->
  ensures (dispatch rec (CClose a) w) (fun r => closes X [a] (sk_transport s) (goodbye 0 s) w r.2).
Proof.
  intros B Ha Hc Hp Hn. cbn [dispatch]. rewrite (get_sock_ok _ _ _ Ha). cbn [res_bind].
  destruct (sk_enqueue s) eqn:Hk.
  - assert (sk_close s = local_close) as ->.
    { unfold closable in Hc. rewrite Hk in Hc. destruct Hc as ([[_ ?]|(_ & ? & _)] & _); congruence. }
    eapply ensures_mono; [|by eapply (close_locked_alone_ok rec X)].
    intros r [B' F C S]. unfold goodbye. rewrite Hk. split; try done. by eapply sent_any.
  - unfold closable in Hc. rewrite Hk in Hc. destruct (ro_fns _ _ Hc) as [_ ->].
    unfold remote_socket_close. rewrite (get_sock_ok _ _ _ Ha). cbn [res_bind]. rewrite Hp. cbn [res_bind].
    by eapply farewell_ok.
  - unfold closable in Hc. rewrite Hk in Hc. destruct Hc as [_ ->].
    unfold smart_socket_close. rewrite (get_sock_ok _ _ _ Ha). cbn [res_bind]. rewrite Hp. cbn [res_bind].
    rewrite (get_sock_ok _ _ _ Ha). cbn [res_bind ensures snd].
    destruct (free_smart_ok X w a s B Ha Hk) as (B' & F & C). unfold goodbye. rewrite Hk.
    split; [done..|by constructor|]. by apply sent_quiet.
Qed.

(** ** The answer to a request that never connected *)

Lemma sendfailmsg_ok w fd reason : exists r m, sendfailmsg w fd reason = Ok (r, with_io m w).
Proof.
  unfold sendfailmsg.
  destruct (fd_writex_ok w fd (lit "FAIL" ++ hex4 (Z.min (Z.of_nat (length reason)) 65535))) as (r & m & ->).
  cbn [res_bind]. case_bool_decide; [by eauto|].
  match goal with |- context [fd_writex ?w1 fd ?x] => destruct (fd_writex_ok w1 fd x) as (r' & m' & ->) end.
  by eauto.
Qed.

Lemma framed_put w a s : framed [a] w (put_sock a s w).
Proof.
  split; wcbn; try done.
  - intros b Hn. rewrite lookup_insert_ne; [done|]. intros ->. by apply Hn, list_elem_of_singleton.
  - intros u x Hx. exists x. split; [done|apply same_trans_refl].
Qed.

Lemma closed_frame A w w' b : framed A w w' -> b ∉ A -> closed w b -> closed w' b.
Proof.
  intros F Hb [Hl Hs]. split; [by intros H%(fr_locals _ _ _ F)|]. rewrite (fr_socks _ _ _ F) by done. exact Hs.
Qed.

(** A step that sends nothing, before a socket is closed. *)
Lemma closes_after X A B t l w w1 w2 : framed A w w1 -> sent t [] w w1 -> closes X B t l w1 w2 ->
  A ⊆ B -> closes X B t l w w2.
Proof.
  intros F S [B' F' C S'] HAB. split; [done| |done|by eapply sent_after].
  eapply framed_mono; [|by eapply framed_trans]. intros b [?|?]%elem_of_app; auto.
Qed.

Lemma closable_frame w w' a s : fde_wants w' a = fde_wants w a -> (a ∈ w_closing w' <-> a ∈ w_closing w) ->
  (forall u, is_Some (w_trans w !! u) -> is_Some (w_trans w' !! u)) -> closable w a s -> closable w' a s.
Proof.
  intros Hi Hc Ht. unfold closable. destruct (sk_enqueue s); [by rewrite Hi, Hc| |done].
  intros [? (u & Hu & Hx) ?]. split; eauto.
Qed.

Lemma closable_framed A w w' a s : framed A w w' -> a ∉ A -> closable w a s -> closable w' a s.
Proof.
  intros F Ha. apply closable_frame; [by apply F..|]. intros u [x Hx].
  destruct (fr_trans _ _ _ F u x Hx) as (x' & Hx' & _). by eexists.
Qed.

Lemma closable_peer w a s : closable w a s -> closable w a (with_peer None s).
Proof.
  unfold closable. destruct (sk_enqueue s) eqn:Hk; cbn; rewrite ?Hk; try done.
  - intros (Hf & Hp & Hi & Hc & Hl). split_and!; try done.
    + destruct Hf as [?|(? & ? & ? & _)]; [by left|by right].
    + intros Hx. destruct (Hc Hx) as (_ & ? & ?). auto.
  - by intros [? ? ?].
Qed.

Lemma closable_close_fn w a s : closable w a s ->
  match sk_enqueue s with
  | local_enqueue => sk_close s = local_close \/ sk_close s = local_close_notify
  | remote_enqueue => sk_close s = remote_close
  | smart_enqueue => sk_close s = smart_close
  end.
Proof.
  unfold closable. destruct (sk_enqueue s).
  - intros ([[_ ?]|(_ & ? & _)] & _); auto.
  - by intros [[_ ?] _ _].
  - by intros [_ ?].
Qed.

(** [local_socket_close_notify] leaves a socket that closes as usual. *)
Lemma close_notify_ok rec X A t l w a s : base (a :: X) w -> w_socks w !! a = Some s -> closable w a s ->
  sk_enqueue s = local_enqueue -> a ∈ A ->
  (forall w1, base (a :: X) w1 -> framed [a] w w1 -> w_trans w1 = w_trans w ->
    w_socks w1 !! a = Some (with_fns local_ready local_close s) ->
    closable w1 a (with_fns local_ready local_close s) ->
    ensures (rec (CClose a) w1) (fun r => closes X A t l w1 r.2)) ->
  ensures (local_socket_close_notify rec a w) (fun r => closes X A t l w r.2).
Proof.
  intros B Ha Hc Hk HA Hrec. unfold local_socket_close_notify.
  rewrite (update_sock_ok _ _ _ _ Ha). cbn [res_bind].
  rewrite (get_sock_ok _ a (with_fns local_ready local_close s)) by (wcbn; apply lookup_insert_eq). cbn [res_bind].
  match goal with |- context [sendfailmsg ?w1 ?fd ?x] => destruct (sendfailmsg_ok w1 fd x) as (r & m & ->) end.
  cbn [res_bind]. set (w1 := with_io m _).
  assert (framed [a] w w1) as F by (apply (framed_trans [a] [] w (put_sock a (with_fns local_ready local_close s) w));
    [apply framed_put|apply framed_io]).
  eapply ensures_mono; [|apply (Hrec w1); [|done|done| |]].
  - intros r' C. apply (closes_after X [a] A t l w w1); [done|by apply sent_quiet|done|].
    by intros ? ->%list_elem_of_singleton.
  - apply base_io. by eapply base_put.
  - unfold w1. wcbn. apply lookup_insert_eq.
  - unfold closable in *. cbn [with_fns sk_enqueue sk_pkts sk_closing sk_peer sk_close sk_ready].
    rewrite Hk in *. destruct Hc as (Hf & Hp & Hi & Hx & Hl). split_and!; try done; [by left|].
    intros Hcl. by destruct (Hx Hcl) as (? & _).
Qed.

(** ** Any socket without a peer *)

Lemma close_alone n X w a s : base (a :: X) w -> w_socks w !! a = Some s -> closable w a s -> sk_peer s = None ->
  ensures (exec (S (S n)) (CClose a) w) (fun r => closes X [a] (sk_transport s) (goodbye 0 s) w r.2).
Proof.
  intros B Ha Hc Hp. destruct (decide (sk_close s = local_close_notify)) as [Hn|]; [|by eapply close_leaf].
  pose proof (closable_close_fn _ _ _ Hc) as Hf.
  assert (sk_enqueue s = local_enqueue) as Hk by (destruct (sk_enqueue s); congruence).
  cbn [exec dispatch]. rewrite (get_sock_ok _ _ _ Ha). cbn [res_bind]. rewrite Hn.
  eapply close_notify_ok; [done..|by left|]. intros w1 B1 F1 _ Ha1 Hc1.
  eapply ensures_mono; [|eapply (close_leaf _ X); done]. done.
Qed.

(** ** Two peers *)

(** What is known of a socket and its peer, of which exactly one is local. *)
Record pair w a s b sb : Prop := Pair {
  pr_a : w_socks w !! a = Some s;
  pr_b : w_socks w !! b = Some sb;
  pr_ne : b <> a;
  pr_ab : sk_peer s = Some b;
  pr_ba : sk_peer sb = Some a;
  pr_kind : sk_enqueue s = local_enqueue <-> sk_enqueue sb <> local_enqueue;
  pr_ca : closable w a s;
  pr_cb : closable w b sb
}.

(** Which transport hears of it, and what it hears. *)
Definition farewell s sb : option addr * list apacket :=
  match sk_enqueue s with
  | local_enqueue => (sk_transport sb, goodbye 0 sb)
  | _ => (sk_transport s, goodbye (sk_id sb) s)
  end.

(** The peer forgets [a], and is closed. *)
Lemma close_peer_ok n X w a s b sb : base (a :: X) w -> pair w a s b sb ->
  ensures (exec (S (S n)) (CClose b) (put_sock b (with_peer None sb) w)) (fun r =>
    closes (a :: X) [b] (sk_transport sb) (goodbye 0 sb) w r.2
    /\ w_socks r.2 !! a = Some s /\ closable r.2 a s).
Proof.
  intros B P. set (w1 := put_sock b (with_peer None sb) w).
  assert (base (b :: a :: X) w1) as B1 by (eapply base_put; [by apply base_open|apply P|done|done]).
  eapply ensures_mono; [|eapply (close_alone n (a :: X) w1 b (with_peer None sb)); [done| | |done]].
  - intros r C. assert (closes (a :: X) [b] (sk_transport sb) (goodbye 0 sb) w r.2) as C'.
    { eapply (closes_after _ [b]); [apply framed_put|by apply sent_quiet|exact C|done]. }
    assert (a ∉ [b]) as Hab by (intros ->%list_elem_of_singleton; by apply (pr_ne _ _ _ _ _ P)).
    split_and!; [done| |].
    + rewrite (fr_socks _ _ _ (cl_framed _ _ _ _ _ _ C')) by done. apply P.
    + eapply closable_framed; [apply C'|done|apply P].
  - wcbn. apply lookup_insert_eq.
  - apply closable_peer. apply (closable_frame w); [done..|apply P].
Qed.

Ltac in_pair := intros ?; rewrite ?elem_of_app, ?elem_of_cons, ?elem_of_nil; tauto.

Lemma close_locked_pair n X w a s b sb : base (a :: X) w -> pair w a s b sb -> sk_enqueue s = local_enqueue ->
  ensures (local_socket_close_locked (exec (S (S n))) a w)
    (fun r => closes X [a; b] (sk_transport sb) (goodbye 0 sb) w r.2).
Proof.
  intros B P Hk. unfold local_socket_close_locked. rewrite (get_sock_ok _ _ _ (pr_a _ _ _ _ _ P)). cbn [res_bind].
  rewrite (pr_ab _ _ _ _ _ P). rewrite (update_sock_ok _ _ _ _ (pr_b _ _ _ _ _ P)). cbn [res_bind].
  rewrite (get_sock_ok _ b (with_peer None sb)) by (wcbn; apply lookup_insert_eq). cbn [res_bind].
  rewrite bool_decide_false.
  2:{ pose proof (closable_close_fn _ _ _ (pr_cb _ _ _ _ _ P)) as Hf. cbn.
      pose proof (proj1 (pr_kind _ _ _ _ _ P) Hk). destruct (sk_enqueue sb); congruence. }
  apply ensures_bind, ensures_bind. eapply ensures_mono; [|by eapply close_peer_ok].
  intros [v w2] (C & Ha2 & Hc2). cbn [snd] in *. rewrite (update_sock_ok _ _ _ _ Ha2). cbn [ensures].
  change (ensures (close_rest (put_sock a (with_peer None s) w2) a)
    (fun r => closes X [a; b] (sk_transport sb) (goodbye 0 sb) w r.2)).
  destruct C as [B2 F2 C2 S2].
  eapply ensures_mono; [|apply (close_rest_ok X _ a (with_peer None s)); [| |done|done|]].
  - intros r (B4 & F4 & C4 & Ht). split; [done| | |].
    + eapply (framed_mono ([b] ++ [a] ++ [a])); [in_pair|].
      eapply framed_trans; [done|]. eapply framed_trans; [apply framed_put|done].
    + constructor; [done|]. constructor; [|done]. rewrite Forall_singleton in C2.
      eapply closed_frame; [exact F4| |eapply closed_frame; [apply framed_put| |exact C2]];
        intros ->%list_elem_of_singleton; by apply (pr_ne _ _ _ _ _ P).
    + eapply sent_before; [exact S2|]. apply sent_quiet. intros u. unfold outs. by rewrite Ht.
  - by eapply base_put.
  - wcbn. apply lookup_insert_eq.
  - apply closable_peer. by apply (closable_frame w2).
Qed.

(** *** [close] on a socket with a peer *)

Lemma pair_fns w w1 a s b sb : pair w a s b sb -> framed [a] w w1 ->
  w_socks w1 !! a = Some (with_fns local_ready local_close s) ->
  closable w1 a (with_fns local_ready local_close s) ->
  pair w1 a (with_fns local_ready local_close s) b sb.
Proof.
  intros P F Ha Hc. assert (b ∉ [a]) as Hb by (intros ->%list_elem_of_singleton; by apply (pr_ne _ _ _ _ _ P)).
  split; try apply P; try done.
  - rewrite (fr_socks _ _ _ F) by done. apply P.
  - eapply closable_framed; [done..|apply P].
Qed.

(** After the peer, the socket itself. *)
Lemma closes_both X w w2 w3 a b t l : closes (a :: X) [b] t [] w w2 -> closes X [a] t l w2 w3 -> b <> a ->
  closes X [a; b] t l w w3.
Proof.
  intros [B2 F2 C2 S2] [B3 F3 C3 S3] Hne. rewrite Forall_singleton in C2, C3. split; [done| | |by eapply sent_after].
  - eapply (framed_mono ([b] ++ [a])); [in_pair|]. by eapply framed_trans.
  - constructor; [done|]. constructor; [|done]. eapply closed_frame; [exact F3| |done].
    by intros ->%list_elem_of_singleton.
Qed.

Lemma closes_quiet X A t t' w w' : closes X A t [] w w' -> closes X A t' [] w w'.
Proof. intros [? ? ? ?]. split; try done. by eapply sent_any. Qed.

Lemma remote_close_pair n X w a s b sb : base (a :: X) w -> pair w a s b sb -> sk_enqueue s = remote_enqueue ->
  ensures (remote_socket_close (exec (S (S n))) a w)
    (fun r => closes X [a; b] (sk_transport s) (goodbye (sk_id sb) s) w r.2).
Proof.
  intros B P Hk. unfold remote_socket_close. rewrite (get_sock_ok _ _ _ (pr_a _ _ _ _ _ P)). cbn [res_bind].
  rewrite (pr_ab _ _ _ _ _ P). rewrite (get_sock_ok _ _ _ (pr_b _ _ _ _ _ P)). cbn [res_bind].
  rewrite (update_sock_ok _ _ _ _ (pr_b _ _ _ _ _ P)). cbn [res_bind].
  apply ensures_bind, ensures_bind. eapply ensures_mono; [|by eapply close_peer_ok].
  intros [v w2] (C & Ha2 & Hc2). cbn [snd ensures] in *.
  eapply ensures_mono; [|by apply (farewell_ok X w2 a s); [apply C|..]].
  intros r C3. eapply closes_both; [|exact C3|apply P]. eapply closes_quiet.
  pose proof (proj2 (pr_kind _ _ _ _ _ P)) as Hl. unfold goodbye in C.
  destruct (sk_enqueue sb); [exact C|by rewrite Hk in Hl; discriminate (Hl ltac:(done))..].
Qed.

Lemma smart_close_pair n X w a s b sb : base (a :: X) w -> pair w a s b sb -> sk_enqueue s = smart_enqueue ->
  ensures (smart_socket_close (exec (S (S n))) a w)
    (fun r => closes X [a; b] (sk_transport s) (goodbye (sk_id sb) s) w r.2).
Proof.
  intros B P Hk. unfold smart_socket_close. rewrite (get_sock_ok _ _ _ (pr_a _ _ _ _ _ P)). cbn [res_bind].
  rewrite (pr_ab _ _ _ _ _ P). rewrite (update_sock_ok _ _ _ _ (pr_b _ _ _ _ _ P)). cbn [res_bind].
  apply ensures_bind, ensures_bind. eapply ensures_mono; [|by eapply close_peer_ok].
  intros [v w2] (C & Ha2 & Hc2). cbn [snd] in *. rewrite (update_sock_ok _ _ _ _ Ha2). cbn [ensures].
  rewrite (get_sock_ok _ a (with_peer None s)) by (wcbn; apply lookup_insert_eq). cbn [res_bind ensures snd].
  destruct (free_smart_ok X (put_sock a (with_peer None s) w2) a (with_peer None s)) as (B3 & F3 & C3);
    [eapply base_put; [apply C|done..]|wcbn; apply lookup_insert_eq|done|].
  unfold goodbye at 1. rewrite Hk. eapply closes_both; [eapply closes_quiet| |apply P].
  - pose proof (proj2 (pr_kind _ _ _ _ _ P)) as Hl. unfold goodbye in C.
    destruct (sk_enqueue sb); [exact C|by rewrite Hk in Hl; discriminate (Hl ltac:(done))..].
  - eapply (closes_after X [a]); [apply framed_put|by apply sent_quiet| |done].
    split; [done..|by constructor|by apply sent_quiet].
Qed.

Lemma close_pair n X w a s b sb : base (a :: X) w -> pair w a s b sb ->
  ensures (exec (S (S (S (S n)))) (CClose a) w)
    (fun r => closes X [a; b] (farewell s sb).1 (farewell s sb).2 w r.2).
Proof.
  intros B P. pose proof (closable_close_fn _ _ _ (pr_ca _ _ _ _ _ P)) as Hf.
  cbn [exec dispatch]. rewrite (get_sock_ok _ _ _ (pr_a _ _ _ _ _ P)). cbn [res_bind]. unfold farewell.
  destruct (sk_enqueue s) eqn:Hk; cbn [fst snd].
  - destruct Hf as [->| ->]; [by eapply (close_locked_pair (S n))|].
    eapply close_notify_ok; [done|apply P|apply P|done|by left|]. intros w1 B1 F1 Ht Ha1 Hc1.
    cbn [exec dispatch]. rewrite (get_sock_ok _ _ _ Ha1). cbn [res_bind with_fns sk_close].
    eapply close_locked_pair; [done|by eapply pair_fns|done].
  - rewrite Hf. by eapply (remote_close_pair (S n)).
  - rewrite Hf. by eapply (smart_close_pair (S n)).
Qed.

(** *** [close] in a world that meets the invariant *)

(** The sockets that go when [s], at [a], is closed, and what is sent. *)
Definition family a s : list addr := a :: option_list (sk_peer s).
Definition last_words w s : option addr * list apacket :=
  match sk_peer s with
  | None => (sk_transport s, goodbye 0 s)
  | Some b => match w_socks w !! b with Some sb => farewell s sb | None => (None, []) end
  end.

(** [a] has no peer, or one that is whole. *)
Definition peered w a s : Prop := forall b, sk_peer s = Some b -> exists sb, pair w a s b sb.

Lemma close_any n X w a s : base (a :: X) w -> w_socks w !! a = Some s -> closable w a s -> peered w a s ->
  ensures (exec (S (S (S (S n)))) (CClose a) w)
    (fun r => closes X (family a s) (last_words w s).1 (last_words w s).2 w r.2).
Proof.
  intros B Ha Hc Hp. unfold family, last_words. destruct (sk_peer s) as [b|] eqn:Hb.
  - destruct (Hp b Hb) as [sb P]. rewrite (pr_b _ _ _ _ _ P). by apply close_pair.
  - by apply close_alone.
Qed.

Lemma sock_ok_closable w a s : sock_ok w a s -> closable w a s.
Proof.
  unfold sock_ok, closable. destruct (sk_enqueue s); [|done|by intros [? ? ? ?]].
  intros [Hf Hp (i & Hi & Hw & Hr) Hc Hl]. split_and!; try done.
  - intros Hne. exists i. split; [done|]. by apply Hw.
  - intros Hx. destruct (Hc Hx) as (? & ? & ? & ?). done.
Qed.

Lemma peer_ok_peered X w a s : base (a :: X) w -> w_socks w !! a = Some s -> closable w a s -> peer_ok w a s ->
  (forall b, sk_peer s = Some b -> b ∉ X) -> peered w a s.
Proof.
  intros B Ha Hc Hp HX b Hb. unfold peer_ok in Hp. rewrite Hb in Hp.
  destruct Hp as (Hne & sb & Hsb & Hba & Hk & _). exists sb. split; try done.
  apply sock_ok_closable, (b_sock _ _ B); [done|]. apply not_elem_of_cons. auto.
Qed.

(** A local socket without a peer, closing or with nothing to write. *)
Definition alone w a : Prop := forall s, w_socks w !! a = Some s -> sk_peer s = None /\ peer_ok w a s.

Lemma closed_alone w a : base [] w -> closed w a -> alone w a.
Proof.
  intros B [_ Hc] s Ha. destruct (Hc s Ha) as [Hk Hcl].
  pose proof (b_sock _ _ B a s Ha (not_elem_of_nil _)) as Hs. unfold sock_ok in Hs. rewrite Hk in Hs.
  destruct (lo_closing _ _ _ Hs Hcl) as (Hp & _). split; [done|]. unfold peer_ok. rewrite Hp.
  split; [done|]. congruence.
Qed.

(** The sockets outside a family stay paired when the family falls apart. *)
Lemma peers_alone A w w' : peers [] w -> framed A w w' -> (forall a, a ∈ A -> alone w' a) ->
  (forall a s b, a ∈ A -> w_socks w !! a = Some s -> sk_peer s = Some b -> b ∈ A) -> peers [] w'.
Proof.
  intros P F C HA a s Ha _. destruct (decide (a ∈ A)) as [Hin|Hout]; [by apply (C a Hin)|].
  pose proof Ha as Ha'. rewrite (fr_socks _ _ _ F) in Ha' by done.
  pose proof (P a s Ha' (not_elem_of_nil _)) as Hp. unfold peer_ok in *.
  destruct (sk_peer s) as [b|] eqn:Hb; [|done]. destruct Hp as (Hne & sb & Hsb & Hba & Hk).
  split; [done|]. exists sb. split; [|done]. rewrite (fr_socks _ _ _ F); [done|].
  intros Hin. by apply Hout, (HA b sb).
Qed.

Lemma peers_closed A w w' : peers [] w -> base [] w' -> framed A w w' -> Forall (closed w') A ->
  (forall a s b, a ∈ A -> w_socks w !! a = Some s -> sk_peer s = Some b -> b ∈ A) -> peers [] w'.
Proof.
  intros P B F C. apply peers_alone; [done..|]. intros a Ha. rewrite Forall_forall in C. apply closed_alone; auto.
Qed.

(** A socket is rewritten in place, its peer stays. *)
Lemma peers_put w a s s' : peers [] w -> w_socks w !! a = Some s -> sk_peer s' = sk_peer s ->
  sk_enqueue s' = sk_enqueue s -> peer_ok (put_sock a s' w) a s' ->
  (sk_enqueue s = local_enqueue -> sk_pkts s' = [] \/ forall b sb, sk_peer s = Some b -> w_socks w !! b = Some sb ->
     sk_enqueue sb <> smart_enqueue) -> peers [] (put_sock a s' w).
Proof.
  intros P Ha Hp Hk Ho Hq c sc Hc _. wcbn. destruct (decide (a = c)) as [<-|Hne].
  { rewrite lookup_insert_eq in Hc. by injection Hc as <-. }
  rewrite lookup_insert_ne in Hc by done. pose proof (P c sc Hc (not_elem_of_nil _)) as Hpc.
  unfold peer_ok in *. destruct (sk_peer sc) as [d|]; [|done]. destruct Hpc as (Hcd & sd & Hsd & Hdc & Hkd & Hsm).
  split; [done|]. wcbn. destruct (decide (a = d)) as [<-|].
  - assert (sd = s) as -> by congruence. exists s'. rewrite lookup_insert_eq, Hp, Hk. done.
  - exists sd. rewrite lookup_insert_ne by done. done.
Qed.

Lemma family_closed w a s : peers [] w -> w_socks w !! a = Some s ->
  forall c sc d, c ∈ family a s -> w_socks w !! c = Some sc -> sk_peer sc = Some d -> d ∈ family a s.
Proof.
  intros P Ha c sc d Hc Hsc Hd. unfold family in *. apply elem_of_cons in Hc as [->|Hc].
  - assert (sc = s) as -> by congruence. rewrite Hd. right. by left.
  - destruct (sk_peer s) as [b|] eqn:Hb; [|by apply elem_of_nil in Hc].
    apply list_elem_of_singleton in Hc as ->. pose proof (P a s Ha (not_elem_of_nil _)) as Hp.
    unfold peer_ok in Hp. rewrite Hb in Hp. destruct Hp as (_ & sb & Hsb & Hba & _).
    assert (d = a) as -> by congruence. by left.
Qed.

(** Peers in a world that meets the invariant. *)
Lemma wf_pair w a s b : wf_world w -> w_socks w !! a = Some s -> sk_peer s = Some b ->
  exists sb, pair w a s b sb /\ (sk_enqueue sb = smart_enqueue -> sk_pkts s = []).
Proof.
  intros [B P] Ha Hb. pose proof (P a s Ha (not_elem_of_nil _)) as Hp. unfold peer_ok in Hp. rewrite Hb in Hp.
  destruct Hp as (Hne & sb & Hsb & Hba & Hk & Hsm). exists sb. split; [|done].
  split; try done; by apply sock_ok_closable, (b_sock _ _ B), not_elem_of_nil.
Qed.

Lemma wf_pair_of w a s b sb : wf_world w -> w_socks w !! a = Some s -> sk_peer s = Some b ->
  w_socks w !! b = Some sb -> pair w a s b sb.
Proof.
  intros W Ha Hb Hsb. destruct (wf_pair w a s b W Ha Hb) as (sb' & P & _).
  assert (sb' = sb) as -> by (pose proof (pr_b _ _ _ _ _ P); congruence). done.
Qed.

Lemma peers_same X w w' : w_socks w' = w_socks w -> peers X w -> peers X w'.
Proof. intros He P. unfold peers, peer_ok. by rewrite He. Qed.

(** C24: Closing a socket of a world that meets the invariant never touches freed
    memory and returns; it keeps the invariant, closes the socket and its peer
    and no other socket, and tells the remote that the stream is closed, naming
    the local socket only if the remote socket was closed first. *)
Theorem close_safe w a s : wf_world w -> w_socks w !! a = Some s ->
  ensures (run (CClose a) w) (fun r => wf_world r.2 /\ framed (family a s) w r.2
    /\ Forall (closed r.2) (family a s) /\ sent (last_words w s).1 (last_words w s).2 w r.2).
Proof.
  intros [B P] Ha. pose proof (sock_ok_closable _ _ _ (b_sock _ _ B a s Ha (not_elem_of_nil _))) as Hc.
  eapply ensures_mono; [|apply (close_any 4 [] w a s); [by apply base_open|done|done|]].
  - intros r [B' F C S]. split_and!; [split; [done|]|done..]. eapply peers_closed; [done..|]. by apply family_closed.
  - eapply peer_ok_peered; [by apply (base_open [])|done|done|by apply P, not_elem_of_nil|].
    intros b _. apply not_elem_of_nil.
Qed.

End Close.
