(* ===== verification/SocketsData.v ===== *)
(** * Moving data between sockets

    [enqueue] and [ready] on local and remote sockets, below the event function
    of SocketsEvents.v: what is written and what waits, that the bytes of a
    stream keep their order, and that the methods keep the invariant. *)

From S2P Require Import Prelude Cstr Rwx Packet Fdevent World Transport Sockets SocketsInv SocketsClose.

(** What is left of a packet. *)
Definition rest (p : apacket) : bytes := take (Z.to_nat (p_len p)) (drop (p_ptr p) (p_data p)).

Section Data.
Context {E : Type} {I : FdEvents E fd_func} {L : FdEventsLaws E fd_func I}.
Implicit Types (w : world E) (a b : addr) (t : option addr) (s : asocket) (p : apacket) (X A : list addr).

Abbreviation fde_wants w a := (ev_interest (F := fd_func) (w_ev w) a).

(** What was written to a descriptor. *)
Definition written w (fd : Z) : bytes := from_option io_out [] (w_io w !! fd).

(** What waits to be written. *)
Definition waiting s : bytes := concat (map rest (sk_pkts s)).

(** A local socket that takes part in a stream; its event may be out of step
    with its packets. *)
Record streaming w a s : Prop := Streaming {
  st_kind : sk_enqueue s = local_enqueue;
  st_fns : sk_ready s = local_ready /\ sk_close s = local_close;
  st_open : sk_closing s = false;
  st_list : a ∉ w_closing w;
  st_pkts : Forall pkt_ok (sk_pkts s)
}.

(** The bytes [bs] joined the stream of the socket [a]: they were written, or
    wait behind the ones that waited before. *)
Definition delivered w a s (bs : bytes) w' : Prop := exists s',
  w_socks w' !! a = Some s' /\ s' = with_pkts (sk_pkts s') s
  /\ (is_Some (w_io w !! sk_fd s) -> is_Some (w_io w' !! sk_fd s)
       /\ written w' (sk_fd s) ++ waiting s' = written w (sk_fd s) ++ waiting s ++ bs).

(** * Theorems *)

(** ** Writing a packet *)

(** [p'] is [p] after its first [k] bytes went. *)
Definition advanced (k : nat) p p' : Prop :=
  p_data p' = p_data p /\ p_ptr p' = (p_ptr p + k)%nat /\ p_len p' = p_len p - Z.of_nat k
  /\ (Z.of_nat k <= p_len p).

Lemma advanced_ok k p p' : pkt_ok p -> advanced k p p' -> pkt_ok p'.
Proof. intros [H1 H2] (Hd & Hp & Hl & Hk). unfold pkt_ok. rewrite Hd, Hp, Hl. lia. Qed.

Lemma advanced_rest k p p' : pkt_ok p -> advanced k p p' -> rest p = take k (rest p) ++ rest p'.
Proof.
  intros [H1 H2] (Hd & Hp & Hl & Hk). unfold rest. rewrite Hd, Hp, Hl, take_take.
  replace (k `min` Z.to_nat (p_len p))%nat with k by lia.
  replace (Z.to_nat (p_len p)) with (k + Z.to_nat (p_len p - Z.of_nat k))%nat at 1 by lia.
  by rewrite <-take_take_drop, drop_drop.
Qed.

Lemma advanced_trans k j p q r : advanced k p q -> advanced j q r -> advanced (k + j) p r.
Proof. intros (H1 & H2 & H3 & H4) (G1 & G2 & G3 & G4). unfold advanced. rewrite G1, G2, G3, H1, H2, H3. split_and!; lia || done. Qed.

(** A write to a descriptor of the state. *)
Lemma fd_write_written w fd bs r w' : fd_write w fd bs = Ok (r, w') -> is_Some (w_io w !! fd) ->
  is_Some (w_io w' !! fd) /\ written w' fd = written w fd ++ match r with WPut k => take k bs | WErr _ => [] end.
Proof.
  unfold fd_write. intros H [f Hf]. destruct (adb_write _ _) as [[r0 f']| | |] eqn:Hw; [|done..].
  cbn [res_bind] in H. injection H as <- <-. apply adb_write_cases in Hw as (_ & _ & _ & Hr).
  unfold get_io in Hr. rewrite Hf in Hr. cbn in Hr. unfold written, put_io. rewrite Hf. cbn.
  rewrite lookup_insert_eq. split; [by eexists|]. cbn. destruct r0; [by destruct Hr as [-> _]|].
  destruct Hr as [_ ->]. by rewrite app_nil_r.
Qed.

Lemma write_loop_ok retry fuel : forall w fd p, pkt_ok p -> (credit w fd < fuel)%nat ->
  exists r p' m k, write_loop retry fuel w fd p = Ok (r, p', with_io m w) /\ advanced k p p'
    /\ (r = Done -> p_len p' = 0)
    /\ (is_Some (w_io w !! fd) -> is_Some (m !! fd)
        /\ written (with_io m w) fd = written w fd ++ take k (rest p)).
Proof.
  induction fuel as [|fuel IH]; intros w fd p Hp Hf; [lia|]. cbn [write_loop].
  assert (advanced 0 p p) as H0 by (unfold advanced; split_and!; [done|lia..|destruct Hp; lia]).
  destruct Hp as [Hp1 Hp2]. case_bool_decide as Hgt.
  2:{ exists Done, p, (w_io w), 0%nat. split_and!; [by destruct w|done|lia|intros Hs]. split; [done|].
      rewrite app_nil_r. by destruct w. }
  rewrite bool_decide_false by lia.
  set (n := Z.to_nat (p_len p)). set (bs := take n (drop (p_ptr p) (p_data p))).
  destruct (fd_write_ok w fd bs) as (r & m & Hw). rewrite Hw. cbn [res_bind].
  pose proof (fd_write_credit _ _ _ _ _ Hw) as Hc. pose proof (fd_write_written _ _ _ _ _ Hw) as Hwr.
  assert (forall fl, fl <> Done -> r = WErr EAGAIN \/ r = WErr EIO \/ r = WErr EINTR \/ r = WPut 0 ->
    exists r0 p' m0 k, Ok (fl, p, with_io m w) = Ok (r0, p', with_io m0 w) /\ advanced k p p'
      /\ (r0 = Done -> p_len p' = 0)
      /\ (is_Some (w_io w !! fd) -> is_Some (m0 !! fd)
          /\ written (with_io m0 w) fd = written w fd ++ take k (rest p))) as Hstop.
  { intros fl Hfl Hr. exists fl, p, m, 0%nat. split_and!; [done..|].
    intros Hs. destruct (Hwr Hs) as [Hm ->]. split; [done|]. f_equal.
    by destruct Hr as [->|[->|[->| ->]]]. }
  destruct r as [[|k]|[]]; [by apply Hstop; auto|..|by apply Hstop; auto|by apply Hstop; auto]; [|done].
  destruct Hc as [Hk Hc]. assert (length bs = n) as Hlen.
  { unfold bs. rewrite length_take, length_drop. lia. }
  set (q := set_ptr _ _). assert (advanced (S k) p q) as Hq by (unfold advanced; cbn; split_and!; [done|lia..]).
  destruct (IH (with_io m w) fd q) as (r & p' & m' & j & -> & Hadv & Hdone & Hout);
    [by eapply advanced_ok; [split|]|lia|].
  exists r, p', m', (S k + j)%nat. split_and!; [done|by eapply advanced_trans|done|].
  intros Hs. destruct (Hwr Hs) as [Hm Hw1]. destruct (Hout Hm) as [Hm' Hw2]. split; [done|].
  change (with_io m' (with_io m w)) with (with_io m' w) in Hw2. rewrite Hw2, Hw1, <-app_assoc. f_equal.
  change bs with (rest p). rewrite <-take_take_drop. f_equal.
  assert (drop (S k) (rest p) = rest q) as ->; [|done].
  rewrite (advanced_rest (S k) p q) by (done || by split). apply drop_app_length'.
  change (rest p) with bs. rewrite length_take. lia.
Qed.

(** ** Local sockets *)

Lemma streaming_ok w a s i : streaming w a s -> fde_wants w a = Some i ->
  (has i FDE_WRITE = true <-> sk_pkts s <> []) -> sock_ok w a s.
Proof.
  intros [Hk Hf Ho Hl Hp] Hi Hw. unfold sock_ok. rewrite Hk. split; [by left|done| |congruence|].
  - exists i. split; [done|]. split; [done|congruence].
  - split; [congruence|done].
Qed.

Lemma streaming_closable w a s i : streaming w a s -> fde_wants w a = Some i ->
  (sk_pkts s <> [] -> has i FDE_WRITE = true) -> closable w a s.
Proof.
  intros [Hk Hf Ho Hl Hp] Hi Hw. unfold closable. rewrite Hk. split_and!; [by left|done|eauto|congruence|].
  split; [congruence|done].
Qed.

Lemma streaming_put w a s s' : streaming w a s -> s' = with_pkts (sk_pkts s') s -> Forall pkt_ok (sk_pkts s') ->
  streaming (put_sock a s' w) a s'.
Proof. intros [Hk Hf Ho Hl Hp] -> Hq. by split. Qed.

Lemma queue_packet_ok X w a s p i : base (a :: X) w -> w_socks w !! a = Some s -> streaming w a s ->
  fde_wants w a = Some i -> pkt_ok p ->
  exists e, queue_packet w a p = Ok (1, with_ev e (put_sock a (with_pkts (sk_pkts s ++ [p]) s) w))
    /\ base X (with_ev e (put_sock a (with_pkts (sk_pkts s ++ [p]) s) w))
    /\ framed [a] w (with_ev e (put_sock a (with_pkts (sk_pkts s ++ [p]) s) w)).
Proof.
  intros B Ha St Hi Hp. unfold queue_packet. rewrite (update_sock_ok _ _ _ _ Ha). cbn [res_bind].
  set (s' := with_pkts (sk_pkts s ++ [p]) s).
  assert (base (a :: X) (put_sock a s' w)) as B1 by (by eapply base_put).
  destruct (fde_add_ok X (put_sock a s' w) a i FDE_WRITE B1 Hi) as (e & -> & B2 & Hi2 & F2).
  exists e. split; [done|]. split.
  - apply (base_done _ _ a); [done|]. intros s0 Hs0. wcbn. rewrite lookup_insert_eq in Hs0. injection Hs0 as <-.
    assert (streaming (put_sock a s' w) a s') as St'.
    { eapply streaming_put; [done..|]. apply Forall_app. split; [apply St|by constructor]. }
    eapply streaming_ok; [|exact Hi2|]; [by destruct St'|].
    destruct (wants_add_write i) as [W1 W2]. rewrite W1. split; [|done]. intros _. cbn. by destruct (sk_pkts s).
  - apply (framed_mono ([a] ++ [a])); [by intros ? [?|?]%elem_of_app|].
    eapply framed_trans; [apply framed_put|exact F2].
Qed.

Lemma sock_ok_wants w a s : sk_enqueue s = local_enqueue -> sock_ok w a s ->
  exists i, fde_wants w a = Some i /\ (has i FDE_WRITE = true <-> sk_pkts s <> []).
Proof. intros Hk Hs. unfold sock_ok in Hs. rewrite Hk in Hs. destruct (lo_int _ _ _ Hs) as (i & ? & ? & _). eauto. Qed.

Lemma waiting_snoc s p : waiting (with_pkts (sk_pkts s ++ [p]) s) = waiting s ++ rest p.
Proof. unfold waiting. cbn. by rewrite map_app, concat_app; cbn; rewrite app_nil_r. Qed.

Lemma peered_framed A w w1 a s : framed A w w1 -> a ∉ A -> (forall b, sk_peer s = Some b -> b ∉ A) ->
  w_socks w1 !! a = Some s -> peered w a s -> peered w1 a s.
Proof.
  intros F Ha Hb Hs P b Hp. destruct (P b Hp) as [sb Q]. exists sb. split; try apply Q; try done.
  - rewrite (fr_socks _ _ _ F) by (by apply Hb). apply Q.
  - eapply closable_framed; [done..|apply Q].
  - eapply closable_framed; [done|by apply Hb|apply Q].
Qed.

Lemma queued_value w a s p e s' :
  w_socks (with_ev e (put_sock a (with_pkts (sk_pkts s ++ [p]) s) w)) !! a = Some s' ->
  1 = if bool_decide (sk_pkts s' = []) then 0 else 1.
Proof.
  wcbn. rewrite lookup_insert_eq. intros [= <-]. cbn. rewrite bool_decide_false; [done|]. by destruct (sk_pkts s).
Qed.

(** What [enqueue] does to a local socket that takes part in a stream: the
    packet joins the stream, or the descriptor failed and the socket was
    closed, which the returned value does not tell. *)
Lemma local_enqueue_ok n X w a s p : base X w -> a ∉ X -> w_socks w !! a = Some s -> streaming w a s ->
  peered w a s -> pkt_ok (set_ptr 0 p) ->
  ensures (local_socket_enqueue (exec (S (S (S (S n))))) a p w) (fun r =>
    (base X r.2 /\ framed [a] w r.2 /\ w_trans r.2 = w_trans w
      /\ delivered w a s (rest (set_ptr 0 p)) r.2
      /\ forall s', w_socks r.2 !! a = Some s' -> r.1 = if bool_decide (sk_pkts s' = []) then 0 else 1)
    \/ (r.1 = 1 /\ closes X (family a s) (last_words w s).1 (last_words w s).2 w r.2)).
Proof.
  intros B HX Ha St Hpe Hp. unfold local_socket_enqueue. rewrite (get_sock_ok _ _ _ Ha). cbn [res_bind].
  pose proof (b_sock _ _ B a s Ha HX) as Hok.
  destruct (sock_ok_wants _ _ _ (st_kind _ _ _ St) Hok) as (i & Hi & Hw).
  destruct (sk_pkts s) as [|q qs] eqn:Hq.
  2:{ destruct (queue_packet_ok X w a s (set_ptr 0 p) i) as (e & -> & B' & F'); [by apply base_open|done..|].
      left. cbn [fst snd]. split_and!; [done..| |by apply queued_value].
      exists (with_pkts (sk_pkts s ++ [set_ptr 0 p]) s). split_and!; [wcbn; apply lookup_insert_eq|done|].
      intros Hs. rewrite waiting_snoc. done. }
  destruct (write_loop_ok false (loop_fuel w (sk_fd s)) w (sk_fd s) (set_ptr 0 p) Hp) as
    (r & p' & m & k & -> & Hadv & Hdone & Hout).
  { unfold loop_fuel, io_fuel, credit. pose proof (xfers_length (io_evs (get_io w (sk_fd s)))). lia. }
  cbn [res_bind]. set (w1 := with_io m w) in *.
  assert (base X w1) as B1 by (by apply base_io).
  assert (streaming w1 a s) as St1 by (by destruct St).
  assert (pkt_ok p') as Hp' by (by eapply advanced_ok).
  assert (is_Some (w_io w !! sk_fd s) -> is_Some (w_io w1 !! sk_fd s)
    /\ written w1 (sk_fd s) ++ rest p' = written w (sk_fd s) ++ rest (set_ptr 0 p)) as Hfifo.
  { intros Hs. destruct (Hout Hs) as [Hm ->]. split; [done|]. by rewrite <-app_assoc, <-(advanced_rest k). }
  assert (waiting s = []) as Hnil by (unfold waiting; by rewrite Hq).
  match goal with |- ensures _ ?Q =>
    assert (ensures (if bool_decide (p_len p' = 0) then Ok (0, w1) else queue_packet w1 a p') Q) as Hrest end.
  { case_bool_decide as Hz.
    - left. cbn [fst snd]. split_and!; [done|eapply (framed_mono []); [apply list_subseteq_nil|apply framed_io]|done| |].
      2:{ intros s' Hs'. assert (s' = s) as -> by (cbn in Hs'; congruence). by rewrite Hq. }
      exists s. split_and!; [done|by destruct s|]. intros Hs. destruct (Hfifo Hs) as [Hm Hf]. split; [done|].
      rewrite Hnil. cbn [app snd]. rewrite <-Hf. unfold rest. by rewrite Hz.
    - destruct (queue_packet_ok X w1 a s p' i) as (e & -> & B' & F'); [by apply base_open|done..|].
      left. cbn [fst snd]. split_and!; [done| |done| |by apply queued_value].
      + eapply (framed_mono ([] ++ [a])); [done|]. eapply framed_trans; [apply framed_io|exact F'].
      + exists (with_pkts (sk_pkts s ++ [p']) s). split_and!; [wcbn; apply lookup_insert_eq|done|].
        intros Hs. rewrite waiting_snoc, Hnil. cbn [app]. exact (Hfifo Hs). }
  destruct r; [exact Hrest|exact Hrest|]. apply ensures_bind.
  eapply ensures_mono; [|apply (close_any n X w1 a s); [by apply base_open|done| |]].
  - intros [v w2] C. right. cbn [fst snd ensures]. split; [done|].
    eapply (closes_after X [] _ _ _ w w1); [apply framed_io|by apply sent_quiet|exact C|apply list_subseteq_nil].
  - eapply streaming_closable; [done|exact Hi|]. by rewrite Hw, Hq.
  - apply (peered_framed [] w); [apply framed_io|apply not_elem_of_nil|intros; apply not_elem_of_nil|done..].
Qed.

(** ** Remote sockets *)

(** A chunk of a stream, as it is sent to the remote. *)
Definition chunk (i j : Z) p : apacket := set_data_length (p_len p) (set_header A_WRTE i j p).

Lemma remote_enqueue_ok X w b sb a s p : base X w -> w_socks w !! b = Some sb -> sk_enqueue sb = remote_enqueue ->
  sk_peer sb = Some a -> w_socks w !! a = Some s ->
  0 <= p_len p <= MAX_PAYLOAD -> p_len p <= Z.of_nat (length (p_data p)) ->
  ensures (remote_socket_enqueue b p w) (fun r => r.1 = 1 /\ base X r.2 /\ framed [] w r.2
    /\ w_socks r.2 = w_socks w /\ w_io r.2 = w_io w /\ w_ev r.2 = w_ev w
    /\ exists q, seal (chunk (sk_id s) (sk_id sb) p) = Ok q /\ sent (sk_transport sb) [q] w r.2).
Proof.
  intros B Hb Hk Hp Ha Hl1 Hl2. destruct (b_target _ _ B b sb Hb Hk) as (t & Ht & Hy).
  unfold remote_socket_enqueue. rewrite (get_sock_ok _ _ _ Hb). cbn [res_bind]. unfold peer_of. rewrite Hp.
  cbn [access res_bind]. rewrite (get_sock_ok _ _ _ Ha). cbn [res_bind]. rewrite Ht. apply ensures_bind.
  eapply ensures_mono; [|apply (send_ok X w (chunk (sk_id s) (sk_id sb) p)); [done..|by split]].
  intros w' (B' & F & Hs & Hio & Hev & q & Hq & S). cbn [ensures fst snd]. split_and!; eauto.
Qed.

Lemma remote_ready_ok X w b sb a s : base X w -> w_socks w !! b = Some sb -> sk_enqueue sb = remote_enqueue ->
  sk_peer sb = Some a -> w_socks w !! a = Some s ->
  ensures (remote_socket_ready b w) (fun r => base X r.2 /\ framed [] w r.2
    /\ w_socks r.2 = w_socks w /\ w_io r.2 = w_io w /\ w_ev r.2 = w_ev w
    /\ sent (sk_transport sb) [header_packet A_OKAY (sk_id s) (sk_id sb)] w r.2).
Proof.
  intros B Hb Hk Hp Ha. destruct (b_target _ _ B b sb Hb Hk) as (t & Ht & Hy).
  unfold remote_socket_ready. rewrite (get_sock_ok _ _ _ Hb). cbn [res_bind]. unfold peer_of. rewrite Hp.
  cbn [access res_bind]. rewrite (get_sock_ok _ _ _ Ha). cbn [res_bind]. rewrite Ht. apply ensures_bind.
  eapply ensures_mono; [|by apply (send_header_ok X w)].
  intros w' (B' & F & Hs & Hio & Hev & S). cbn [ensures snd]. by split_and!.
Qed.

(** ** Readiness of local sockets *)

(** A local socket that is not closing may be asked for more. *)
Lemma local_ready_ok X w a s : base X w -> a ∉ X -> w_socks w !! a = Some s -> sk_enqueue s = local_enqueue ->
  sk_closing s = false ->
  exists e, local_socket_ready a w = Ok (0, with_ev e w) /\ base X (with_ev e w) /\ framed [a] w (with_ev e w)
    /\ (exists i, fde_wants (with_ev e w) a = Some i /\ has i FDE_READ = true).
Proof.
  intros B HX Ha Hk Ho. unfold local_socket_ready. rewrite (get_sock_ok _ _ _ Ha). cbn [res_bind].
  pose proof (b_sock _ _ B a s Ha HX) as Hs. unfold sock_ok in Hs. rewrite Hk in Hs.
  destruct Hs as [Hf Hp (i & Hi & Hw & Hr) Hc Hl].
  destruct (fde_add_ok X w a i FDE_READ) as (e & -> & B' & Hi' & F); [by apply base_open|done|].
  destruct (wants_add_read i) as [W1 W2]. exists e. split_and!; [done| |done|by eexists].
  apply (base_done _ _ a); [done|]. intros s0 Hs0. assert (s0 = s) as -> by (wcbn; congruence).
  unfold sock_ok. rewrite Hk. split; try done. eexists. split; [exact Hi'|]. rewrite W2. split; [done|congruence].
Qed.

End Data.
