(* ===== verification/SocketsSmart.v ===== *)
(** * Smart sockets

    A smart socket collects a request, four hexadecimal digits and the name of
    a service, and connects its peer to the transport, or closes both. *)

From S2P Require Import Prelude Cstr Rwx Packet Fdevent World Transport Sockets SocketsInv SocketsClose SocketsData.

Section Smart.
Context {E : Type} {I : FdEvents E fd_func} {L : FdEventsLaws E fd_func I}.
Implicit Types (w : world E) (a b : addr) (t : option addr) (s : asocket) (p : apacket) (X A : list addr).

Abbreviation fde_wants w a := (ev_interest (F := fd_func) (w_ev w) a).

(** The request packet for the remote. *)
Definition open_packet (i : Z) (name : bytes) : apacket :=
  set_data (name ++ [Byte.x00]) (set_data_length (Z.of_nat (length name) + 1) (set_header A_OPEN i 0 get_apacket)).

(** [s'] is the smart socket [s] with another request or transport. *)
Definition same_smart s s' : Prop :=
  sk_enqueue s' = sk_enqueue s /\ sk_ready s' = sk_ready s /\ sk_close s' = sk_close s
  /\ sk_peer s' = sk_peer s /\ sk_closing s' = sk_closing s.

(** The request failed, and the client was closed. *)
Definition refused w a b (r : Z * world E) : Prop :=
  r.1 = -1 /\ wf_world r.2 /\ framed [a; b] w r.2 /\ closed r.2 a /\ closed r.2 b.

(** The client [b] waits for the service [name] of the transport [u]. *)
Definition connecting w a b sb (name : bytes) (u : addr) (r : Z * world E) : Prop :=
  r.1 = 1 /\ wf_world r.2 /\ framed [a; b] w r.2 /\ closed r.2 a /\ exists q,
    w_socks r.2 !! b = Some (with_transport (Some u) (with_peer None (with_fns local_ready_notify local_close_notify sb)))
    /\ seal (open_packet (sk_id sb) name) = Ok q /\ sent (Some u) [q] w r.2.

(** What a smart socket has of its request. *)
Definition request s : bytes :=
  match sk_pkts s with [] => [] | q :: _ => take (Z.to_nat (p_len q)) (p_data q) end.

(** The service that a complete request names. *)
Definition names (req name : bytes) : Prop := exists len, unhex req 4 = Ok len /\ 1 <= len <= 1024
  /\ len + 4 <= Z.of_nat (length req) /\ c_string (take (Z.to_nat len) (drop 4 req) ++ [Byte.x00]) = Ok name.

(** The transport that serves the requests of [s]: its own, or the one that
    there is, unless it is offline. *)
Definition chosen w s : option addr :=
  match sk_transport s with
  | Some u => Some u
  | None => match acquire_once CS_ANY kTransportAny None (transports w) with inl (u, _) => Some u | inr _ => None end
  end.
Definition serving w s : option addr :=
  u ← chosen w s; x ← w_trans w !! u;
  if bool_decide (t_connection_state x = CS_OFFLINE) then None else Some u.

(** A complete request is passed on, if there is a transport for it. *)
Definition passed_on w a s b sb (name : bytes) (r : Z * world E) : Prop :=
  match serving w s with Some u => connecting w a b sb name u r | None => refused w a b r end.

(** * Theorems *)

Lemma transports_in w (u : addr) y : (u, y) ∈ transports w -> w_trans w !! u = Some y.
Proof.
  unfold transports. rewrite list_elem_of_omap. intros (c & _ & Hc).
  destruct (w_trans w !! c) eqn:Hy; cbn in Hc; [|done]. by injection Hc as <- <-.
Qed.

Lemma pair_same_smart w w1 a s s1 b sb : pair w a s b sb -> sk_enqueue s = smart_enqueue -> framed [a] w w1 ->
  w_socks w1 !! a = Some s1 -> same_smart s s1 -> pair w1 a s1 b sb.
Proof.
  intros P Hk F Ha (H1 & H2 & H3 & H4 & H5). pose proof P as [? ? Hne ? ? Hkk Hca Hcb].
  assert (b ∉ [a]) as Hb by (by intros ->%list_elem_of_singleton).
  split; try done; [|congruence|by rewrite H1| |].
  - by rewrite (fr_socks _ _ _ F).
  - unfold closable in *. rewrite H1, Hk, H2, H3 in *. done.
  - by eapply closable_framed.
Qed.

(** [fail:] *)
Lemma smart_fail_ok n w w1 a s s1 b sb : wf_world w -> pair w a s b sb -> sk_enqueue s = smart_enqueue ->
  base [a] w1 -> framed [a] w w1 -> w_socks w1 !! a = Some s1 -> same_smart s s1 ->
  ensures (smart_fail (exec (S (S (S (S n))))) w1 a) (refused w a b).
Proof.
  intros [B P] Q Hk B1 F Ha Hs. pose proof (pair_same_smart _ _ _ _ _ _ _ Q Hk F Ha Hs) as Q1.
  unfold smart_fail. apply ensures_bind. eapply ensures_mono; [|by eapply (close_pair n [] w1 a s1 b sb)].
  intros [v w'] [B' F' C S]. cbn [ensures]. rewrite Forall_cons, Forall_singleton in C. destruct C as [Ca Cb].
  assert (framed [a; b] w w') as Fw.
  { eapply (framed_mono ([a] ++ [a; b])); [|by eapply framed_trans].
    intros c. rewrite !elem_of_app, !elem_of_cons, elem_of_nil. tauto. }
  split_and!; try done. split; [done|]. eapply peers_closed; [done|done|exact Fw|by rewrite Forall_cons, Forall_singleton|].
  assert (family a s = [a; b]) as <- by (unfold family; by rewrite (pr_ab _ _ _ _ _ Q)).
  apply family_closed; [done|apply Q].
Qed.

Lemma sealable_open i name : Z.of_nat (length name) + 1 <= MAX_PAYLOAD -> sealable (open_packet i name).
Proof.
  intros Hl. apply sealable_data; [lia|]. rewrite length_app. cbn. lia.
Qed.

Lemma connect_to_remote_ok X w b sb (u : addr) name : base X w -> w_socks w !! b = Some sb ->
  sk_transport sb = Some u -> is_Some (w_trans w !! u) -> Z.of_nat (length name) <= 1024 ->
  ensures (connect_to_remote w b name) (fun w' => base X w' /\ framed [] w w' /\ w_socks w' = w_socks w
    /\ exists q, seal (open_packet (sk_id sb) name) = Ok q /\ sent (Some u) [q] w w').
Proof.
  intros B Hb Hu Hy Hl. unfold connect_to_remote. rewrite (get_sock_ok _ _ _ Hb). cbn [res_bind].
  rewrite bool_decide_false by (unfold MAX_PAYLOAD; lia). rewrite Hu.
  eapply ensures_mono; [|apply (send_ok X w (open_packet (sk_id sb) name) u B Hy)].
  - intros w' (B' & F & Hs & _ & _ & H). by split_and!.
  - apply sealable_open. unfold MAX_PAYLOAD. lia.
Qed.

(** The peer [b] of a smart socket, as a socket that waits for its connection. *)
Lemma waiting_client_ok w b sb (u : addr) : local_ok w b sb -> sk_closing sb = false -> sk_pkts sb = [] ->
  local_ok w b (with_transport (Some u) (with_peer None (with_fns local_ready_notify local_close_notify sb))).
Proof. intros [Hf Hp Hi Hc Hl] Ho Hq. split; cbn; try done; [by right|congruence]. Qed.

(** The request is passed on. *)
Lemma smart_open_ok n w w1 a s s1 b sb (u : addr) name : wf_world w -> pair w a s b sb ->
  sk_enqueue s = smart_enqueue -> base [a] w1 -> framed [a] w w1 -> w_socks w1 !! a = Some s1 -> same_smart s s1 ->
  (forall v, outs w1 v = outs w v) ->
  is_Some (w_trans w1 !! u) -> Z.of_nat (length name) <= 1024 -> sk_pkts sb = [] -> sk_closing sb = false ->
  ensures
    (let* w := update_sock w1 b (fun sb => with_transport (Some u) (with_peer None
                 (with_fns local_ready_notify local_close_notify sb))) in
     let* w := connect_to_remote w b name in
     let* w := update_sock w a (with_peer None) in
     let* ' (_, w) := exec (S (S (S (S n)))) (CClose a) w in
     Ok (1, w))
    (connecting w a b sb name u).
Proof.
  intros [B P] Q Hk B1 F Ha Hs Houts Hy Hl Hq Ho. pose proof (pair_same_smart _ _ _ _ _ _ _ Q Hk F Ha Hs) as Q1.
  pose proof Q1 as [_ Hb Hne _ _ Hkk _ _].
  assert (b ∉ [a]) as Hba by (by intros ->%list_elem_of_singleton).
  assert (sk_enqueue sb = local_enqueue) as Hkb.
  { destruct Hs as (H1 & _). rewrite H1, Hk in Hkk. destruct (sk_enqueue sb); [done|..];
      by discriminate (proj2 Hkk ltac:(done)). }
  pose proof (b_sock _ _ B1 b sb Hb Hba) as Hsb. unfold sock_ok in Hsb. rewrite Hkb in Hsb.
  rewrite (update_sock_ok _ _ _ _ Hb). cbn [res_bind].
  set (sb' := with_transport (Some u) _). set (w2 := put_sock b sb' w1).
  assert (sock_ok w2 b sb') as Hok.
  { apply (sock_ok_frame w1); [done..|]. unfold sock_ok. cbn. rewrite Hkb. by apply waiting_client_ok. }
  assert (base [a] w2) as B2.
  { apply (base_done _ _ b); [eapply base_put; [by apply base_open|done..|congruence]|].
    intros s0 Hs0. unfold w2 in Hs0. wcbn. rewrite lookup_insert_eq in Hs0. by injection Hs0 as <-. }
  apply ensures_bind. eapply ensures_mono; [|apply (connect_to_remote_ok [a] w2 b sb' u name); try done;
    unfold w2; wcbn; by rewrite lookup_insert_eq].
  intros w3 (B3 & F3 & Hs3 & q & Hseal & S3).
  assert (w_socks w3 !! a = Some s1) as Ha3 by (rewrite Hs3; unfold w2; wcbn; by rewrite lookup_insert_ne).
  rewrite (update_sock_ok _ _ _ _ Ha3). cbn [res_bind]. set (w4 := put_sock a (with_peer None s1) w3).
  apply ensures_bind. eapply ensures_mono; [|apply (close_alone (S (S n)) [] w4 a (with_peer None s1)); [| | |done]].
  2:{ by eapply base_put. }
  2:{ unfold w4. wcbn. apply lookup_insert_eq. }
  2:{ pose proof (pr_ca _ _ _ _ _ Q1) as Hc. unfold closable in *. destruct Hs as (H1 & _).
      cbn. rewrite H1, Hk in *. done. }
  intros [v w5] [B5 F5 C5 S5]. cbn [ensures snd] in *. rewrite Forall_singleton in C5.
  assert (w_socks w5 !! b = Some sb') as Hb5.
  { rewrite (fr_socks _ _ _ F5) by done. unfold w4. wcbn. rewrite lookup_insert_ne by (by apply not_eq_sym).
    rewrite Hs3. unfold w2. wcbn. apply lookup_insert_eq. }
  assert (framed [a; b] w w5) as Fw.
  { eapply (framed_mono ([a] ++ [b] ++ [] ++ [a] ++ [a]));
      [intros c; cbn; rewrite !elem_of_cons, elem_of_nil; tauto|].
    eapply framed_trans; [exact F|]. eapply framed_trans; [apply framed_put|]. eapply framed_trans; [exact F3|].
    eapply framed_trans; [apply framed_put|exact F5]. }
  split_and!; [done|split; [done|]|exact Fw|done|].
  - eapply peers_alone; [exact P|exact Fw| |].
    + intros c [->| ->%list_elem_of_singleton]%elem_of_cons; [by apply closed_alone|].
      intros s0 Hs0. cbn in Hs0. assert (s0 = sb') as -> by congruence. done.
    + assert (family a s = [a; b]) as <- by (unfold family; by rewrite (pr_ab _ _ _ _ _ Q)).
      apply family_closed; [done|apply Q].
  - exists q. split_and!; [exact Hb5|done|].
    apply (sent_after _ _ w w2); [apply sent_quiet; intros; apply Houts|].
    eapply (sent_before _ _ w2 w3); [exact S3|]. apply (sent_any (sk_transport (with_peer None s1))).
    unfold goodbye in S5. cbn [with_peer sk_enqueue] in S5. destruct Hs as (H1 & _). rewrite H1, Hk in S5. exact S5.
Qed.

(** The same after the client was told. *)
Lemma smart_fail_io n m w w1 a s s1 b sb : wf_world w -> pair w a s b sb -> sk_enqueue s = smart_enqueue ->
  base [a] w1 -> framed [a] w w1 -> w_socks w1 !! a = Some s1 -> same_smart s s1 ->
  ensures (smart_fail (exec (S (S (S (S n))))) (with_io m w1) a) (refused w a b).
Proof.
  intros W Q Hk B1 F Ha Hs.
  apply (smart_fail_ok n w (with_io m w1) a s s1 b sb); try done; [by apply base_io|].
  rewrite <-(app_nil_r [a]). eapply framed_trans; [exact F|apply framed_io].
Qed.

(** A complete request is refused or passed on. *)
Lemma smart_connect_ok n w w1 a s s1 b sb name : wf_world w -> pair w a s b sb -> sk_enqueue s = smart_enqueue ->
  base [a] w1 -> framed [a] w w1 -> w_socks w1 !! a = Some s1 -> same_smart s s1 ->
  w_trans w1 = w_trans w -> w_transport_list w1 = w_transport_list w -> sk_transport s1 = sk_transport s ->
  (forall u, sk_transport s1 = Some u -> is_Some (w_trans w !! u)) ->
  Z.of_nat (length name) <= 1024 -> sk_pkts sb = [] -> sk_closing sb = false ->
  ensures (smart_connect (exec (S (S (S (S n))))) w1 a name) (passed_on w a s b sb name).
Proof.
  intros W Q Hk B1 F Ha Hs Htr Htl Hst Hu Hl Hq Ho. pose proof (pair_same_smart _ _ _ _ _ _ _ Q Hk F Ha Hs) as Q1.
  unfold smart_connect. rewrite (get_sock_ok _ _ _ Ha). cbn [res_bind]. unfold peer_of.
  rewrite (pr_ab _ _ _ _ _ Q1). cbn [access res_bind]. rewrite (get_sock_ok _ _ _ (pr_b _ _ _ _ _ Q1)). cbn [res_bind].
  assert (forall (u : addr) w2 s2, chosen w s = Some u -> is_Some (w_trans w !! u) -> base [a] w2 -> framed [a] w w2 -> w_trans w2 = w_trans w ->
    w_socks w2 !! a = Some s2 -> same_smart s s2 ->
    ensures (let* x := get_trans w2 u in
      if bool_decide (t_connection_state x = CS_OFFLINE) then
        let* ' (_, w) := sendfailmsg w2 (sk_fd sb) (lit "device offline (x)") in
        smart_fail (exec (S (S (S (S n))))) w a
      else
        let* w := update_sock w2 b (fun sb => with_transport (Some u) (with_peer None
                    (with_fns local_ready_notify local_close_notify sb))) in
        let* w := connect_to_remote w b name in
        let* w := update_sock w a (with_peer None) in
        let* ' (_, w) := exec (S (S (S (S n)))) (CClose a) w in
        Ok (1, w)) (passed_on w a s b sb name)) as Hgo.
  { intros u w2 s2 Hch [y Hy] B2 F2 Ht2 Ha2 Hs2. unfold get_trans. rewrite Ht2, Hy. cbn [access res_bind].
    unfold passed_on, serving. rewrite Hch. cbn [mbind option_bind]. rewrite Hy. cbn [mbind option_bind].
    case_bool_decide.
    - destruct (sendfailmsg_ok w2 (sk_fd sb) (lit "device offline (x)")) as (r & m & ->). cbn [res_bind].
      by eapply smart_fail_io.
    - eapply smart_open_ok; try done.
      { intros v. unfold outs. by rewrite Ht2. } { rewrite Ht2, Hy. by eexists. } }
  assert (transports w1 = transports w) as Hts by (unfold transports; by rewrite Htr, Htl).
  destruct (sk_transport s1) as [u|] eqn:Hu1.
  { cbn [res_bind]. apply (Hgo u w1 s1); try done; [|by apply Hu]. unfold chosen. by rewrite <-Hst. }
  assert (forall r, acquire_once CS_ANY kTransportAny None (transports w) = r -> chosen w s =
    match r with inl (u, _) => Some u | inr _ => None end) as Hch.
  { intros r <-. unfold chosen. by rewrite <-Hst. }
  rewrite Hts. destruct (acquire_once CS_ANY kTransportAny None (transports w)) as [[u y]|[err retry]] eqn:Hacq;
    specialize (Hch _ eq_refl); cbn in Hch.
  - apply acquire_once_in, transports_in in Hacq. rewrite (update_sock_ok _ _ _ _ Ha). cbn [res_bind].
    apply (Hgo u _ (with_transport (Some u) s1)).
    + done.
    + rewrite Hacq. by eexists.
    + pose proof (pr_ca _ _ _ _ _ Q1) as Hc. destruct Hs as (H1 & _).
      eapply base_put; [done..|congruence].
    + apply (framed_mono ([a] ++ [a])); [by intros ? [?|?]%elem_of_app|]. eapply framed_trans; [exact F|apply framed_put].
    + done.
    + wcbn. apply lookup_insert_eq.
    + done.
  - destruct (sendfailmsg_ok w1 (sk_fd sb) (error_text err)) as (r & m & ->). cbn [res_bind].
    unfold passed_on, serving. rewrite Hch. cbn [mbind option_bind]. by eapply smart_fail_io.
Qed.

(** The packet that holds the request. *)
Definition holds p (req : bytes) : Prop :=
  0 <= p_len p <= Z.of_nat (length (p_data p)) /\ Z.of_nat (length (p_data p)) <= MAX_PAYLOAD
  /\ take (Z.to_nat (p_len p)) (p_data p) = req.

Lemma collect_ok q p : holds q (take (Z.to_nat (p_len q)) (p_data q)) -> holds p (p_data p) ->
  p_len q + p_len p <= MAX_PAYLOAD ->
  exists q', store_data (Z.to_nat (p_len q)) (p_data p) q = Ok q' /\ p_len q' = p_len q
    /\ holds (set_len (p_len q + p_len p) q') (take (Z.to_nat (p_len q)) (p_data q) ++ p_data p).
Proof.
  intros (Hq1 & Hq2 & _) (Hp1 & Hp2 & Hp3) Hm.
  assert (Z.of_nat (length (p_data p)) = p_len p) as Hl.
  { rewrite <-Hp3, length_take. lia. }
  unfold store_data. rewrite bool_decide_true by (unfold MAX_PAYLOAD in *; lia). eexists. split; [done|]. split; [done|].
  unfold holds, set_len. cbn [p_len p_data]. rewrite !length_app, length_take, length_drop. split_and!; [lia..|].
  rewrite app_assoc. apply take_app_length'. rewrite length_app, length_take. lia.
Qed.

Lemma unhex_ok bs : (4 <= length bs)%nat -> exists v, unhex bs 4 = Ok v.
Proof. intros H. destruct (unhex_from_ok 4 0 bs) as (v & Hv & _); [lia|done|]. by exists v. Qed.

(** A store after the digits does not change them. *)
Lemma unhex_take n bs : (4 <= n)%nat -> unhex (take n bs) 4 = unhex bs 4.
Proof.
  intros Hn. unfold unhex. do 4 (destruct n as [|n]; [lia|]).
  by destruct bs as [|b0 [|b1 [|b2 [|b3 bs]]]].
Qed.

(** Reading the name, after the NUL was stored behind it. *)
Lemma name_ok p len req : holds p req -> unhex (p_data p) 4 = Ok len -> 1 <= len <= 1024 -> len + 4 <= p_len p ->
  exists p' name, store_data (Z.to_nat (len + 4)) [Byte.x00] p = Ok p'
    /\ c_string (drop 4 (p_data p')) = Ok name
    /\ c_string (take (Z.to_nat len) (drop 4 req) ++ [Byte.x00]) = Ok name /\ Z.of_nat (length name) <= 1024.
Proof.
  intros (H1 & H2 & H3) Hu Hl Hl4. unfold store_data.
  rewrite bool_decide_true by (cbn [length]; unfold MAX_PAYLOAD in *; lia).
  assert (drop 4 (take (Z.to_nat (len + 4)) (p_data p)) = take (Z.to_nat len) (drop 4 req)) as Hd.
  { rewrite <-H3, !skipn_firstn_comm, take_take. f_equal. lia. }
  set (bs := take (Z.to_nat len) (drop 4 req)) in *.
  assert (length bs <= 1024)%nat as Hbs by (unfold bs; rewrite length_take; lia).
  destruct (c_string_nul bs) as (name & Hlen & Hn). eexists _, name. split_and!; [done| | |lia].
  - cbn [p_data]. rewrite drop_app_le by (rewrite length_take; lia). rewrite Hd. apply Hn.
  - apply Hn.
Qed.

(** The smart socket keeps [req] and waits for the rest. *)
Definition collecting w a s (req : bytes) (r : Z * world E) : Prop :=
  r.1 = 0 /\ wf_world r.2 /\ framed [a] w r.2 /\ w_trans r.2 = w_trans w /\ w_io r.2 = w_io w
  /\ exists q, w_socks r.2 !! a = Some (with_pkts [q] s) /\ holds q req.

(** What becomes of a request of which [req] has come: it is waited for until
    the four digits and the announced number of characters are there, refused
    when the number is out of range, and passed on under the name it spells. *)
Definition answered w a s b sb (req : bytes) (r : Z * world E) : Prop :=
  (length req < 4)%nat /\ collecting w a s req r \/
  (4 <= length req)%nat /\ exists len, unhex req 4 = Ok len /\
    (~ 1 <= len <= 1024 /\ refused w a b r \/
     1 <= len <= 1024 /\ Z.of_nat (length req) < len + 4 /\ collecting w a s req r \/
     1 <= len <= 1024 /\ len + 4 <= Z.of_nat (length req) /\ exists name,
       c_string (take (Z.to_nat len) (drop 4 req) ++ [Byte.x00]) = Ok name /\ passed_on w a s b sb name r).

Lemma holds_length p req : holds p req -> Z.of_nat (length req) = p_len p.
Proof. intros (H1 & H2 & <-). rewrite length_take. lia. Qed.

Lemma holds_data p req : holds p req -> smart_pkts [p].
Proof. intros (H1 & H2 & _). by split. Qed.

Lemma request_holds s q ps : smart_pkts (sk_pkts s) -> sk_pkts s = q :: ps -> ps = [] /\ holds q (request s).
Proof.
  intros H Hq. unfold request. rewrite Hq in *. destruct ps; [|done]. destruct H. by split_and!.
Qed.

Lemma store_wf w a s p req b sb : wf_world w -> pair w a s b sb -> sk_enqueue s = smart_enqueue -> holds p req ->
  wf_world (put_sock a (with_pkts [p] s) w).
Proof.
  intros [B P] Q Hk Hh. pose proof Q as [Ha Hb Hne Hab Hba Hkk Hca Hcb].
  pose proof (b_sock _ _ B a s Ha (not_elem_of_nil _)) as Hs. unfold sock_ok in Hs. rewrite Hk in Hs.
  split.
  - apply (base_done _ _ a); [eapply base_put; [by apply base_open|done..]|].
    intros s0 Hs0. wcbn. rewrite lookup_insert_eq in Hs0. injection Hs0 as <-. unfold sock_ok. cbn [with_pkts sk_enqueue].
    rewrite Hk. destruct Hs as [? ? ? ?]. split; try done. by eapply holds_data.
  - eapply peers_put; try done; [|by rewrite Hk]. pose proof (P a s Ha (not_elem_of_nil _)) as Hp.
    unfold peer_ok in *. cbn [with_pkts sk_peer sk_enqueue sk_pkts]. rewrite Hab in *.
    destruct Hp as (_ & sb0 & Hsb0 & Hba0 & Hkk0 & Hsm). split; [done|]. exists sb0. wcbn.
    rewrite lookup_insert_ne by done. split_and!; try done; try apply Hkk0. intros Hx. exfalso. rewrite Hx, Hk in Hkk0.
    by discriminate (proj2 Hkk0 ltac:(done)).
Qed.

(** The digits and the name, once the packet was stored. *)
Lemma smart_request_ok n w a s b sb p req : wf_world w -> pair w a s b sb -> sk_enqueue s = smart_enqueue ->
  sk_pkts sb = [] -> sk_closing sb = false -> holds p req ->
  ensures
    (let w := put_sock a (with_pkts [p] s) w in
     if bool_decide (p_len p < 4) then Ok (0, w)
     else
       let* len := unhex (p_data p) 4 in
       if bool_decide (len < 1 \/ len > 1024) then smart_fail (exec (S (S (S (S n))))) w a
       else if bool_decide (len + 4 > p_len p) then Ok (0, w)
       else
         let* p := store_data (Z.to_nat (len + 4)) [Byte.x00] p in
         let* w := update_sock w a (with_pkts [p]) in
         let* name := c_string (drop 4 (p_data p)) in
         smart_connect (exec (S (S (S (S n))))) w a name)
    (answered w a s b sb req).
Proof.
  intros W Q Hk Hq Ho Hh. cbn zeta. pose proof (holds_length _ _ Hh) as Hrl. pose proof (store_wf _ _ _ _ _ _ _ W Q Hk Hh) as W1.
  set (w1 := put_sock a (with_pkts [p] s) w) in *.
  assert (collecting w a s req (0, w1)) as Hcol.
  { split_and!; [done|done|apply framed_put|done|done|]. exists p. split; [wcbn; apply lookup_insert_eq|done]. }
  case_bool_decide; [left; split; [lia|done]|].
  assert (4 <= length (p_data p))%nat as H4 by (destruct Hh; lia).
  destruct (unhex_ok _ H4) as [len Hlen]. rewrite Hlen. cbn [res_bind].
  assert (unhex req 4 = Ok len) as Hulen.
  { destruct Hh as (_ & _ & <-). rewrite unhex_take by lia. done. }
  assert (w_socks w1 !! a = Some (with_pkts [p] s)) as Ha1 by (wcbn; apply lookup_insert_eq).
  assert (base [a] w1) as B1 by (apply base_open, W1).
  case_bool_decide as Hbad.
  { eapply ensures_mono; [|apply (smart_fail_ok n w w1 a s (with_pkts [p] s) b sb); try done; apply framed_put].
    intros r Hr. right. split; [lia|]. exists len. split; [done|]. left. split; [lia|done]. }
  case_bool_decide as Hmore; [right; split; [lia|]; exists len; split; [done|]; right; left; split_and!; [lia..|done]|].
  destruct (name_ok p len req Hh Hlen) as (p' & name & -> & Hname & Hnames & Hnl); [lia..|]. cbn [res_bind].
  rewrite (update_sock_ok _ _ _ _ Ha1). cbn [res_bind]. rewrite Hname. cbn [res_bind].
  pose proof (b_sock _ _ (proj1 W) a s (pr_a _ _ _ _ _ Q) (not_elem_of_nil _)) as Hs.
  unfold sock_ok in Hs. rewrite Hk in Hs.
  eapply ensures_mono; [|apply (smart_connect_ok n w (put_sock a (with_pkts [p'] (with_pkts [p] s)) w1) a s
    (with_pkts [p'] (with_pkts [p] s)) b sb name); try done].
  - intros r Hr. right. split; [lia|]. exists len. split; [done|]. right. right. split; [lia|]. split; [lia|]. by exists name.
  - by eapply base_put.
  - apply (framed_mono ([a] ++ [a])); [by intros ? [?|?]%elem_of_app|]. eapply framed_trans; apply framed_put.
  - wcbn. apply lookup_insert_eq.
  - apply Hs.
Qed.

(** [enqueue] on a smart socket. *)
Lemma smart_enqueue_ok n w a s b sb p : wf_world w -> pair w a s b sb -> sk_enqueue s = smart_enqueue ->
  sk_pkts sb = [] -> sk_closing sb = false -> holds p (p_data p) ->
  ensures (smart_socket_enqueue (exec (S (S (S (S n))))) a p w)
    (fun r => let req := request s ++ p_data p in
      if bool_decide (Z.of_nat (length req) > MAX_PAYLOAD) then refused w a b r else answered w a s b sb req r).
Proof.
  intros W Q Hk Hq Ho Hh. cbv zeta. pose proof Q as [Ha _ _ _ _ _ _ _].
  pose proof (b_sock _ _ (proj1 W) a s Ha (not_elem_of_nil _)) as Hs.
  unfold sock_ok in Hs. rewrite Hk in Hs. unfold smart_socket_enqueue. rewrite (get_sock_ok _ _ _ Ha). cbn [res_bind].
  destruct (sk_pkts s) as [|q ps] eqn:Hps.
  { cbn [res_bind]. rewrite (update_sock_ok _ _ _ _ Ha). cbn [res_bind].
    assert (request s = []) as -> by (unfold request; by rewrite Hps). cbn [app].
    rewrite (bool_decide_false (Z.of_nat _ > _)) by (destruct Hh as (_ & ? & _); lia).
    by apply (smart_request_ok n w a s b sb p (p_data p)). }
  destruct (request_holds s q ps (so_pkts _ _ Hs) Hps) as [-> Hhq].
  pose proof Hh as (Hp1 & Hp2 & Hp3). pose proof Hhq as (Hq1 & Hq2 & Hq3).
  assert (Z.of_nat (length (request s ++ p_data p)) = p_len q + p_len p) as ->.
  { rewrite length_app, Nat2Z.inj_add, (holds_length _ _ Hhq), <-(holds_length _ _ Hh). done. }
  rewrite u32_small by (unfold MAX_PAYLOAD in *; lia). case_bool_decide.
  - cbn [res_bind]. rewrite (update_sock_ok _ _ _ _ Ha). cbn [res_bind].
    pose proof (store_wf _ _ _ _ _ _ _ W Q Hk Hhq) as W1.
    apply (smart_fail_ok n w _ a s (with_pkts [q] s) b sb); try done.
    + apply base_open, W1.
    + apply framed_put.
    + wcbn. apply lookup_insert_eq.
  - unfold data_prefix. rewrite bool_decide_true by lia. cbn [res_bind]. rewrite Hp3.
    rewrite <-Hq3 in *. destruct (collect_ok q p Hhq Hh) as (q' & -> & Hl & Hh'); [lia|]. cbn [res_bind].
    rewrite Hl.     rewrite (update_sock_ok _ _ _ _ Ha). cbn [res_bind].
    by apply (smart_request_ok n w a s b sb).
Qed.

(** Its three outcomes. *)
Lemma smart_enqueue_cases n w a s b sb p : wf_world w -> pair w a s b sb -> sk_enqueue s = smart_enqueue ->
  sk_pkts sb = [] -> sk_closing sb = false -> holds p (p_data p) ->
  ensures (smart_socket_enqueue (exec (S (S (S (S n))))) a p w)
    (fun r => collecting w a s (request s ++ p_data p) r \/ refused w a b r
      \/ exists name u, connecting w a b sb name u r).
Proof.
  intros W Q Hk Hq Ho Hh. eapply ensures_mono; [|by apply (smart_enqueue_ok n w a s b sb p)].
  intros r. cbv zeta. case_bool_decide as Hm; [by right; left|].
  intros [[_ H]|(_ & len & _ & [[_ H]|[(_ & _ & H)|(_ & _ & name & _ & H)]])]; [by left|by right; left|by left|].
  unfold passed_on in H. destruct (serving w s) as [u|]; [|by right; left]. right. right. by exists name, u.
Qed.

End Smart.
