(* ===== verification/SocketsEvents.v ===== *)
(** * The events of local sockets

    [local_socket_event_func], which moves the bytes of a stream: what waits is
    written before anything is read, the peer is told when everything is
    written, what is read is handed to the peer, and the socket is closed at
    the end of its stream. *)

From S2P Require Import Prelude Cstr Rwx Packet Fdevent World Transport Sockets SocketsInv SocketsClose SocketsData SocketsSmart.

Section Events.
Context {E : Type} {I : FdEvents E fd_func} {L : FdEventsLaws E fd_func I}.
Implicit Types (w : world E) (a b : addr) (t : option addr) (s : asocket) (p : apacket) (X A : list addr).

Abbreviation fde_wants w a := (ev_interest (F := fd_func) (w_ev w) a).

(** A local socket with packets to write: its event asks for writing, and if it
    is not closing there is a remote peer to tell. *)
Record writing w a s : Prop := Writing {
  wr_kind : sk_enqueue s = local_enqueue;
  wr_closable : closable w a s;
  wr_int : exists i, fde_wants w a = Some i /\ has i FDE_WRITE = true /\ (sk_closing s = true -> has i FDE_READ = false);
  wr_fns : sk_ready s = local_ready /\ sk_close s = local_close;
  wr_peer : sk_closing s = false -> exists b sb, sk_peer s = Some b /\ pair w a s b sb /\ sk_enqueue sb = remote_enqueue
}.

(** The peer of [s] was told that it may go on. *)
Definition acknowledged w s w' : Prop := exists b sb,
  sk_peer s = Some b /\ w_socks w !! b = Some sb /\ sk_enqueue sb = remote_enqueue
  /\ sent (sk_transport sb) [header_packet A_OKAY (sk_id s) (sk_id sb)] w w'.

(** What the write half of the event function does. *)
Definition flushed X w a s (r : bool * world E) : Prop :=
  (r.1 = true /\ base X r.2 /\ framed [a] w r.2 /\ w_socks r.2 !! a = Some (with_pkts [] s)
     /\ delivered w a s [] r.2 /\ acknowledged w s r.2 /\ sk_closing s = false)
  \/ (r.1 = false /\ base X r.2 /\ framed [a] w r.2 /\ w_trans r.2 = w_trans w /\ delivered w a s [] r.2
     /\ (forall s', w_socks r.2 !! a = Some s' -> sk_pkts s' <> []))
  \/ (r.1 = false /\ closes X (family a s) (last_words w s).1 (last_words w s).2 w r.2).

(** What a descriptor still has to give. *)
Definition input w (fd : Z) : bytes := from_option io_in [] (w_io w !! fd).

(** What was read, as a packet, and as the message that its remote gets. *)
Definition read_packet_of (bs : bytes) : apacket := set_len (Z.of_nat (length bs)) (set_data bs get_apacket).
Definition wrte (i j : Z) (bs : bytes) : list apacket :=
  if bool_decide (bs = []) then []
  else match seal (chunk i j (read_packet_of bs)) with Ok q => [q] | _ => [] end.

(** A stream was read by [bs] and forwarded; it ended if [ended]. *)
Definition forwarded w a s b sb w' : Prop := exists bs rest,
  (length bs <= 4096)%nat /\ (is_Some (w_io w !! sk_fd s) -> input w (sk_fd s) = bs ++ rest)
  /\ ((framed [a] w w' /\ w_socks w' !! a = Some s /\ sent (sk_transport sb) (wrte (sk_id s) (sk_id sb) bs) w w'
        /\ (is_Some (w_io w !! sk_fd s) -> input w' (sk_fd s) = rest)
        /\ (bs <> [] -> exists i, fde_wants w' a = Some i /\ has i FDE_READ = false))
      \/ (framed [a; b] w w' /\ closed w' a /\ closed w' b
        /\ sent (sk_transport sb) (wrte (sk_id s) (sk_id sb) bs ++ goodbye 0 sb) w w')).

(** * Theorems *)

Lemma writing_ok w a s : writing w a s -> sk_pkts s <> [] -> sock_ok w a s.
Proof.
  intros [Hk Hc (i & Hi & Hw & Hr) Hf _] Hne. unfold closable in Hc. rewrite Hk in Hc.
  destruct Hc as (_ & Hp & _ & Hcl & Hl). unfold sock_ok. rewrite Hk. split; try done.
  - by left.
  - exists i. by rewrite Hw.
  - intros Hx. destruct (Hcl Hx) as (? & ? & ?). done.
Qed.

Lemma writing_put w a s l m : writing w a s -> w_socks w !! a = Some s -> Forall pkt_ok l ->
  writing (put_sock a (with_pkts l s) (with_io m w)) a (with_pkts l s).
Proof.
  intros [Hk Hc (i & Hi & Hw & Hr) Hf Hpe] Ha Hl.
  assert (closable (put_sock a (with_pkts l s) (with_io m w)) a (with_pkts l s)) as Hc'.
  { unfold closable in *. cbn. rewrite Hk in *. destruct Hc as (_ & _ & _ & Hcl & Hin).
    split_and!; [by left|done|by eauto|done|done]. }
  split; try done; [by exists i|]. intros Ho. destruct (Hpe Ho) as (b & sb & Hb & [? ? ? ? ? ? ? Hcb] & Hkb).
  exists b, sb. split; [done|]. split; [|done]. split; try done.
  - wcbn. apply lookup_insert_eq.
  - wcbn. by rewrite lookup_insert_ne.
  - by apply (closable_frame w).
Qed.

(** The last packet was written. *)
Lemma flush_done n X w a s fd fuel : base (a :: X) w -> a ∉ X -> w_socks w !! a = Some s -> writing w a s ->
  sk_pkts s = [] -> sk_closing s = false ->
  ensures (flush (exec (S n)) fuel w a fd) (fun r => r.1 = true /\ base X r.2 /\ framed [a] w r.2
    /\ w_socks r.2 = w_socks w /\ w_io r.2 = w_io w /\ acknowledged w s r.2).
Proof.
  intros B HX Ha [Hk Hc (i & Hi & Hw & Hr) Hf Hpe] Hq Ho. destruct (Hpe Ho) as (b & sb & Hb & P & Hkb).
  assert (flush (exec (S n)) fuel w a fd = let* w := sock_fde_del w a FDE_WRITE in
    let* ' (_, w) := exec (S n) (CReady b) w in Ok (true, w)) as ->.
  { unfold peer_of. destruct fuel; cbn [flush]; rewrite (get_sock_ok _ _ _ Ha); cbn [res_bind];
      rewrite Hq, Ho; unfold peer_of; by rewrite Hb. }
  destruct (fde_del_ok X w a i FDE_WRITE B Hi) as (e & -> & B1 & Hi1 & F1). cbn [res_bind].
  destruct (wants_del_write i) as [W1 W2].
  assert (base X (with_ev e w)) as B2.
  { apply (base_done _ _ a); [done|]. intros s0 Hs0. assert (s0 = s) as -> by (wcbn; congruence).
    unfold closable in Hc. rewrite Hk in Hc. destruct Hc as (Hfn & Hp & _ & Hcl & Hl).
    unfold sock_ok. rewrite Hk. split; [by left|done| |congruence|done].
    eexists. split; [exact Hi1|]. rewrite W1, Hq. split; [done|congruence]. }
  apply ensures_bind. cbn [exec dispatch].
  rewrite (get_sock_ok _ b sb) by apply P. cbn [res_bind].
  destruct (ro_fns (with_ev e w) sb) as [-> _].
  { pose proof (pr_cb _ _ _ _ _ P) as Hcb. unfold closable in Hcb. rewrite Hkb in Hcb.
    destruct Hcb as [? ? ?]. by split. }
  eapply ensures_mono; [|apply (remote_ready_ok X (with_ev e w) b sb a s); [done|apply P|done|apply P|done]].
  intros [v w'] (B' & F' & Hs & Hio & Hev & S). cbn [ensures fst snd] in *. split_and!; try done.
  - eapply (framed_mono ([a] ++ [])); [by rewrite app_nil_r|]. by eapply framed_trans.
  - exists b, sb. split_and!; [done|apply P|done|exact S].
Qed.

(** One packet is written, entirely or in part. *)
Lemma delivered_step w w1 a s p' ps q k : w_socks w !! a = Some s -> sk_pkts s = q :: ps ->
  pkt_ok q -> advanced k q p' ->
  forall m l, w1 = put_sock a (with_pkts l s) (with_io m w) -> concat (map rest l) = rest p' ++ concat (map rest ps) ->
  (is_Some (w_io w !! sk_fd s) -> is_Some (m !! sk_fd s)
     /\ written (with_io m w) (sk_fd s) = written w (sk_fd s) ++ take k (rest q)) ->
  delivered w a s [] w1.
Proof.
  intros Ha Hq Hp Hadv m l -> Hl Hout. exists (with_pkts l s).
  split_and!; [wcbn; apply lookup_insert_eq|done|]. intros Hs. destruct (Hout Hs) as [Hm Hw]. split; [exact Hm|].
  change (written (put_sock a (with_pkts l s) (with_io m w)) (sk_fd s)) with (written (with_io m w) (sk_fd s)).
  rewrite Hw. unfold waiting. cbn [with_pkts sk_pkts]. rewrite Hl, Hq, app_nil_r. cbn [map concat].
  rewrite <-!app_assoc. f_equal. rewrite app_assoc. f_equal. symmetry. by apply advanced_rest.
Qed.

Lemma delivered_trans w1 w2 w3 a s s2 bs : delivered w1 a s [] w2 -> w_socks w2 !! a = Some s2 ->
  delivered w2 a s2 bs w3 -> delivered w1 a s bs w3.
Proof.
  intros (s2' & Hs2 & He2 & H2) Hs2' (s3 & Hs3 & He3 & H3). assert (s2' = s2) as -> by congruence.
  exists s3. split; [done|]. rewrite He2 in He3. split; [exact He3|]. intros Hs.
  assert (sk_fd s2 = sk_fd s) as Hfd by (by rewrite He2). rewrite Hfd in H3.
  destruct (H2 Hs) as [Hio H2']. destruct (H3 Hio) as [Hio3 ->]. split; [done|].
  rewrite !app_assoc. f_equal. by rewrite H2', app_nil_r.
Qed.

Lemma last_words_put w a s l m : (forall b, sk_peer s = Some b -> b <> a) ->
  last_words (put_sock a (with_pkts l s) (with_io m w)) (with_pkts l s) = last_words w s.
Proof.
  intros Hne. unfold last_words. cbn [sk_peer with_pkts]. destruct (sk_peer s) as [b|] eqn:Hb; [|done].
  wcbn. by rewrite lookup_insert_ne by (apply not_eq_sym; auto).
Qed.

Lemma framed_step w a l m s : framed [a] w (put_sock a (with_pkts l s) (with_io m w)).
Proof. apply (framed_trans [] [a] w (with_io m w)); [apply framed_io|apply framed_put]. Qed.

Lemma flushed_after X w a s l m r : (forall b, sk_peer s = Some b -> b <> a) ->
  let w1 := put_sock a (with_pkts l s) (with_io m w) in
  delivered w a s [] w1 -> flushed X w1 a (with_pkts l s) r -> flushed X w a s r.
Proof.
  intros Hne w1 D H. assert (framed [a] w w1) as F by apply framed_step.
  assert (w_socks w1 !! a = Some (with_pkts l s)) as Ha by (unfold w1; wcbn; apply lookup_insert_eq).
  assert (forall w', framed [a] w1 w' -> framed [a] w w') as Hf.
  { intros w' F'. apply (framed_mono ([a] ++ [a])); [by intros ? [?|?]%elem_of_app|]. by eapply framed_trans. }
  destruct H as [(H1 & B' & F' & Hs & D' & A & Ho)|[(H1 & B' & F' & Ht & D' & Hpk)|(H1 & C)]].
  - left. split_and!; try done; [by apply Hf|by eapply delivered_trans|].
    destruct A as (b & sb & Hb & Hsb & Hk & S). exists b, sb. split_and!; [done| |done|exact S].
    unfold w1 in Hsb. wcbn. by rewrite lookup_insert_ne in Hsb by (apply not_eq_sym; auto).
  - right. left. split_and!; try done; [by apply Hf|by eapply delivered_trans].
  - right. right. split; [done|]. unfold w1 in C. rewrite last_words_put in C by done.
    eapply (closes_after X [a]); [exact F|by apply sent_quiet|exact C|].
    intros b ->%list_elem_of_singleton. by left.
Qed.

Lemma writing_peered w a s : writing w a s -> peered w a s /\ (forall b, sk_peer s = Some b -> b <> a).
Proof.
  intros [Hk Hc _ _ Hp]. unfold closable in Hc. rewrite Hk in Hc. destruct Hc as (_ & _ & _ & Hcl & _).
  destruct (sk_closing s) eqn:Ho.
  - destruct (Hcl eq_refl) as (Hn & _). split; intros b Hb; congruence.
  - destruct (Hp eq_refl) as (b & sb & Hb & P & _).
    split; intros b' Hb'; assert (b' = b) as -> by congruence; [by exists sb|apply P].
Qed.

(** The write half: it writes the packets in order, until the descriptor takes
    no more. *)
Lemma flush_ok n X ps : forall w a s, base (a :: X) w -> a ∉ X -> w_socks w !! a = Some s -> writing w a s ->
  sk_pkts s = ps ->
  ensures (flush (exec (S (S (S (S n))))) (length ps) w a (sk_fd s)) (flushed X w a s).
Proof.
  induction ps as [|p ps IH]; intros w a s B HX Ha W Hq; pose proof (writing_peered _ _ _ W) as [Hpe Hne].
  - destruct (sk_closing s) eqn:Ho.
    + cbn [flush length]. rewrite (get_sock_ok _ _ _ Ha). cbn [res_bind]. rewrite Hq, Ho. apply ensures_bind.
      eapply ensures_mono; [|apply (close_any n X w a s); [done..|apply W|done]].
      intros [v w'] C. right. right. by split.
    + eapply ensures_mono; [|by eapply (flush_done (S (S (S n))) X w a s)].
      intros r (H1 & B' & F' & Hs & Hio & A). left. assert (with_pkts [] s = s) as He by (destruct s; cbn in Hq; by subst).
      rewrite He. split_and!; try done; [by rewrite Hs|]. exists s. rewrite Hs, Hq. split_and!; [done|done|].
      intros Hi. rewrite Hio. split; [done|]. unfold written. rewrite Hio. unfold waiting. by rewrite Hq.
  - cbn [flush length]. rewrite (get_sock_ok _ _ _ Ha). cbn [res_bind]. rewrite Hq.
    assert (Forall pkt_ok (p :: ps)) as [Hp Hps]%Forall_cons.
    { pose proof (wr_closable _ _ _ W) as Hc. unfold closable in Hc. rewrite (wr_kind _ _ _ W), Hq in Hc. apply Hc. }
    destruct (write_loop_ok true (loop_fuel w (sk_fd s)) w (sk_fd s) p Hp) as (r & p' & m & k & -> & Hadv & Hdone & Hout).
    { unfold loop_fuel, io_fuel, credit. pose proof (xfers_length (io_evs (get_io w (sk_fd s)))). lia. }
    cbn [res_bind]. rewrite (update_sock_ok _ a s) by done. cbn [res_bind].
    set (l := match r with Done => ps | _ => p' :: ps end). set (w1 := put_sock a (with_pkts l s) (with_io m w)).
    assert (Forall pkt_ok l) as Hl by (unfold l; destruct r; [done|constructor; [by eapply advanced_ok|done]..]).
    assert (writing w1 a (with_pkts l s)) as W1 by (by apply writing_put).
    assert (base (a :: X) w1) as B1 by (by eapply base_put; [apply base_io|..]).
    assert (w_socks w1 !! a = Some (with_pkts l s)) as Ha1 by (unfold w1; wcbn; apply lookup_insert_eq).
    assert (delivered w a s [] w1) as D.
    { eapply (delivered_step w w1 a s p' ps p k); try done. unfold l. destruct r; [|done..].
      unfold rest at 2. by rewrite (Hdone eq_refl). }
    destruct r; cbn [l] in *.
    + eapply ensures_mono; [|apply (IH w1 a (with_pkts l s)); done]. intros r. by apply flushed_after.
    + right. left. cbn [fst snd]. split_and!; [done| |apply framed_step|done|done|by intros s0; rewrite Ha1; intros [= <-]].
      apply (base_done _ _ a); [done|]. intros s0 Hs0. assert (s0 = with_pkts l s) as -> by congruence.
      by apply writing_ok.
    + apply ensures_bind. eapply ensures_mono; [|apply (close_any n X w1 a (with_pkts l s)); [done..|apply W1|]].
      * intros [v w'] C. eapply flushed_after; [done|exact D|]. right. right. by split.
      * by apply writing_peered.
Qed.

(** ** Reading *)

Lemma fd_read_input w fd len r w' : fd_read w fd len = Ok (r, w') -> is_Some (w_io w !! fd) ->
  is_Some (w_io w' !! fd) /\ input w fd = match r with RGot bs => bs | RErr _ => [] end ++ input w' fd.
Proof.
  unfold fd_read. intros H [f Hf]. destruct (adb_read _ _) as [[r0 f']| | |] eqn:Hw; [|done..].
  cbn [res_bind] in H. injection H as <- <-. apply adb_read_cases in Hw as (_ & _ & Hr).
  unfold get_io in Hr. rewrite Hf in Hr. cbn in Hr. unfold input, put_io. rewrite Hf. cbn.
  rewrite lookup_insert_eq. split; [by eexists|]. cbn. destruct r0; destruct Hr as [Hr1 Hr2]; [done|by symmetry].
Qed.

Lemma read_loop_ok fuel : forall w fd avail buf r, (credit w fd < fuel)%nat ->
  exists bs r' eof m, read_loop fuel w fd avail buf r = Ok (buf ++ bs, r', eof, with_io m w)
    /\ (length bs <= avail)%nat
    /\ (is_Some (w_io w !! fd) -> is_Some (m !! fd) /\ input w fd = bs ++ input (with_io m w) fd).
Proof.
  induction fuel as [|fuel IH]; intros w fd avail buf r Hf; [lia|]. cbn [read_loop].
  case_bool_decide.
  2:{ exists [], r, false, (w_io w). rewrite app_nil_r. split_and!; [by destruct w|cbn; lia|by destruct w]. }
  destruct (fd_read_ok w fd avail) as (g & m & Hg & Hc). pose proof (fd_read_input _ _ _ _ _ Hg) as Hi.
  rewrite Hg. cbn [res_bind].
  assert (g = RGot [] \/ g = RErr EAGAIN \/ g = RErr EIO \/ exists x bs, g = RGot (x :: bs)) as [->|[->|[->|(x & bs & ->)]]].
  { destruct g as [[|x bs]|[]]; [by left|by eauto 10|done|by auto..]. }
  1-3: by eexists [], _, _, m; rewrite app_nil_r; split_and!; [done|cbn; lia|exact Hi].
  destruct Hc as [Hl Hc].
  destruct (IH (with_io m w) fd (avail - length (x :: bs))%nat (buf ++ x :: bs) (Z.of_nat (length (x :: bs))))
    as (bs' & r' & eof & m' & -> & Hl' & Hi'); [lia|].
  exists ((x :: bs) ++ bs'), r', eof, m'. rewrite app_assoc, !length_app. split_and!; [done|lia|].
  intros Hs. destruct (Hi Hs) as [Hm Hin]. destruct (Hi' Hm) as [Hm' Hin']. split; [done|].
  change (with_io m' (with_io m w)) with (with_io m' w) in Hin'. by rewrite Hin, Hin', app_assoc.
Qed.

Lemma read_packet_holds bs : (length bs <= 4096)%nat -> holds (read_packet_of bs) (p_data (read_packet_of bs))
  /\ p_data (read_packet_of bs) = bs.
Proof.
  intros Hl. unfold read_packet_of, set_len, set_data, get_apacket, holds, MAX_PAYLOAD. cbn.
  rewrite drop_nil, app_nil_r. split_and!; [lia..| |done]. rewrite Nat2Z.id. apply firstn_all.
Qed.

(** The end of the read half closes the socket, or leaves everything. *)
Lemma read_end_ok n X w a s r eof : base (a :: X) w -> w_socks w !! a = Some s ->
  closable w a s -> peered w a s -> is_Some (fde_wants w a) ->
  ensures (read_end (exec (S (S (S (S n))))) w a r eof) (fun w' => w' = w
    \/ closes X (family a s) (last_words w s).1 (last_words w s).2 w w').
Proof.
  intros B Ha Hc Hp [i Hi]. unfold read_end. destruct (law_eof (w_ev w) a i (b_ev _ _ B) Hi) as [v ->].
  cbn [res_bind]. destruct ((_ && _) || _); [|by left]. apply ensures_bind.
  eapply ensures_mono; [|by eapply close_any]. intros [v' w'] C. by right.
Qed.

(** Reading is switched off when the peer has enough. *)
Lemma read_off_ok w a s : base [] w -> w_socks w !! a = Some s -> sk_enqueue s = local_enqueue ->
  exists e, sock_fde_del w a FDE_READ = Ok (with_ev e w) /\ base [] (with_ev e w) /\ framed [a] w (with_ev e w)
    /\ exists i, fde_wants (with_ev e w) a = Some i /\ has i FDE_READ = false.
Proof.
  intros B Ha Hk. pose proof (b_sock _ _ B a s Ha (not_elem_of_nil _)) as Hs. unfold sock_ok in Hs. rewrite Hk in Hs.
  destruct Hs as [Hf Hp (i & Hi & Hw & Hr) Hc Hl].
  destruct (fde_del_ok [] w a i FDE_READ) as (e & -> & B' & Hi' & F); [by apply base_open|done|].
  destruct (wants_del_read i) as [W1 W2]. exists e. split_and!; [done| |done|by eexists].
  apply (base_done _ _ a); [done|]. intros s0 Hs0. assert (s0 = s) as -> by (wcbn; congruence).
  unfold sock_ok. rewrite Hk. split; try done. eexists. split; [exact Hi'|]. rewrite W1, W2. done.
Qed.

Lemma wrte_sent i j bs q : bs <> [] -> seal (chunk i j (read_packet_of bs)) = Ok q -> wrte i j bs = [q].
Proof. intros Hne Hq. unfold wrte. by rewrite bool_decide_false, Hq. Qed.

(** The end of the read half on a stream. *)
Lemma stream_end_ok n w w1 a s b sb bs rest r eof : wf_world w -> wf_world w1 -> framed [a] w w1 ->
  w_socks w1 !! a = Some s -> pair w1 a s b sb -> sk_enqueue s = local_enqueue ->
  (length bs <= 4096)%nat -> (is_Some (w_io w !! sk_fd s) -> input w (sk_fd s) = bs ++ rest /\ input w1 (sk_fd s) = rest) ->
  sent (sk_transport sb) (wrte (sk_id s) (sk_id sb) bs) w w1 ->
  (bs <> [] -> exists i, fde_wants w1 a = Some i /\ has i FDE_READ = false) ->
  ensures (read_end (exec (S (S (S (S n))))) w1 a r eof) (fun w' => wf_world w' /\ forwarded w a s b sb w').
Proof.
  intros W W1 F Ha P Hk Hl Hin S Hoff. pose proof (pr_ne _ _ _ _ _ P) as Hne.
  eapply ensures_mono; [|apply (read_end_ok n [] w1 a s r eof); [by apply base_open, W1|done|apply P| |]].
  - intros w' [->|[B' F' C' S']].
    + split; [done|]. exists bs, rest. split; [done|]. split; [intros Hs; by apply Hin|]. left.
      split_and!; try done. intros Hs. by apply Hin.
    + assert (family a s = [a; b]) as Hfam by (unfold family; by rewrite (pr_ab _ _ _ _ _ P)).
      unfold last_words in S'. rewrite (pr_ab _ _ _ _ _ P), (pr_b _ _ _ _ _ P) in S'. unfold farewell in S'.
      rewrite Hk in S'. cbn [fst snd] in S'. split.
      * split; [done|]. eapply peers_closed; [apply W1|done|exact F'|exact C'|]. by apply family_closed; [apply W1|].
      * rewrite Hfam in F', C'. rewrite Forall_cons, Forall_singleton in C'. destruct C' as [Ca Cb].
        exists bs, rest. split; [done|]. split; [intros Hs; by apply Hin|]. right.
        split_and!; [|done|done|by eapply sent_trans]. eapply (framed_mono ([a] ++ [a; b])).
        { intros c. rewrite elem_of_app, !elem_of_cons, elem_of_nil. tauto. } by eapply framed_trans.
  - intros b' Hb'. rewrite (pr_ab _ _ _ _ _ P) in Hb'. injection Hb' as <-. by exists sb.
  - apply (b_int _ _ (proj1 W1)). apply (b_listed _ _ (proj1 W1)). eauto.
Qed.

(** What a local socket reads is forwarded to its remote peer in one message,
    and it reads no more until the remote acknowledged it. *)
Lemma read_half_remote_ok n w a s b sb : wf_world w -> pair w a s b sb -> sk_enqueue s = local_enqueue ->
  sk_enqueue sb = remote_enqueue ->
  ensures (read_half (exec (S (S (S (S n))))) w a (sk_fd s)) (fun w' => wf_world w' /\ forwarded w a s b sb w').
Proof.
  intros W P Hk Hkb. pose proof P as [Ha Hb Hne Hab Hba _ Hca Hcb]. unfold read_half.
  destruct (read_loop_ok (loop_fuel w (sk_fd s)) w (sk_fd s) (Z.to_nat MAX_PAYLOAD) [] 0) as
    (bs & r & eof & m & -> & Hl & Hin).
  { unfold loop_fuel, io_fuel, credit. pose proof (xfers_length (io_evs (get_io w (sk_fd s)))). lia. }
  cbn [res_bind app]. set (w1 := with_io m w).
  assert (wf_world w1) as W1 by (split; [apply base_io, W|apply W]).
  assert (framed [a] w w1) as F1 by (eapply framed_mono; [apply list_subseteq_nil|apply framed_io]).
  assert (pair w1 a s b sb) as P1 by (by apply wf_pair_of).
  rewrite (get_sock_ok w1 a s Ha). cbn [res_bind]. rewrite Hab.
  assert (length bs <= 4096)%nat as Hl' by (unfold MAX_PAYLOAD in Hl; lia).
  case_bool_decide as Hnil.
  { apply (stream_end_ok n w w1 a s b sb bs (input w1 (sk_fd s))); try done.
    - intros Hs. by destruct (Hin Hs).
    - subst. by apply sent_quiet. }
  destruct (read_packet_holds bs Hl') as [(Hp1 & Hp2 & _) Hpd].
  apply ensures_bind. cbn [exec dispatch]. rewrite (get_sock_ok w1 b sb Hb). cbn [res_bind]. rewrite Hkb.
  eapply ensures_mono; [|apply (remote_enqueue_ok [] w1 b sb a s (read_packet_of bs)); try done; [apply W1|lia|lia]].
  intros [v w2] (Hv & B2 & F2 & Hs2 & Hio2 & _ & q & Hq & S2). cbn [fst snd] in *. subst v.
  rewrite bool_decide_false by lia. rewrite (get_sock_ok w2 a s) by (by rewrite Hs2). cbn [res_bind].
  rewrite bool_decide_true by lia.
  destruct (read_off_ok w2 a s B2) as (e & -> & B3 & F3 & i & Hi & Hoff); [by rewrite Hs2|done|]. cbn [res_bind].
  assert (framed [a] w (with_ev e w2)) as F.
  { eapply (framed_mono ([a] ++ [] ++ [a])); [by intros ? [?|?]%elem_of_app|].
    eapply framed_trans; [exact F1|]. by eapply framed_trans. }
  assert (wf_world (with_ev e w2)) as W3 by (split; [done|]; eapply peers_same; [exact Hs2|apply W1]).
  assert (w_socks (with_ev e w2) = w_socks w) as Hs3 by exact Hs2.
  apply (stream_end_ok n w (with_ev e w2) a s b sb bs (input w1 (sk_fd s))); try done.
  - by rewrite Hs3.
  - apply wf_pair_of; by rewrite ?Hs3.
  - intros Hs. destruct (Hin Hs). split; [done|]. unfold input. cbn. by rewrite Hio2.
  - rewrite (wrte_sent _ _ _ q) by done. apply (sent_before _ _ w w2); [|by apply sent_quiet].
    by apply (sent_after _ _ w w1); [apply sent_quiet|].
  - intros _. by exists i.
Qed.

Lemma closable_wants w a s : base [] w -> w_socks w !! a = Some s -> sk_enqueue s = local_enqueue ->
  is_Some (fde_wants w a).
Proof. intros B Ha Hk. apply (b_int _ _ B), (b_listed _ _ B). eauto. Qed.

Lemma wf_closable w a s : wf_world w -> w_socks w !! a = Some s -> closable w a s /\ peered w a s.
Proof.
  intros W Ha. split.
  - by apply sock_ok_closable, (b_sock _ _ (proj1 W)), not_elem_of_nil.
  - intros b Hb. destruct (wf_pair w a s b W Ha Hb) as (sb & P & _). by exists sb.
Qed.

Lemma read_end_wf n w a s r eof : wf_world w -> w_socks w !! a = Some s -> sk_enqueue s = local_enqueue ->
  ensures (read_end (exec (S (S (S (S n))))) w a r eof) wf_world.
Proof.
  intros W Ha Hk. destruct (wf_closable w a s W Ha) as [Hc Hp].
  eapply ensures_mono; [|apply (read_end_ok n [] w a s r eof); [by apply base_open, W|done..|]].
  - intros w' [->|[B' F' C' S']]; [done|]. split; [done|].
    eapply peers_closed; [apply W|done|exact F'|exact C'|]. by apply family_closed; [apply W|].
  - by apply (closable_wants w a s); [apply W|..].
Qed.

Lemma pair_sym w a s b sb : pair w a s b sb -> pair w b sb a s.
Proof.
  intros [Ha Hb Hne Hab Hba Hk Hca Hcb]. apply Pair; try done.
  destruct (decide (sk_enqueue sb = local_enqueue)); destruct (decide (sk_enqueue s = local_enqueue)); naive_solver.
Qed.

(** What a smart socket reads is its request. *)
Lemma read_half_smart n w a s b sb bs eof : wf_world w -> pair w a s b sb ->
  sk_enqueue s = local_enqueue -> sk_enqueue sb = smart_enqueue -> sk_pkts s = [] -> sk_closing s = false ->
  (length bs <= 4096)%nat ->
  ensures
    (let* ' (v, w) := exec (S (S (S (S (S n))))) (CEnqueue b (read_packet_of bs)) w in
     if bool_decide (v < 0) then Ok w
     else
       let* _ := get_sock w a in
       let* w := if bool_decide (v > 0) then sock_fde_del w a FDE_READ else Ok w in
       read_end (exec (S (S (S (S (S n)))))) w a v eof) wf_world.
Proof.
  intros W P Hk Hkb Hq Ho Hl. pose proof P as [Ha Hb Hne _ _ _ _ _].
  destruct (read_packet_holds bs Hl) as [Hh _]. apply ensures_bind. cbn [exec dispatch].
  rewrite (get_sock_ok w b sb Hb). cbn [res_bind]. rewrite Hkb.
  eapply ensures_mono; [|apply (smart_enqueue_cases n w b sb a s (read_packet_of bs)); try done; by apply pair_sym].
  intros [v w2] [(Hv & W2 & F2 & _)|[(Hv & W2 & _)|(name & u & Hv & W2 & F2 & _ & q & Ha2 & _)]];
    cbn [fst snd] in *; subst v.
  - assert (w_socks w2 !! a = Some s) as Ha2.
    { rewrite (fr_socks _ _ _ F2); [done|]. by intros ->%list_elem_of_singleton. }
    rewrite bool_decide_false by lia. rewrite (get_sock_ok w2 a s Ha2). cbn [res_bind].
    rewrite bool_decide_false by lia. cbn [res_bind]. by apply (read_end_wf (S n) w2 a s).
  - by rewrite bool_decide_true by lia.
  - rewrite bool_decide_false by lia. rewrite (get_sock_ok _ _ _ Ha2). cbn [res_bind].
    rewrite bool_decide_true by lia.
    destruct (read_off_ok w2 a _ (proj1 W2) Ha2) as (e & -> & B3 & F3 & _); [done|]. cbn [res_bind].
    eapply (read_end_wf (S n)); [|exact Ha2|done]. split; [done|]. by eapply peers_same; [|apply W2].
Qed.

(** The peer of a local socket. *)
Lemma peer_kinds w a s : wf_world w -> w_socks w !! a = Some s -> sk_enqueue s = local_enqueue ->
  (exists b sb, sk_peer s = Some b /\ pair w a s b sb /\ sk_enqueue sb = remote_enqueue)
  \/ (forall b, sk_peer s = Some b -> exists sb, pair w a s b sb /\ sk_enqueue sb = smart_enqueue
       /\ sk_pkts s = [] /\ sk_closing s = false).
Proof.
  intros W Ha Hk. destruct (sk_peer s) as [b|] eqn:Hb; [|by right].
  destruct (wf_pair w a s b W Ha Hb) as (sb & P & Hsm). destruct (sk_enqueue sb) eqn:Hkb.
  - by destruct (proj1 (pr_kind _ _ _ _ _ P) Hk).
  - left. by exists b, sb.
  - right. intros b' [= <-]. exists sb. split_and!; [done|done|by apply Hsm|].
    pose proof (b_sock _ _ (proj1 W) a s Ha (not_elem_of_nil _)) as Hs. unfold sock_ok in Hs. rewrite Hk in Hs.
    destruct (sk_closing s) eqn:Ho; [|done]. destruct (lo_closing _ _ _ Hs Ho) as (? & _). congruence.
Qed.

(** The read half, whatever the peer. *)
Lemma read_half_wf n w a s : wf_world w -> w_socks w !! a = Some s -> sk_enqueue s = local_enqueue ->
  ensures (read_half (exec (S (S (S (S (S n)))))) w a (sk_fd s)) wf_world.
Proof.
  intros W Ha Hk.
  destruct (peer_kinds w a s W Ha Hk) as [(b & sb & Hb & P & Hkb)|Hsm].
  - eapply ensures_mono; [|by eapply (read_half_remote_ok (S n) w a s b sb)]. by intros w' [? _].
  - unfold read_half.
    destruct (read_loop_ok (loop_fuel w (sk_fd s)) w (sk_fd s) (Z.to_nat MAX_PAYLOAD) [] 0) as
      (bs & r & eof & m & -> & Hl & _).
    { unfold loop_fuel, io_fuel, credit. pose proof (xfers_length (io_evs (get_io w (sk_fd s)))). lia. }
    cbn [res_bind app]. assert (wf_world (with_io m w)) as W1 by (split; [apply base_io, W|apply W]).
    rewrite (get_sock_ok (with_io m w) a s Ha). cbn [res_bind].
    destruct (sk_peer s) as [b|] eqn:Hb; [|by apply (read_end_wf (S n) (with_io m w) a s)].
    case_bool_decide; [by apply (read_end_wf (S n) (with_io m w) a s)|].
    destruct (Hsm b eq_refl) as (sb & P & Hkb & Hq & Ho).
    refine (read_half_smart n (with_io m w) a s b sb bs eof W1 _ Hk Hkb Hq Ho _); [|unfold MAX_PAYLOAD in Hl; lia].
    apply wf_pair_of; [done..|apply P].
Qed.

(** ** The event function *)

(** The packets of a stream changed, and nothing that concerns other sockets. *)
Lemma stream_peers w w' a s l : wf_world w -> w_socks w !! a = Some s -> sk_enqueue s = local_enqueue ->
  sk_closing s = true \/ (exists b sb, sk_peer s = Some b /\ w_socks w !! b = Some sb /\ sk_enqueue sb = remote_enqueue) ->
  framed [a] w w' -> w_socks w' !! a = Some (with_pkts l s) -> peers [] w'.
Proof.
  intros [B P] Ha Hk Hc F Ha'. apply (peers_same _ (put_sock a (with_pkts l s) w)).
  { apply map_eq. intros c. wcbn. destruct (decide (a = c)) as [<-|]; [by rewrite lookup_insert_eq|].
    rewrite lookup_insert_ne by done. apply F. rewrite list_elem_of_singleton. congruence. }
  pose proof (P a s Ha (not_elem_of_nil _)) as Hp. eapply peers_put; try done.
  - unfold peer_ok in *. cbn [with_pkts sk_peer sk_enqueue sk_pkts sk_closing]. destruct (sk_peer s) as [b|] eqn:Hb.
    + destruct Hp as (Hne & sb & Hsb & Hba & Hkk & Hsm). split; [done|]. exists sb. wcbn.
      rewrite lookup_insert_ne by done. split_and!; try done. intros Hx.
      destruct Hc as [Hcl|(b' & sb' & [= <-] & Hsb' & Hr)]; [|congruence].
      pose proof (b_sock _ _ B a s Ha (not_elem_of_nil _)) as Hs. unfold sock_ok in Hs. rewrite Hk in Hs.
      destruct (lo_closing _ _ _ Hs Hcl) as (Hn & _). congruence.
    + split; [done|]. intros Ho. destruct Hc as [?|(b & sb & ? & _)]; congruence.
  - intros _. right. intros b sb Hb Hsb Hx. destruct Hc as [Hcl|(b' & sb' & Hb' & Hsb' & Hr)]; [|congruence].
    pose proof (b_sock _ _ B a s Ha (not_elem_of_nil _)) as Hs. unfold sock_ok in Hs. rewrite Hk in Hs.
    destruct (lo_closing _ _ _ Hs Hcl) as (Hn & _). congruence.
Qed.

Lemma wf_writing w a s : wf_world w -> w_socks w !! a = Some s -> sk_enqueue s = local_enqueue ->
  (exists i, fde_wants w a = Some i /\ has i FDE_WRITE = true) ->
  writing w a s /\ (sk_closing s = true \/ exists b sb, sk_peer s = Some b /\ w_socks w !! b = Some sb /\ sk_enqueue sb = remote_enqueue).
Proof.
  intros W Ha Hk (i & Hi & Hiw). destruct (wf_closable w a s W Ha) as [Hc Hp].
  pose proof (b_sock _ _ (proj1 W) a s Ha (not_elem_of_nil _)) as Hs. unfold sock_ok in Hs. rewrite Hk in Hs.
  destruct Hs as [Hf Hpk (i' & Hi' & Hw & Hr) Hcl Hl]. assert (i' = i) as -> by congruence.
  assert (sk_pkts s <> []) as Hne by (by apply Hw).
  assert (sk_closing s = false -> exists b sb, sk_peer s = Some b /\ pair w a s b sb /\ sk_enqueue sb = remote_enqueue) as Hpeer.
  { intros Ho. destruct (peer_kinds w a s W Ha Hk) as [?|Hsm]; [done|]. destruct (sk_peer s) as [b|] eqn:Hb.
    - by destruct (Hsm b eq_refl) as (sb & _ & _ & ? & _).
    - pose proof (proj2 W a s Ha (not_elem_of_nil _)) as Hpp. unfold peer_ok in Hpp. rewrite Hb in Hpp.
      by destruct Hpp as [_ Hx]; apply Hx in Ho. }
  split.
  - split; try done; [by exists i|]. destruct Hf as [?|(_ & _ & ? & _)]; [done|congruence].
  - destruct (sk_closing s); [by left|right]. destruct (Hpeer eq_refl) as (b & sb & ? & Q & ?).
    exists b, sb. split_and!; [done|apply Q|done].
Qed.

(** The outcomes of the write half keep the invariant. *)
Lemma flushed_wf w a s r : wf_world w -> w_socks w !! a = Some s -> sk_enqueue s = local_enqueue ->
  sk_closing s = true \/ (exists b sb, sk_peer s = Some b /\ w_socks w !! b = Some sb /\ sk_enqueue sb = remote_enqueue) ->
  flushed [] w a s r -> wf_world r.2 /\ (r.1 = true -> w_socks r.2 !! a = Some (with_pkts [] s)).
Proof.
  intros W Ha Hk Hp [(H1 & B' & F' & Hs & _)|[(H1 & B' & F' & _ & (s' & Hs & He & _) & _)|(H1 & [B' F' C' _])]].
  - split; [|done]. split; [done|]. by eapply stream_peers.
  - split; [|congruence]. split; [done|]. rewrite He in Hs. by eapply stream_peers.
  - split; [|congruence]. split; [done|]. eapply peers_closed; [apply W|done|exact F'|exact C'|].
    by apply family_closed; [apply W|].
Qed.

(** C25: An event of a local socket never makes the daemon touch freed memory or
    loop, and it keeps the invariant, whatever the descriptor does, whatever
    the peer is and whichever sockets the event closes; an event to write must
    have been asked for. *)
Theorem event_safe w a s ev : wf_world w -> w_socks w !! a = Some s -> sk_enqueue s = local_enqueue ->
  (has ev FDE_WRITE = true -> exists i, fde_wants w a = Some i /\ has i FDE_WRITE = true) ->
  ensures (socket_event (sk_fd s) ev a w) wf_world.
Proof.
  intros W Ha Hk Hev. unfold socket_event, local_socket_event_func. rewrite (get_sock_ok _ _ _ Ha). cbn [res_bind].
  apply ensures_bind. destruct (has ev FDE_WRITE) eqn:Hw.
  - destruct (wf_writing w a s W Ha Hk (Hev eq_refl)) as [Wr Hp].
    eapply ensures_mono; [|eapply (flush_ok 4 [] (sk_pkts s) w a s); [apply base_open, W|apply not_elem_of_nil|done..]].
    intros [go w'] Hfl. destruct (flushed_wf w a s _ W Ha Hk Hp Hfl) as [W' Ha']. cbn [fst snd] in *.
    destruct go; [|done]. cbn [andb]. destruct (has ev FDE_READ); [|done].
    exact (read_half_wf 3 w' a _ W' (Ha' eq_refl) Hk).
  - cbn [ensures andb]. destruct (has ev FDE_READ); [|done]. exact (read_half_wf 3 w a s W Ha Hk).
Qed.

(** What a local socket reads is forwarded: one message carries to the remote
    exactly the bytes that were read, at most 4096, and the socket reads no
    more until it is told to; or the stream ended, and the message is followed
    by the one that closes it. *)
Theorem event_forwards w a s b sb : wf_world w -> pair w a s b sb -> sk_enqueue s = local_enqueue ->
  sk_enqueue sb = remote_enqueue ->
  ensures (socket_event (sk_fd s) FDE_READ a w) (forwarded w a s b sb).
Proof.
  intros W P Hk Hkb. unfold socket_event, local_socket_event_func. rewrite (get_sock_ok _ _ _ (pr_a _ _ _ _ _ P)).
  cbn [res_bind]. eapply ensures_mono; [|by apply (read_half_remote_ok 4 w a s b sb)]. by intros w' [_ ?].
Qed.

(** When the descriptor may be written, the packets that wait are written in
    their order, as far as it takes them: what was written and what waits
    make up the same stream as before.  The remote is told to go on exactly
    when nothing waits any more; a failure closes both sockets. *)
Theorem event_writes w a s b sb : wf_world w -> pair w a s b sb -> sk_enqueue s = local_enqueue ->
  sk_pkts s <> [] ->
  ensures (socket_event (sk_fd s) FDE_WRITE a w) (fun w' =>
    (delivered w a s [] w' /\ exists s', w_socks w' !! a = Some s'
       /\ sent (sk_transport sb) (if bool_decide (sk_pkts s' = []) then [header_packet A_OKAY (sk_id s) (sk_id sb)] else []) w w')
    \/ (closed w' a /\ closed w' b /\ sent (sk_transport sb) (goodbye 0 sb) w w')).
Proof.
  intros W P Hk Hne. pose proof P as [Ha Hb _ Hab _ _ _ _].
  pose proof (b_sock _ _ (proj1 W) a s Ha (not_elem_of_nil _)) as Hs. unfold sock_ok in Hs. rewrite Hk in Hs.
  destruct (lo_int _ _ _ Hs) as (i & Hi & Hiw & _).
  destruct (wf_writing w a s W Ha Hk) as [Wr Hp]; [exists i; split; [done|by apply Hiw]|].
  unfold socket_event, local_socket_event_func. rewrite (get_sock_ok _ _ _ Ha). cbn [res_bind].
  change (has FDE_WRITE FDE_WRITE) with true. cbn [andb]. apply ensures_bind.
  eapply ensures_mono; [|eapply (flush_ok 4 [] (sk_pkts s) w a s); [apply base_open, W|apply not_elem_of_nil|done..]].
  intros [go w'] Hfl. change (has FDE_WRITE FDE_READ) with false. rewrite andb_false_r. cbn [ensures].
  destruct Hfl as [(_ & B' & F' & Hs' & D & A & _)|[(_ & B' & F' & Ht & D & Hpk)|(_ & [B' F' C' S'])]]; cbn [fst snd] in *.
  - left. split; [done|]. eexists. split; [exact Hs'|]. cbn [with_pkts sk_pkts].
    destruct A as (b' & sb' & Hb' & Hsb' & _ & S). assert (b' = b) as -> by congruence.
    assert (sb' = sb) as -> by congruence. exact S.
  - left. split; [done|]. destruct D as (s' & Hs' & He & D). exists s'. split; [done|].
    rewrite bool_decide_false by (by apply Hpk). apply sent_quiet. intros u. unfold outs. by rewrite Ht.
  - right. assert (family a s = [a; b]) as Hfam by (unfold family; by rewrite Hab).
    rewrite Hfam, Forall_cons, Forall_singleton in C'. destruct C' as [Ca Cb].
    unfold last_words in S'. rewrite Hab, Hb in S'. unfold farewell in S'. rewrite Hk in S'. done.
Qed.

End Events.
