(* ===== verification/SocketsOpen.v ===== *)
(** * Opening sockets

    The creation of sockets and the link between two peers keep the invariant of
    SocketsInv.v; every world of the daemon is made by them. *)

From S2P Require Import Prelude Cstr Rwx Packet Fdevent World Transport Sockets SocketsInv SocketsClose SocketsData.

Section Open.
Context {E : Type} {I : FdEvents E fd_func} {L : FdEventsLaws E fd_func I}.
Implicit Types (w : world E) (a b t : addr) (s : asocket) (p : apacket) (X A : list addr).

Abbreviation fde_wants w a := (ev_interest (F := fd_func) (w_ev w) a).

(** The local socket that [create_local_socket] makes. *)
Definition fresh_local (id fd : Z) : asocket :=
  ASocket id false false None fd [] local_enqueue local_ready local_close None.

(** The world after it was made. *)
Definition with_local w (fd : Z) (e : E) : world E :=
  with_ev e (with_lists (w_locals w ++ [w_brk w]) (w_closing w)
    (with_next_id (u32 (w_next_id w + 1))
      (put_sock (w_brk w) (fresh_local (w_next_id w) fd) (with_brk (S (w_brk w)) w)))).

(** handle_packet: [s->peer = create_remote_socket(id, t); s->peer->peer = s] *)
Definition attach_remote w a (id : Z) t : res (world E) :=
  let* ' (r, w) := create_remote_socket w id t in
  let* w := update_sock w a (with_peer (Some r)) in
  update_sock w r (with_peer (Some a)).

(** The remote socket that it makes, and the world after. *)
Definition fresh_remote (id : Z) t (o : option addr) : asocket :=
  with_peer o (with_transport (Some t) (with_id id (blank_socket remote_enqueue remote_ready remote_close))).
Definition with_remote w (id : Z) t (y : atransport) (o : option addr) : world E :=
  put_trans t (with_disconnects (t_disconnects y ++ [w_brk w]) y)
    (with_brk (S (w_brk w)) (put_sock (w_brk w) (fresh_remote id t o) w)).

(** * Theorems *)

(** Nothing is stored where the allocator goes next. *)
Lemma brk_free X w : base X w -> w_socks w !! w_brk w = None /\ w_trans w !! w_brk w = None /\ fde_wants w (w_brk w) = None.
Proof.
  intros B. pose proof (b_fresh _ _ B (w_brk w)) as H.
  split_and!; apply eq_None_not_Some; intros Hx; assert (w_brk w < w_brk w)%nat by auto; lia.
Qed.

Lemma create_local_eq w fd e : w_socks w !! w_brk w = None ->
  ev_install (w_ev w) (w_brk w) fd socket_events (w_brk w) = Ok e ->
  create_local_socket w fd = Ok (w_brk w, with_local w fd e).
Proof.
  intros Hn He. unfold create_local_socket, alloc_sock, install_socket, update_sock, get_sock. wcbn.
  rewrite lookup_insert_eq. cbn [access res_bind]. unfold sock_fde_install. wcbn. rewrite He. cbn [res_bind].
  do 2 f_equal. unfold with_local, put_sock, with_socks, with_lists, with_next_id, with_ev, with_brk. cbn.
  by rewrite insert_insert_eq.
Qed.

(** *** A new local socket *)

Lemma base_with_local w fd e : base [] w -> ev_ok e -> ev_interest (F := fd_func) e (w_brk w) = Some 0 ->
  (forall b, b <> w_brk w -> ev_interest (F := fd_func) e b = fde_wants w b) -> base [] (with_local w fd e).
Proof.
  intros B He Hi Hb. destruct (brk_free [] w B) as (Hs & Ht & Hw).
  assert (w_brk w ∉ w_locals w ++ w_closing w) as Hnl.
  { intros Hin. apply (b_listed _ _ B) in Hin as (s & ? & _). congruence. }
  assert (forall b, b ∈ w_locals (with_local w fd e) ++ w_closing (with_local w fd e)
    <-> b = w_brk w \/ b ∈ w_locals w ++ w_closing w) as Hl.
  { intros b. unfold with_local. wcbn. rewrite !elem_of_app, list_elem_of_singleton. tauto. }
  assert (forall b, b <> w_brk w -> w_socks (with_local w fd e) !! b = w_socks w !! b) as Hsb.
  { intros b Hne. unfold with_local. wcbn. by rewrite lookup_insert_ne by (by apply not_eq_sym). }
  assert (w_socks (with_local w fd e) !! w_brk w = Some (fresh_local (w_next_id w) fd)) as Hsn.
  { unfold with_local. wcbn. apply lookup_insert_eq. }
  destruct B as [Hok Hnd Hfr Hli Hev Hint Hap Htr Htg Hso]. split; try done.
  - unfold with_local. wcbn. rewrite <-app_assoc. apply NoDup_middle. done.
  - intros b H. change (w_brk (with_local w fd e)) with (S (w_brk w)).
    destruct (decide (b = w_brk w)) as [->|Hne]; [lia|]. assert (b < w_brk w)%nat; [|lia].
    apply Hfr. rewrite Hsb in H by done. destruct H as [?|[?|H]]; auto. cbn in H. rewrite Hb in H by done. auto.
  - intros b. rewrite Hl. destruct (decide (b = w_brk w)) as [->|Hne].
    + split; [intros _; by exists (fresh_local (w_next_id w) fd)|by left].
    + rewrite Hsb, <-Hli by done. tauto.
  - intros b H. rewrite Hl. destruct (decide (b = w_brk w)) as [->|Hne]; [by left; left|].
    cbn in H. rewrite Hb in H by done. apply Hev in H as [?|?]; auto.
  - intros b. rewrite Hl. cbn. intros H. destruct (decide (b = w_brk w)) as [->|Hne]; [by eexists|].
    rewrite Hb by done. apply Hint. by destruct H.
  - intros b H. destruct (decide (b = w_brk w)) as [->|Hne]; [done|]. rewrite Hsb in H by done. by apply Hap.
  - intros t y Hy. destruct (Htr t y Hy) as [Hnd' Hin]. split; [done|]. intros b. rewrite Hin. unfold remote_of.
    destruct (decide (b = w_brk w)) as [->|Hne]; [|by rewrite Hsb]. rewrite Hsn, Hs.
    split; [by intros (? & ? & _)|]. by intros (s & [= <-] & ? & _).
  - intros b s H Hk. destruct (decide (b = w_brk w)) as [->|Hne].
    + rewrite Hsn in H. by injection H as <-.
    + rewrite Hsb in H by done. by apply (Htg b s).
  - intros b s H _. destruct (decide (b = w_brk w)) as [->|Hne].
    + rewrite Hsn in H. injection H as <-. unfold sock_ok. cbn [fresh_local sk_enqueue]. split; cbn; try done.
      * by left.
      * exists 0. cbn. split; [done|]. done.
      * split; [done|]. intros Hc. exfalso. apply Hnl, elem_of_app. by right.
    + rewrite Hsb in H by done. apply (sock_ok_frame w); [by apply Hb|done|done|].
      apply Hso; [done|apply not_elem_of_nil].
Qed.

Lemma peers_fresh w w' n s : peers [] w -> w_socks w !! n = None -> w_socks w' = <[n := s]> (w_socks w) ->
  peer_ok w' n s -> sk_peer s = None -> peers [] w'.
Proof.
  intros P Hn Hs Hp Hnone a sa Ha _. rewrite Hs in Ha. destruct (decide (n = a)) as [<-|Hne].
  { rewrite lookup_insert_eq in Ha. by injection Ha as <-. }
  rewrite lookup_insert_ne in Ha by done. pose proof (P a sa Ha (not_elem_of_nil _)) as Hpa.
  unfold peer_ok in *. destruct (sk_peer sa) as [b|]; [|done]. destruct Hpa as (Hab & sb & Hsb & Hba & Hk).
  split; [done|]. exists sb. split; [|done]. rewrite Hs, lookup_insert_ne; [done|]. intros <-. congruence.
Qed.

(** [create_local_socket] on a descriptor that has no event returns a socket
    without a peer. *)
Lemma create_local_ok w fd : wf_world w -> 0 <= fd < FD_SETSIZE -> ev_free_fd (F := fd_func) (w_ev w) fd ->
  exists e, create_local_socket w fd = Ok (w_brk w, with_local w fd e) /\ wf_world (with_local w fd e).
Proof.
  intros [B P] Hfd Hfree. destruct (brk_free [] w B) as (Hs & Ht & Hw).
  destruct (law_install (w_ev w) (w_brk w) fd socket_events (w_brk w) (b_ev _ _ B) Hw Hfd Hfree)
    as (e & He & Hok & Hi & Hb & _). exists e. split; [by apply create_local_eq|]. split.
  - by apply base_with_local.
  - eapply (peers_fresh w); [done|exact Hs|done|done|done].
Qed.

(** *** A new remote socket *)

Lemma base_with_remote w a id t y : base [] w -> w_trans w !! t = Some y -> w_socks w !! a <> None ->
  base [] (with_remote w id t y (Some a)).
Proof.
  intros B Hy Ha. destruct (brk_free [] w B) as (Hs & Ht & Hw). set (n := w_brk w) in *.
  set (w' := with_remote w id t y (Some a)).
  assert (forall u, is_Some (w_trans w' !! u) <-> is_Some (w_trans w !! u)) as Htr'.
  { intros u. unfold w', with_remote. wcbn. destruct (decide (t = u)) as [<-|];
      [by rewrite lookup_insert_eq, Hy|by rewrite lookup_insert_ne]. }
  assert (forall b, b <> n -> w_socks w' !! b = w_socks w !! b) as Hsb.
  { intros b Hne. unfold w', with_remote. wcbn. by rewrite lookup_insert_ne by (by apply not_eq_sym). }
  assert (w_socks w' !! n = Some (fresh_remote id t (Some a))) as Hsn.
  { unfold w', with_remote. wcbn. apply lookup_insert_eq. }
  assert (n ∉ w_locals w ++ w_closing w) as Hnl.
  { intros Hin. apply (b_listed _ _ B) in Hin as (s & ? & _). congruence. }
  destruct B as [Hok Hnd Hfr Hli Hev Hint Hap Htr Htg Hso]. split; try done.
  - intros b H. change (w_brk w') with (S n). destruct (decide (b = n)) as [->|Hne]; [lia|].
    assert (b < n)%nat; [|lia]. apply Hfr. rewrite Hsb, Htr' in H by done. done.
  - intros b. change (w_locals w' ++ w_closing w') with (w_locals w ++ w_closing w).
    destruct (decide (b = n)) as [->|Hne]; [|by rewrite Hsb, Hli by done].
    rewrite Hsn. split; [done|]. by intros (s & [= <-] & ?).
  - intros b Hb. rewrite Htr'. by apply Hev.
  - intros b Hb. apply eq_None_not_Some. rewrite Htr'. apply eq_None_not_Some.
    destruct (decide (b = n)) as [->|Hne]; [done|]. rewrite Hsb in Hb by done. by apply Hap.
  - intros u z Hz. unfold w', with_remote in Hz. wcbn.
    assert (forall b, remote_of w' u b <-> (b = n /\ u = t) \/ remote_of w u b) as Hro.
    { intros b. unfold remote_of. destruct (decide (b = n)) as [->|Hne].
      - rewrite Hsn, Hs. split; [by intros (s & [= <-] & _ & [= ->]); left|].
        intros [[_ ->]|(? & ? & _)]; [|done]. by eexists.
      - rewrite Hsb by done. split; [by right|]. by intros [[? _]|?]. }
    destruct (decide (t = u)) as [<-|Hne].
    + rewrite lookup_insert_eq in Hz. injection Hz as <-. cbn [with_disconnects t_disconnects].
      destruct (Htr t y Hy) as [Hnd' Hin]. split.
      * apply NoDup_app. split_and!; [done| |apply NoDup_singleton]. intros b Hb ->%list_elem_of_singleton.
        apply Hin in Hb as (s & Hc & _). by rewrite (Hs : w_socks w !! w_brk w = None) in Hc.
      * intros b. rewrite elem_of_app, list_elem_of_singleton, Hin, Hro. tauto.
    + rewrite lookup_insert_ne in Hz by done. destruct (Htr u z Hz) as [Hnd' Hin]. split; [done|].
      intros b. rewrite Hin, Hro. split; [by right|]. intros [[_ ?]|?]; [congruence|done].
  - intros b s H Hk. destruct (decide (b = n)) as [->|Hne].
    + rewrite Hsn in H. injection H as <-. exists t. split; [done|]. rewrite Htr', Hy. by eexists.
    + rewrite Hsb in H by done. destruct (Htg b s H Hk) as (u & Hu & Hxu). exists u. by rewrite Htr'.
  - intros b s H _. destruct (decide (b = n)) as [->|Hne].
    + rewrite Hsn in H. injection H as <-. unfold sock_ok. cbn. split; cbn; try done.
      exists t. split; [done|]. apply Htr'. by exists y.
    + rewrite Hsb in H by done. apply (sock_ok_frame w); [done|done| |].
      * intros u. by rewrite Htr'.
      * apply Hso; [done|apply not_elem_of_nil].
Qed.

(** *** A new smart socket *)

Definition fresh_smart (o : option addr) : asocket := with_peer o (blank_socket smart_enqueue smart_ready smart_close).
Definition with_smart w (o : option addr) : world E :=
  put_sock (w_brk w) (fresh_smart o) (with_brk (S (w_brk w)) w).

Lemma base_with_smart w o : base [] w -> base [] (with_smart w o).
Proof.
  intros B. destruct (brk_free [] w B) as (Hs & Ht & Hw). set (n := w_brk w) in *. set (w' := with_smart w o).
  assert (forall b, b <> n -> w_socks w' !! b = w_socks w !! b) as Hsb.
  { intros b Hne. unfold w', with_smart. wcbn. by rewrite lookup_insert_ne by (by apply not_eq_sym). }
  assert (w_socks w' !! n = Some (fresh_smart o)) as Hsn by (unfold w', with_smart; wcbn; apply lookup_insert_eq).
  destruct B as [Hok Hnd Hfr Hli Hev Hint Hap Htr Htg Hso]. split; try done.
  - intros b H. change (w_brk w') with (S n). destruct (decide (b = n)) as [->|Hne]; [lia|].
    assert (b < n)%nat; [|lia]. apply Hfr. rewrite Hsb in H by done. done.
  - intros b. change (w_locals w' ++ w_closing w') with (w_locals w ++ w_closing w). rewrite Hli.
    destruct (decide (b = n)) as [->|Hne]; [|by rewrite Hsb by done]. rewrite Hsn, Hs.
    split; intros (s & He & Hk); [done|]. by injection He as <-.
  - intros b H. destruct (decide (b = n)) as [->|Hne]; [done|]. rewrite Hsb in H by done. by apply Hap.
  - intros u z Hz. destruct (Htr u z Hz) as [Hnd' Hin]. split; [done|]. intros b. rewrite Hin. unfold remote_of.
    destruct (decide (b = n)) as [->|Hne]; [|by rewrite Hsb by done]. rewrite Hsn, Hs.
    split; intros (s & He & Hk & _); [done|]. by injection He as <-.
  - intros b s H Hk. destruct (decide (b = n)) as [->|Hne]; [rewrite Hsn in H; by injection H as <-|].
    rewrite Hsb in H by done. by apply (Htg b s).
  - intros b s H _. destruct (decide (b = n)) as [->|Hne].
    + rewrite Hsn in H. injection H as <-. by split.
    + rewrite Hsb in H by done. apply (sock_ok_frame w); [done..|]. apply Hso; [done|apply not_elem_of_nil].
Qed.

(** *** Linking *)

(** A local socket that was given a peer, and is about to be told to read. *)
Record linked w a s : Prop := Linked {
  lk_base : base [a] w;
  lk_peers : peers [] w;
  lk_sock : w_socks w !! a = Some s;
  lk_kind : sk_enqueue s = local_enqueue;
  lk_fns : sk_ready s = local_ready /\ sk_close s = local_close \/ sk_ready s = local_ready_notify /\ sk_close s = local_close_notify;
  lk_open : sk_closing s = false;
  lk_list : a ∉ w_closing w;
  lk_pkts : sk_pkts s = [];
  lk_int : exists i, fde_wants w a = Some i /\ has i FDE_WRITE = false
}.

(** A local socket without a peer is linked to a socket that was just made. *)
Lemma link_ok w w1 a s n sn : wf_world w -> base [] w1 -> w_socks w !! n = None ->
  w_socks w1 = <[n := sn]> (w_socks w) -> sk_peer sn = Some a -> sk_enqueue sn <> local_enqueue ->
  w_socks w !! a = Some s -> sk_enqueue s = local_enqueue -> sk_peer s = None -> sk_closing s = false ->
  linked (put_sock a (with_peer (Some n) s) w1) a (with_peer (Some n) s).
Proof.
  intros [B P] B1 Hn Hw1 Hpn Hkn Ha Hk Hp Ho. assert (n <> a) as Hna by (intros ->; congruence).
  assert (sk_pkts s = []) as Hq.
  { pose proof (P a s Ha (not_elem_of_nil _)) as Hpa. unfold peer_ok in Hpa. rewrite Hp in Hpa. by apply Hpa. }
  set (w2 := put_sock a (with_peer (Some n) s) w1).
  assert (w_socks w1 !! a = Some s) as Ha1 by (by rewrite Hw1, lookup_insert_ne).
  assert (w_socks w1 !! n = Some sn) as Hn1 by (by rewrite Hw1, lookup_insert_eq).
  assert (forall c, c <> a -> w_socks w2 !! c = w_socks w1 !! c) as Hc2.
  { intros c Hc. unfold w2. wcbn. by rewrite lookup_insert_ne by (by apply not_eq_sym). }
  assert (w_socks w2 !! a = Some (with_peer (Some n) s)) as Ha2 by (unfold w2; wcbn; apply lookup_insert_eq).
  pose proof (b_sock _ _ B1 a s Ha1 (not_elem_of_nil _)) as Hok. unfold sock_ok in Hok. rewrite Hk in Hok.
  destruct Hok as [Hf Hpk (i & Hi & Hw & Hr) Hc Hl]. split; try done.
  - by eapply base_put; [apply base_open|..].
  - intros c sc Hcs _. unfold peer_ok. destruct (decide (c = a)) as [->|Hca].
    { assert (sc = with_peer (Some n) s) as -> by congruence. cbn [with_peer sk_peer sk_enqueue sk_pkts].
      split; [done|]. exists sn. rewrite Hc2 by done. by split_and!. }
    rewrite Hc2 in Hcs by done. destruct (decide (c = n)) as [->|Hcn].
    { assert (sc = sn) as -> by congruence. rewrite Hpn. split; [by apply not_eq_sym|].
      exists (with_peer (Some n) s). cbn [with_peer sk_enqueue sk_peer]. rewrite Hk. split_and!; naive_solver. }
    rewrite Hw1, lookup_insert_ne in Hcs by (by apply not_eq_sym).
    pose proof (P c sc Hcs (not_elem_of_nil _)) as Hpc. unfold peer_ok in Hpc.
    destruct (sk_peer sc) as [d|]; [|done]. destruct Hpc as (Hdc & sd & Hsd & Hdp & Hk').
    split; [done|]. exists sd. split; [|done].
    rewrite Hc2, Hw1, lookup_insert_ne; [done|intros <-; congruence|intros ->; congruence].
  - destruct Hf as [?|(? & ? & _)]; [by left|by right].
  - intros Hin. apply Hl in Hin. congruence.
  - exists i. split; [exact Hi|]. apply not_true_iff_false. rewrite Hw, Hq. by intros [].
Qed.

(** [ready] on it: an answer to a request that waited, and it reads. *)
Lemma linked_local_ready w a s : linked w a s -> sk_ready s = local_ready -> sk_close s = local_close ->
  ensures (local_socket_ready a w) (fun r => wf_world r.2 /\ w_socks r.2 = w_socks w /\ w_trans r.2 = w_trans w
    /\ exists i, fde_wants r.2 a = Some i /\ has i FDE_READ = true).
Proof.
  intros [B P Ha Hk _ Ho Hl Hq (i & Hi & Hw)] Hr Hc. unfold local_socket_ready.
  rewrite (get_sock_ok _ _ _ Ha). cbn [res_bind].
  destruct (fde_add_ok [] w a i FDE_READ B Hi) as (e & -> & B' & Hi' & F). cbn [res_bind ensures snd].
  destruct (wants_add_read i) as [W1 W2]. split_and!; try done; [|by eexists]. split; [|done].
  apply (base_done _ _ a); [done|]. intros s0 Hs0. assert (s0 = s) as -> by (wcbn; congruence).
  unfold sock_ok. rewrite Hk. split; [by left|by rewrite Hq| |congruence|].
  - eexists. split; [exact Hi'|]. rewrite W2, Hw, Hq. split; [done|congruence].
  - split; [congruence|done].
Qed.

Lemma with_fns_same s : sk_ready s = local_ready -> sk_close s = local_close -> with_fns local_ready local_close s = s.
Proof. destruct s. cbn. by intros -> ->. Qed.

Lemma linked_ready n w a s : linked w a s ->
  ensures (exec (S (S n)) (CReady a) w) (fun r => wf_world r.2
    /\ w_socks r.2 = <[a := with_fns local_ready local_close s]> (w_socks w) /\ w_trans r.2 = w_trans w
    /\ exists i, fde_wants r.2 a = Some i /\ has i FDE_READ = true).
Proof.
  intros K. pose proof K as [B P Ha Hk Hf Ho Hl Hq (i & Hi & Hw)]. cbn [exec dispatch].
  rewrite (get_sock_ok _ _ _ Ha). cbn [res_bind]. destruct Hf as [[Hr Hc]|[Hr Hc]]; rewrite Hr.
  - eapply ensures_mono; [|by apply (linked_local_ready w a s)]. intros r (W & Hs & Ht & Hx). split_and!; try done.
    by rewrite Hs, with_fns_same, insert_id.
  - unfold local_socket_ready_notify. rewrite (update_sock_ok _ _ _ _ Ha). cbn [res_bind].
    set (s' := with_fns local_ready local_close s).
    rewrite (get_sock_ok _ a s') by (wcbn; apply lookup_insert_eq). cbn [res_bind].
    destruct (fd_write_ok (put_sock a s' w) (sk_fd s') (lit "OKAY")) as (r & m & ->). cbn [res_bind].
    set (w2 := with_io m _). assert (w_socks w2 !! a = Some s') as Ha2 by (unfold w2; wcbn; apply lookup_insert_eq).
    cbn [exec dispatch]. rewrite (get_sock_ok _ _ _ Ha2). cbn [res_bind s' with_fns sk_ready].
    assert (linked w2 a s') as K2.
    { split; try done; [apply base_io; by eapply base_put| |by left|by exists i].
      apply peers_io. eapply peers_put; try done; [|by left].
      pose proof (P a s Ha (not_elem_of_nil _)) as Hpa. unfold peer_ok in *. cbn.
      destruct (sk_peer s) as [b|]; [|done]. destruct Hpa as (Hne & sb & Hsb & ?). split; [done|]. exists sb. wcbn.
      by rewrite lookup_insert_ne by (by apply not_eq_sym). }
    by apply (linked_local_ready w2 a s').
Qed.

(** Linking a local socket to a new remote socket. *)
Lemma attach_remote_ok w a s id t : wf_world w -> w_socks w !! a = Some s -> sk_enqueue s = local_enqueue ->
  sk_peer s = None -> sk_closing s = false -> is_Some (w_trans w !! t) ->
  exists w', attach_remote w a id t = Ok w' /\ linked w' a (with_peer (Some (w_brk w)) s)
    /\ w_socks w' = <[a := with_peer (Some (w_brk w)) s]> (<[w_brk w := fresh_remote id t (Some a)]> (w_socks w))
    /\ (forall u, outs w' u = outs w u) /\ (forall u, is_Some (w_trans w !! u) -> is_Some (w_trans w' !! u))
    /\ w_ev w' = w_ev w /\ w_io w' = w_io w /\ w_locals w' = w_locals w /\ w_closing w' = w_closing w.
Proof.
  intros W Ha Hk Hp Ho [y Hy]. destruct (brk_free [] w (proj1 W)) as (Hs & Ht & Hw).
  assert (w_brk w <> a) as Hna by (intros <-; congruence).
  exists (put_sock a (with_peer (Some (w_brk w)) s) (with_remote w id t y (Some a))). split_and!; try done.
  - unfold attach_remote, create_remote_socket, alloc_sock, add_disconnect, update_trans, get_trans. wcbn.
    rewrite Hy. cbn [access res_bind].
    match goal with |- res_bind (update_sock ?v a _) _ = _ => set (w0 := v) end.
    assert (w_socks w0 !! a = Some s) as Ha0 by (unfold w0; wcbn; by rewrite lookup_insert_ne).
    rewrite (update_sock_ok _ _ _ _ Ha0). cbn [res_bind].
    rewrite (update_sock_ok _ (w_brk w) (fresh_remote id t None))
      by (wcbn; rewrite lookup_insert_ne by (by apply not_eq_sym); unfold w0; wcbn; apply lookup_insert_eq).
    f_equal. unfold with_remote, w0, put_sock, with_socks, put_trans, with_trans, with_brk. cbn. f_equal.
    rewrite insert_insert_ne by done. by rewrite insert_insert_eq.
  - eapply (link_ok w); try done. apply base_with_remote; [apply W|done|congruence].
  - intros u. unfold outs, with_remote. wcbn.
    destruct (decide (t = u)) as [<-|]; [by rewrite lookup_insert_eq, Hy|by rewrite lookup_insert_ne].
  - intros u Hu. unfold with_remote. wcbn.
    destruct (decide (t = u)) as [<-|]; [by rewrite lookup_insert_eq|by rewrite lookup_insert_ne].
Qed.

(** [connect_to_smartsocket]: the client reads its request. *)
Lemma connect_to_smartsocket_ok n w a s : wf_world w -> w_socks w !! a = Some s -> sk_enqueue s = local_enqueue ->
  sk_peer s = None -> sk_closing s = false ->
  ensures (connect_to_smartsocket (exec (S (S n))) w a) (fun r => wf_world r.2
    /\ exists i, fde_wants r.2 a = Some i /\ has i FDE_READ = true).
Proof.
  intros W Ha Hk Hp Ho. destruct (brk_free [] w (proj1 W)) as (Hs & Ht & Hw).
  assert (w_brk w <> a) as Hna by (intros <-; congruence).
  set (w2 := put_sock a (with_peer (Some (w_brk w)) s) (with_smart w (Some a))).
  assert (connect_to_smartsocket (exec (S (S n))) w a = exec (S (S n)) (CReady a) w2) as ->.
  { unfold connect_to_smartsocket, create_smart_socket, alloc_sock.
    match goal with |- res_bind (update_sock ?v a _) _ = _ => set (w0 := v) end.
    assert (w_socks w0 !! a = Some s) as Ha0 by (unfold w0; wcbn; by rewrite lookup_insert_ne).
    rewrite (update_sock_ok _ _ _ _ Ha0). cbn [res_bind].
    rewrite (update_sock_ok _ (w_brk w) (fresh_smart None))
      by (wcbn; rewrite lookup_insert_ne by (by apply not_eq_sym); unfold w0; wcbn; apply lookup_insert_eq).
    cbn [res_bind]. f_equal. unfold w2, with_smart, w0, put_sock, with_socks, with_brk. cbn. f_equal.
    rewrite insert_insert_ne by done. by rewrite insert_insert_eq. }
  eapply ensures_mono; [|eapply (linked_ready n w2 a)].
  - intros r (Wr & _ & _ & Hi). done.
  - eapply (link_ok w); try done. apply base_with_smart, W.
Qed.

End Open.
