(* ===== verification/SocketsEnd.v ===== *)
(** * The end of a transport

    [close_all_sockets] and [run_transport_disconnects]: when a transport goes,
    every socket that uses it goes with its peer, and the scans, which start
    again or read the next entry before a callback runs, end. *)

From S2P Require Import Prelude Cstr Rwx Packet Fdevent World Transport Sockets SocketsInv SocketsClose.

Section End_.
Context {E : Type} {I : FdEvents E fd_func} {L : FdEventsLaws E fd_func I}.
Implicit Types (w : world E) (a b t : addr) (s : asocket) (p : apacket) (X A : list addr).

(** * Theorems *)

Lemma closes_wf A (o : option addr) l w w' : wf_world w -> closes [] A o l w w' ->
  (forall a s b, a ∈ A -> w_socks w !! a = Some s -> sk_peer s = Some b -> b ∈ A) -> wf_world w'.
Proof. intros W [B F C S] HA. split; [done|]. by eapply peers_closed; [apply W|..]. Qed.

(** ** close_all_sockets *)

Lemma close_locked_ok n w a s : wf_world w -> w_socks w !! a = Some s -> sk_enqueue s = local_enqueue ->
  ensures (exec (S (S (S n))) (CCloseLocked a) w) (fun r => wf_world r.2 /\ framed (family a s) w r.2 /\ closed r.2 a).
Proof.
  intros W Ha Hk. cbn [exec dispatch].
  assert (forall (o : option addr) l w', closes [] (family a s) o l w w' -> wf_world w' /\ framed (family a s) w w' /\ closed w' a) as Hpost.
  { intros o l w' C. split_and!; [|apply C|].
    - eapply closes_wf; [done|done|]. by apply family_closed; [apply W|].
    - destruct C as [_ _ C _]. rewrite Forall_forall in C. apply C. by left. }
  unfold family in *. destruct (sk_peer s) as [b|] eqn:Hb.
  - destruct (wf_pair w a s b W Ha Hb) as (sb & P & _).
    eapply ensures_mono; [|eapply (close_locked_pair n [] w a s b sb); [by apply base_open, W|done..]].
    intros r. apply Hpost.
  - eapply ensures_mono; [|eapply (close_locked_alone_ok _ [] w a s); [by apply base_open, W|done..|]].
    + intros r. apply Hpost.
    + by apply sock_ok_closable, (b_sock _ _ (proj1 W)), not_elem_of_nil.
Qed.

Lemma on_transport_ok w t a : wf_world w -> a ∈ w_locals w -> exists v, on_transport w t a = Ok v.
Proof.
  intros W Hin. destruct (proj1 (b_listed _ _ (proj1 W) a)) as (s & Ha & Hk); [apply elem_of_app; by left|].
  unfold on_transport. rewrite (get_sock_ok _ _ _ Ha). cbn [res_bind]. case_bool_decide; [by eexists|].
  destruct (sk_peer s) as [b|] eqn:Hb; [|by eexists].
  destruct (wf_pair w a s b W Ha Hb) as (sb & P & _). rewrite (get_sock_ok _ _ _ (pr_b _ _ _ _ _ P)). by eexists.
Qed.

Lemma first_on_transport_ok w t l : wf_world w -> (forall a, a ∈ l -> a ∈ w_locals w) ->
  exists o, first_on_transport w t l = Ok o /\
    match o with Some a => a ∈ l | None => forall a, a ∈ l -> on_transport w t a = Ok false end.
Proof.
  intros W. induction l as [|a l IH]; intros Hl; cbn [first_on_transport].
  - exists None. split; [done|]. by intros a Ha%elem_of_nil.
  - destruct (on_transport_ok w t a W) as [v Hv]; [apply Hl; by left|]. rewrite Hv. cbn [res_bind].
    destruct v; [exists (Some a); split; [done|by left]|].
    destruct IH as (o & -> & Ho); [intros b Hb; apply Hl; by right|]. exists o. split; [done|].
    destruct o as [b|]; [by right|]. intros b [->|Hb]%elem_of_cons; auto.
Qed.

Lemma locals_shrink w w' a : wf_world w -> a ∈ w_locals w -> NoDup (w_locals w') ->
  (forall b, b ∈ w_locals w' -> b ∈ w_locals w) -> a ∉ w_locals w' -> (length (w_locals w') < length (w_locals w))%nat.
Proof.
  intros W Ha Hnd Hsub Hna. assert (length (a :: w_locals w') <= length (w_locals w))%nat as H; [|cbn in H; lia].
  apply submseteq_length, NoDup_submseteq; [by constructor|]. intros b [->|Hb]%elem_of_cons; auto.
Qed.

Lemma close_all_loop_ok t fuel : forall w, wf_world w -> (length (w_locals w) <= fuel)%nat ->
  ensures (close_all_loop fuel w t) (fun w' => wf_world w' /\ forall a, a ∈ w_locals w' -> on_transport w' t a = Ok false).
Proof.
  induction fuel as [|fuel IH]; intros w W Hf.
  - cbn [close_all_loop]. destruct (w_locals w) as [|a l] eqn:Hl; [|cbn in Hf; lia].
    cbn. split; [done|]. rewrite Hl. by intros a Ha%elem_of_nil.
  - cbn [close_all_loop]. destruct (first_on_transport_ok w t (w_locals w) W) as (o & -> & Ho); [done|]. cbn [res_bind].
    destruct o as [a|]; [|done].
    destruct (proj1 (b_listed _ _ (proj1 W) a)) as (s & Ha & Hk); [apply elem_of_app; by left|].
    apply ensures_bind. eapply ensures_mono; [|by apply (close_locked_ok 5 w a s)].
    intros [v w'] (W' & F & [Hna _]). cbn [snd] in *. apply IH; [done|].
    assert (length (w_locals w') < length (w_locals w))%nat; [|lia].
    apply (locals_shrink w w' a); try done; [|by apply F].
    pose proof (b_nodup _ _ (proj1 W')) as Hnd. by apply NoDup_app in Hnd as (? & _).
Qed.

(** [close_all_sockets] ends, keeps the invariant, and leaves no live socket
    that uses the transport, by itself or through its peer. *)
Theorem close_all_ends w t : wf_world w ->
  ensures (close_all_sockets w t) (fun w' => wf_world w' /\ forall a, a ∈ w_locals w' -> on_transport w' t a = Ok false).
Proof. intros W. by apply close_all_loop_ok. Qed.

(** ** run_transport_disconnects *)

Lemma disconnect_ok w a s b sb t y : wf_world w -> pair w a s b sb -> sk_enqueue s = remote_enqueue ->
  sk_transport s = Some t -> w_trans w !! t = Some y ->
  ensures (remote_socket_disconnect run a w) (fun w' => closes [] [a; b] None [] w w').
Proof.
  intros W P Hk Ht Hy. unfold remote_socket_disconnect. rewrite (get_sock_ok _ _ _ (pr_a _ _ _ _ _ P)). cbn [res_bind].
  rewrite (pr_ab _ _ _ _ _ P). rewrite (update_sock_ok _ _ _ _ (pr_b _ _ _ _ _ P)). cbn [res_bind].
  apply ensures_bind, ensures_bind. unfold run, exec_depth.
  eapply ensures_mono; [|apply (close_peer_ok 6 [] w a s b sb); [by apply base_open, W|done]].
  intros [v w2] (C & Ha2 & Hc2). cbn [snd ensures] in *.
  rewrite (get_sock_ok _ _ _ Ha2). cbn [res_bind]. apply ensures_bind.
  eapply ensures_mono; [|apply (remote_free_ok [] w2 a s); [apply C|done|done]].
  intros w3 C3. cbn [ensures].
  eapply closes_both; [|exact C3|apply P]. eapply closes_quiet.
  pose proof (proj2 (pr_kind _ _ _ _ _ P)) as Hl. unfold goodbye in C.
  destruct (sk_enqueue sb); [exact C|by rewrite Hk in Hl; discriminate (Hl ltac:(done))..].
Qed.

(** Removing the head from a list without duplicates. *)
Lemma sublist_tail (l l' : list addr) d : l' `sublist_of` d :: l -> NoDup (d :: l) ->
  (forall a, a ∈ l' <-> a <> d /\ a ∈ d :: l) -> l' = l.
Proof.
  intros Hs [Hd Hnd]%NoDup_cons Hin.
  assert (l' `sublist_of` l) as Hs'.
  { apply sublist_cons_r in Hs as [?|(k & -> & _)]; [done|]. exfalso. destruct (proj1 (Hin d)) as [? _]; [by left|done]. }
  apply (sublist_full _ _ Hs').
  apply submseteq_length, NoDup_submseteq; [done|]. intros a Ha. apply Hin. split; [by intros ->|by right].
Qed.

Lemma remote_of_disconnected w w' t d s b sb a : pair w d s b sb -> sk_enqueue s = remote_enqueue ->
  sk_enqueue sb = local_enqueue -> framed [d; b] w w' -> closed w' d -> closed w' b ->
  remote_of w' t a <-> a <> d /\ remote_of w t a.
Proof.
  intros P Hk Hkb F [_ Hd] [_ Hb]. unfold remote_of. destruct (decide (a = d)) as [->|Hda].
  { split; [|by intros [? _]]. intros (s0 & Hs0 & He & _). destruct (Hd s0 Hs0). congruence. }
  destruct (decide (a = b)) as [->|Hab].
  { split; [|intros [_ (s0 & Hs0 & He & _)]].
    - intros (s0 & Hs0 & He & _). destruct (Hb s0 Hs0). congruence.
    - pose proof (pr_b _ _ _ _ _ P). congruence. }
  rewrite (fr_socks _ _ _ F); [split; [done|by intros []]|]. rewrite !elem_of_cons, elem_of_nil. tauto.
Qed.

Lemma run_disconnects_ok t l : forall w y, wf_world w -> w_trans w !! t = Some y -> t_disconnects y = l ->
  ensures (run_disconnects run (length l) w t (head l)) (fun w' => wf_world w'
    /\ (exists y', w_trans w' !! t = Some y' /\ t_disconnects y' = []) /\ forall u, outs w' u = outs w u).
Proof.
  induction l as [|d l IH]; intros w y W Hy Hl; cbn [run_disconnects length head]; [by split_and!; eauto|].
  destruct (b_trans _ _ (proj1 W) t y Hy) as [Hnd Hin]. rewrite Hl in Hnd, Hin.
  destruct (proj1 (Hin d)) as (s & Hd & Hk & Ht); [by left|].
  destruct (sk_peer s) as [b|] eqn:Hb.
  2:{ pose proof (proj2 W d s Hd (not_elem_of_nil _)) as Hp. unfold peer_ok in Hp. rewrite Hb in Hp.
      destruct Hp. congruence. }
  destruct (wf_pair w d s b W Hd Hb) as (sb & P & _).
  assert (sk_enqueue sb = local_enqueue) as Hkb.
  { pose proof (proj2 (pr_kind _ _ _ _ _ P)) as Hx. rewrite Hk in Hx.
    destruct (sk_enqueue sb); [done|by discriminate (Hx ltac:(done))..]. }
  unfold get_trans. rewrite Hy. cbn [access res_bind]. rewrite Hl. cbn [successor].
  rewrite bool_decide_true by done. cbn [res_bind].
  apply ensures_bind. eapply ensures_mono; [|by eapply (disconnect_ok w d s b sb t y)].
  intros w' C. pose proof C as [B' F C' S]. rewrite Forall_cons, Forall_singleton in C'. destruct C' as [Cd Cb].
  assert (wf_world w') as W'.
  { apply (closes_wf _ _ _ _ _ W C). assert (family d s = [d; b]) as <- by (unfold family; by rewrite Hb).
    by apply family_closed; [apply W|]. }
  destruct (fr_trans _ _ _ F t y Hy) as (y' & Hy' & l0 & d' & -> & Hsub). cbn in Hsub.
  assert (t_disconnects (with_disconnects d' (with_out (t_out y ++ l0) y)) = l) as Hl'.
  { cbn. apply (sublist_tail l d' d); [by rewrite <-Hl|done|]. intros a.
    destruct (b_trans _ _ B' t _ Hy') as [_ Hin']. cbn in Hin'. rewrite Hin', Hin.
    by eapply remote_of_disconnected. }
  eapply ensures_mono; [|exact (IH w' _ W' Hy' Hl')]. intros w2 (W2 & Hy2 & Ho). split_and!; [done..|].
  intros u. rewrite Ho, (S u). destruct (decide _); by destruct (outs w u).
Qed.

(** When a transport goes offline every socket that waits for its remote is
    told, exactly once: the scan ends with no callback left, no socket refers
    to the transport any more, nothing is sent and the invariant holds. *)
Theorem disconnects_end w t y : wf_world w -> w_trans w !! t = Some y ->
  ensures (run_transport_disconnects run w t) (fun w' => wf_world w' /\ (forall a, ~ remote_of w' t a)
    /\ (exists y', w_trans w' !! t = Some y' /\ t_disconnects y' = []) /\ forall u, outs w' u = outs w u).
Proof.
  intros W Hy. unfold run_transport_disconnects, get_trans. rewrite Hy. cbn [access res_bind].
  eapply ensures_mono; [|by eapply run_disconnects_ok]. intros w' (W' & (y' & Hy' & Hd) & Ho).
  split_and!; [done| |by eauto|done]. intros a Ha.
  apply (proj2 (b_trans _ _ (proj1 W') t y' Hy')) in Ha. rewrite Hd in Ha. by apply elem_of_nil in Ha.
Qed.

End End_.
