(* ===== verification/Listeners.v ===== *)
(** * Forwarded ports (adb.c: listeners)

    The listeners of the server: the smart socket that clients connect to, and
    the ports whose connections are forwarded to a service of a transport.  A
    listener is in the ring [listener_list], in the list of callbacks of its
    transport, and its event is registered; the state here is the part of each
    that belongs to listeners.  The abstract table of forwards that clients see
    ([forward] below) is what the operations are compared with. *)

From S2P Require Import Prelude Cstr Packet Fdevent World Sockets SocketsInv SocketsClose SocketsSmart SocketsOpen.

Inductive listener_func := ss_listener_event_func | listener_event_func.

(** [next] and [prev] are represented by [ls_list], [disconnect] by
    [ls_disconnects], and [fde] by the event at the address of the listener. *)
Record alistener := AListener {
  al_fd : Z;
  al_local_name : bytes;
  al_connect_to : bytes;
  al_transport : option addr
}.
Definition with_target (connect_to : bytes) (t : option addr) (l : alistener) : alistener :=
  AListener (al_fd l) (al_local_name l) connect_to t.

Definition INSTALL_STATUS_OK : Z := 0.
Definition INSTALL_STATUS_INTERNAL_ERROR : Z := -1.
Definition INSTALL_STATUS_CANNOT_BIND : Z := -2.
Definition INSTALL_STATUS_CANNOT_REBIND : Z := -3.

(** [connect_to[0] == '*'] *)
Definition starred (connect_to : bytes) : bool := bool_decide (head connect_to = Some Byte.x2a).

(** The descriptor of a local name, with the calls that open servers and the
    flag [gListenAll]. *)
Inductive socket_namespace := NamespaceAbstract | NamespaceFilesystem.
Definition local_name_to_fd (socket_inaddr_any_server socket_loopback_server : Z -> Z) (socket_local_server : bytes -> socket_namespace -> Z)
    (gListenAll : Z) (name : bytes) : Z :=
  if starts_with (lit "tcp:") name then
    let port := atoi (drop 4 name) in
    if bool_decide (gListenAll > 0) then socket_inaddr_any_server port else socket_loopback_server port
  else if starts_with (lit "local:") name then socket_local_server (drop 6 name) NamespaceAbstract
  else if starts_with (lit "localabstract:") name then socket_local_server (drop 14 name) NamespaceAbstract
  else if starts_with (lit "localfilesystem:") name then socket_local_server (drop 16 name) NamespaceFilesystem
  else -1.

Section Listeners.
Context {E : Type} {I : FdEvents E listener_func}.

Record lstate := LState {
  ls_mem : gmap addr alistener;
  ls_list : list addr;                       (* listener_list *)
  ls_disconnects : gmap addr (list addr);    (* t->disconnects, of listeners *)
  ls_ev : E
}.
Implicit Types (st : lstate) (a t : addr).

Definition get_listener st a : res alistener := access (ls_mem st !! a).
Definition put_listener a (l : alistener) st : lstate :=
  LState (<[a := l]> (ls_mem st)) (ls_list st) (ls_disconnects st) (ls_ev st).
Definition callbacks st t : list addr := default [] (ls_disconnects st !! t).
Definition set_callbacks t (l : list addr) st : lstate :=
  LState (ls_mem st) (ls_list st) (<[t := l]> (ls_disconnects st)) (ls_ev st).

(** [add_transport_disconnect] and [remove_transport_disconnect]; following a
    null transport is undefined. *)
Definition add_callback (t : option addr) a st : res lstate :=
  let* t := access t in Ok (set_callbacks t (callbacks st t ++ [a]) st).
Definition remove_callback (t : option addr) a st : res lstate :=
  let* t := access t in
  if bool_decide (a ∈ callbacks st t) then Ok (set_callbacks t (filter (fun b => b <> a) (callbacks st t)) st) else Ub.

Definition free_listener a st : res lstate :=
  let* l := get_listener st a in
  let st := LState (ls_mem st) (filter (fun b => b <> a) (ls_list st)) (ls_disconnects st) (ls_ev st) in
  let* e := ev_remove (F := listener_func) (ls_ev st) a in
  let st := LState (ls_mem st) (ls_list st) (ls_disconnects st) e in
  let* st := match al_transport l with Some t => remove_callback (Some t) a st | None => Ok st end in
  Ok (LState (delete a (ls_mem st)) (ls_list st) (ls_disconnects st) (ls_ev st)).

Definition listener_disconnect a st : res lstate := free_listener a st.

(** The listener of a name: the first one of the ring. *)
Fixpoint find_listener st (local_name : bytes) (ring : list addr) : res (option (addr * alistener)) :=
  match ring with
  | [] => Ok None
  | a :: ring =>
      let* l := get_listener st a in
      if bool_decide (local_name = al_local_name l) then Ok (Some (a, l)) else find_listener st local_name ring
  end.

Definition remove_listener st (local_name : bytes) : res (Z * lstate) :=
  let* found := find_listener st local_name (ls_list st) in
  match found with
  | Some (a, _) => let* st := listener_disconnect a st in Ok (0, st)
  | None => Ok (-1, st)
  end.

(** [ring] is what follows; the next listener is read before one is freed. *)
Fixpoint remove_all_from st (ring : list addr) : res lstate :=
  match ring with
  | [] => Ok st
  | a :: ring =>
      let* l := get_listener st a in
      if starred (al_connect_to l) then remove_all_from st ring
      else let* st := listener_disconnect a st in remove_all_from st ring
  end.
Definition remove_all_listeners st : res lstate := remove_all_from st (ls_list st).

(** [a] is the address that [calloc] gives, [fd] what [local_name_to_fd] does. *)
Definition install_listener (local_name connect_to : bytes) (transport : option addr) (no_rebind : bool) a (fd : Z) st : res (Z * lstate) :=
  let* found := find_listener st local_name (ls_list st) in
  match found with
  | Some (b, l) =>
      if starred (al_connect_to l) then Ok (INSTALL_STATUS_INTERNAL_ERROR, st)
      else if no_rebind then Ok (INSTALL_STATUS_CANNOT_REBIND, st)
      else
        let st := put_listener b (with_target connect_to (al_transport l) l) st in
        if bool_decide (al_transport l <> transport) then
          let* st := remove_callback (al_transport l) b st in
          let st := put_listener b (with_target connect_to transport l) st in
          let* st := add_callback transport b st in
          Ok (INSTALL_STATUS_OK, st)
        else Ok (INSTALL_STATUS_OK, st)
  | None =>
      if bool_decide (fd < 0) then Ok (INSTALL_STATUS_CANNOT_BIND, st)
      else
        let func := if bool_decide (connect_to = lit "*smartsocket*") then ss_listener_event_func else listener_event_func in
        let* e := ev_install (ls_ev st) a fd func a in
        let* e := ev_add (F := listener_func) e a FDE_READ in
        let st := LState (<[a := AListener fd local_name connect_to transport]> (ls_mem st)) (ls_list st ++ [a]) (ls_disconnects st) e in
        match transport with
        | Some t => let* st := add_callback (Some t) a st in Ok (INSTALL_STATUS_OK, st)
        | None => Ok (INSTALL_STATUS_OK, st)
        end
  end.

(** transport.c: [run_transport_disconnects], of the callbacks of listeners. *)
Fixpoint run_callbacks (fuel : nat) t (dis : option addr) st : res lstate :=
  match dis with
  | None => Ok st
  | Some a =>
      match fuel with
      | O => Blocked
      | S fuel =>
          let* next := successor (callbacks st t) a in
          let* st := listener_disconnect a st in
          run_callbacks fuel t next st
      end
  end.
Definition transport_gone t st : res lstate := run_callbacks (length (callbacks st t)) t (head (callbacks st t)) st.

(** *** The listing *)

Section Listing.
Context (serial : addr -> option bytes).

(** The line of a listener; [strlen] of a null pointer is undefined. *)
Definition format_listener (l : alistener) : res bytes :=
  let* t := access (al_transport l) in
  let* s := access (serial t) in
  Ok (s ++ [Byte.x20] ++ al_local_name l ++ [Byte.x20] ++ al_connect_to l ++ [Byte.x0a]).

(** What [snprintf(buffer, buffer_len, ...)] leaves of a line in [room] bytes,
    the terminating NUL excluded. *)
Definition clip (room : Z) (line : bytes) : bytes := take (Z.to_nat (room - 1)) line.

(** The loop of [format_listeners] into a buffer, of which [room] bytes are left;
    [out] is the text so far, [result] the size.  [buflen] is unsigned: only 0
    stops the loop, and below it the next line is written behind the buffer. *)
Fixpoint format_from st (ring : list addr) (room : option Z) (out : bytes) (result : Z) : res (bytes * Z) :=
  match ring with
  | [] => Ok (out, result)
  | a :: ring =>
      let* l := get_listener st a in
      if starred (al_connect_to l) then format_from st ring room out result
      else
        let* line := format_listener l in
        let len := Z.of_nat (length line) in
        match room with
        | None => format_from st ring None out (result + len)
        | Some r =>
            if bool_decide (r < 0) then Ub
            else
              let out := out ++ clip r line in
              if bool_decide (r - len = 0) then Ok (out, result + len)
              else format_from st ring (Some (r - len)) out (result + len)
        end
  end.
Definition format_listeners st (buflen : option Z) : res (bytes * Z) := format_from st (ls_list st) buflen [] 0.
End Listing.

(** ** The table of forwards *)

Record forward := Forward { f_name : bytes; f_to : bytes; f_transport : option addr }.
Definition forward_of (l : alistener) : forward := Forward (al_local_name l) (al_connect_to l) (al_transport l).
Definition table st : list forward := omap (fun a => forward_of <$> ls_mem st !! a) (ls_list st).

Inductive op :=
  | Install (local_name connect_to : bytes) (transport : option addr) (no_rebind : bool) (a : addr) (fd : Z)
  | Remove (local_name : bytes)
  | RemoveAll
  | Gone (t : addr).

Definition step (o : op) st : res (Z * lstate) :=
  match o with
  | Install n c t nr a fd => install_listener n c t nr a fd st
  | Remove n => remove_listener st n
  | RemoveAll => let* st := remove_all_listeners st in Ok (0, st)
  | Gone t => let* st := transport_gone t st in Ok (0, st)
  end.

(** What the operations mean for the table: a name is bound once, a rebound
    name keeps its place, and the smart socket cannot be rebound. *)
Definition table_step (o : op) (fs : list forward) : Z * list forward :=
  match o with
  | Install n c t nr _ fd =>
      match head (filter (fun f => f_name f = n) fs) with
      | Some f =>
          if starred (f_to f) then (INSTALL_STATUS_INTERNAL_ERROR, fs)
          else if nr then (INSTALL_STATUS_CANNOT_REBIND, fs)
          else (INSTALL_STATUS_OK, map (fun g => if decide (f_name g = n) then Forward n c t else g) fs)
      | None => if decide (fd < 0) then (INSTALL_STATUS_CANNOT_BIND, fs) else (INSTALL_STATUS_OK, fs ++ [Forward n c t])
      end
  | Remove n => if decide (n ∈ map f_name fs) then (0, filter (fun f => f_name f <> n) fs) else (-1, fs)
  | RemoveAll => (0, filter (fun f => starred (f_to f) = true) fs)
  | Gone t => (0, filter (fun f => f_transport f <> Some t) fs)
  end.

(** The rings, the callbacks and the events agree with the listeners. *)
Record lst_wf st : Prop := LstWf {
  lw_nodup : NoDup (ls_list st);
  lw_mem a : a ∈ ls_list st <-> is_Some (ls_mem st !! a);
  lw_names a b l l' : ls_mem st !! a = Some l -> ls_mem st !! b = Some l' -> al_local_name l = al_local_name l' -> a = b;
  lw_calls t a : a ∈ callbacks st t <-> exists l, ls_mem st !! a = Some l /\ al_transport l = Some t;
  lw_calls_nodup t : NoDup (callbacks st t);
  lw_star a l : ls_mem st !! a = Some l -> starred (al_connect_to l) = true <-> al_transport l = None;
  lw_ev : ev_ok (F := listener_func) (ls_ev st);
  lw_event a : a ∈ ls_list st -> ev_interest (F := listener_func) (ls_ev st) a = Some FDE_READ
}.

(** Operations in a row. *)
Fixpoint steps (os : list op) st : res (list Z * lstate) :=
  match os with
  | [] => Ok ([], st)
  | o :: os => let* ' (r, st) := step o st in let* ' (rs, st) := steps os st in Ok (r :: rs, st)
  end.
Fixpoint table_steps (os : list op) (fs : list forward) : list Z * list forward :=
  match os with
  | [] => ([], fs)
  | o :: os => let '(r, fs) := table_step o fs in let '(rs, fs) := table_steps os fs in (r :: rs, fs)
  end.

(** What the callers and the operating system provide: a listener without a
    transport is a smart socket, whose name is not bound yet; a new listener is
    at a new address, and its descriptor is one that was free. *)
Definition op_ok (o : op) st : Prop :=
  match o with
  | Install n c t _ a fd => (starred c = true <-> t = None) /\ (t = None -> n ∉ map f_name (table st)) /\ ls_mem st !! a = None /\ ev_interest (F := listener_func) (ls_ev st) a = None
      /\ (0 <= fd -> fd < FD_SETSIZE /\ ev_free_fd (F := listener_func) (ls_ev st) fd)
  | _ => True
  end.
Fixpoint ops_ok (os : list op) st : Prop :=
  match os with
  | [] => True
  | o :: os => op_ok o st /\ match step o st with Ok (_, st') => ops_ok os st' | _ => True end
  end.

End Listeners.

(** * Theorems *)

Section Proofs.
Context {E : Type} {I : FdEvents E listener_func} {L : FdEventsLaws E listener_func I}.
Implicit Types (st : lstate (E := E)) (a t : addr) (l : alistener).

Lemma table_elem st f : f ∈ table st <-> exists a l, a ∈ ls_list st /\ ls_mem st !! a = Some l /\ f = forward_of l.
Proof.
  unfold table. rewrite list_elem_of_omap. split.
  - intros (a & Ha & Hf). destruct (ls_mem st !! a) as [l|] eqn:Hl; [|done]. injection Hf as <-. eauto.
  - intros (a & l & Ha & Hl & ->). exists a. by rewrite Hl.
Qed.

(** Listeners that go away, from the ring and from the table. *)
Lemma table_filter (P : addr -> Prop) (Q : forward -> Prop) `{!forall a, Decision (P a), !forall f, Decision (Q f)} (m m' : gmap addr alistener) (ring : list addr) :
  (forall a, a ∈ ring -> exists l, m !! a = Some l /\ (P a -> m' !! a = Some l) /\ (P a <-> Q (forward_of l))) ->
  omap (fun a => forward_of <$> m' !! a) (filter P ring) = filter Q (omap (fun a => forward_of <$> m !! a) ring).
Proof.
  induction ring as [|a ring IH]; [done|]. intros Hr. destruct (Hr a) as (l & Hl & Hkeep & Hiff); [by apply elem_of_cons; left|].
  assert (forall b, b ∈ ring -> exists l, m !! b = Some l /\ (P b -> m' !! b = Some l) /\ (P b <-> Q (forward_of l))) as H'.
  { intros b Hb. apply Hr. by apply elem_of_cons; right. }
  rewrite filter_cons. cbn [omap list_omap]. rewrite Hl. cbn. destruct (decide (P a)) as [HP|HP].
  - rewrite decide_True by (by apply Hiff). cbn. rewrite (Hkeep HP). cbn. f_equal. by apply IH.
  - rewrite decide_False by (by rewrite <-Hiff). by apply IH.
Qed.

Lemma find_listener_spec st name : lst_wf st -> forall ring, (forall a, a ∈ ring -> a ∈ ls_list st) ->
  exists r, find_listener st name ring = Ok r /\ match r with
    | Some (a, l) => a ∈ ring /\ ls_mem st !! a = Some l /\ al_local_name l = name
    | None => forall a l, a ∈ ring -> ls_mem st !! a = Some l -> al_local_name l <> name
    end.
Proof.
  intros Hwf. induction ring as [|a ring IH]; intros Hin; cbn [find_listener].
  { exists None. split; [done|]. intros a l Ha. by apply elem_of_nil in Ha. }
  destruct (proj1 (lw_mem _ Hwf a) (Hin a ltac:(by apply elem_of_cons; left))) as [l Hl]. unfold get_listener. rewrite Hl. cbn [access res_bind].
  case_bool_decide as Hn; [exists (Some (a, l)); split_and!; [done|by apply elem_of_cons; left|done..]|].
  destruct IH as ([[b lb]|] & Er & Hr); [intros b Hb; apply Hin; by apply elem_of_cons; right| |]; rewrite Er; eexists; (split; [done|]).
  - destruct Hr as (Hb & Hlb & Hname). split_and!; [by apply elem_of_cons; right|done..].
  - intros b lb [->|Hb]%elem_of_cons Hlb; [congruence|by eapply Hr].
Qed.

(** The entry of a name in the table. *)
Lemma table_find st name a l : lst_wf st -> ls_mem st !! a = Some l -> al_local_name l = name ->
  filter (fun f => f_name f = name) (table st) = [forward_of l].
Proof.
  intros Hwf Hl Hname. unfold table. rewrite <-(table_filter (fun b => b = a) (fun f => f_name f = name) (ls_mem st) (ls_mem st)).
  - assert (filter (fun b => b = a) (ls_list st) = [a]) as ->.
    { assert (a ∈ ls_list st) as Ha by (apply (lw_mem _ Hwf); eauto). pose proof (lw_nodup _ Hwf) as Hn. clear Hwf.
      induction (ls_list st) as [|b ring IH]; [by apply elem_of_nil in Ha|]. apply NoDup_cons in Hn as [Hb Hn]. rewrite filter_cons.
      destruct (decide (b = a)) as [->|Hne].
      - f_equal. apply filter_none. intros c Hc ->. done.
      - apply IH; [|done]. by apply elem_of_cons in Ha as [->|]. }
    cbn. by rewrite Hl.
  - intros b Hb. destruct (proj1 (lw_mem _ Hwf b) Hb) as [lb Hlb]. exists lb. split_and!; [done..|]. split.
    + intros ->. by simplify_eq.
    + intros Hf. cbn in Hf. eapply (lw_names _ Hwf); [done..|]. congruence.
Qed.

(** *** Freeing *)

Lemma callbacks_set st t (cs : list addr) (u : addr) : callbacks (set_callbacks t cs st) u = if decide (u = t) then cs else callbacks st u.
Proof. unfold callbacks, set_callbacks. cbn. destruct (decide (u = t)) as [->|Hne]; by simplify_map_eq. Qed.

Lemma omap_same {A B} (f g : A -> option B) (l : list A) : (forall x, x ∈ l -> f x = g x) -> omap f l = omap g l.
Proof.
  induction l as [|x l IH]; [done|]. intros Hl. cbn [omap list_omap]. rewrite Hl by (by apply elem_of_cons; left).
  rewrite IH; [done|]. intros y Hy. apply Hl. by apply elem_of_cons; right.
Qed.

(** A listener is freed: it is gone from the ring, from the callbacks of every
    transport and from the events. *)
Lemma free_listener_ok st a l : lst_wf st -> ls_mem st !! a = Some l -> exists st', free_listener a st = Ok st' /\ lst_wf st'
  /\ ls_list st' = filter (fun b => b <> a) (ls_list st) /\ ls_mem st' = delete a (ls_mem st)
  /\ forall t, callbacks st' t = filter (fun b => b <> a) (callbacks st t).
Proof.
  intros Hwf Hl. assert (a ∈ ls_list st) as Ha by (apply (lw_mem _ Hwf); eauto).
  destruct (law_remove (ls_ev st) a FDE_READ (lw_ev _ Hwf) (lw_event _ Hwf a Ha)) as (e & He & Hev & _ & Hother & _).
  unfold free_listener, get_listener. rewrite Hl. cbn [access res_bind ls_ev]. rewrite He. cbn [res_bind ls_mem ls_list ls_disconnects].
  set (st1 := LState (ls_mem st) (filter (fun b => b <> a) (ls_list st)) (ls_disconnects st) e).
  assert (exists st2, match al_transport l with Some t => remove_callback (Some t) a st1 | None => Ok st1 end = Ok st2
    /\ ls_mem st2 = ls_mem st /\ ls_list st2 = ls_list st1 /\ ls_ev st2 = e
    /\ forall t, callbacks st2 t = filter (fun b => b <> a) (callbacks st t)) as (st2 & H2 & Hm2 & Hl2 & He2 & Hc2).
  { assert (forall t, al_transport l <> Some t -> filter (fun b => b <> a) (callbacks st t) = callbacks st t) as Hkeep.
    { intros t Ht. apply filter_same. intros b Hb ->. apply (lw_calls _ Hwf) in Hb as (l' & Hl' & Ht'). by simplify_eq. }
    destruct (al_transport l) as [t|] eqn:Ht.
    - unfold remove_callback. cbn [access res_bind]. change (callbacks st1 t) with (callbacks st t).
      rewrite bool_decide_true by (apply (lw_calls _ Hwf); eauto). eexists. split_and!; [done..|]. intros u. rewrite callbacks_set.
      destruct (decide (u = t)) as [->|Hne]; [done|]. symmetry. apply Hkeep. congruence.
    - exists st1. split_and!; [done..|]. intros u. symmetry. apply Hkeep. congruence. }
  rewrite H2. cbn [res_bind]. eexists. split; [done|]. cbn [ls_mem ls_list]. rewrite Hm2, Hl2. split; [|by split_and!].
  split; cbn [ls_mem ls_list ls_ev]; rewrite ?Hm2, ?Hl2, ?He2.
  - apply NoDup_filter, Hwf.
  - intros b. cbn [st1 ls_list]. rewrite list_elem_of_filter, (lw_mem _ Hwf). destruct (decide (b = a)) as [->|Hne]; simplify_map_eq; [naive_solver|].
    naive_solver.
  - intros b c lb lc Hb Hc. apply lookup_delete_Some in Hb as [_ Hb], Hc as [_ Hc]. by eapply (lw_names _ Hwf).
  - intros t b. unfold callbacks in *. cbn [ls_disconnects]. rewrite Hc2, list_elem_of_filter. fold (callbacks st t). rewrite (lw_calls _ Hwf).
    setoid_rewrite lookup_delete_Some. naive_solver.
  - intros t. unfold callbacks in *. cbn [ls_disconnects]. rewrite Hc2. apply NoDup_filter, (lw_calls_nodup _ Hwf).
  - intros b lb Hb. apply lookup_delete_Some in Hb as [_ Hb]. by apply (lw_star _ Hwf b).
  - done.
  - intros b Hb. cbn [st1 ls_list] in Hb. apply list_elem_of_filter in Hb as [Hne Hb]. rewrite Hother by done. by apply (lw_event _ Hwf).
Qed.

(** A set of listeners is freed one by one, for a loop over them. *)
Lemma gone_ok t : forall dis st, lst_wf st -> callbacks st t = dis ->
  exists st', run_callbacks (length dis) t (head dis) st = Ok st' /\ lst_wf st'
  /\ ls_list st' = filter (fun b => b ∉ dis) (ls_list st) /\ (forall b, b ∉ dis -> ls_mem st' !! b = ls_mem st !! b).
Proof.
  induction dis as [|a dis IH]; intros st Hwf Hdis; cbn [length head run_callbacks].
  { exists st. split_and!; [done|done| |done]. symmetry. apply filter_same. intros b _ Hb. by apply elem_of_nil in Hb. }
  rewrite Hdis. cbn [successor]. rewrite bool_decide_true by done. cbn [res_bind].
  pose proof (lw_calls_nodup _ Hwf t) as Hn. rewrite Hdis in Hn. apply NoDup_cons in Hn as [Ha Hn].
  destruct (proj1 (lw_calls _ Hwf t a)) as (l & Hl & _); [rewrite Hdis; by apply elem_of_cons; left|].
  destruct (free_listener_ok st a l Hwf Hl) as (st1 & H1 & Hwf1 & Hlist & Hmem & Hcalls). unfold listener_disconnect. rewrite H1. cbn [res_bind].
  assert (callbacks st1 t = dis) as Hdis1.
  { rewrite Hcalls, Hdis, filter_cons, decide_False by naive_solver. apply filter_same. by intros b Hb ->. }
  destruct (IH st1 Hwf1 Hdis1) as (st' & H' & Hwf' & Hlist' & Hmem'). exists st'. split_and!; [done|done| |].
  - rewrite Hlist', Hlist, list_filter_filter. apply list_filter_iff. intros b. rewrite not_elem_of_cons. naive_solver.
  - intros b [Hne Hb]%not_elem_of_cons. rewrite Hmem', Hmem by done. by apply lookup_delete_ne.
Qed.

(** A smart socket, or one like it. *)
Definition special st a : bool := match ls_mem st !! a with Some l => starred (al_connect_to l) | None => false end.

Lemma remove_all_ok : forall ring st, lst_wf st -> NoDup ring -> (forall a, a ∈ ring -> a ∈ ls_list st) ->
  exists st', remove_all_from st ring = Ok st' /\ lst_wf st'
  /\ ls_list st' = filter (fun b => b ∉ ring \/ special st b = true) (ls_list st)
  /\ (forall b, b ∉ ring \/ special st b = true -> ls_mem st' !! b = ls_mem st !! b).
Proof.
  induction ring as [|a ring IH]; intros st Hwf Hn Hin; cbn [remove_all_from].
  { exists st. split_and!; [done|done| |done]. symmetry. apply filter_same. intros b _. left. apply not_elem_of_nil. }
  apply NoDup_cons in Hn as [Ha Hn]. destruct (proj1 (lw_mem _ Hwf a) (Hin a ltac:(by apply elem_of_cons; left))) as [l Hl].
  unfold get_listener. rewrite Hl. cbn [access res_bind]. destruct (starred (al_connect_to l)) eqn:Hs.
  - destruct (IH st Hwf Hn) as (st' & H' & Hwf' & Hlist' & Hmem'); [intros b Hb; apply Hin; by apply elem_of_cons; right|].
    assert (special st a = true) as Hsp by (unfold special; by rewrite Hl).
    exists st'. split_and!; [done|done| |].
    + rewrite Hlist'. apply list_filter_iff. intros b. rewrite not_elem_of_cons. destruct (decide (b = a)) as [->|]; naive_solver.
    + intros b Hb. apply Hmem'. destruct (decide (b = a)) as [->|]; [by right|]. rewrite not_elem_of_cons in Hb. naive_solver.
  - destruct (free_listener_ok st a l Hwf Hl) as (st1 & H1 & Hwf1 & Hlist & Hmem & _). unfold listener_disconnect. rewrite H1. cbn [res_bind].
    assert (special st a = false) as Hsp by (unfold special; by rewrite Hl).
    assert (forall b, b <> a -> special st1 b = special st b) as Hsame by (intros b Hb; unfold special; by rewrite Hmem, lookup_delete_ne).
    destruct (IH st1 Hwf1 Hn) as (st' & H' & Hwf' & Hlist' & Hmem').
    { intros b Hb. rewrite Hlist. apply list_elem_of_filter. split; [by intros ->|]. apply Hin. by apply elem_of_cons; right. }
    exists st'. split_and!; [done|done| |].
    + rewrite Hlist', Hlist, list_filter_filter. apply list_filter_iff. intros b. rewrite not_elem_of_cons.
      destruct (decide (b = a)) as [->|Hne]; [rewrite Hsp; naive_solver|rewrite Hsame by done; naive_solver].
    + intros b Hb. destruct (decide (b = a)) as [->|Hne]; [rewrite not_elem_of_cons, Hsp in Hb; naive_solver|].
      rewrite Hmem'; [by rewrite Hmem, lookup_delete_ne|]. rewrite Hsame by done. rewrite not_elem_of_cons in Hb. naive_solver.
Qed.

(** *** Installing *)

(** A listener gets another target: its place in the ring stays. *)
Lemma table_update st a l n c (u : option addr) (ring : list addr) : (forall b, b ∈ ring -> exists lb, ls_mem st !! b = Some lb /\ (al_local_name lb = n <-> b = a)) ->
  al_local_name l = n -> omap (fun b => forward_of <$> <[a := with_target c u l]> (ls_mem st) !! b) ring
  = map (fun g => if decide (f_name g = n) then Forward n c u else g) (omap (fun b => forward_of <$> ls_mem st !! b) ring).
Proof.
  intros H Hn. induction ring as [|b ring IH]; [done|]. destruct (H b) as (lb & Hlb & Hiff); [by apply elem_of_cons; left|].
  assert (forall b, b ∈ ring -> exists lb, ls_mem st !! b = Some lb /\ (al_local_name lb = n <-> b = a)) as H'.
  { intros b' Hb. apply H. by apply elem_of_cons; right. }
  cbn [omap list_omap]. rewrite Hlb. cbn. destruct (decide (b = a)) as [->|Hne].
  - rewrite lookup_insert_eq. cbn. rewrite decide_True by (by apply Hiff). f_equal; [|by apply IH]. unfold forward_of, with_target. cbn. by rewrite Hn.
  - rewrite lookup_insert_ne, Hlb by done. cbn. rewrite decide_False by naive_solver. f_equal. by apply IH.
Qed.

Lemma names_at st a l : lst_wf st -> ls_mem st !! a = Some l -> forall b, b ∈ ls_list st ->
  exists lb, ls_mem st !! b = Some lb /\ (al_local_name lb = al_local_name l <-> b = a).
Proof.
  intros Hwf Hl b Hb. destruct (proj1 (lw_mem _ Hwf b) Hb) as [lb Hlb]. exists lb. split; [done|]. split; [|by intros ->; simplify_eq].
  intros Hn. by eapply (lw_names _ Hwf).
Qed.

Lemma rebind_wf st st' a l c u : lst_wf st -> ls_mem st !! a = Some l -> (starred c = true <-> u = None) ->
  ls_mem st' = <[a := with_target c u l]> (ls_mem st) -> ls_list st' = ls_list st -> ls_ev st' = ls_ev st ->
  (forall t b, b ∈ callbacks st' t <-> (b <> a /\ b ∈ callbacks st t) \/ (b = a /\ u = Some t)) -> (forall t, NoDup (callbacks st' t)) -> lst_wf st'.
Proof.
  intros Hwf Hl Hc Hm Hlist Hev Hcalls Hnodup. split.
  - rewrite Hlist. apply Hwf.
  - intros b. rewrite Hlist, Hm, (lw_mem _ Hwf). destruct (decide (b = a)) as [->|Hne]; simplify_map_eq; [|done]. split; eauto.
  - intros b d lb ld. rewrite Hm. intros Hb Hd Hn.
    assert (forall b lb, <[a := with_target c u l]> (ls_mem st) !! b = Some lb -> exists lb', ls_mem st !! b = Some lb' /\ al_local_name lb' = al_local_name lb) as Hold.
    { intros b' lb' Hb'. destruct (decide (b' = a)) as [->|Hne]; simplify_map_eq; eauto. }
    destruct (Hold b lb Hb) as (lb' & Hb' & Hnb), (Hold d ld Hd) as (ld' & Hd' & Hnd). eapply (lw_names _ Hwf); [done..|congruence].
  - intros t b. rewrite Hcalls, Hm, (lw_calls _ Hwf). destruct (decide (b = a)) as [->|Hne].
    + rewrite lookup_insert_eq. split; [intros [[]|[_ ->]]; [done|by eexists]|]. intros (l' & [= <-] & Ht). by right.
    + rewrite lookup_insert_ne by done. naive_solver.
  - done.
  - intros b lb. rewrite Hm. destruct (decide (b = a)) as [->|Hne]; simplify_map_eq; [|apply Hwf]. by intros [= <-].
  - rewrite Hev. apply Hwf.
  - rewrite Hlist, Hev. apply Hwf.
Qed.

Lemma rebind_ok st a l c u : lst_wf st -> ls_mem st !! a = Some l -> al_transport l <> None -> u <> None -> (starred c = true <-> u = None) ->
  exists st', (if bool_decide (al_transport l <> u) then
      let* st1 := remove_callback (al_transport l) a (put_listener a (with_target c (al_transport l) l) st) in
      let* st2 := add_callback u a (put_listener a (with_target c u l) st1) in Ok (INSTALL_STATUS_OK, st2)
    else Ok (INSTALL_STATUS_OK, put_listener a (with_target c (al_transport l) l) st)) = Ok (INSTALL_STATUS_OK, st')
  /\ lst_wf st' /\ ls_mem st' = <[a := with_target c u l]> (ls_mem st) /\ ls_list st' = ls_list st.
Proof.
  intros Hwf Hl Hold Hnew Hc. destruct (al_transport l) as [t0|] eqn:Ht0; [|done]. destruct u as [t1|]; [|done].
  assert (forall t, a ∈ callbacks st t <-> t = t0) as Ha.
  { intros t. rewrite (lw_calls _ Hwf). split; [intros (l' & Hl' & Ht'); congruence|intros ->; eauto]. }
  case_bool_decide as Hne.
  - unfold remove_callback, add_callback. cbn [access res_bind]. change (callbacks (put_listener _ _ st) t0) with (callbacks st t0).
    rewrite bool_decide_true by (by apply Ha). cbn [res_bind]. eexists. split; [done|]. cbn [ls_mem ls_list set_callbacks put_listener]. rewrite insert_insert_eq.
    split; [|done]. assert (t1 <> t0) as Hneq by congruence.
    assert (forall t, callbacks (set_callbacks t1 (callbacks (put_listener a (with_target c (Some t1) l)
        (set_callbacks t0 (filter (fun b => b <> a) (callbacks (put_listener a (with_target c (Some t0) l) st) t0)) (put_listener a (with_target c (Some t0) l) st))) t1 ++ [a])
        (put_listener a (with_target c (Some t1) l) (set_callbacks t0 (filter (fun b => b <> a) (callbacks (put_listener a (with_target c (Some t0) l) st) t0))
          (put_listener a (with_target c (Some t0) l) st)))) t
      = if decide (t = t1) then callbacks st t1 ++ [a] else if decide (t = t0) then filter (fun b => b <> a) (callbacks st t0) else callbacks st t) as Hcb.
    { intros t. rewrite callbacks_set. change (callbacks (put_listener ?x ?y ?z) ?v) with (callbacks z v). rewrite !callbacks_set.
      destruct (decide (t = t1)) as [->|]; [by rewrite decide_False|]. by destruct (decide (t = t0)) as [->|]. }
    eapply (rebind_wf st _ a l c (Some t1)); try done.
    + cbn [ls_mem set_callbacks put_listener]. by rewrite insert_insert_eq.
    + intros t b. rewrite Hcb. destruct (decide (t = t1)) as [->|Hn1]; [|destruct (decide (t = t0)) as [->|Hn0]].
      * rewrite elem_of_app, list_elem_of_singleton. destruct (decide (b = a)) as [->|]; naive_solver.
      * rewrite list_elem_of_filter. naive_solver.
      * destruct (decide (b = a)) as [->|]; [rewrite Ha|]; naive_solver.
    + intros t. rewrite Hcb. destruct (decide (t = t1)) as [->|Hn1]; [|destruct (decide (t = t0)) as [->|Hn0]; [apply NoDup_filter|]; apply (lw_calls_nodup _ Hwf)].
      apply NoDup_app. split_and!; [apply (lw_calls_nodup _ Hwf)| |apply NoDup_singleton]. intros b Hb ->%list_elem_of_singleton. by apply Ha in Hb.
  - injection Hne as ->. eexists. split; [done|]. split; [|done].
    eapply (rebind_wf st _ a l c (Some t1)); try done.
    + intros t b. change (callbacks (put_listener _ _ st) t) with (callbacks st t). destruct (decide (b = a)) as [->|]; [rewrite Ha|]; naive_solver.
    + intros t. apply (lw_calls_nodup _ Hwf).
Qed.

(** A new listener. *)
Lemma install_new_wf st a l e (cs : gmap addr (list addr)) : lst_wf st -> ls_mem st !! a = None ->
  (forall b lb, ls_mem st !! b = Some lb -> al_local_name lb <> al_local_name l) ->
  (starred (al_connect_to l) = true <-> al_transport l = None) -> ev_ok (F := listener_func) e ->
  ev_interest (F := listener_func) e a = Some FDE_READ -> (forall b, b <> a -> ev_interest (F := listener_func) e b = ev_interest (F := listener_func) (ls_ev st) b) ->
  (forall t, default [] (cs !! t) = if decide (al_transport l = Some t) then callbacks st t ++ [a] else callbacks st t) ->
  lst_wf (LState (<[a := l]> (ls_mem st)) (ls_list st ++ [a]) cs e).
Proof.
  intros Hwf Ha Hnames Hstar Hev Hat Hothers Hcs.
  assert (a ∉ ls_list st) as Hnot by (rewrite (lw_mem _ Hwf), Ha; by intros []).
  assert (forall t, a ∉ callbacks st t) as Hnc by (intros t; rewrite (lw_calls _ Hwf); by intros (l' & Hl' & _); simplify_eq).
  split; cbn [ls_mem ls_list ls_ev].
  - apply NoDup_app. split_and!; [apply Hwf| |apply NoDup_singleton]. by intros b Hb ->%list_elem_of_singleton.
  - intros b. rewrite elem_of_app, list_elem_of_singleton, (lw_mem _ Hwf). destruct (decide (b = a)) as [->|]; simplify_map_eq; naive_solver.
  - intros b c lb lc Hb Hc Hn. destruct (decide (b = a)) as [->|], (decide (c = a)) as [->|]; simplify_map_eq; [done| | |by eapply (lw_names _ Hwf)].
    + by destruct (Hnames c lc Hc).
    + by destruct (Hnames b lb Hb).
  - intros t b. unfold callbacks. cbn [ls_disconnects]. rewrite Hcs. destruct (decide (b = a)) as [->|Hne].
    + rewrite lookup_insert_eq. destruct (decide (al_transport l = Some t)) as [Ht|Ht].
      * rewrite elem_of_app, list_elem_of_singleton. split; [eauto|auto].
      * split; [intros H; by apply Hnc in H|]. by intros (l' & [= <-] & H).
    + rewrite lookup_insert_ne by done. rewrite <-(lw_calls _ Hwf). destruct (decide (al_transport l = Some t)); [|done].
      rewrite elem_of_app, list_elem_of_singleton. naive_solver.
  - intros t. unfold callbacks. cbn [ls_disconnects]. rewrite Hcs. destruct (decide (al_transport l = Some t)); [|apply (lw_calls_nodup _ Hwf)].
    apply NoDup_app. split_and!; [apply (lw_calls_nodup _ Hwf)| |apply NoDup_singleton]. intros b Hb ->%list_elem_of_singleton. by apply Hnc in Hb.
  - intros b lb Hb. destruct (decide (b = a)) as [->|]; simplify_map_eq; [done|by apply (lw_star _ Hwf b)].
  - done.
  - intros b [Hb| ->%list_elem_of_singleton]%elem_of_app; [|done]. rewrite Hothers by (by intros ->). by apply (lw_event _ Hwf).
Qed.

Lemma install_new_ok st a fd n c u : lst_wf st -> ls_mem st !! a = None -> ev_interest (F := listener_func) (ls_ev st) a = None ->
  0 <= fd < FD_SETSIZE -> ev_free_fd (F := listener_func) (ls_ev st) fd -> (starred c = true <-> u = None) ->
  (forall b lb, ls_mem st !! b = Some lb -> al_local_name lb <> n) -> forall func,
  exists st', (let* e := ev_install (ls_ev st) a fd func a in
    let* e := ev_add (F := listener_func) e a FDE_READ in
    let st := LState (<[a := AListener fd n c u]> (ls_mem st)) (ls_list st ++ [a]) (ls_disconnects st) e in
    match u with
    | Some t => let* st := add_callback (Some t) a st in Ok (INSTALL_STATUS_OK, st)
    | None => Ok (INSTALL_STATUS_OK, st)
    end) = Ok (INSTALL_STATUS_OK, st') /\ lst_wf st' /\ ls_list st' = ls_list st ++ [a] /\ ls_mem st' = <[a := AListener fd n c u]> (ls_mem st).
Proof.
  intros Hwf Ha Hev Hfd Hfree Hc Hnames func.
  destruct (law_install (ls_ev st) a fd func a (lw_ev _ Hwf) Hev Hfd Hfree) as (e1 & E1 & Hok1 & Hi1 & Ho1 & _).
  destruct (law_add e1 a 0 FDE_READ Hok1 Hi1) as (e2 & E2 & Hok2 & Hi2 & Ho2 & _). rewrite E1. cbn [res_bind]. rewrite E2. cbn [res_bind].
  assert (forall b, b <> a -> ev_interest (F := listener_func) e2 b = ev_interest (F := listener_func) (ls_ev st) b) as Hothers by (intros b Hb; by rewrite Ho2, Ho1).
  destruct u as [t|]; eexists; (split; [done|]); (split; [|done]); apply install_new_wf; try done.
  - intros t'. cbn [al_transport ls_disconnects]. destruct (decide (t' = t)) as [->|Hne].
    + rewrite lookup_insert_eq. by rewrite decide_True.
    + rewrite lookup_insert_ne by done. by rewrite decide_False by congruence.
Qed.

(** The listeners implement the table of forwards: in every state that is well
    formed, every operation returns what it means for the table, and leaves a
    well-formed state; a transport that goes away takes exactly its forwards. *)
Theorem listeners_refine o st : lst_wf st -> op_ok o st ->
  exists r st', step o st = Ok (r, st') /\ lst_wf st' /\ table_step o (table st) = (r, table st').
Proof.
  intros Hwf Hok. destruct o as [n c u nr a fd|n| |t]; cbn [step].
  - destruct Hok as (Hc & Hnone & Ha & Hev & Hfd). unfold install_listener.
    destruct (find_listener_spec st n Hwf (ls_list st)) as ([[b l]|] & E1 & Hr); [done| |]; rewrite E1; cbn [res_bind table_step].
    + destruct Hr as (Hb & Hl & Hn). rewrite (table_find st n b l Hwf Hl Hn). cbn [head forward_of f_to].
      destruct (starred (al_connect_to l)) eqn:Hs; [by eexists _, _|]. destruct nr; [by eexists _, _|].
      destruct (rebind_ok st b l c u Hwf Hl) as (st' & E2 & Hwf' & Hm & Hlist); [|  |done|].
      * intros Ht. apply (lw_star _ Hwf b l Hl) in Ht. congruence.
      * intros ->. apply (Hnone eq_refl). apply list_elem_of_fmap. exists (forward_of l). split; [done|]. apply table_elem. eauto.
      * rewrite E2. eexists _, st'. split_and!; [done|done|]. do 2 f_equal. unfold table at 2. rewrite Hlist, Hm. symmetry.
        apply (table_update st b l n c u); [|done]. rewrite <-Hn. by apply names_at.
    + assert (filter (fun f => f_name f = n) (table st) = []) as ->.
      { apply filter_none. intros f (b & l & Hb & Hl & ->)%table_elem. by eapply Hr. }
      cbn [head]. case_bool_decide as Hneg; [rewrite decide_True by done; by eexists _, _|]. rewrite decide_False by done.
      destruct (Hfd ltac:(lia)) as [Hmax Hfree].
      destruct (install_new_ok st a fd n c u Hwf Ha Hev ltac:(lia) Hfree Hc) with (func := if bool_decide (c = lit "*smartsocket*") then ss_listener_event_func else listener_event_func)
        as (st' & E2 & Hwf' & Hlist & Hm).
      { intros b lb Hlb. eapply Hr; [|done]. apply (lw_mem _ Hwf). eauto. }
      cbv zeta in E2 |- *. rewrite E2. eexists _, st'. split_and!; [done|done|]. f_equal. unfold table at 2. rewrite Hlist, Hm, omap_app. cbn. rewrite lookup_insert_eq. cbn.
      f_equal. apply omap_same. intros b Hb. rewrite lookup_insert_ne; [done|]. intros ->. apply (lw_mem _ Hwf) in Hb as [? ?]. congruence.
  - unfold remove_listener. destruct (find_listener_spec st n Hwf (ls_list st)) as ([[b l]|] & E1 & Hr); [done| |]; rewrite E1; cbn [res_bind table_step].
    + destruct Hr as (Hb & Hl & Hn). rewrite decide_True.
      2: { apply list_elem_of_fmap. exists (forward_of l). split; [done|]. apply table_elem. eauto. }
      destruct (free_listener_ok st b l Hwf Hl) as (st' & E2 & Hwf' & Hlist & Hm & _). unfold listener_disconnect. rewrite E2.
      eexists _, st'. split_and!; [done|done|]. f_equal. unfold table at 2. rewrite Hlist, Hm. symmetry. apply (table_filter _ _ (ls_mem st)).
      intros d Hd. destruct (names_at st b l Hwf Hl d Hd) as (ld & Hld & Hiff). exists ld. split_and!; [done|intros; by rewrite lookup_delete_ne|].
      cbn. rewrite Hn in Hiff. naive_solver.
    + rewrite decide_False; [by eexists _, _|]. intros (f & -> & (b & l & Hb & Hl & ->)%table_elem)%list_elem_of_fmap. by eapply Hr.
  - unfold remove_all_listeners. destruct (remove_all_ok (ls_list st) st Hwf (lw_nodup _ Hwf)) as (st' & E1 & Hwf' & Hlist & Hm); [done|].
    rewrite E1. eexists _, st'. split_and!; [done|done|]. cbn [table_step]. f_equal. unfold table at 2. rewrite Hlist. symmetry. apply (table_filter _ _ (ls_mem st)).
    intros d Hd. destruct (proj1 (lw_mem _ Hwf d) Hd) as [ld Hld]. exists ld. split_and!; [done|intros Hk; by rewrite Hm|].
    unfold special. rewrite Hld. cbn. naive_solver.
  - unfold transport_gone. destruct (gone_ok t (callbacks st t) st Hwf eq_refl) as (st' & E1 & Hwf' & Hlist & Hm).
    rewrite E1. eexists _, st'. split_and!; [done|done|]. cbn [table_step]. f_equal. unfold table at 2. rewrite Hlist. symmetry. apply (table_filter _ _ (ls_mem st)).
    intros d Hd. destruct (proj1 (lw_mem _ Hwf d) Hd) as [ld Hld]. exists ld. split_and!; [done|intros Hk; by rewrite Hm|].
    rewrite (lw_calls _ Hwf). cbn. split; [intros H Ht; apply H; eauto|]. intros Ht (l' & Hl' & Ht'). by simplify_eq.
Qed.

(** C9: Every sequence of operations on the listeners is one on the table of
    forwards: the same results, and the table that the state stands for. *)
Theorem listeners_simulate os st : lst_wf st -> ops_ok os st ->
  exists rs st', steps os st = Ok (rs, st') /\ lst_wf st' /\ table_steps os (table st) = (rs, table st').
Proof.
  revert st. induction os as [|o os IH]; intros st Hwf Hok; [by exists [], st|]. cbn [steps table_steps ops_ok] in *. destruct Hok as [Ho Hos].
  destruct (listeners_refine o st Hwf Ho) as (r & st1 & E1 & Hwf1 & ->). rewrite E1 in *. cbn [res_bind].
  destruct (IH st1 Hwf1 Hos) as (rs & st2 & E2 & Hwf2 & ->). rewrite E2. by exists (r :: rs), st2.
Qed.

End Proofs.

(** ** The listing *)

Section ListingProofs.
Context {E : Type} {I : FdEvents E listener_func} (serial : addr -> option bytes).
Implicit Types (st : lstate (E := E)).

(** The line of a forward. *)
Definition forward_line (f : forward) : bytes :=
  match f_transport f with
  | Some t => default [] (serial t) ++ [Byte.x20] ++ f_name f ++ [Byte.x20] ++ f_to f ++ [Byte.x0a]
  | None => []
  end.
Definition listing (fs : list forward) : bytes := concat (map forward_line (filter (fun f => starred (f_to f) = false) fs)).

Lemma format_from_spec st ring : lst_wf st -> (forall a, a ∈ ring -> a ∈ ls_list st) ->
  (forall a l t, ls_mem st !! a = Some l -> al_transport l = Some t -> is_Some (serial t)) -> forall room out r,
  (match room with Some n => Z.of_nat (length (listing (omap (fun a => forward_of <$> ls_mem st !! a) ring))) < n | None => True end) ->
  format_from serial st ring room out r =
  Ok (out ++ (if room then listing (omap (fun a => forward_of <$> ls_mem st !! a) ring) else []),
      r + Z.of_nat (length (listing (omap (fun a => forward_of <$> ls_mem st !! a) ring)))).
Proof.
  intros Hwf. induction ring as [|a ring IH]; intros Hin Hser room out r Hroom; cbn [format_from omap list_omap].
  { unfold listing. cbn. rewrite Z.add_0_r. by destruct room; rewrite app_nil_r. }
  assert (forall b, b ∈ ring -> b ∈ ls_list st) as Hin' by (intros b Hb; apply Hin; by apply elem_of_cons; right).
  destruct (proj1 (lw_mem _ Hwf a) (Hin a ltac:(by apply elem_of_cons; left))) as [l Hl]. unfold get_listener.
  cbn [omap list_omap] in Hroom. rewrite Hl in *. cbn [access res_bind fmap option_fmap option_map] in *.
  set (fs := omap (fun a => forward_of <$> ls_mem st !! a) ring) in *. unfold listing in *. rewrite filter_cons in *. cbn [forward_of f_to] in *.
  destruct (starred (al_connect_to l)) eqn:Hs.
  { rewrite decide_False in * by done. by apply IH. }
  rewrite decide_True in * by done. cbn [map concat] in *. rewrite length_app in *.
  destruct (al_transport l) as [t|] eqn:Ht; [|apply (lw_star _ Hwf a l Hl) in Ht; congruence].
  destruct (Hser a l t Hl Ht) as [s Hs']. unfold format_listener. rewrite Ht. cbn [access res_bind]. rewrite Hs'. cbn [access res_bind].
  assert (forward_line (forward_of l) = s ++ [Byte.x20] ++ al_local_name l ++ [Byte.x20] ++ al_connect_to l ++ [Byte.x0a]) as Hline.
  { unfold forward_line, forward_of. cbn. by rewrite Ht, Hs'. }
  rewrite Hline in *. set (line := s ++ _) in *. destruct room as [n|].
  - rewrite bool_decide_false by lia. rewrite bool_decide_false by lia. rewrite (IH Hin' Hser (Some (n - Z.of_nat (length line)))) by lia.
    unfold clip. rewrite take_ge by lia. rewrite <-app_assoc. do 2 f_equal. lia.
  - rewrite (IH Hin' Hser None) by done. do 2 f_equal. lia.
Qed.

(** The size that is announced is that of the text, which fits the buffer that
    was allocated for it. *)
Theorem listing_exact st : lst_wf st -> (forall a l t, ls_mem st !! a = Some l -> al_transport l = Some t -> is_Some (serial t)) ->
  exists n, format_listeners serial st None = Ok ([], n) /\ format_listeners serial st (Some (n + 1)) = Ok (listing (table st), n)
  /\ n = Z.of_nat (length (listing (table st))).
Proof.
  intros Hwf Hser. unfold format_listeners, table. set (fs := omap _ _). exists (Z.of_nat (length (listing fs))).
  rewrite (format_from_spec st (ls_list st) Hwf (fun a H => H) Hser None) by done.
  rewrite (format_from_spec st (ls_list st) Hwf (fun a H => H) Hser (Some _)) by (fold fs; lia). by fold fs.
Qed.
End ListingProofs.

(** ** Connections *)

Section Connections.
Context {E : Type} {I : FdEvents E fd_func} {L : FdEventsLaws E fd_func I}.
Implicit Types (w : world E).

(** [listener_event_func]; [fd] is what [adb_socket_accept] gives. *)
Definition listener_event (l : alistener) (ev fd : Z) w : res (world E) :=
  if has ev FDE_READ then
    if bool_decide (fd < 0) then Ok w
    else
      let* ' (s, w) := create_local_socket w fd in
      let* w := update_sock w s (World.with_transport (al_transport l)) in
      connect_to_remote w s (al_connect_to l)
  else Ok w.

(** A connection to a forwarded port becomes a socket of its transport, which is
    asked to open the service of the forward for it. *)
Theorem forward_opens l ev fd w (u : addr) : wf_world w -> has ev FDE_READ = true -> 0 <= fd < FD_SETSIZE ->
  ev_free_fd (F := fd_func) (w_ev w) fd -> al_transport l = Some u -> is_Some (w_trans w !! u) -> Z.of_nat (length (al_connect_to l)) <= 1024 ->
  ensures (listener_event l ev fd w) (fun w' => wf_world w' /\ exists s q, w_socks w' !! w_brk w = Some s
    /\ sk_id s = w_next_id w /\ sk_fd s = fd /\ sk_transport s = Some u /\ sk_peer s = None
    /\ seal (open_packet (w_next_id w) (al_connect_to l)) = Ok q /\ sent (Some u) [q] w w').
Proof.
  intros W Hev Hfd Hfree Hl Hu Hlen. unfold listener_event. rewrite Hev. rewrite bool_decide_false by lia.
  destruct (create_local_ok w fd W Hfd Hfree) as (e & -> & [B P]). cbn [res_bind]. set (w1 := with_local w fd e) in *.
  assert (w_socks w1 !! w_brk w = Some (fresh_local (w_next_id w) fd)) as Hs by apply lookup_insert_eq.
  rewrite (update_sock_ok _ _ _ _ Hs). cbn [res_bind]. set (s := World.with_transport _ _). set (w2 := put_sock (w_brk w) s w1).
  assert (base [] w2) as B2.
  { apply (base_done _ _ (w_brk w)); [eapply base_put; [by apply base_open|done..]|]. intros s0 Hs0. unfold w2 in Hs0.
    rewrite put_sock_lookup, decide_True in Hs0 by done. apply (inj Some) in Hs0. subst s0. pose proof (b_sock _ _ B _ _ Hs ltac:(apply not_elem_of_nil)) as Hok.
    apply (sock_ok_frame w1); [done..|]. destruct Hok. by split. }
  eapply ensures_mono; [|apply (connect_to_remote_ok [] w2 (w_brk w) s u (al_connect_to l) B2); try done; unfold w2; by rewrite put_sock_lookup, decide_True].
  intros w' (B' & F & Hsock & q & Hq & Hsent). split.
  - split; [done|]. apply (peers_same [] w2); [done|]. eapply (peers_put w1); [done|exact Hs|done..|by left].
  - exists s, q. rewrite Hsock. split; [unfold w2; by rewrite put_sock_lookup, decide_True|]. by split_and!.
Qed.
End Connections.

(** ** A server with two forwards *)

#[local] Existing Instance fdevents.

Section Example.
Local Notation E := (fdstate listener_func).

Definition no_listeners : lstate (E := E) := LState ∅ [] ∅ fd_start.
Definition smart : op := Install (lit "tcp:7777") (lit "*smartsocket*") None false 1%nat 10.
Definition web : op := Install (lit "tcp:80") (lit "tcp:8080") (Some 7%nat) false 2%nat 11.
Definition run_op (o : op) (st : lstate (E := E)) : lstate := (ok_or (0, st) (step o st)).2.
Definition served : lstate := run_op web (run_op smart no_listeners).

Lemma no_listeners_wf : lst_wf no_listeners.
Proof.
  split; cbn.
  - constructor.
  - intros a. rewrite lookup_empty. split; [intros H; by apply elem_of_nil in H|intros [? H]; done].
  - intros a b l l' H. by rewrite lookup_empty in H.
  - intros t a. unfold callbacks. cbn. rewrite lookup_empty. cbn. split; [intros H; by apply elem_of_nil in H|].
    intros (l & H & _). by rewrite lookup_empty in H.
  - intros t. unfold callbacks. cbn. rewrite lookup_empty. constructor.
  - intros a l H. by rewrite lookup_empty in H.
  - exact start_wf.
  - intros a H. by apply elem_of_nil in H.
Qed.

Lemma install_wf (st : lstate (E := E)) n c u a fd : lst_wf st -> find_listener st n (ls_list st) = Ok None ->
  ls_mem st !! a = None -> ev_interest (F := listener_func) (ls_ev st) a = None -> 0 <= fd < FD_SETSIZE ->
  ev_free_fd (F := listener_func) (ls_ev st) fd -> (starred c = true <-> u = None) -> lst_wf (run_op (Install n c u false a fd) st).
Proof.
  intros W Hn Ha He Hfd Hfree Hc. unfold run_op, step, install_listener. rewrite Hn. cbn [res_bind]. rewrite bool_decide_false by lia. cbv zeta.
  destruct (install_new_ok st a fd n c u W Ha He Hfd Hfree Hc) with (func := if bool_decide (c = lit "*smartsocket*") then ss_listener_event_func else listener_event_func)
    as (st' & E2 & W' & _); [|cbv zeta in E2; rewrite E2; exact W'].
  intros b lb Hb <-. destruct (find_listener_spec st (al_local_name lb) W (ls_list st)) as ([[d ld]|] & E1 & Hr); [done|congruence|].
  rewrite Hn in E1. eapply Hr; [apply (lw_mem _ W); eauto|exact Hb|done].
Qed.

Lemma smart_wf : lst_wf (run_op smart no_listeners).
Proof.
  apply (install_wf no_listeners _ _ None 1%nat 10); [exact no_listeners_wf|reflexivity|reflexivity|reflexivity|by split| |done].
  split; [lia|]. intros b. vm_compute. discriminate.
Qed.

Lemma served_wf : lst_wf served.
Proof.
  apply (install_wf _ _ _ (Some 7%nat) 2%nat 11); [exact smart_wf|vm_compute; reflexivity..|by split| |done].
  split; [lia|]. intros b. vm_compute. discriminate.
Qed.

Definition serials (t : addr) : option bytes := if bool_decide (t = 7%nat) then Some (lit "emulator-5554") else None.

(** Rebinding [tcp:80] to another transport. *)
Lemma listeners_refine_witness : lst_wf served /\ exists r st',
  step (Install (lit "tcp:80") (lit "tcp:90") (Some 8%nat) false 3%nat (-1)) served = Ok (r, st') /\ lst_wf st'
  /\ table st' = [Forward (lit "tcp:7777") (lit "*smartsocket*") None; Forward (lit "tcp:80") (lit "tcp:90") (Some 8%nat)].
Proof.
  split; [exact served_wf|].
  destruct (listeners_refine (Install (lit "tcp:80") (lit "tcp:90") (Some 8%nat) false 3%nat (-1)) served served_wf) as (r & st' & H & Hwf & Ht).
  - split; [done|]. split; [done|]. split; [reflexivity|]. split; [reflexivity|]. lia.
  - exists r, st'. split; [exact H|]. split; [exact Hwf|]. apply (f_equal snd) in Ht. cbn [snd] in Ht. rewrite <-Ht. vm_compute. reflexivity.
Defined.

(** A run from the start: the smart socket, a forward, a refused and an accepted
    rebinding, the loss of the first transport, and the removal of them all. *)
Definition a_run : list op :=
  [smart; web; Install (lit "tcp:80") (lit "tcp:90") (Some 8%nat) true 3%nat (-1); Install (lit "tcp:80") (lit "tcp:90") (Some 8%nat) false 3%nat (-1);
   Gone 7%nat; Remove (lit "tcp:81"); RemoveAll].

Lemma step_smart : step smart no_listeners = Ok (0, run_op smart no_listeners).
Proof. vm_compute. reflexivity. Qed.
Lemma step_web : step web (run_op smart no_listeners) = Ok (0, served).
Proof. vm_compute. reflexivity. Qed.

Lemma listeners_simulate_witness : exists st', steps a_run no_listeners = Ok ([0; 0; -3; 0; 0; -1; 0], st') /\ lst_wf st'
  /\ table st' = [Forward (lit "tcp:7777") (lit "*smartsocket*") None].
Proof.
  destruct (listeners_simulate a_run no_listeners no_listeners_wf) as (rs & st' & H & Hwf & Ht).
  - split; [split; [done|split; [intros _ H; vm_compute in H; by apply elem_of_nil in H|split; [reflexivity|split; [reflexivity|]]]]|].
    { intros _. split; [done|]. split; [lia|]. intros b. vm_compute. discriminate. }
    rewrite step_smart.
    split; [split; [done|split; [done|split; [reflexivity|split; [reflexivity|]]]]|].
    { intros _. split; [done|]. split; [lia|]. intros b. vm_compute. discriminate. }
    rewrite step_web.
    split; [split; [done|split; [done|split; [reflexivity|split; [reflexivity|lia]]]]|].
    vm_compute. repeat split; done || lia.
  - assert (table_steps a_run (table no_listeners) = ([0; 0; -3; 0; 0; -1; 0], [Forward (lit "tcp:7777") (lit "*smartsocket*") None])) as E1 by (vm_compute; reflexivity).
    rewrite E1 in Ht. injection Ht as <- Hst. exists st'. split; [exact H|]. split; [exact Hwf|]. symmetry. exact Hst.
Defined.

Lemma listing_exact_witness : exists n, format_listeners serials served None = Ok ([], n)
  /\ format_listeners serials served (Some (n + 1)) = Ok (lit "emulator-5554 tcp:80 tcp:8080" ++ [Byte.x0a], n) /\ n = 30.
Proof.
  destruct (listing_exact serials served served_wf) as (n & H1 & H2 & H3).
  - intros a l t Hl Ht. destruct (decide (t = 7%nat)) as [->|Hne]; [by eexists|].
    exfalso. assert (a ∈ ls_list served) as Ha by (apply (lw_mem _ served_wf); eauto).
    assert (ls_list served = [1%nat; 2%nat]) as Hlist by (vm_compute; reflexivity). rewrite Hlist in Ha.
    apply elem_of_cons in Ha as [->|Ha%list_elem_of_singleton]; [|subst a]; vm_compute in Hl; injection Hl as <-; cbn in Ht; congruence.
  - assert (listing serials (table served) = lit "emulator-5554 tcp:80 tcp:8080" ++ [Byte.x0a]) as E by (vm_compute; reflexivity).
    rewrite E in H2, H3. exists n. split; [exact H1|]. split; [exact H2|]. exact H3.
Defined.

(** The name of the smart socket is not refused: the server stops served to
    its clients. *)
Theorem smart_socket_removed : exists st, step (Remove (lit "tcp:7777")) served = Ok (0, st)
  /\ table st = [Forward (lit "tcp:80") (lit "tcp:8080") (Some 7%nat)].
Proof. eexists. split; [vm_compute; reflexivity|vm_compute; reflexivity]. Qed.

(** A transport whose serial is not known yet has forwards: listing them reads
    a null string. *)
Theorem listing_without_serial : format_listeners (fun _ => None) served None = Ub.
Proof. vm_compute. reflexivity. Qed.

End Example.
