(* ===== verification/HandlePacket.v ===== *)
(** * Handling messages (adb.c)

    [handle_packet] on the device: the connection and its banner, the
    authentication, and the four messages of streams.

    The services themselves ([service_to_fd], the jdwp sockets) and the keys
    ([adb_auth_verify], [adb_auth_confirm_key]) are parameters here; so is what
    the system decides: the properties, the user, and the random token. *)

From S2P Require Import Prelude Cstr Rwx Packet Fdevent World Transport Sockets SocketsInv SocketsClose SocketsData.
From S2P Require Import SocketsSmart SocketsEvents SocketsOpen SocketsEnd.

(** ** Banners *)

Definition qual_overwrite (src : bytes) : option bytes :=
  if bool_decide (src = []) then None else Some src.

(** One [key=value] of the properties. *)
Definition parse_prop (t : atransport) (key : bytes) : atransport :=
  match strchr key Byte.x3d with
  | None => t
  | Some (key, cp) =>
      if bool_decide (key = lit "ro.product.name") then
        with_quals (qual_overwrite cp) (t_model t) (t_device t) t
      else if bool_decide (key = lit "ro.product.model") then
        with_quals (t_product t) (qual_overwrite cp) (t_device t) t
      else if bool_decide (key = lit "ro.product.device") then
        with_quals (t_product t) (t_model t) (qual_overwrite cp) t
      else t
  end.

Definition state_of_type (type : bytes) : Z :=
  if bool_decide (type = lit "bootloader") then CS_BOOTLOADER
  else if bool_decide (type = lit "device") then CS_DEVICE
  else if bool_decide (type = lit "recovery") then CS_RECOVERY
  else if bool_decide (type = lit "sideload") then CS_SIDELOAD
  else CS_HOST.

Definition parse_banner (banner : bytes) (t : atransport) : atransport :=
  match strchr banner Byte.x3a with
  | None => with_connection_state (state_of_type banner) t
  | Some (type, cp) =>
      let t :=
        match strchr cp Byte.x3a with
        | None => t
        | Some (_, props) => fold_left parse_prop (strtok_r props Byte.x3b) t
        end in
      with_connection_state (state_of_type type) t
  end.

(** *** The banner that is sent *)

(** A [snprintf] of [text] at the end of what is in the buffer, of which
    [remaining] bytes are left; when [remaining] wraps around, the next call
    writes outside of the buffer. *)
Definition append_text (text : bytes) (st : bytes * Z) : res (bytes * Z) :=
  let '(buf, remaining) := st in
  let len := Z.of_nat (length text) in
  if bool_decide (remaining < len) then Ub
  else Ok (buf ++ take (Z.to_nat (remaining - 1)) text, remaining - len).

Definition cnxn_props : list bytes := [lit "ro.product.name"; lit "ro.product.model"; lit "ro.product.device"].

(** The text in the buffer, and the length returned, which counts the NUL. *)
Definition fill_connect_data (adb_device_banner : bytes) (property_get : bytes -> bytes) (bufsize : Z) : res (bytes * Z) :=
  let* st := append_text (adb_device_banner ++ lit "::") ([], bufsize) in
  let* st := foldl (fun m key => let* st := m in append_text (key ++ lit "=" ++ property_get key ++ lit ";") st)
               (Ok st) cnxn_props in
  Ok (st.1, bufsize - st.2 + 1).

(** ** adb_auth.h *)

Definition ADB_AUTH_TOKEN : Z := 1.
Definition ADB_AUTH_SIGNATURE : Z := 2.
Definition ADB_AUTH_RSAPUBLICKEY : Z := 3.
Definition TOKEN_SIZE : nat := 20.

Section HandlePacket.
Context {E : Type} {I : FdEvents E fd_func}.
Implicit Types (w : world E) (a t : addr) (p : apacket).

(** *** What other parts and the system provide *)

Record platform := Platform {
  auth_enabled : bool;
  getuid : Z;
  adb_device_banner : bytes;
  property_get : bytes -> bytes;
  service_to_fd : bytes -> world E -> res (Z * world E);
  create_jdwp_service_socket : world E -> res (option addr * world E);
  create_jdwp_tracker_service_socket : world E -> res (option addr * world E);
  adb_auth_verify : bytes -> bytes -> bool;
  adb_auth_confirm_key : bytes -> addr -> world E -> res (world E)
}.
Context (S : platform).

(** ** Replies *)

Definition send_ready (w : world E) (local remote : Z) (t : addr) : res (world E) :=
  send_to w (set_header A_OKAY local remote get_apacket) (Some t).

Definition send_close (w : world E) (local remote : Z) (t : addr) : res (world E) :=
  send_to w (set_header A_CLSE local remote get_apacket) (Some t).

Definition send_connect (w : world E) (t : addr) : res (world E) :=
  let* ' (text, n) := fill_connect_data (adb_device_banner S) (property_get S) MAX_PAYLOAD in
  send_to w (set_data (text ++ [Byte.x00]) (set_data_length n (set_header A_CNXN A_VERSION MAX_PAYLOAD get_apacket)))
    (Some t).

(** [tok] is what [adb_auth_generate_token] reads, if it reads all of it.  (A read
    that fails may have written a part of the token; it is left as it was.) *)
Definition send_auth_request (w : world E) (tok : option bytes) (t : addr) : res (world E) :=
  match tok with
  | None => Ok w
  | Some tok =>
      let* w := update_trans w t (with_token tok) in
      send_to w (set_data tok (set_data_length (Z.of_nat (length tok)) (set_header A_AUTH ADB_AUTH_TOKEN 0 get_apacket)))
        (Some t)
  end.

Definition handle_online (w : world E) (t : addr) : res (world E) := update_trans w t (with_online true).

Definition handle_offline (w : world E) (t : addr) : res (world E) :=
  let* w := update_trans w t (with_online false) in
  run_transport_disconnects run w t.

Definition adb_auth_verified (w : world E) (t : addr) : res (world E) :=
  let* w := handle_online w t in
  send_connect w t.

(** ** Services *)

Definition create_local_service_socket (name : bytes) (w : world E) : res (option addr * world E) :=
  if bool_decide (name = lit "jdwp") then create_jdwp_service_socket S w
  else if bool_decide (name = lit "track-jdwp") then create_jdwp_tracker_service_socket S w
  else
    let* ' (fd, w) := service_to_fd S name w in
    if bool_decide (fd < 0) then Ok (None, w)
    else
      let* ' (a, w) := create_local_socket w fd in
      let* w :=
        if (starts_with (lit "root:") name && bool_decide (getuid S <> 0))
           || starts_with (lit "usb:") name || starts_with (lit "tcpip:") name
        then update_sock w a (with_exit_on_close true) else Ok w in
      Ok (Some a, w).

(** ** Messages *)

Definition handle_sync (p : apacket) (t : addr) (w : world E) : res (world E) :=
  if bool_decide (arg0 (msg p) <> 0) then send_to w p (Some t)
  else
    let* w := update_trans w t (with_connection_state CS_OFFLINE) in
    let* w := handle_offline w t in
    send_to w p (Some t).

Definition handle_cnxn (tok : option bytes) (p : apacket) (t : addr) (w : world E) : res (world E) :=
  let* x := get_trans w t in
  let* w :=
    if bool_decide (t_connection_state x <> CS_OFFLINE) then
      let* w := update_trans w t (with_connection_state CS_OFFLINE) in
      handle_offline w t
    else Ok w in
  let* banner := c_string (p_data p) in
  let* w := update_trans w t (parse_banner banner) in
  if auth_enabled S then send_auth_request w tok t
  else
    let* w := handle_online w t in
    send_connect w t.

(** On the device there is no key to sign with: [adb_auth_nextkey] returns null
    and [adb_auth_get_userkey] nothing. *)
Definition handle_auth (tok : option bytes) (p : apacket) (t : addr) (w : world E) : res (world E) :=
  if bool_decide (arg0 (msg p) = ADB_AUTH_TOKEN) then update_trans w t (with_connection_state CS_UNAUTHORIZED)
  else if bool_decide (arg0 (msg p) = ADB_AUTH_SIGNATURE) then
    let* x := get_trans w t in
    let* sig := data_prefix p (data_length (msg p)) in
    if adb_auth_verify S (t_token x) sig then
      let* w := adb_auth_verified w t in
      update_trans w t (with_failed 0)
    else
      let* w := update_trans w t (with_failed (t_failed_auth_attempts x + 1)) in
      send_auth_request w tok t
  else if bool_decide (arg0 (msg p) = ADB_AUTH_RSAPUBLICKEY) then
    let* key := data_prefix p (data_length (msg p)) in
    adb_auth_confirm_key S key t w
  else Ok w.

Definition handle_open (p : apacket) (t : addr) (w : world E) : res (world E) :=
  let last := if bool_decide (data_length (msg p) > 0) then data_length (msg p) - 1 else 0 in
  let* q := store_data (Z.to_nat last) [Byte.x00] p in
  let* name := c_string (p_data q) in
  let* ' (s, w) := create_local_service_socket name w in
  match s with
  | None => send_close w 0 (arg0 (msg p)) t
  | Some a =>
      let* w := attach_remote w a (arg0 (msg p)) t in
      let* s := get_sock w a in
      let* r := peer_of s in
      let* sr := get_sock w r in
      let* w := send_ready w (sk_id s) (sk_id sr) t in
      let* ' (_, w) := run (CReady a) w in
      Ok w
  end.

Definition handle_okay (p : apacket) (t : addr) (w : world E) : res (world E) :=
  let* s := find_local_socket w (arg1 (msg p)) in
  match s with
  | None => Ok w
  | Some a =>
      let* s := get_sock w a in
      let* w := if bool_decide (sk_peer s = None) then attach_remote w a (arg0 (msg p)) t else Ok w in
      let* ' (_, w) := run (CReady a) w in
      Ok w
  end.

Definition handle_clse (p : apacket) (w : world E) : res (world E) :=
  let* s := find_local_socket w (arg1 (msg p)) in
  match s with
  | None => Ok w
  | Some a => let* ' (_, w) := run (CClose a) w in Ok w
  end.

Definition handle_wrte (p : apacket) (t : addr) (w : world E) : res (world E) :=
  let* s := find_local_socket w (arg1 (msg p)) in
  match s with
  | None => Ok w
  | Some a =>
      let* ' (r, w) := run (CEnqueue a (set_len (data_length (msg p)) p)) w in
      if bool_decide (r = 0) then
        let* s := get_sock w a in
        send_ready w (sk_id s) (arg0 (msg p)) t
      else Ok w
  end.

Definition handle_packet (tok : option bytes) (p : apacket) (t : addr) (w : world E) : res (world E) :=
  let c := command (msg p) in
  let* x := get_trans w t in
  if bool_decide (c = A_SYNC) then handle_sync p t w
  else if bool_decide (c = A_CNXN) then handle_cnxn tok p t w
  else if bool_decide (c = A_AUTH) then handle_auth tok p t w
  else if bool_decide (c = A_OPEN) then if t_online x then handle_open p t w else Ok w
  else if bool_decide (c = A_OKAY) then if t_online x then handle_okay p t w else Ok w
  else if bool_decide (c = A_CLSE) then if t_online x then handle_clse p w else Ok w
  else if bool_decide (c = A_WRTE) then if t_online x then handle_wrte p t w else Ok w
  else Ok w.

(** transport.c: [transport_socket_events] hands over the packets of a transport
    one after the other; each comes with the token that may be generated. *)
Fixpoint handle_packets (ps : list (option bytes * apacket)) (t : addr) (w : world E) : res (world E) :=
  match ps with
  | [] => Ok w
  | (tok, p) :: ps => let* w := handle_packet tok p t w in handle_packets ps t w
  end.

End HandlePacket.
Arguments platform E : clear implicits.
