(* ===== verification/Sends.v ===== *)
(** * What the daemon sends

    Every handler of a socket and of a message only appends packets to what was
    written to the transports, and none of these is an [A_SYNC]: such a message
    is only ever passed on by [handle_sync]. *)

From S2P Require Import Prelude Cstr Rwx Packet Fdevent World Transport Sockets SocketsInv SocketsClose SocketsOpen HandlePacket.

Section Sends.
Context {E : Type} {I : FdEvents E fd_func}.
Implicit Types (w : world E) (a t u : addr) (p : apacket).

Definition grows w0 w : Prop := forall u, exists k, outs w u = (fun l => l ++ k) <$> outs w0 u /\ Forall not_sync k.

Lemma grows_refl w : grows w w.
Proof. intros u. exists []. split; [|done]. destruct (outs w u); cbn; by rewrite ?app_nil_r. Qed.

(** A change of the world that keeps what was sent. *)
Lemma grows_same w0 w w' : grows w0 w -> (forall u, outs w' u = outs w u) -> grows w0 w'.
Proof. intros G H u. rewrite H. apply G. Qed.

Lemma grows_put_trans w0 w t x x' k : grows w0 w -> w_trans w !! t = Some x -> t_out x' = t_out x ++ k -> Forall not_sync k ->
  grows w0 (put_trans t x' w).
Proof.
  intros G Hx Ho Hk u. destruct (G u) as (k0 & Hk0 & F0). rewrite (outs_put_trans t x) by done. case_decide as Hu; [|by eauto].
  subst. unfold outs at 1 in Hk0. rewrite Hx in Hk0. destruct (outs w0 u) as [l|]; [|done]. cbn in *. simplify_eq.
  exists (k0 ++ k). rewrite Ho, Hk0, app_assoc. split; [done|]. by apply Forall_app.
Qed.

Lemma grows_send w0 w p (t : option addr) : grows w0 w -> not_sync p -> onwards (send_to w p t) (grows w0).
Proof.
  intros G Hp. unfold send_to. apply onwards_bind, onwards_all. intros q Hq. destruct t as [t|]; [|done].
  apply onwards_bind, onwards_all. unfold get_trans. intros x Hx%access_ok. destruct (t_broken x); [done|].
  apply (grows_put_trans w0 w t x (with_out (t_out x ++ [q]) x) [q] G Hx eq_refl). constructor; [|done].
  unfold not_sync in *. unfold seal in Hq. inv_ok. by subst.
Qed.

Lemma grows_trans w0 w t f : grows w0 w -> (forall x, t_out (f x) = t_out x) -> onwards (update_trans w t f) (grows w0).
Proof.
  intros G Hf. unfold update_trans. apply onwards_bind, onwards_all. unfold get_trans. intros x Hx%access_ok.
  apply (grows_put_trans w0 w t x _ [] G Hx); [by rewrite app_nil_r|done].
Qed.

(** ** Sockets *)

(** One step through the body of a handler: the lemmas of the calls are in
    [grow], what only reads the world is skipped. *)
#[local] Hint Resolve grows_send grows_trans : grow.
#[local] Hint Extern 1 (not_sync _) => unfold not_sync; cbn; discriminate : grow.

Ltac grow_post := intros; repeat match goal with x : (_ * _)%type |- _ => destruct x end; cbn in *.

Ltac grow_step := match goal with
  | |- onwards (Ok _) _ => cbn [onwards fst snd]
  | |- onwards Ub _ => exact Logic.I
  | |- onwards Exit _ => exact Logic.I
  | |- onwards Blocked _ => exact Logic.I
  | |- onwards (res_bind _ _) _ => apply onwards_bind
  | |- onwards (match ?x with _ => _ end) _ => destruct x eqn:?
  | |- onwards _ _ => eapply onwards_mono; [solve [eauto 3 with grow]|grow_post]
  | |- @onwards ?A _ _ => lazymatch A with context [world] => fail | _ => apply onwards_all; intros ? _ end
  | |- grows _ (put_sock _ _ _) => eapply grows_same; [|intros; reflexivity]
  | |- grows _ (with_lists _ _ _) => eapply grows_same; [|intros; reflexivity]
  | |- grows _ (with_next_id _ _) => eapply grows_same; [|intros; reflexivity]
  | |- grows _ (with_ev _ _) => eapply grows_same; [|intros; reflexivity]
  | |- grows _ (with_io _ _) => eapply grows_same; [|intros; reflexivity]
  | |- grows _ (with_brk _ _) => eapply grows_same; [|intros; reflexivity]
  | |- grows _ (free_sock _ _) => eapply grows_same; [|intros; reflexivity]
  end.
Ltac grow := repeat grow_step; eauto 3 with grow.

Lemma grows_update_sock w0 w a f : grows w0 w -> onwards (update_sock w a f) (grows w0).
Proof. intros G. unfold update_sock. grow. Qed.
Lemma grows_put_io w0 w fd f : grows w0 w -> grows w0 (put_io fd f w).
Proof. intros G. unfold put_io. by destruct (w_io w !! fd). Qed.
#[local] Hint Resolve grows_update_sock grows_put_io : grow.

Lemma grows_fd_write w0 w fd bs : grows w0 w -> onwards (fd_write w fd bs) (fun x => grows w0 x.2).
Proof. intros G. unfold fd_write. grow. Qed.
Lemma grows_fd_read w0 w fd n : grows w0 w -> onwards (fd_read w fd n) (fun x => grows w0 x.2).
Proof. intros G. unfold fd_read. grow. Qed.
Lemma grows_fd_writex w0 w fd bs : grows w0 w -> onwards (fd_writex w fd bs) (fun x => grows w0 x.2).
Proof. intros G. unfold fd_writex. grow. Qed.
Lemma grows_add w0 w a m : grows w0 w -> onwards (sock_fde_add w a m) (grows w0).
Proof. intros G. unfold sock_fde_add. grow. Qed.
Lemma grows_del w0 w a m : grows w0 w -> onwards (sock_fde_del w a m) (grows w0).
Proof. intros G. unfold sock_fde_del. grow. Qed.
Lemma grows_remove w0 w a : grows w0 w -> onwards (sock_fde_remove w a) (grows w0).
Proof. intros G. unfold sock_fde_remove. grow. Qed.
Lemma grows_install w0 w a fd : grows w0 w -> onwards (sock_fde_install w a fd) (grows w0).
Proof. intros G. unfold sock_fde_install. grow. Qed.
#[local] Hint Resolve grows_fd_write grows_fd_read grows_fd_writex grows_add grows_del grows_remove grows_install : grow.

Lemma grows_install_socket w0 w a : grows w0 w -> onwards (install_socket w a) (grows w0).
Proof. intros G. unfold install_socket. grow. Qed.
Lemma grows_remove_from_lists w0 w a : grows w0 w -> onwards (remove_from_lists w a) (grows w0).
Proof. intros G. unfold remove_from_lists. grow. Qed.
Lemma grows_write_loop w0 retry fuel : forall w fd p, grows w0 w -> onwards (write_loop retry fuel w fd p) (fun x => grows w0 x.2).
Proof. induction fuel as [|fuel IH]; intros w fd p G; cbn [write_loop]; grow. Qed.
Lemma grows_read_loop w0 fuel : forall w fd avail buf r, grows w0 w -> onwards (read_loop fuel w fd avail buf r) (fun x => grows w0 x.2).
Proof. induction fuel as [|fuel IH]; intros w fd avail buf r G; cbn [read_loop]; grow. Qed.
Lemma grows_sendfailmsg w0 w fd reason : grows w0 w -> onwards (sendfailmsg w fd reason) (fun x => grows w0 x.2).
Proof. intros G. unfold sendfailmsg. grow. Qed.
Lemma grows_remove_disconnect w0 w (t : option addr) a : grows w0 w -> onwards (remove_disconnect w t a) (grows w0).
Proof. intros G. unfold remove_disconnect. destruct t; [|done]. by apply grows_trans. Qed.
Lemma grows_add_disconnect w0 w t a : grows w0 w -> onwards (add_disconnect w t a) (grows w0).
Proof. intros G. by apply grows_trans. Qed.
Lemma grows_connect_to_remote w0 w a d : grows w0 w -> onwards (connect_to_remote w a d) (grows w0).
Proof. intros G. unfold connect_to_remote. grow. Qed.
#[local] Hint Resolve grows_install_socket grows_remove_from_lists grows_write_loop grows_read_loop grows_sendfailmsg : grow.
#[local] Hint Resolve grows_remove_disconnect grows_add_disconnect grows_connect_to_remote : grow.

(** *** The methods, over the calls of the methods of other sockets *)

Section Handlers.
Context (rec : call -> world E -> res (Z * world E)).
Hypothesis Hrec : forall c w0 w, grows w0 w -> onwards (rec c w) (fun x => grows w0 x.2).
#[local] Hint Resolve Hrec : grow.

Lemma grows_queue_packet w0 w a p : grows w0 w -> onwards (queue_packet w a p) (fun x => grows w0 x.2).
Proof. intros G. unfold queue_packet. grow. Qed.
#[local] Hint Resolve grows_queue_packet : grow.

Lemma grows_local_destroy w0 w a : grows w0 w -> onwards (local_socket_destroy w a) (grows w0).
Proof. intros G. unfold local_socket_destroy. grow. Qed.
#[local] Hint Resolve grows_local_destroy : grow.

Lemma grows_local_close w0 w a : grows w0 w -> onwards (local_socket_close_locked rec a w) (fun x => grows w0 x.2).
Proof. intros G. unfold local_socket_close_locked. grow. Qed.

Lemma grows_smart_fail w0 w a : grows w0 w -> onwards (smart_fail rec w a) (fun x => grows w0 x.2).
Proof. intros G. unfold smart_fail. grow. Qed.
#[local] Hint Resolve grows_local_close grows_smart_fail : grow.

Lemma grows_smart_connect w0 w a name : grows w0 w -> onwards (smart_connect rec w a name) (fun x => grows w0 x.2).
Proof. intros G. unfold smart_connect. grow. Qed.
#[local] Hint Resolve grows_smart_connect : grow.

Lemma grows_remote_enqueue w0 w a p : grows w0 w -> onwards (remote_socket_enqueue a p w) (fun x => grows w0 x.2).
Proof. intros G. unfold remote_socket_enqueue. grow. Qed.
Lemma grows_remote_ready w0 w a : grows w0 w -> onwards (remote_socket_ready a w) (fun x => grows w0 x.2).
Proof. intros G. unfold remote_socket_ready. grow. Qed.
Lemma grows_remote_close w0 w a : grows w0 w -> onwards (remote_socket_close rec a w) (fun x => grows w0 x.2).
Proof. intros G. unfold remote_socket_close. grow. Qed.
#[local] Hint Resolve grows_remote_enqueue grows_remote_ready grows_remote_close : grow.

Lemma grows_dispatch c w0 w : grows w0 w -> onwards (dispatch rec c w) (fun x => grows w0 x.2).
Proof.
  intros G. destruct c; cbn [dispatch]; [| | |by apply grows_local_close].
  - apply onwards_bind, onwards_all. intros s _. destruct (sk_enqueue s); eauto with grow.
    + unfold local_socket_enqueue. grow.
    + unfold smart_socket_enqueue. grow.
  - apply onwards_bind, onwards_all. intros s _. destruct (sk_ready s); eauto with grow.
    + unfold local_socket_ready. grow.
    + unfold local_socket_ready_notify. grow.
    + unfold smart_socket_ready. grow.
  - apply onwards_bind, onwards_all. intros s _. destruct (sk_close s); eauto with grow.
    + unfold local_socket_close_notify. grow.
    + unfold smart_socket_close. grow.
Qed.
End Handlers.

Lemma grows_exec fuel : forall c w0 w, grows w0 w -> onwards (exec fuel c w) (fun x => grows w0 x.2).
Proof. induction fuel as [|fuel IH]; intros c w0 w G; [done|]. by apply grows_dispatch. Qed.

Lemma grows_run c w0 w : grows w0 w -> onwards (run c w) (fun x => grows w0 x.2).
Proof. apply grows_exec. Qed.
#[local] Hint Resolve grows_run : grow.
#[local] Arguments run : simpl never.

(** ** The main loop *)

Lemma grows_flush w0 fuel : forall w a fd, grows w0 w -> onwards (flush run fuel w a fd) (fun x => grows w0 x.2).
Proof. induction fuel as [|fuel IH]; intros w a fd G; cbn [flush]; grow. Qed.
#[local] Hint Resolve grows_flush : grow.

Lemma grows_read_end w0 w a r eof : grows w0 w -> onwards (read_end run w a r eof) (grows w0).
Proof. intros G. unfold read_end. grow. Qed.
#[local] Hint Resolve grows_read_end : grow.

Lemma grows_socket_event w0 w fd ev a : grows w0 w -> onwards (socket_event fd ev a w) (grows w0).
Proof. intros G. unfold socket_event, local_socket_event_func, read_half. grow. Qed.

Lemma grows_close_all w0 w t : grows w0 w -> onwards (close_all_sockets w t) (grows w0).
Proof.
  unfold close_all_sockets. generalize (length (w_locals w)). intros fuel. revert w.
  induction fuel as [|fuel IH]; intros w G; cbn [close_all_loop]; grow.
Qed.

Lemma grows_run_disconnects w0 fuel : forall w t dis, grows w0 w -> onwards (run_disconnects run fuel w t dis) (grows w0).
Proof. induction fuel as [|fuel IH]; intros w t dis G; cbn [run_disconnects]; unfold remote_socket_disconnect; grow. Qed.
#[local] Hint Resolve grows_run_disconnects : grow.

Lemma grows_handle_offline w0 w t : grows w0 w -> onwards (handle_offline w t) (grows w0).
Proof. intros G. unfold handle_offline, run_transport_disconnects. grow. Qed.
Lemma grows_create_local_socket w0 w fd : grows w0 w -> onwards (create_local_socket w fd) (fun x => grows w0 x.2).
Proof. intros G. unfold create_local_socket, alloc_sock. grow. Qed.
Lemma grows_attach_remote w0 w a id t : grows w0 w -> onwards (attach_remote w a id t) (grows w0).
Proof. intros G. unfold attach_remote, create_remote_socket, alloc_sock. grow. Qed.
#[local] Hint Resolve grows_handle_offline grows_create_local_socket grows_attach_remote : grow.

(** ** Messages *)

(** What is not part of the daemon's sockets sends nothing that matters here. *)
Record platform_grows (S : platform E) : Prop := PlatformGrows {
  pg_service : forall w0 w name, grows w0 w -> onwards (service_to_fd S name w) (fun x => grows w0 x.2);
  pg_jdwp : forall w0 w, grows w0 w -> onwards (create_jdwp_service_socket S w) (fun x => grows w0 x.2);
  pg_track : forall w0 w, grows w0 w -> onwards (create_jdwp_tracker_service_socket S w) (fun x => grows w0 x.2);
  pg_confirm : forall w0 w key t, grows w0 w -> onwards (adb_auth_confirm_key S key t w) (grows w0)
}.

Lemma parse_prop_out y key : t_out (parse_prop y key) = t_out y.
Proof. unfold parse_prop. destruct (strchr _ _) as [[? ?]|]; [|done]. by repeat case_bool_decide. Qed.

Lemma parse_banner_out banner y : t_out (parse_banner banner y) = t_out y.
Proof.
  unfold parse_banner. destruct (strchr banner _) as [[? cp]|]; [|done]. destruct (strchr cp _) as [[? props]|]; [|done].
  cbn. generalize (strtok_r props Byte.x3b). intros ks. revert y. induction ks as [|k ks IH]; intros y; [done|].
  cbn [fold_left]. by rewrite IH, parse_prop_out.
Qed.

Section Messages.
Context (S : platform E).
Hypothesis HS : platform_grows S.
#[local] Hint Resolve pg_service pg_jdwp pg_track pg_confirm parse_banner_out : grow.

Lemma grows_send_ready w0 w i j t : grows w0 w -> onwards (send_ready w i j t) (grows w0).
Proof. intros G. unfold send_ready. grow. Qed.
Lemma grows_send_close w0 w i j t : grows w0 w -> onwards (send_close w i j t) (grows w0).
Proof. intros G. unfold send_close. grow. Qed.
Lemma grows_send_connect w0 w t : grows w0 w -> onwards (send_connect S w t) (grows w0).
Proof. intros G. unfold send_connect. grow. Qed.
Lemma grows_send_auth w0 w tok t : grows w0 w -> onwards (send_auth_request w tok t) (grows w0).
Proof. intros G. unfold send_auth_request. grow. Qed.
Lemma grows_handle_online w0 w t : grows w0 w -> onwards (handle_online w t) (grows w0).
Proof. intros G. by apply grows_trans. Qed.
#[local] Hint Resolve grows_send_ready grows_send_close grows_send_connect grows_send_auth grows_handle_online : grow.

Lemma grows_verified w0 w t : grows w0 w -> onwards (adb_auth_verified S w t) (grows w0).
Proof. intros G. unfold adb_auth_verified. grow. Qed.
Lemma grows_service_socket w0 w name : grows w0 w -> onwards (create_local_service_socket S name w) (fun x => grows w0 x.2).
Proof. intros G. unfold create_local_service_socket. grow. Qed.
#[local] Hint Resolve grows_verified grows_service_socket : grow.

(** A message other than [A_SYNC] makes the daemon send none. *)
Lemma grows_handle_packet w0 w tok p t : grows w0 w -> not_sync p -> onwards (handle_packet S tok p t w) (grows w0).
Proof.
  intros G Hp. unfold handle_packet. apply onwards_bind, onwards_all. intros x _. rewrite bool_decide_false by done.
  repeat case_bool_decide; try destruct (t_online x); cbn [onwards]; try done.
  all: unfold handle_cnxn, handle_auth, handle_open, handle_okay, handle_clse, handle_wrte; grow.
Qed.

(** An [A_SYNC] is passed on, after what the end of the connection sends. *)
Lemma handle_sync_sends w tok p t : command (msg p) = A_SYNC -> onwards (handle_packet S tok p t w) (fun w' =>
  exists w1 q, grows w w1 /\ outs w' t = (fun l => l ++ [q]) <$> outs w1 t
    /\ command (msg q) = A_SYNC /\ arg0 (msg q) = arg0 (msg p) /\ arg1 (msg q) = arg1 (msg p)
    /\ (arg0 (msg p) <> 0 -> w1 = w)).
Proof.
  intros Hp. unfold handle_packet. apply onwards_bind, onwards_all. intros x _. rewrite bool_decide_true by done.
  assert (Hsend : forall w1, onwards (send_to w1 p (Some t)) (fun w' => exists q, outs w' t = (fun l => l ++ [q]) <$> outs w1 t
    /\ command (msg q) = A_SYNC /\ arg0 (msg q) = arg0 (msg p) /\ arg1 (msg q) = arg1 (msg p))).
  { intros w1. unfold send_to. apply onwards_bind, onwards_all. intros q Hq. apply onwards_bind, onwards_all.
    unfold get_trans. intros y Hy%access_ok. destruct (t_broken y); [done|]. exists q. rewrite (outs_put_trans t y) by done.
    rewrite decide_True by done. unfold outs. rewrite Hy. unfold seal in Hq. inv_ok. by subst. }
  unfold handle_sync. case_bool_decide as Ha.
  - eapply onwards_mono; [apply Hsend|]. intros w' (q & H1 & H2 & H3 & H4). exists w, q. split_and!; auto using grows_refl.
  - apply onwards_bind. eapply onwards_mono; [apply (grows_trans w); [apply grows_refl|done]|]. intros w1 G1.
    apply onwards_bind. eapply onwards_mono; [by apply grows_handle_offline|]. intros w2 G2.
    eapply onwards_mono; [apply Hsend|]. intros w' (q & H1 & H2 & H3 & H4). exists w2, q. split_and!; auto. tauto.
Qed.
End Messages.
End Sends.
