(* ===== verification/DaemonPump.v ===== *)
(** * The daemon behind the threads of a transport

    The main thread of the daemon is a [Dispatcher] (Pump.v): its packets go
    through [handle_packet], its other work are the events of sockets and the
    answers of the user to keys, and the input thread calls
    [close_all_sockets].  Sends.v gives the laws. *)

From S2P Require Import Prelude Packet Pump Fdevent World Sockets SocketsClose HandlePacket Sends.

(** What the main loop does besides the packets of the transport. *)
Inductive daemon_event :=
  | SocketEvent (fd ev : Z) (a : addr)
  | KeyAccepted (u : addr).

Section Daemon.
Context {E : Type} {I : FdEvents E fd_func} (S : platform E) (t : addr).

(** The main thread of the daemon, from the transport [t]. *)
Definition daemon : Dispatcher (world E) daemon_event := {|
  d_out w := default [] (outs w t);
  d_packet tok p w := handle_packet S tok p t w;
  d_event e w :=
    match e with
    | SocketEvent fd ev a => socket_event fd ev a w
    | KeyAccepted u => adb_auth_verified S w u
    end;
  d_close_all w := close_all_sockets w t
|}.

Lemma grows_out (w w' : world E) : grows w w' -> exists k, default [] (outs w' t) = default [] (outs w t) ++ k /\ Forall not_sync k.
Proof.
  intros G. destruct (G t) as (k & -> & Hk). destruct (outs w t) as [l|]; cbn; [by exists k|by exists []].
Qed.

(** The packets of [t] go to an existing transport. *)
Lemma handled_out tok p (w w' : world E) : handle_packet S tok p t w = Ok w' -> is_Some (outs w t).
Proof.
  unfold handle_packet, get_trans, outs. intros H. apply res_bind_ok in H as (x & Hx & _). apply access_ok in Hx. rewrite Hx. by eexists.
Qed.

Lemma daemon_laws : platform_grows S -> DispatcherLaws daemon.
Proof.
  intros HS. split; cbn.
  - intros tok p w Hp. eapply onwards_mono; [apply (grows_handle_packet S HS w); [apply grows_refl|exact Hp]|]. apply grows_out.
  - intros tok p w Hp. pose proof (handle_sync_sends S w tok p t Hp) as H. destruct (handle_packet S tok p t w) as [w'| | |] eqn:Eh; cbn in *; try done.
    destruct H as (w1 & q & G & Hq & H1 & H2 & H3 & _). destruct (handled_out _ _ _ _ Eh) as (l & Hl).
    destruct (G t) as (k & Hk & Hs). rewrite Hl in Hk. cbn in Hk. rewrite Hk in Hq. cbn in Hq. rewrite Hq, Hl. cbn.
    exists k, q, []. rewrite <-app_assoc. split_and!; auto; by apply Forall_nil_2.
  - intros [fd ev a|u] w; (eapply onwards_mono; [|apply grows_out]).
    + apply grows_socket_event, grows_refl.
    + apply (grows_verified S w), grows_refl.
  - intros w. eapply onwards_mono; [apply grows_close_all, grows_refl|]. apply grows_out.
Qed.
End Daemon.
