(* ===== verification/PacketSafe.v ===== *)
(** * The daemon survives its remote

    [handle_packet] keeps the invariant of the sockets for every message, under
    two conditions on the remote that the code does not check: a banner is
    terminated, and data is only sent to streams that are connected. *)

From S2P Require Import Prelude Cstr Rwx Packet Fdevent World Transport Sockets SocketsInv SocketsClose SocketsData.
From S2P Require Import SocketsSmart SocketsEvents SocketsOpen SocketsEnd HandlePacket.

(** The lengths of literals. *)
Ltac lit_len :=
  repeat match goal with
    | |- context [length (lit ?s)] => let n := eval vm_compute in (length (lit s)) in change (length (lit s)) with n
    end.

Section Safe.
Context {E : Type} {I : FdEvents E fd_func} {L : FdEventsLaws E fd_func I}.
Implicit Types (w : world E) (a b t : addr) (s : asocket) (p : apacket).

Abbreviation fde_wants w a := (ev_interest (F := fd_func) (w_ev w) a).

(** Transports are not lost. *)
Definition keeps_trans w w' : Prop := forall u, is_Some (w_trans w !! u) -> is_Some (w_trans w' !! u).

(** A socket that a service answers with. *)
Definition service_socket w a : Prop := exists s, w_socks w !! a = Some s /\ sk_enqueue s = local_enqueue
  /\ sk_peer s = None /\ sk_closing s = false.

(** What the other parts promise: the texts fit, a service opens a descriptor
    that no event watches, or a socket, and the invariant is kept. *)
Record platform_ok (S : platform E) : Prop := PlatformOk {
  po_banner : (length (adb_device_banner S) <= 64)%nat;
  po_prop : forall key, (length (property_get S key) <= 91)%nat;
  po_service : forall name w, wf_world w -> ensures (service_to_fd S name w) (fun r =>
    wf_world r.2 /\ keeps_trans w r.2
    /\ (0 <= r.1 -> r.1 < FD_SETSIZE /\ ev_free_fd (F := fd_func) (w_ev r.2) r.1));
  po_jdwp : forall w, wf_world w -> ensures (create_jdwp_service_socket S w) (fun r =>
    wf_world r.2 /\ keeps_trans w r.2 /\ forall a, r.1 = Some a -> service_socket r.2 a);
  po_track : forall w, wf_world w -> ensures (create_jdwp_tracker_service_socket S w) (fun r =>
    wf_world r.2 /\ keeps_trans w r.2 /\ forall a, r.1 = Some a -> service_socket r.2 a);
  po_confirm : forall key t w, wf_world w -> is_Some (w_trans w !! t) -> ensures (adb_auth_confirm_key S key t w) wf_world
}.

(** A packet as [remote_read] delivers it, whose banner is terminated if it is
    a [CNXN]. *)
Definition packet_in p : Prop :=
  0 <= data_length (msg p) <= MAX_PAYLOAD /\ data_length (msg p) <= Z.of_nat (length (p_data p))
  /\ Z.of_nat (length (p_data p)) <= MAX_PAYLOAD
  /\ (command (msg p) = A_CNXN -> Byte.x00 ∈ p_data p).

(** Data is sent to a stream: the socket has a remote peer. *)
Definition expected w p : Prop := command (msg p) = A_WRTE ->
  forall a s, w_socks w !! a = Some s -> a ∈ w_locals w -> sk_id s = arg1 (msg p) ->
  exists b sb, sk_peer s = Some b /\ w_socks w !! b = Some sb /\ sk_enqueue sb = remote_enqueue.

(** * Theorems *)

Lemma keeps_trans_framed A w w' : framed A w w' -> keeps_trans w w'.
Proof. intros F u [x Hx]. destruct (fr_trans _ _ _ F u x Hx) as (y & Hy & _). by exists y. Qed.

Lemma wf_put_trans w t y y' : wf_world w -> w_trans w !! t = Some y -> t_disconnects y' = t_disconnects y ->
  wf_world (put_trans t y' w).
Proof. intros [B P] Hy Hd. split; [by eapply base_put_trans|by apply (peers_same _ w)]. Qed.

Lemma update_trans_ok w t f : is_Some (w_trans w !! t) -> exists y, w_trans w !! t = Some y
  /\ update_trans w t f = Ok (put_trans t (f y) w).
Proof. intros [y Hy]. exists y. split; [done|]. unfold update_trans, get_trans. by rewrite Hy. Qed.

Lemma put_trans_keeps w t y : keeps_trans w (put_trans t y w).
Proof.
  intros u Hu. wcbn. destruct (decide (t = u)) as [<-|]; [by rewrite lookup_insert_eq|by rewrite lookup_insert_ne].
Qed.

Lemma put_trans_some w t y : is_Some (w_trans (put_trans t y w) !! t).
Proof. wcbn. rewrite lookup_insert_eq. by eexists. Qed.

(** An assignment to a transport that leaves its callbacks. *)
Lemma update_trans_wf w t f : wf_world w -> is_Some (w_trans w !! t) ->
  (forall y, t_disconnects (f y) = t_disconnects y) ->
  ensures (update_trans w t f) (fun w' => wf_world w' /\ is_Some (w_trans w' !! t)).
Proof.
  intros W Ht Hf. destruct (update_trans_ok w t f Ht) as (y & Hy & ->). cbn [ensures].
  split; [by eapply wf_put_trans|apply put_trans_some].
Qed.

Lemma send_wf w p t : wf_world w -> is_Some (w_trans w !! t) -> sealable p ->
  ensures (send_to w p (Some t)) (fun w' => wf_world w' /\ is_Some (w_trans w' !! t)).
Proof.
  intros [B P] Ht Hp. eapply ensures_mono; [|by eapply (send_ok [] w p t)].
  intros w' (B' & F & Hs & _). split; [|by eapply keeps_trans_framed]. split; [done|by eapply peers_same].
Qed.

(** ** Greetings *)

Lemma append_text_ok text buf r : Z.of_nat (length text) < r ->
  append_text text (buf, r) = Ok (buf ++ text, r - Z.of_nat (length text)).
Proof.
  intros Hl. unfold append_text. rewrite bool_decide_false by lia. do 3 f_equal. apply take_ge. lia.
Qed.

(** The text of the banner that is sent. *)
Definition banner_text (banner : bytes) (get : bytes -> bytes) : bytes :=
  banner ++ lit "::" ++ concat (map (fun key => key ++ lit "=" ++ get key ++ lit ";") cnxn_props).

Lemma banner_length banner get : (length banner <= 64)%nat -> (forall key, (length (get key) <= 91)%nat) ->
  (length (banner_text banner get) <= 512)%nat.
Proof.
  intros Hb Hg. pose proof (Hg (lit "ro.product.name")). pose proof (Hg (lit "ro.product.model")).
  pose proof (Hg (lit "ro.product.device")). unfold banner_text, cnxn_props. cbn [map concat].
  rewrite !length_app. lit_len. cbn [length]. lia.
Qed.

Lemma fill_connect_data_ok banner get size : Z.of_nat (length (banner_text banner get)) < size ->
  fill_connect_data banner get size = Ok (banner_text banner get, Z.of_nat (length (banner_text banner get)) + 1).
Proof.
  unfold banner_text, cnxn_props. cbn [map concat]. rewrite !length_app, app_nil_r. intros Hl.
  unfold fill_connect_data, cnxn_props. cbn [foldl].
  repeat (rewrite append_text_ok by (rewrite ?length_app; lia); cbn [res_bind]).
  cbn [fst snd]. do 2 f_equal; [by rewrite <-!app_assoc|rewrite !length_app; cbn [length]; lia].
Qed.

Lemma send_connect_wf S w t : platform_ok S -> wf_world w -> is_Some (w_trans w !! t) ->
  ensures (send_connect S w t) (fun w' => wf_world w' /\ is_Some (w_trans w' !! t)).
Proof.
  intros O W Ht. unfold send_connect.
  pose proof (banner_length (adb_device_banner S) (property_get S) (po_banner _ O) (po_prop _ O)) as Hl.
  rewrite fill_connect_data_ok by (unfold MAX_PAYLOAD; lia). cbn [res_bind].
  apply send_wf; [done..|]. apply sealable_data; [unfold MAX_PAYLOAD; lia|]. rewrite length_app. cbn [length]. lia.
Qed.

Lemma send_auth_request_wf w tok t : wf_world w -> is_Some (w_trans w !! t) ->
  (forall k, tok = Some k -> length k = TOKEN_SIZE) ->
  ensures (send_auth_request w tok t) (fun w' => wf_world w' /\ is_Some (w_trans w' !! t)).
Proof.
  intros W Ht Hk. destruct tok as [k|]; cbn [send_auth_request]; [|done]. apply ensures_bind.
  eapply ensures_mono; [|by apply (update_trans_wf w t (with_token k))]. intros w' [W' Ht'].
  specialize (Hk k eq_refl). apply send_wf; [done..|]. apply sealable_data; [|lia].
  rewrite Hk. unfold TOKEN_SIZE, MAX_PAYLOAD. lia.
Qed.

Lemma handle_offline_wf w t : wf_world w -> is_Some (w_trans w !! t) ->
  ensures (handle_offline w t) (fun w' => wf_world w' /\ is_Some (w_trans w' !! t)).
Proof.
  intros W Ht. unfold handle_offline. apply ensures_bind.
  eapply ensures_mono; [|by apply (update_trans_wf w t (with_online false))]. intros w' [W' [y Hy]].
  unfold run_transport_disconnects, get_trans. rewrite Hy. cbn [access res_bind].
  eapply ensures_mono; [|by eapply run_disconnects_ok]. intros w2 (W2 & (y2 & Hy2 & _) & _). split; [done|by exists y2].
Qed.

(** ** Finding a socket *)

Lemma local_listed w a : wf_world w -> a ∈ w_locals w ->
  exists s, w_socks w !! a = Some s /\ sk_enqueue s = local_enqueue /\ sk_closing s = false.
Proof.
  intros W Hin. destruct (proj1 (b_listed _ _ (proj1 W) a)) as (s & Ha & Hk); [apply elem_of_app; by left|].
  exists s. split_and!; try done. pose proof (b_sock _ _ (proj1 W) a s Ha (not_elem_of_nil _)) as Hs.
  unfold sock_ok in Hs. rewrite Hk in Hs. destruct (sk_closing s) eqn:Ho; [|done].
  apply (lo_list _ _ _ Hs) in Ho. pose proof (b_nodup _ _ (proj1 W)) as Hnd. apply NoDup_app in Hnd as (_ & Hd & _).
  by destruct (Hd a Hin).
Qed.

(** [find_local_socket] answers with a live socket that has the id, if any. *)
Lemma find_local_ok w id : wf_world w -> exists o, find_local_socket w id = Ok o /\
  match o with
  | Some a => exists s, a ∈ w_locals w /\ w_socks w !! a = Some s /\ sk_enqueue s = local_enqueue
                /\ sk_closing s = false /\ sk_id s = id
  | None => forall a s, a ∈ w_locals w -> w_socks w !! a = Some s -> sk_id s <> id
  end.
Proof.
  intros W. unfold find_local_socket.
  assert (forall a, a ∈ w_locals w -> a ∈ w_locals w) as Hsub by done. revert Hsub.
  generalize (w_locals w) at 1 3 5. intros l. induction l as [|a l IH]; intros Hsub.
  { exists None. split; [done|]. by intros a s Ha%elem_of_nil. }
  destruct (local_listed w a W) as (s & Ha & Hk & Ho); [apply Hsub; by left|].
  rewrite (get_sock_ok _ _ _ Ha). cbn [res_bind]. case_bool_decide as Hid.
  - exists (Some a). split; [done|]. exists s. split_and!; try done. apply Hsub. by left.
  - destruct IH as (o & -> & Hres); [intros b Hb; apply Hsub; by right|]. exists o. split; [done|].
    destruct o as [b|]; [done|]. intros b sb [->|Hb]%elem_of_cons Hsb; [congruence|by eapply Hres].
Qed.

(** ** Messages of streams *)

Lemma handle_clse_wf w p : wf_world w -> ensures (handle_clse p w) wf_world.
Proof.
  intros W. unfold handle_clse. destruct (find_local_ok w (arg1 (msg p)) W) as (o & -> & Ho). cbn [res_bind].
  destruct o as [a|]; [|done]. destruct Ho as (s & _ & Ha & Hk & _). apply ensures_bind.
  destruct (wf_closable w a s W Ha) as [Hc Hp].
  eapply ensures_mono; [|exact (close_any 4 [] w a s (base_open _ _ _ (proj1 W)) Ha Hc Hp)].
  intros [v w'] C. eapply closes_wf; [done|exact C|]. by apply family_closed; [apply W|].
Qed.

(** What [enqueue] leaves of a stream. *)
Lemma stream_enqueue_wf w a s p b sb : wf_world w -> w_socks w !! a = Some s -> sk_enqueue s = local_enqueue ->
  sk_closing s = false -> sk_peer s = Some b -> w_socks w !! b = Some sb -> sk_enqueue sb = remote_enqueue ->
  pkt_ok (set_ptr 0 p) ->
  ensures (run (CEnqueue a p) w) (fun r => wf_world r.2 /\ keeps_trans w r.2
    /\ ((delivered w a s (rest (set_ptr 0 p)) r.2 /\ w_trans r.2 = w_trans w
          /\ forall s', w_socks r.2 !! a = Some s' -> r.1 = if bool_decide (sk_pkts s' = []) then 0 else 1)
        \/ (r.1 = 1 /\ closes [] (family a s) (last_words w s).1 (last_words w s).2 w r.2))).
Proof.
  intros W Ha Hk Ho Hb Hsb Hkb Hp. unfold run, exec_depth. cbn [exec dispatch].
  rewrite (get_sock_ok _ _ _ Ha). cbn [res_bind]. rewrite Hk.
  pose proof (b_sock _ _ (proj1 W) a s Ha (not_elem_of_nil _)) as Hs. unfold sock_ok in Hs. rewrite Hk in Hs.
  assert (streaming w a s) as St.
  { destruct Hs as [[Hf|(_ & _ & _ & ?)] Hpk _ Hc Hl]; [|congruence]. split; try done. intros ?%Hl. congruence. }
  eapply ensures_mono; [|apply (local_enqueue_ok 3 [] w a s p); [apply W|apply not_elem_of_nil|done..| |done]].
  2:{ intros b' Hb'. assert (b' = b) as -> by congruence. exists sb. by apply wf_pair_of. }
  intros [v w'] [(B' & F' & Ht & D & Hv)|(Hv & C)]; cbn [fst snd] in *.
  - destruct D as (s' & Hs' & He & D). split; [|split].
    + split; [done|]. rewrite He in Hs'. eapply (stream_peers w w' a s); try done. right. by exists b, sb.
    + by eapply keeps_trans_framed.
    + left. split_and!; [|done|done]. exists s'. by split_and!.
  - split; [|split; [eapply keeps_trans_framed; apply C|by right]].
    eapply closes_wf; [done|exact C|]. by apply family_closed; [apply W|].
Qed.

Lemma handle_wrte_wf w p t : wf_world w -> is_Some (w_trans w !! t) -> packet_in p -> command (msg p) = A_WRTE ->
  expected w p -> ensures (handle_wrte p t w) wf_world.
Proof.
  intros W Ht (Hl1 & Hl2 & _) Hc Hex. unfold handle_wrte.
  destruct (find_local_ok w (arg1 (msg p)) W) as (o & -> & Hres). cbn [res_bind].
  destruct o as [a|]; [|done]. destruct Hres as (s & Hin & Ha & Hk & Ho & Hid).
  destruct (Hex Hc a s Ha Hin Hid) as (b & sb & Hb & Hsb & Hkb). apply ensures_bind.
  eapply ensures_mono; [|eapply (stream_enqueue_wf w a s _ b sb); try done].
  - intros [v w'] (W' & Htr & Hs'). cbn [fst snd] in *. case_bool_decide as Hv; [|done].
    destruct Hs' as [((s' & Ha' & _) & _)|[? _]]; [|lia]. rewrite (get_sock_ok _ _ _ Ha'). cbn [res_bind].
    eapply ensures_mono; [|apply (send_wf w' _ t); [done|by apply Htr|apply sealable_header]]. by intros ? [? _].
  - split; cbn; lia.
Qed.

Lemma handle_okay_wf w p t : wf_world w -> is_Some (w_trans w !! t) -> ensures (handle_okay p t w) wf_world.
Proof.
  intros W Ht. unfold handle_okay. destruct (find_local_ok w (arg1 (msg p)) W) as (o & -> & Hres). cbn [res_bind].
  destruct o as [a|]; [|done]. destruct Hres as (s & _ & Ha & Hk & Ho & _).
  rewrite (get_sock_ok _ _ _ Ha). cbn [res_bind]. case_bool_decide as Hp.
  - destruct (attach_remote_ok w a s (arg0 (msg p)) t W Ha Hk Hp Ho Ht) as (w' & -> & K & _). cbn [res_bind].
    apply ensures_bind. eapply ensures_mono; [|exact (linked_ready 6 w' a _ K)]. by intros [v w2] (W2 & _).
  - cbn [res_bind]. apply ensures_bind. unfold run, exec_depth. cbn [exec dispatch].
    rewrite (get_sock_ok _ _ _ Ha). cbn [res_bind].
    pose proof (b_sock _ _ (proj1 W) a s Ha (not_elem_of_nil _)) as Hs. unfold sock_ok in Hs. rewrite Hk in Hs.
    destruct (lo_fns _ _ _ Hs) as [[-> _]|(_ & _ & _ & ?)]; [|done].
    destruct (local_ready_ok [] w a s) as (e & -> & B & F & _); [apply W|apply not_elem_of_nil|done..|].
    split; [done|]. by eapply peers_same; [|apply W].
Qed.

(** ** Opening a service *)

Lemma exit_on_close_wf w a s : wf_world w -> w_socks w !! a = Some s -> sk_enqueue s = local_enqueue ->
  sk_peer s = None -> wf_world (put_sock a (with_exit_on_close true s) w).
Proof.
  intros [B P] Ha Hk Hp. split.
  - apply (base_done _ _ a); [by eapply base_put; [apply base_open|..]|]. intros s0 Hs0. wcbn.
    rewrite lookup_insert_eq in Hs0. injection Hs0 as <-.
    apply (sock_ok_frame w); [done..|]. pose proof (b_sock _ _ B a s Ha (not_elem_of_nil _)) as Hs.
    unfold sock_ok in *. cbn [with_exit_on_close sk_enqueue]. rewrite Hk in *. by destruct Hs.
  - eapply peers_put; try done.
    + pose proof (P a s Ha (not_elem_of_nil _)) as Hpa. unfold peer_ok in *. cbn. by rewrite Hp in *.
    + intros _. right. congruence.
Qed.

Lemma create_service_wf S w name : platform_ok S -> wf_world w ->
  ensures (create_local_service_socket S name w) (fun r => wf_world r.2 /\ keeps_trans w r.2
    /\ forall a, r.1 = Some a -> service_socket r.2 a).
Proof.
  intros O W. unfold create_local_service_socket. case_bool_decide; [by apply po_jdwp|].
  case_bool_decide; [by apply po_track|]. apply ensures_bind. eapply ensures_mono; [|by apply po_service].
  intros [fd w1] (W1 & Ht1 & Hfd). cbn [fst snd] in *. case_bool_decide as Hneg; [done|].
  destruct Hfd as [Hle Hfree]; [lia|]. destruct (create_local_ok w1 fd W1) as (e & -> & W2); [lia|done|]. cbn [res_bind].
  assert (w_socks (with_local w1 fd e) !! w_brk w1 = Some (fresh_local (w_next_id w1) fd)) as Hn.
  { unfold with_local. wcbn. apply lookup_insert_eq. }
  destruct (_ || _).
  - rewrite (update_sock_ok _ _ _ _ Hn). cbn [res_bind ensures fst snd]. split_and!; [by eapply exit_on_close_wf|done|].
    intros a [= <-]. eexists. split; [wcbn; apply lookup_insert_eq|done].
  - cbn [res_bind ensures fst snd]. split_and!; [done..|]. intros a [= <-]. by eexists.
Qed.

(** A message does not disturb a socket that was just linked. *)
Lemma linked_send w a s c i j t : linked w a s -> is_Some (w_trans w !! t) ->
  ensures (send_to w (set_header c i j get_apacket) (Some t)) (fun w' => linked w' a s).
Proof.
  intros [B P Ha Hk Hf Ho Hl Hq (i0 & Hi & Hw)] Ht. eapply ensures_mono; [|by apply (send_header_ok [a] w)].
  intros w' (B' & F & Hs & _ & He & _). split; try done; [by eapply peers_same|by rewrite Hs| |].
  - rewrite (fr_closing _ _ _ F); [done|apply not_elem_of_nil].
  - exists i0. by rewrite He.
Qed.

Lemma handle_open_wf S w p t : platform_ok S -> wf_world w -> is_Some (w_trans w !! t) -> packet_in p ->
  ensures (handle_open S p t w) wf_world.
Proof.
  intros O W Ht (Hl1 & Hl2 & Hl3 & _). unfold handle_open.
  set (last := if bool_decide (data_length (msg p) > 0) then data_length (msg p) - 1 else 0).
  assert (0 <= last < MAX_PAYLOAD /\ last <= Z.of_nat (length (p_data p))) as [Hr1 Hr2].
  { unfold last, MAX_PAYLOAD in *. case_bool_decide; lia. }
  unfold store_data. rewrite bool_decide_true by (cbn [length]; lia). cbn [res_bind p_data app].
  destruct (c_string_nul (take (Z.to_nat last) (p_data p))) as (name & _ & Hname).
  rewrite Hname. cbn [res_bind]. apply ensures_bind. eapply ensures_mono; [|by apply create_service_wf].
  intros [o w1] (W1 & Htr & Hsock). cbn [fst snd] in *. destruct o as [a|].
  2:{ eapply ensures_mono; [|apply (send_wf w1 _ t); [done|by apply Htr|apply sealable_header]]. by intros ? [? _]. }
  destruct (Hsock a eq_refl) as (s & Ha & Hk & Hp & Ho).
  destruct (attach_remote_ok w1 a s (arg0 (msg p)) t W1 Ha Hk Hp Ho) as (w2 & -> & K & Hs2 & _ & Htr2 & _); [by apply Htr|].
  cbn [res_bind]. rewrite (get_sock_ok _ _ _ (lk_sock _ _ _ K)). cbn [res_bind with_peer sk_peer peer_of access].
  assert (w_brk w1 <> a) as Hna. { destruct (brk_free [] w1 (proj1 W1)) as (Hn & _). intros <-. congruence. }
  rewrite (get_sock_ok w2 (w_brk w1) (fresh_remote (arg0 (msg p)) t (Some a)))
    by (by rewrite Hs2, lookup_insert_ne, lookup_insert_eq by (by apply not_eq_sym)).
  cbn [res_bind]. apply ensures_bind. eapply ensures_mono; [|apply (linked_send w2 a _ _ _ _ t K); by apply Htr2, Htr].
  intros w3 K3. apply ensures_bind. eapply ensures_mono; [|exact (linked_ready 6 w3 a _ K3)]. by intros [v w4] (W4 & _).
Qed.

(** ** Messages of the connection *)

Lemma handle_sync_wf w p t : wf_world w -> is_Some (w_trans w !! t) -> packet_in p ->
  ensures (handle_sync p t w) wf_world.
Proof.
  intros W Ht (Hl1 & Hl2 & _). assert (sealable p) as Hs by (by split). unfold handle_sync.
  assert (forall w', wf_world w' -> is_Some (w_trans w' !! t) -> ensures (send_to w' p (Some t)) wf_world) as Hsend.
  { intros w' W' Ht'. eapply ensures_mono; [|by apply send_wf]. by intros ? [? _]. }
  case_bool_decide; [by apply Hsend|]. apply ensures_bind.
  eapply ensures_mono; [|by apply (update_trans_wf w t)]. intros w1 [W1 Ht1]. apply ensures_bind.
  eapply ensures_mono; [|by apply handle_offline_wf]. intros w2 [W2 Ht2]. by apply Hsend.
Qed.

Lemma parse_prop_disconnects y key : t_disconnects (parse_prop y key) = t_disconnects y.
Proof. unfold parse_prop. destruct (strchr _ _) as [[? ?]|]; [|done]. by repeat case_bool_decide. Qed.

Lemma parse_banner_disconnects banner y : t_disconnects (parse_banner banner y) = t_disconnects y.
Proof.
  unfold parse_banner. destruct (strchr banner _) as [[? cp]|]; [|done]. destruct (strchr cp _) as [[? props]|]; [|done].
  cbn. generalize (strtok_r props Byte.x3b). intros ks. revert y. induction ks as [|k ks IH]; intros y; [done|].
  cbn [fold_left]. by rewrite IH, parse_prop_disconnects.
Qed.

Lemma c_string_in buf : Byte.x00 ∈ buf -> exists str, c_string buf = Ok str.
Proof.
  intros (l1 & l2 & ->)%list_elem_of_split. destruct (c_string_nul l1) as (s & _ & Hs). exists s. apply Hs.
Qed.

Lemma handle_cnxn_wf S w tok p t : platform_ok S -> wf_world w -> is_Some (w_trans w !! t) -> packet_in p ->
  command (msg p) = A_CNXN -> (forall k, tok = Some k -> length k = TOKEN_SIZE) ->
  ensures (handle_cnxn S tok p t w) wf_world.
Proof.
  intros O W Ht (_ & _ & _ & Hnul) Hc Hk. unfold handle_cnxn. destruct Ht as [y Hy]. unfold get_trans. rewrite Hy.
  cbn [access res_bind]. apply ensures_bind.
  apply (ensures_mono _ (fun w1 => wf_world w1 /\ is_Some (w_trans w1 !! t))).
  2:{ case_bool_decide; [|by cbn; eauto]. apply ensures_bind.
      eapply ensures_mono; [|by apply (update_trans_wf w t); [|eexists|]]. intros w1 [W1 Ht1]. by apply handle_offline_wf. }
  intros w1 [W1 Ht1]. destruct (c_string_in _ (Hnul Hc)) as (banner & ->). cbn [res_bind]. apply ensures_bind.
  eapply ensures_mono; [|by apply (update_trans_wf w1 t (parse_banner banner)); [| |apply parse_banner_disconnects]].
  intros w2 [W2 Ht2]. destruct (auth_enabled S).
  - eapply ensures_mono; [|by apply send_auth_request_wf]. by intros ? [? _].
  - apply ensures_bind. eapply ensures_mono; [|by apply (update_trans_wf w2 t (with_online true))].
    intros w3 [W3 Ht3]. eapply ensures_mono; [|by apply send_connect_wf]. by intros ? [? _].
Qed.

Lemma data_prefix_in p : packet_in p -> exists bs, data_prefix p (data_length (msg p)) = Ok bs.
Proof. intros (H1 & H2 & _). unfold data_prefix. rewrite bool_decide_true by lia. by eexists. Qed.

Lemma handle_auth_wf S w tok p t : platform_ok S -> wf_world w -> is_Some (w_trans w !! t) -> packet_in p ->
  (forall k, tok = Some k -> length k = TOKEN_SIZE) -> ensures (handle_auth S tok p t w) wf_world.
Proof.
  intros O W Ht Hp Hk. destruct (data_prefix_in p Hp) as [bs Hbs]. unfold handle_auth.
  case_bool_decide.
  { eapply ensures_mono; [|by apply (update_trans_wf w t (with_connection_state CS_UNAUTHORIZED))]. by intros ? [? _]. }
  case_bool_decide.
  - destruct Ht as [y Hy]. unfold get_trans. rewrite Hy, Hbs. cbn [access res_bind].
    destruct (adb_auth_verify S _ _).
    + apply ensures_bind. unfold adb_auth_verified, handle_online. apply ensures_bind.
      eapply ensures_mono; [|by apply (update_trans_wf w t (with_online true)); [|eexists|]]. intros w1 [W1 Ht1].
      eapply ensures_mono; [|by apply send_connect_wf]. intros w2 [W2 Ht2].
      eapply ensures_mono; [|by apply (update_trans_wf w2 t (with_failed 0))]. by intros ? [? _].
    + apply ensures_bind. eapply ensures_mono; [|apply (update_trans_wf w t); [done|by eexists|done]].
      intros w1 [W1 Ht1]. eapply ensures_mono; [|by apply send_auth_request_wf]. by intros ? [? _].
  - case_bool_decide; [|done]. rewrite Hbs. cbn [res_bind]. by apply (po_confirm _ O).
Qed.


End Safe.
