(* ===== verification/HostRequest.v ===== *)
(** * Requests to the server itself (sockets.c, adb.c, commandline.c)

    In a build with [ADB_HOST] a request that starts with [host] is for the
    server: how clients spell the device they mean, how the smart socket reads
    it back, the listing of devices, and what the server does for each request.
    The sockets are those of Sockets.v, the choice of a transport that of
    Transport.v, the forwarded ports those of Listeners.v. *)

From S2P Require Import Listeners.
From S2P Require Import Prelude Cstr Rwx Packet Fdevent World Transport Sockets SocketsInv SocketsClose SocketsSmart HandlePacket PacketSafe.

Definition colon : byte := Byte.x3a.

(** ** The device of a request *)

Definition is_dec (b : byte) : bool := bool_decide (48 <= ub b <= 57).

Fixpoint span_digits (s : bytes) : bytes * bytes :=
  match s with
  | [] => ([], [])
  | b :: s' => if is_dec b then let '(d, r) := span_digits s' in (b :: d, r) else ([], s)
  end.

Definition prefixes : list bytes := [lit "usb:"; lit "product:"; lit "model:"; lit "device:"].

Fixpoint matching_prefix (ps : list bytes) (service : bytes) : option bytes :=
  match ps with
  | [] => None
  | p :: ps => if starts_with p service then Some p else matching_prefix ps service
  end.

(** [skip_host_serial]: what precedes and what follows the colon that ends the
    serial. *)
Definition skip_host_serial (service : bytes) : option (bytes * bytes) :=
  match matching_prefix prefixes service with
  | Some p =>
      match strchr (drop (length p) service) colon with
      | Some (l, r) => Some (p ++ l, r)
      | None => None
      end
  | None =>
      match strchr service colon with
      | None => None
      | Some (l, r) =>
          match span_digits r with
          | ((_ :: _) as d, c :: r') => if bool_decide (c = colon) then Some (l ++ colon :: d, r') else Some (l, r)
          | _ => Some (l, r)
          end
      end
  end.

(** The part of [smart_socket_enqueue] for a server: the request, the kind of
    transport and the serial; [None] when it is not for the server. *)
Definition host_request (service : bytes) : option (bytes * transport_type * option bytes) :=
  let rest p := drop (length (lit p)) service in
  if starts_with (lit "host-serial:") service then
    match skip_host_serial (rest "host-serial:") with
    | Some (serial, service) => Some (service, kTransportAny, Some serial)
    | None => Some (rest "host-serial:", kTransportAny, None)
    end
  else if starts_with (lit "host-usb:") service then Some (rest "host-usb:", kTransportUsb, None)
  else if starts_with (lit "host-local:") service then Some (rest "host-local:", kTransportLocal, None)
  else if starts_with (lit "host:") service then Some (rest "host:", kTransportAny, None)
  else None.

(** commandline.c: [format_host_command], in a buffer of [buflen] bytes. *)
Definition format_host_command (buflen : nat) (command : bytes) (ttype : transport_type) (serial : option bytes) : bytes :=
  take (buflen - 1)
    match serial with
    | Some serial => lit "host-serial:" ++ serial ++ colon :: command
    | None =>
        let prefix := match ttype with kTransportUsb => lit "host-usb" | kTransportLocal => lit "host-local" | _ => lit "host" end in
        prefix ++ colon :: command
    end.

(** ** The long listing of devices (transport.c) *)

(** [snprintf(buf, remaining, "%s", s)] at a place with [room] bytes to the end
    of the array, [remaining] being [room] as a [size_t]; the result is the text
    and the room behind it.  What does not fit is not written, but counts. *)
Definition print_at (st : bytes * Z) (s : bytes) : res (bytes * Z) :=
  let '(text, room) := st in
  let after := (text ++ s, room - Z.of_nat (length s)) in
  if bool_decide (u32 room = 0) then Ok after else if bool_decide (room < 0) then Ub else Ok after.

(** [add_qual]; the loop over the characters of the qualifier goes over those
    that were not written as well. *)
Definition add_qual (st : bytes * Z) (prefix : bytes) (qual : option bytes) (sanitize_qual : bool) : res (bytes * Z) :=
  match qual with
  | None | Some [] => Ok st
  | Some q =>
      if bool_decide (u32 st.2 = 0) then Ok st
      else if sanitize_qual && bool_decide (st.2 < Z.of_nat (length (prefix ++ q))) then Ub
      else print_at st (prefix ++ (if sanitize_qual then sanitize q else q))
  end.

(** [%-22s] *)
Definition pad22 (s : bytes) : bytes := s ++ replicate (22 - length s) Byte.x20.

Definition shown_serial (t : atransport) : bytes :=
  match t_serial t with None | Some [] => lit "????????????" | Some s => s end.

(** [format_transport(t, buf, bufsize, 1)], with [room] bytes at [buf]: the text
    and the room that is left. *)
Definition format_transport_long (t : atransport) (room : Z) : res (bytes * Z) :=
  let* st := print_at ([], room) (pad22 (shown_serial t) ++ [Byte.x20] ++ statename t) in
  let* st := add_qual st [Byte.x20] (t_devpath t) false in
  let* st := add_qual st (lit " product:") (t_product t) false in
  let* st := add_qual st (lit " model:") (t_model t) true in
  let* st := add_qual st (lit " device:") (t_device t) false in
  print_at st [Byte.x0a].

(** [list_transports(buf, bufsize, 1)], from a place with [room] bytes left. *)
Fixpoint list_long (ts : list (addr * atransport)) (room : Z) : res bytes :=
  match ts with
  | [] => Ok []
  | (_, t) :: ts =>
      let* ' (line, behind) := format_transport_long t room in
      if bool_decide (behind <= 0) then Ok [] else let* rest := list_long ts behind in Ok (line ++ rest)
  end.

(** ** The requests (adb.c) *)

Definition connection_state_name (t : option atransport) : bytes :=
  lit match t with
      | None => "unknown"
      | Some t =>
          let c := t_connection_state t in
          if bool_decide (c = CS_BOOTLOADER) then "bootloader"
          else if bool_decide (c = CS_DEVICE) then "device"
          else if bool_decide (c = CS_RECOVERY) then "recovery"
          else if bool_decide (c = CS_SIDELOAD) then "sideload"
          else if bool_decide (c = CS_OFFLINE) then "offline"
          else if bool_decide (c = CS_UNAUTHORIZED) then "unauthorized"
          else "unknown"
      end%string.

Definition ADB_SERVER_VERSION : Z := 31.

(** [%04x] of any number: at least four digits. *)
Fixpoint hex_digits (fuel : nat) (n : Z) (rest : bytes) : bytes :=
  match fuel with
  | O => rest
  | S fuel => let rest := hex_char (n mod 16) :: rest in if bool_decide (n < 16) then rest else hex_digits fuel (n / 16) rest
  end.
Definition hex04 (n : Z) : bytes := if bool_decide (n < 0x10000) then hex4 n else hex_digits 8 n [].

(** What the requests do outside of the state below: [local_connect], and the
    reference that [unregister_transport] gives up (TransportLife.v). *)
Inductive effect := LocalConnect (port : Z) | Unreferenced (t : addr).

Section HostRequest.
Context {E E' : Type} {I : FdEvents E fd_func} {I' : FdEvents E' listener_func}.

Record host := Host {
  h_world : world E;
  h_listeners : lstate (E := E');
  h_effects : list effect
}.
Implicit Types (h : host) (w : world E).

Definition with_world w h : host := Host w (h_listeners h) (h_effects h).
Definition with_listeners (ls : lstate) h : host := Host (h_world h) ls (h_effects h).
Definition effect_of (e : effect) h : host := Host (h_world h) (h_listeners h) (h_effects h ++ [e]).

Definition reply (fd : Z) (text : bytes) h : res host :=
  let* ' (_, w) := fd_writex (h_world h) fd text in Ok (with_world w h).
Definition fail (fd : Z) (reason : bytes) h : res host :=
  let* ' (_, w) := sendfailmsg (h_world h) fd reason in Ok (with_world w h).

(** [snprintf(buf, sizeof(buf), "OKAY%04x%s", strlen(text), text)] with a
    buffer of 4096 bytes. *)
Definition okay_text (text : bytes) : bytes := take 4095 (lit "OKAY" ++ hex4 (Z.of_nat (length text)) ++ text).
Definition answer (fd : Z) (text : bytes) h : res (Z * host) :=
  let* h := reply fd (okay_text text) h in Ok (0, h).

(** [acquire_one_transport(CS_ANY, ...)], which does not wait. *)
Definition acquire (ttype : transport_type) (serial : option bytes) h : res ((addr * atransport) + acquire_error) :=
  acquire_one_transport CS_ANY ttype serial [transports (h_world h)].
Definition acquired (ttype : transport_type) (serial : option bytes) h : res (option atransport) :=
  let* r := acquire ttype serial h in Ok (match r with inl (_, t) => Some t | inr _ => None end).

Definition serial_of h (t : addr) : option bytes := match w_trans (h_world h) !! t with Some x => t_serial x | None => None end.

(** *** transport *)

Definition request_transport (service : bytes) (serial : option bytes) (fd : Z) (s : addr) h : res (Z * host) :=
  let '(type, serial) :=
    if starts_with (lit "transport-usb") service then (kTransportUsb, serial)
    else if starts_with (lit "transport-local") service then (kTransportLocal, serial)
    else if starts_with (lit "transport-any") service then (kTransportAny, serial)
    else if starts_with (lit "transport:") service then (kTransportAny, Some (drop 10 service))
    else (kTransportAny, serial) in
  let* r := acquire type serial h in
  let* h :=
    match r with
    | inl (t, _) =>
        let* w := update_sock (h_world h) s (World.with_transport (Some t)) in
        let* ' (_, w) := fd_write w fd (lit "OKAY") in
        Ok (with_world w h)
    | inr err => fail fd (error_text err) h
    end in
  Ok (1, h).

(** *** devices *)

Definition list_devices (use_long : bool) h : res bytes :=
  let ts := transports (h_world h) in
  if use_long then list_long ts 4096 else Ok (list_transports ts 4096).

(** *** disconnect *)

(** The rings and the counter of references are in TransportLife.v. *)
Definition drop_transport (t : addr) w : res (world E) :=
  let w := World (w_socks w) (w_trans w) (filter (fun a => a <> t) (w_transport_list w)) (w_locals w) (w_closing w)
             (w_next_id w) (w_ev w) (w_io w) (w_brk w) in
  update_trans w t (fun x => (Transport.kick_transport x).2).
Definition unregister_transport (t : addr) h : res host :=
  let* w := drop_transport t (h_world h) in Ok (effect_of (Unreferenced t) (with_world w h)).

Fixpoint unregister_all (ts : list addr) h : res host :=
  match ts with
  | [] => Ok h
  | t :: ts => let* h := unregister_transport t h in unregister_all ts h
  end.

(** [adb_port] of the transports of emulators. *)
Context (adb_port : addr -> Z).
Definition unregister_all_tcp_transports h : res host :=
  unregister_all (map fst (filter (fun x => t_type x.2 = kTransportLocal /\ adb_port x.1 = 0) (transports (h_world h)))) h.

Definition find_transport (serial : bytes) h : option addr :=
  fst <$> List.find (fun x => same_string serial (t_serial x.2)) (transports (h_world h)).

Definition request_disconnect (serial : bytes) (fd : Z) h : res (Z * host) :=
  match serial with
  | [] => let* h := unregister_all_tcp_transports h in answer fd [] h
  | _ =>
      let serial := match strchr serial colon with Some _ => serial | None => take 98 (serial ++ lit ":5555") end in
      match find_transport serial h with
      | Some t => let* h := unregister_transport t h in answer fd [] h
      | None => answer fd (take 4095 (lit "No such device " ++ serial)) h
      end
  end.

(** *** forward *)

Definition request_list_forward (fd : Z) h : res (Z * host) :=
  let* ' (_, size) := format_listeners (serial_of h) (h_listeners h) None in
  let* ' (text, _) := format_listeners (serial_of h) (h_listeners h) (Some (size + 1)) in
  let* h := reply fd (take 8 (lit "OKAY" ++ hex04 size)) h in
  let* h := reply fd text h in
  Ok (0, h).

Definition install_message (r : Z) : bytes :=
  lit (if bool_decide (r = INSTALL_STATUS_CANNOT_BIND) then "cannot bind to socket"
       else if bool_decide (r = INSTALL_STATUS_CANNOT_REBIND) then "cannot rebind existing socket"
       else "internal error").

(** [bind] is [local_name_to_fd], [new] the address of a new listener. *)
Context (bind : bytes -> Z) (new : addr).

Definition malformed : bytes := lit "malformed forward spec".

(** [service] is what follows [forward:]. *)
Definition request_forward (service : bytes) (ttype : transport_type) (serial : option bytes) (fd : Z) h : res (Z * host) :=
  let '(no_rebind, local) := if starts_with (lit "norebind:") service then (true, drop 9 service) else (false, service) in
  match strchr local Byte.x3b with
  | None => let* h := fail fd malformed h in Ok (0, h)
  | Some (local, remote) =>
      if bool_decide (local = [] \/ remote = []) || starred remote then let* h := fail fd malformed h in Ok (0, h)
      else
        let* r := acquire ttype serial h in
        match r with
        | inr err => let* h := fail fd (error_text err) h in Ok (0, h)
        | inl (t, _) =>
            let* ' (r, ls) := install_listener local remote (Some t) no_rebind new (bind local) (h_listeners h) in
            let h := with_listeners ls h in
            let* h := if bool_decide (r = 0) then reply fd (lit "OKAYOKAY") h else fail fd (install_message r) h in
            Ok (0, h)
        end
  end.

(** [local] is what follows [killforward:]. *)
Definition request_kill_forward (local : bytes) (ttype : transport_type) (serial : option bytes) (fd : Z) h : res (Z * host) :=
  if bool_decide (local = []) then let* h := fail fd malformed h in Ok (0, h)
  else
    let* r := acquire ttype serial h in
    match r with
    | inr err => let* h := fail fd (error_text err) h in Ok (0, h)
    | inl _ =>
        let* ' (r, ls) := remove_listener (h_listeners h) local in
        let h := with_listeners ls h in
        let* h := if bool_decide (r = 0) then reply fd (lit "OKAYOKAY") h else fail fd (lit "cannot remove listener") h in
        Ok (0, h)
    end.

(** *** All of them *)

Definition string_or_unknown (s : option bytes) : bytes := default (lit "unknown") s.

Definition handle_host_request (service : bytes) (ttype : transport_type) (serial : option bytes) (fd : Z) (s : addr) h : res (Z * host) :=
  if bool_decide (service = lit "kill") then
    let* ' (_, _) := fd_write (h_world h) fd (lit "OKAY") in Exit
  else if starts_with (lit "transport") service then request_transport service serial fd s h
  else if bool_decide (service = lit "devices" \/ service = lit "devices-l") then
    let* text := list_devices (bool_decide (service = lit "devices-l")) h in answer fd text h
  else if starts_with (lit "disconnect:") service then request_disconnect (drop 11 service) fd h
  else if bool_decide (service = lit "version") then answer fd (hex04 ADB_SERVER_VERSION) h
  else if starts_with (lit "get-serialno") service then
    let* t := acquired ttype serial h in answer fd (string_or_unknown (t ≫= t_serial)) h
  else if starts_with (lit "get-devpath") service then
    let* t := acquired ttype serial h in answer fd (string_or_unknown (t ≫= t_devpath)) h
  else if starts_with (lit "emulator:") service then
    Ok (0, effect_of (LocalConnect (atoi (drop 9 service))) h)
  else if bool_decide (service = lit "list-forward") then request_list_forward fd h
  else if bool_decide (service = lit "killforward-all") then
    let* ls := remove_all_listeners (h_listeners h) in
    let h := with_listeners ls h in
    let* ' (_, w) := fd_write (h_world h) fd (lit "OKAYOKAY") in
    Ok (0, with_world w h)
  else if starts_with (lit "forward:") service then request_forward (drop 8 service) ttype serial fd h
  else if starts_with (lit "killforward:") service then request_kill_forward (drop 12 service) ttype serial fd h
  else if starts_with (lit "get-state") service then
    let* t := acquired ttype serial h in answer fd (connection_state_name t) h
  else Ok (-1, h).

End HostRequest.

(** * Theorems *)

(** ** Spelling a device *)

(** The serials that a request can name: without a colon, a host and a port, or
    one of the prefixes and a name without a colon. *)
Definition keywords : list bytes := [lit "usb"; lit "product"; lit "model"; lit "device"].
Inductive nameable : bytes -> Prop :=
  | name_plain s : colon ∉ s -> s ∉ keywords -> nameable s
  | name_port host port : colon ∉ host -> host ∉ keywords -> port <> [] -> Forall (fun b => is_dec b = true) port ->
      nameable (host ++ colon :: port)
  | name_prefix p s : p ∈ prefixes -> colon ∉ s -> nameable (p ++ s).

(** A command that cannot be taken for a port. *)
Definition no_port (command : bytes) : Prop := match command with b :: _ => is_dec b = false | [] => True end.

Lemma starts_with_app p s : starts_with p (p ++ s) = true.
Proof. apply starts_with_spec. eauto. Qed.

(** Two strings that end at their first colon. *)
Lemma colon_cut a b s s' : colon ∉ a -> colon ∉ b -> a ++ colon :: s = b ++ colon :: s' -> a = b /\ s = s'.
Proof.
  revert b. induction a as [|x a IH]; intros [|y b] Ha Hb H; cbn in H; injection H; intros; subst.
  - done.
  - exfalso. apply Hb. by left.
  - exfalso. apply Ha. by left.
  - apply not_elem_of_cons in Ha as [_ Ha], Hb as [_ Hb]. destruct (IH b) as [-> ->]; done.
Qed.

Lemma no_prefix a s : colon ∉ a -> a ∉ keywords -> matching_prefix prefixes (a ++ colon :: s) = None.
Proof.
  intros Ha Hk. assert (forall k, k ∈ keywords -> starts_with (k ++ [colon]) (a ++ colon :: s) = false) as H.
  { intros k Hin. destruct (starts_with _ _) eqn:E; [|done]. exfalso. apply starts_with_spec in E as [rest E]. rewrite <-app_assoc in E.
    assert (colon ∉ k) as Hck by (unfold keywords in Hin; rewrite !elem_of_cons, elem_of_nil in Hin; destruct Hin as [->|[->|[->|[->|[]]]]]; vm_compute; set_solver).
    destruct (colon_cut a k s rest Ha Hck E) as [-> _]. done. }
  cbn [matching_prefix prefixes]. change (lit "usb:") with (lit "usb" ++ [colon]). change (lit "product:") with (lit "product" ++ [colon]).
  change (lit "model:") with (lit "model" ++ [colon]). change (lit "device:") with (lit "device" ++ [colon]).
  rewrite (H (lit "usb")), (H (lit "product")), (H (lit "model")), (H (lit "device")); [done|unfold keywords; set_solver..].
Qed.

Lemma span_digits_app d r : Forall (fun b => is_dec b = true) d -> no_port r -> span_digits (d ++ r) = (d, r).
Proof.
  intros Hd Hr. induction Hd as [|b d Hb _ IH]; cbn [span_digits app]; [|by rewrite Hb, IH].
  destruct r as [|b r]; [done|]. cbn in Hr |- *. by rewrite Hr.
Qed.

Lemma skip_nameable serial command : nameable serial -> no_port command ->
  skip_host_serial (serial ++ colon :: command) = Some (serial, command).
Proof.
  intros Hs Hc. unfold skip_host_serial. destruct Hs as [s Hs Hk|host port Hh Hk Hp Hd|p s Hp Hs].
  - rewrite no_prefix, strchr_found by done. pose proof (span_digits_app [] command (Forall_nil_2 _) Hc) as E. cbn [app] in E. by rewrite E.
  - rewrite <-app_assoc. cbn [app]. rewrite no_prefix, strchr_found by done. rewrite span_digits_app by done.
    destruct port as [|b port]; [done|]. by rewrite bool_decide_true.
  - assert (matching_prefix prefixes ((p ++ s) ++ colon :: command) = Some p) as ->.
    { rewrite <-app_assoc. unfold prefixes in Hp. rewrite !elem_of_cons, elem_of_nil in Hp. destruct Hp as [->|[->|[->|[->|[]]]]]; reflexivity. }
    rewrite <-app_assoc, drop_app_length, strchr_found by done. done.
Qed.

(** A command that a client formats for a device reaches the server with that
    device: the serial, or the kind of transport, and the command unchanged. *)
Theorem command_roundtrip buflen command ttype serial : no_port command -> (forall s, serial = Some s -> nameable s) ->
  (length (lit "host-serial:") + length (default [] serial) + 1 + length command < buflen)%nat ->
  host_request (format_host_command buflen command ttype serial) =
  Some (command, match serial, ttype with None, kTransportUsb => kTransportUsb | None, kTransportLocal => kTransportLocal | _, _ => kTransportAny end, serial).
Proof.
  intros Hc Hs Hl. unfold format_host_command. destruct serial as [s|]; cbn [default id] in Hl.
  - rewrite take_ge by (rewrite !length_app; cbn [length]; lia). unfold host_request. cbv zeta. rewrite starts_with_app, drop_app_length.
    by rewrite skip_nameable by auto.
  - rewrite take_ge; [by destruct ttype|]. rewrite length_app. cbn [length]. change (length (lit "host-serial:")) with 12%nat in Hl.
    destruct ttype; cbn; lia.
Qed.

Lemma command_roundtrip_witness :
  host_request (format_host_command 100 (lit "get-state") kTransportAny (Some (lit "10.0.0.2:5555"))) =
    Some (lit "get-state", kTransportAny, Some (lit "10.0.0.2:5555")).
Proof.
  apply (command_roundtrip 100 (lit "get-state") kTransportAny (Some (lit "10.0.0.2:5555"))); [reflexivity| |vm_compute; lia].
  intros s [= <-]. apply (name_port (lit "10.0.0.2") (lit "5555")); [vm_compute; set_solver|vm_compute; set_solver|done|vm_compute; repeat constructor].
Defined.

(** The serial of a device that is connected over Bluetooth is its address with
    five colons and its port: the server cuts it at the second one. *)
Theorem bluetooth_serial_cut : host_request (format_host_command 100 (lit "get-state") kTransportAny (Some (lit "00:11:22:33:44:55:4099"))) =
  Some (lit "22:33:44:55:4099:get-state", kTransportAny, Some (lit "00:11")).
Proof. vm_compute. reflexivity. Qed.

(** ** The long listing *)

Definition qual_text (prefix : bytes) (qual : option bytes) (sanitize_qual : bool) : bytes :=
  match qual with None | Some [] => [] | Some q => prefix ++ (if sanitize_qual then sanitize q else q) end.

(** The line of a transport. *)
Definition long_line (t : atransport) : bytes :=
  (pad22 (shown_serial t) ++ [Byte.x20] ++ statename t) ++ qual_text [Byte.x20] (t_devpath t) false ++ qual_text (lit " product:") (t_product t) false
  ++ qual_text (lit " model:") (t_model t) true ++ qual_text (lit " device:") (t_device t) false ++ [Byte.x0a].

Lemma print_at_fits text room s : Z.of_nat (length s) < room < 2 ^ 32 -> print_at (text, room) s = Ok (text ++ s, room - Z.of_nat (length s)).
Proof. intros H. unfold print_at. rewrite u32_small by lia. rewrite !bool_decide_false by lia. done. Qed.

Lemma add_qual_fits text room p q b : Z.of_nat (length (qual_text p q b)) < room < 2 ^ 32 ->
  add_qual (text, room) p q b = Ok (text ++ qual_text p q b, room - Z.of_nat (length (qual_text p q b))).
Proof.
  intros H. destruct q as [[|c q]|]; cbn [add_qual qual_text length] in *; try by rewrite app_nil_r, Z.sub_0_r.
  set (x := c :: q) in *. assert (length (sanitize x) = length x) as Hs by (unfold sanitize; apply length_map).
  cbn [snd]. rewrite u32_small by lia. rewrite (bool_decide_false (room = 0)) by lia. rewrite length_app in *.
  destruct b; cbn [andb]; [rewrite bool_decide_false by lia|]; apply print_at_fits; rewrite length_app; lia.
Qed.

Lemma format_long_fits t room : Z.of_nat (length (long_line t)) < room < 2 ^ 32 ->
  format_transport_long t room = Ok (long_line t, room - Z.of_nat (length (long_line t))).
Proof.
  unfold long_line. rewrite !length_app. intros H. unfold format_transport_long.
  rewrite print_at_fits by (rewrite !length_app; lia). cbn [res_bind].
  do 4 (rewrite add_qual_fits by (rewrite ?length_app; lia); cbn [res_bind]). rewrite print_at_fits by (rewrite ?length_app; lia).
  f_equal. f_equal; [by rewrite <-!app_assoc|rewrite !length_app; lia].
Qed.

(** A long listing that fits its buffer is the lines of the transports. *)
Theorem list_long_exact ts room : Z.of_nat (length (concat (map (fun x => long_line x.2) ts))) < room < 2 ^ 32 ->
  list_long ts room = Ok (concat (map (fun x => long_line x.2) ts)).
Proof.
  revert room. induction ts as [|[a t] ts IH]; intros room H; [done|]. cbn [list_long map concat snd] in *. rewrite length_app in H.
  rewrite format_long_fits by lia. cbn [res_bind]. rewrite bool_decide_false by lia. by rewrite IH by lia.
Qed.

(** A device whose line has 81 characters; of 51 of them the buffer of the
    server is overrun. *)
Definition a_tablet : atransport :=
  ATransport [] false CS_DEVICE true kTransportUsb (Some (lit "0123456789ABCDEF")) (Some (lit "razor")) (Some (lit "Nexus 7")) (Some (lit "flo"))
    (Some (lit "usb:1-1.4.2")) false [] [] 0.

Lemma list_long_exact_witness : list_long (replicate 3 (1%nat, a_tablet)) 4096 = Ok (concat (map (fun x => long_line x.2) (replicate 3 (1%nat, a_tablet)))).
Proof. apply (list_long_exact (replicate 3 (1%nat, a_tablet)) 4096). vm_compute. split; reflexivity. Defined.

Theorem long_listing_overruns : list_long (replicate 51 (1%nat, a_tablet)) 4096 = Ub.
Proof. vm_compute. reflexivity. Qed.

(** ** The server *)

Section Safe.
Context {E E' : Type} {I : FdEvents E fd_func} {L : FdEventsLaws E fd_func I}.
Context {I' : FdEvents E' listener_func} {L' : FdEventsLaws E' listener_func I'}.
Context (adb_port : addr -> Z) (bind : bytes -> Z) (new : addr).
Implicit Types (h : host (E := E) (E' := E')) (w : world E).

(** The sockets and the listeners are well-formed, every transport has a serial,
    and forwards are to transports that there are. *)
Record host_ok h : Prop := HostOk {
  ho_world : wf_world (h_world h);
  ho_listeners : lst_wf (h_listeners h);
  ho_serials t x : w_trans (h_world h) !! t = Some x -> is_Some (t_serial x);
  ho_targets f t : f ∈ table (h_listeners h) -> f_transport f = Some t -> is_Some (w_trans (h_world h) !! t)
}.

Definition fine (r : res (Z * host (E := E) (E' := E'))) : Prop := ensures r (fun r => host_ok r.2).

Lemma world_ok h w : host_ok h -> wf_world w -> (forall t, is_Some (w_trans (h_world h) !! t) -> is_Some (w_trans w !! t)) ->
  (forall t x, w_trans w !! t = Some x -> is_Some (t_serial x)) -> host_ok (with_world w h).
Proof. intros [H1 H2 H3 H4] Hw Ht Hs. split; cbn; try done. intros f t Hf Hft. apply Ht. by eapply H4. Qed.

Lemma io_ok h m : host_ok h -> host_ok (with_world (with_io m (h_world h)) h).
Proof.
  intros H. apply world_ok; [done| |done|apply (ho_serials _ H)]. destruct (ho_world _ H) as [B P]. split; [by apply base_io|by apply peers_io].
Qed.

Lemma reply_ok fd text h : host_ok h -> ensures (reply fd text h) host_ok.
Proof. intros H. unfold reply. destruct (fd_writex_ok (h_world h) fd text) as (r & m & ->). by apply io_ok. Qed.
Lemma fail_ok fd text h : host_ok h -> ensures (fail fd text h) host_ok.
Proof. intros H. unfold fail. destruct (sendfailmsg_ok (h_world h) fd text) as (r & m & ->). by apply io_ok. Qed.

Lemma then_ok (m : res (host (E := E) (E' := E'))) v : ensures m host_ok -> fine (let* h := m in Ok (v, h)).
Proof. intros H. apply ensures_bind. eapply ensures_mono; [|exact H]. done. Qed.
Lemma answer_ok fd text h : host_ok h -> fine (answer fd text h).
Proof. intros H. by apply then_ok, reply_ok. Qed.

Lemma acquire_ok ttype serial h : exists r, acquire ttype serial h = Ok r /\
  forall t x, r = inl (t, x) -> w_trans (h_world h) !! t = Some x.
Proof.
  unfold acquire. cbn [acquire_one_transport]. destruct (acquire_once _ _ _ _) as [[t x]|[e retry]] eqn:E1.
  - eexists. split; [done|]. intros u y [= <- <-]. apply acquire_once_in in E1. unfold transports in E1.
    apply list_elem_of_omap in E1 as (a & _ & Ha). destruct (w_trans (h_world h) !! a) eqn:Hx; [|done]. cbn in Ha. by simplify_eq.
  - assert (retry = false) as ->; [|by eexists].
    revert E1. unfold acquire_once, check_state. destruct (scan _ _ _ _ _) as [[[[a x]|] b] err]; repeat case_bool_decide; cbn; intros [= <- <-]; done.
Qed.

Lemma acquired_ok ttype serial h : exists o, acquired ttype serial h = Ok o.
Proof. unfold acquired. destruct (acquire_ok ttype serial h) as (r & -> & _). by eexists. Qed.

(** *** transport *)

Lemma request_transport_ok service serial fd s ss h : host_ok h -> w_socks (h_world h) !! s = Some ss -> sk_enqueue ss = smart_enqueue ->
  fine (request_transport service serial fd s h).
Proof.
  intros H Hs Hk. unfold request_transport. destruct (if starts_with (lit "transport-usb") service then _ else _) as [type serial'].
  destruct (acquire_ok type serial' h) as (r & -> & Hr). cbn [res_bind]. apply then_ok. destruct r as [[t x]|err]; [|by apply fail_ok].
  specialize (Hr t x eq_refl). destruct (ho_world _ H) as [B P]. set (w := h_world h) in *. rewrite (update_sock_ok _ _ _ _ Hs). cbn [res_bind].
  set (w1 := put_sock _ _ _). destruct (fd_write_ok w1 fd (lit "OKAY")) as (r & m & ->). cbn [res_bind ensures].
  assert (sock_ok w1 s (World.with_transport (Some t) ss)) as Hok1.
  { pose proof (b_sock _ _ B s ss Hs (not_elem_of_nil _)) as Hok. unfold sock_ok in *. cbn. rewrite Hk in *. destruct Hok as [? ? ? ?]. split; try done.
    intros u [= <-]. unfold w1. wcbn. by eexists. }
  assert (wf_world w1) as W1.
  { split.
    - apply (base_done _ _ s); [eapply base_put; [by apply base_open|done|done|intros Hr'; cbn in Hr'; congruence]|]. intros s0 Hs0.
      unfold w1 in Hs0. rewrite put_sock_lookup, decide_True in Hs0 by done. apply (inj Some) in Hs0. by subst s0.
    - pose proof (P s ss Hs (not_elem_of_nil _)) as Hp. eapply (peers_put w); [done|exact Hs|done|done| |congruence].
      unfold peer_ok in *. cbn. destruct (sk_peer ss) as [b|]; [|done]. destruct Hp as (Hb & sb & Hsb & Hrest). split; [done|].
      exists sb. rewrite lookup_insert_ne by (by apply not_eq_sym). done. }
  apply world_ok; [done| |done|apply (ho_serials _ H)]. destruct W1 as [B1 P1]. split; [by apply base_io|by apply peers_io].
Qed.
(** *** disconnect *)

Lemma effect_ok e h : host_ok h -> host_ok (effect_of e h).
Proof. intros [? ? ? ?]. by split. Qed.

(** Only sockets, transports, events and descriptors matter to the invariant. *)
Lemma wf_list_irrelevant w l : wf_world w ->
  wf_world (World (w_socks w) (w_trans w) l (w_locals w) (w_closing w) (w_next_id w) (w_ev w) (w_io w) (w_brk w)).
Proof.
  intros [B P]. split; [|exact P]. destruct B as [? ? ? ? ? ? ? ? ? Hs]. split; try done. intros a s Ha HX. by eapply sock_ok_frame; [..|by apply Hs].
Qed.

Lemma unregister_transport_ok t h : host_ok h -> is_Some (w_trans (h_world h) !! t) ->
  ensures (unregister_transport t h) (fun h' => host_ok h' /\ forall u, is_Some (w_trans (h_world h) !! u) -> is_Some (w_trans (h_world h') !! u)).
Proof.
  intros H Ht. unfold unregister_transport, drop_transport. cbv zeta. set (w := World _ _ _ _ _ _ _ _ _).
  assert (wf_world w) as W by (apply wf_list_irrelevant, (ho_world _ H)). destruct (update_trans_ok w t (fun x => (Transport.kick_transport x).2) Ht) as (y & Hy & ->).
  cbn [res_bind ensures]. unfold Transport.kick_transport. set (y' := (if t_kicked y then (false, y) else (true, with_kicked true y)).2).
  assert (t_disconnects y' = t_disconnects y /\ t_serial y' = t_serial y) as [Hd Hser] by (unfold y'; by destruct (t_kicked y)).
  assert (forall u, is_Some (w_trans (h_world h) !! u) -> is_Some (w_trans (put_trans t y' w) !! u)) as Hkeep.
  { intros u Hu. wcbn. destruct (decide (t = u)) as [<-|]; [rewrite lookup_insert_eq; by eexists|by rewrite lookup_insert_ne]. }
  split; [|exact Hkeep]. apply effect_ok, world_ok; [done|by eapply wf_put_trans|exact Hkeep|].
  intros u x. wcbn. destruct (decide (t = u)) as [<-|]; [rewrite lookup_insert_eq|rewrite lookup_insert_ne by done; apply (ho_serials _ H)].
  intros [= <-]. rewrite Hser. apply (ho_serials _ H t). exact Hy.
Qed.

Lemma unregister_all_ok ts : forall h, host_ok h -> (forall t, t ∈ ts -> is_Some (w_trans (h_world h) !! t)) -> ensures (unregister_all ts h) host_ok.
Proof.
  induction ts as [|t ts IH]; intros h H Ht; [done|]. cbn [unregister_all]. apply ensures_bind.
  eapply ensures_mono; [|apply unregister_transport_ok; [done|apply Ht; by left]]. intros h' [H' Hk]. apply IH; [done|]. intros u Hu. apply Hk, Ht. by right.
Qed.

Lemma listed_transport h t x : (t, x) ∈ transports (h_world h) -> w_trans (h_world h) !! t = Some x.
Proof.
  unfold transports. intros (a & _ & Ha)%list_elem_of_omap. destruct (w_trans (h_world h) !! a) eqn:Hx; [|done]. cbn in Ha. by simplify_eq.
Qed.

Lemma request_disconnect_ok serial fd h : host_ok h -> fine (request_disconnect adb_port serial fd h).
Proof.
  intros H. unfold request_disconnect. destruct serial as [|c serial].
  - apply ensures_bind. eapply ensures_mono; [intros h' H'; by apply answer_ok|]. apply unregister_all_ok; [done|].
    intros t ([u x] & -> & [_ Hx]%list_elem_of_filter)%list_elem_of_fmap. apply listed_transport in Hx. by eexists.
  - cbv zeta. set (name := match strchr _ _ with Some _ => _ | None => _ end). unfold find_transport. destruct (List.find _ _) as [[t x]|] eqn:Hf; cbn [fmap option_fmap option_map fst].
    + apply List.find_some in Hf as [Hin _]. apply list_elem_of_In, listed_transport in Hin. apply ensures_bind.
      eapply ensures_mono; [|apply unregister_transport_ok; [done|by eexists]]. intros h' [H' _]. by apply answer_ok.
    + by apply answer_ok.
Qed.

(** *** forward *)

Lemma table_step_targets o fs f t : f ∈ (table_step o fs).2 -> f_transport f = Some t ->
  (exists g, g ∈ fs /\ f_transport g = Some t) \/ exists n c nr a fd, o = Install n c (Some t) nr a fd.
Proof.
  intros Hf Ht. destruct o as [n c u nr a fd|n| |v]; cbn [table_step] in Hf.
  - destruct (head _) as [g|]; [destruct (starred _); [by left; eauto|]; destruct nr; [by left; eauto|]|].
    + apply list_elem_of_fmap in Hf as (g' & -> & Hg'). case_decide; [right|by left; eauto]. cbn in Ht. subst u. by eexists _, _, _, _, _.
    + case_decide; cbn [snd] in Hf; [by left; eauto|]. apply elem_of_app in Hf as [Hf|Hf%list_elem_of_singleton]; [by left; eauto|].
      subst f. cbn in Ht. subst u. right. by eexists _, _, _, _, _.
  - case_decide; cbn [snd] in Hf; [apply list_elem_of_filter in Hf as [_ Hf]|]; left; eauto.
  - cbn [snd] in Hf. apply list_elem_of_filter in Hf as [_ Hf]. left; eauto.
  - cbn [snd] in Hf. apply list_elem_of_filter in Hf as [_ Hf]. left; eauto.
Qed.

(** An operation on the listeners. *)
Lemma listeners_step_ok o h : host_ok h -> op_ok o (h_listeners h) ->
  (forall n c t nr a fd, o = Install n c (Some t) nr a fd -> is_Some (w_trans (h_world h) !! t)) ->
  exists r ls, step o (h_listeners h) = Ok (r, ls) /\ host_ok (with_listeners ls h) /\ table_step o (table (h_listeners h)) = (r, table ls).
Proof.
  intros H Ho Ht. destruct (listeners_refine o (h_listeners h) (ho_listeners _ H) Ho) as (r & ls & E1 & Hls & Htab). exists r, ls. split; [done|]. split; [|done].
  split; cbn; [apply H|done|apply H|]. intros f t Hf Hft. change (table ls) with (r, table ls).2 in Hf. rewrite <-Htab in Hf.
  destruct (table_step_targets _ _ _ _ Hf Hft) as [(g & Hg & Hgt)|(n & c & nr & a & fd & ->)]; [by eapply (ho_targets _ H)|by eapply Ht].
Qed.

(** What the allocator and the system give for a new listener. *)
Definition new_ok h : Prop := ls_mem (h_listeners h) !! new = None /\ ev_interest (F := listener_func) (ls_ev (h_listeners h)) new = None
  /\ forall n, 0 <= bind n -> bind n < FD_SETSIZE /\ ev_free_fd (F := listener_func) (ls_ev (h_listeners h)) (bind n).

Lemma forward_install_ok h local remote t nr : host_ok h -> new_ok h -> is_Some (w_trans (h_world h) !! t) -> starred remote = false ->
  exists r ls, install_listener local remote (Some t) nr new (bind local) (h_listeners h) = Ok (r, ls) /\ host_ok (with_listeners ls h)
  /\ table_step (Install local remote (Some t) nr new (bind local)) (table (h_listeners h)) = (r, table ls).
Proof.
  intros H (Hn & Hev & Hb) Ht Hs. apply (listeners_step_ok (Install local remote (Some t) nr new (bind local))); [done| |intros; by simplify_eq].
  split; [rewrite Hs; done|]. split; [done|]. split; [done|]. split; [done|]. apply Hb.
Qed.

Lemma request_forward_ok service ttype serial fd h : host_ok h -> new_ok h -> fine (request_forward bind new service ttype serial fd h).
Proof.
  intros H Hn. unfold request_forward. destruct (if starts_with (lit "norebind:") service then _ else _) as [nr local].
  destruct (strchr local Byte.x3b) as [[l remote]|]; [|by apply then_ok, fail_ok]. destruct (_ || starred remote) eqn:Hm; [by apply then_ok, fail_ok|].
  apply orb_false_iff in Hm as [_ Hs]. destruct (acquire_ok ttype serial h) as (r & -> & Hr). cbn [res_bind]. destruct r as [[t x]|err]; [|by apply then_ok, fail_ok].
  destruct (forward_install_ok h l remote t nr H Hn ltac:(eexists; by eapply Hr) Hs) as (r & ls & -> & H' & _). cbn [res_bind]. cbv zeta.
  apply then_ok. case_bool_decide; [by apply reply_ok|by apply fail_ok].
Qed.

Lemma request_kill_forward_ok local ttype serial fd h : host_ok h -> fine (request_kill_forward local ttype serial fd h).
Proof.
  intros H. unfold request_kill_forward. case_bool_decide; [by apply then_ok, fail_ok|].
  destruct (acquire_ok ttype serial h) as (r & -> & _). cbn [res_bind]. destruct r as [_|err]; [|by apply then_ok, fail_ok].
  destruct (listeners_step_ok (Remove local) h H Logic.I ltac:(done)) as (r & ls & E1 & H' & _). cbn [step] in E1. rewrite E1. cbn [res_bind]. cbv zeta.
  apply then_ok. case_bool_decide; [by apply reply_ok|by apply fail_ok].
Qed.

Lemma serial_named h a l t : host_ok h -> ls_mem (h_listeners h) !! a = Some l -> al_transport l = Some t -> is_Some (serial_of h t).
Proof.
  intros H Ha Ht. assert (forward_of l ∈ table (h_listeners h)) as Hf.
  { apply table_elem. exists a, l. split; [|done]. apply (lw_mem _ (ho_listeners _ H)). eauto. }
  destruct (ho_targets _ H _ t Hf Ht) as [x Hx]. unfold serial_of. rewrite Hx. by eapply (ho_serials _ H).
Qed.

Lemma request_list_forward_ok fd h : host_ok h -> fine (request_list_forward fd h).
Proof.
  intros H. unfold request_list_forward.
  destruct (listing_exact (serial_of h) (h_listeners h) (ho_listeners _ H)) as (n & E1 & E2 & _); [intros; by eapply serial_named|].
  rewrite E1. cbn [res_bind]. rewrite E2. cbn [res_bind]. apply ensures_bind. eapply ensures_mono; [|by apply reply_ok].
  intros h' H'. by apply then_ok, reply_ok.
Qed.

(** *** All requests *)

Lemma choose_ok (b : bool) (x y : res (Z * host (E := E) (E' := E'))) : fine x -> fine y -> fine (if b then x else y).
Proof. by destruct b. Qed.
Lemma fine_ok r : fine r -> ensures r (fun r => host_ok r.2).
Proof. done. Qed.
Lemma kill_ok fd h : fine (let* ' (_, _) := fd_write (h_world h) fd (lit "OKAY") in Exit).
Proof. by destruct (fd_write_ok (h_world h) fd (lit "OKAY")) as (r & m & ->). Qed.
Lemma acquired_answer_ok ttype serial fd f h : host_ok h -> fine (let* t := acquired ttype serial h in answer fd (f t) h).
Proof. intros H. destruct (acquired_ok ttype serial h) as [o ->]. by apply answer_ok. Qed.
Lemma list_devices_ok service fd h : host_ok h ->
  (service = lit "devices-l" -> Z.of_nat (length (concat (map (fun x => long_line x.2) (transports (h_world h))))) < 4096) ->
  fine (let* text := list_devices (bool_decide (service = lit "devices-l")) h in answer fd text h).
Proof.
  intros H Hl. unfold list_devices. case_bool_decide as Hs; [|by apply answer_ok]. rewrite list_long_exact by (specialize (Hl Hs); lia). by apply answer_ok.
Qed.
Lemma kill_all_ok fd h : host_ok h ->
  fine (let* ls := remove_all_listeners (h_listeners h) in let h := with_listeners ls h in
        let* ' (_, w) := fd_write (h_world h) fd (lit "OKAYOKAY") in Ok (0, with_world w h)).
Proof.
  intros H. destruct (listeners_step_ok RemoveAll h H Logic.I ltac:(done)) as (r & ls & E1 & H' & _). cbn [step] in E1. destruct (remove_all_listeners _) as [ls'| | |]; [|done..].
  cbn [res_bind] in *. injection E1 as _ ->. destruct (fd_write_ok (h_world (with_listeners ls h)) fd (lit "OKAYOKAY")) as (r' & m & ->). by apply io_ok.
Qed.

(** C10: Every request on well-formed sockets and listeners is answered: the server
    touches no freed memory, overruns no buffer and does not loop, and what it
    leaves is well-formed.  Every transport must have a serial
    ([Listeners.listing_without_serial] is the list of forwards without one), no
    two local sockets may be each other's peers, as those of the services that
    the server runs itself are ([Demo.local_peers_uaf]), and the long listing
    must fit its buffer. *)
Theorem request_safe service ttype serial fd s ss h : host_ok h -> new_ok h -> w_socks (h_world h) !! s = Some ss -> sk_enqueue ss = smart_enqueue ->
  (service = lit "devices-l" -> Z.of_nat (length (concat (map (fun x => long_line x.2) (transports (h_world h))))) < 4096) ->
  ensures (handle_host_request adb_port bind new service ttype serial fd s h) (fun r => host_ok r.2).
Proof.
  intros H Hn Hs Hk Hlong. apply (fine_ok (handle_host_request adb_port bind new service ttype serial fd s h)). unfold handle_host_request.
  apply choose_ok; [by apply kill_ok|].
  apply choose_ok; [by eapply request_transport_ok|].
  apply choose_ok; [by apply list_devices_ok|].
  apply choose_ok; [by apply request_disconnect_ok|].
  apply choose_ok; [by apply answer_ok|].
  apply choose_ok; [by apply acquired_answer_ok|].
  apply choose_ok; [by apply acquired_answer_ok|].
  apply choose_ok; [by apply effect_ok|].
  apply choose_ok; [by apply request_list_forward_ok|].
  apply choose_ok; [by apply kill_all_ok|].
  apply choose_ok; [by apply request_forward_ok|].
  apply choose_ok; [by apply request_kill_forward_ok|].
  apply choose_ok; [by apply acquired_answer_ok|].
  exact H.
Qed.

Lemma starts_with_sep p l c r : c ∉ p -> starts_with p (l ++ c :: r) = starts_with p l.
Proof.
  revert l. induction p as [|x p IH]; intros [|y l] Hc; [done..| |].
  - apply not_elem_of_cons in Hc as [Hc _]. cbn. by rewrite bool_decide_false by (by apply not_eq_sym).
  - apply not_elem_of_cons in Hc as [_ Hc]. cbn. by rewrite IH.
Qed.

Lemma forward_dispatch rest ttype serial fd s h :
  handle_host_request adb_port bind new (lit "forward:" ++ rest) ttype serial fd s h = request_forward bind new rest ttype serial fd h.
Proof.
  unfold handle_host_request. repeat rewrite bool_decide_false by first [discriminate|intros [|]; discriminate].
  assert (starts_with (lit "forward:") (lit "forward:" ++ rest) = true) as -> by apply starts_with_app. done.
Qed.

(** A well-formed request for a forward on a device that can be found is the
    installation in the table of forwards, whose status the client is told. *)
Theorem forward_answered (nr : bool) local remote ttype serial fd s h t x : host_ok h -> new_ok h -> Byte.x3b ∉ local -> local <> [] ->
  (nr = false -> starts_with (lit "norebind:") local = false) -> remote <> [] -> starred remote = false ->
  acquire ttype serial h = Ok (inl (t, x)) ->
  let '(r, tab) := table_step (Install local remote (Some t) nr new (bind local)) (table (h_listeners h)) in
  exists h' v, handle_host_request adb_port bind new (lit "forward:" ++ (if nr then lit "norebind:" else []) ++ local ++ Byte.x3b :: remote) ttype serial fd s h = Ok (0, h')
  /\ host_ok h' /\ table (h_listeners h') = tab
  /\ (if decide (r = 0) then fd_writex (h_world h) fd (lit "OKAYOKAY") else sendfailmsg (h_world h) fd (install_message r)) = Ok (v, h_world h').
Proof.
  intros H Hn Hsemi Hl Hnr Hr Hs Hacq. assert (is_Some (w_trans (h_world h) !! t)) as Ht.
  { destruct (acquire_ok ttype serial h) as (r & E1 & Hr'). rewrite E1 in Hacq. injection Hacq as ->. eexists. by eapply Hr'. }
  destruct (forward_install_ok h local remote t nr H Hn Ht Hs) as (r & ls & E1 & H' & ->).
  assert (exists h' v, (if bool_decide (r = 0) then reply fd (lit "OKAYOKAY") else fail fd (install_message r)) (with_listeners ls h) = Ok h' /\ host_ok h'
    /\ h_listeners h' = ls /\ (if decide (r = 0) then fd_writex (h_world h) fd (lit "OKAYOKAY") else sendfailmsg (h_world h) fd (install_message r)) = Ok (v, h_world h'))
    as (h' & v & E2 & Hok & Hls & Hw).
  { case_bool_decide as Hz; [rewrite decide_True by done|rewrite decide_False by done]; unfold reply, fail; cbn [with_listeners h_world].
    - destruct (fd_writex_ok (h_world h) fd (lit "OKAYOKAY")) as (v & m & ->). eexists _, v. split; [reflexivity|]. split; [by apply (io_ok (with_listeners ls h))|done].
    - destruct (sendfailmsg_ok (h_world h) fd (install_message r)) as (v & m & ->). eexists _, v. split; [reflexivity|]. split; [by apply (io_ok (with_listeners ls h))|done]. }
  exists h', v. split; [|by rewrite Hls]. 
  rewrite forward_dispatch. unfold request_forward.
  destruct nr.
  - rewrite starts_with_app. change 9%nat with (length (lit "norebind:")). rewrite drop_app_length. rewrite strchr_found by done.
    rewrite bool_decide_false by tauto. rewrite Hs. cbn [orb]. rewrite Hacq. cbn [res_bind]. rewrite E1. cbn [res_bind]. cbv zeta.
    destruct (bool_decide (r = 0)); rewrite E2; done.
  - cbn [app]. rewrite starts_with_sep by (vm_compute; set_solver). rewrite (Hnr eq_refl), strchr_found by done. rewrite bool_decide_false by tauto. rewrite Hs. cbn [orb]. rewrite Hacq. cbn [res_bind]. rewrite E1. cbn [res_bind]. cbv zeta.
    destruct (bool_decide (r = 0)); rewrite E2; done.
Qed.
End Safe.
