(* ===== verification/AdbClient.v ===== *)
(** * The client of the server (adb_client.c)

    How a command asks the server for a service: the connection with the check
    of the version of the server, the choice of the device, the status of the
    answer and the text of a query.  The connections of a command are given in
    the order in which it makes them; each is a descriptor on which the answers
    of the server can be read. *)

From S2P Require Import Connect.
From S2P Require Import Prelude Cstr Numbers Rwx Packet World SocketsSmart HostRequest.

(** What a command was told: its kind of transport, its serial, whether the
    server is on another host, whether it can be started, and the descriptor 0. *)
Record config := Config {
  cf_transport : transport_type;
  cf_serial : option bytes;
  cf_remote : bool;
  cf_launch : bool;
  cf_stdin : fdio
}.

(** [__adb_error], and the connections that are still to be made; [None] is one
    that fails. *)
Record client := Client { cl_error : bytes; cl_connections : list (option fdio) }.
Definition set_error (e : bytes) (c : client) : client := Client e (cl_connections c).

Definition hex2 (b : byte) : bytes := [hex_char (Z.shiftr (ub b) 4); hex_char (Z.land (ub b) 15)].
Definition bad_status (buf : bytes) : bytes :=
  lit "protocol fault (status" ++ concat (map (fun b => Byte.x20 :: hex2 b) buf) ++ lit "?!)".

(** The part of an array up to its first NUL. *)
Fixpoint before_nul (s : bytes) : bytes := match s with [] => [] | Byte.x00 :: _ => [] | b :: s => b :: before_nul s end.

Definition adb_status (f : fdio) (c : client) : res (Z * fdio * client) :=
  let* ' (r, buf, f) := readx f 4 in
  if bool_decide (r <> 0) then Ok (-1, f, set_error (lit "protocol fault (no status)") c)
  else if bool_decide (buf = lit "OKAY") then Ok (0, f, c)
  else if bool_decide (buf <> lit "FAIL") then Ok (-1, f, set_error (bad_status buf) c)
  else
    let* ' (r, buf, f) := readx f 4 in
    if bool_decide (r <> 0) then Ok (-1, f, set_error (lit "protocol fault (status len)") c)
    else
      let len := Z.min (strtoul16 buf) 255 in
      let* ' (r, text, f) := readx f (Z.to_nat len) in
      if bool_decide (r <> 0) then Ok (-1, f, set_error (lit "protocol fault (status read)") c)
      else Ok (-1, f, set_error (before_nul text) c).

(** The length in four digits, and the service. *)
Definition write_service (f : fdio) (service : bytes) : res (bool * fdio) :=
  let* ' (r, f) := writex f (take 4 (hex04 (Z.of_nat (length service)))) in
  if bool_decide (r <> 0) then Ok (false, f)
  else let* ' (r, f) := writex f service in Ok (bool_decide (r = 0), f).

Definition write_failure : bytes := lit "write failure during connection".

(** The result of [switch_socket_transport] and of [_adb_connect] is a
    descriptor that is still open, or the value that is returned. *)
Definition switch_socket_transport (cfg : config) (f : fdio) (c : client) : res ((fdio + Z) * client) :=
  let switch service :=
    let service := take 63 service in
    let* ' (ok, f) := write_service f service in
    if negb ok then Ok (inr (-1), set_error write_failure c)
    else
      let* ' (r, f, c) := adb_status f c in
      Ok (if bool_decide (r <> 0) then inr (-1) else inl f, c) in
  match cf_serial cfg with
  | Some serial => switch (lit "host:transport:" ++ serial)
  | None =>
      match cf_transport cfg with
      | kTransportUsb => switch (lit "host:transport-usb")
      | kTransportLocal => switch (lit "host:transport-local")
      | kTransportAny => switch (lit "host:transport-any")
      | kTransportHost => Ok (inl f, c)
      end
  end.

Definition connect_to_server (cfg : config) (service : bytes) (c : client) : res ((fdio + Z) * client) :=
  let len := Z.of_nat (length service) in
  if bool_decide (len < 1 \/ len > 1024) then Ok (inr (-1), set_error (lit "service name too long") c)
  else
    let '(fd, c) := match cl_connections c with
                    | [] => (None, c)
                    | fd :: rest => (fd, Client (cl_error c) rest)
                    end in
    match fd with
    | None => Ok (inr (-2), set_error (lit "cannot connect to daemon") c)
    | Some f =>
        let* ' (f, c) := if starts_with (lit "host") service then Ok (inl f, c) else switch_socket_transport cfg f c in
        match f with
        | inr _ => Ok (inr (-1), c)
        | inl f =>
            let* ' (ok, f) := write_service f service in
            if negb ok then Ok (inr (-1), set_error write_failure c)
            else
              let* ' (r, f, c) := adb_status f c in
              Ok (if bool_decide (r <> 0) then inr (-1) else inl f, c)
        end
    end.

(** The end of [adb_connect]; [Ok (inr 0)] is its success without a connection. *)
Definition connect_service (cfg : config) (service : bytes) (c : client) : res ((fdio + Z) * client) :=
  if bool_decide (service = lit "host:start-server") then Ok (inr 0, c) else connect_to_server cfg service c.

(** [start_server:] *)
Definition start_server (cfg : config) (service : bytes) (c : client) : res ((fdio + Z) * client) :=
  if cf_launch cfg then connect_service cfg service c else Ok (inr (-1), c).

(** The answer of the server to [host:version]; [None] is the failure.  The
    version overwrites the digits of its length in the buffer. *)
Definition read_version (f : fdio) : res (option Z) :=
  let* ' (r, buf, f) := readx f 4 in
  if bool_decide (r <> 0) then Ok None
  else
    let n := strtoul16 buf in
    if bool_decide (n > 100) then Ok None
    else
      let* ' (r, text, f) := readx f (Z.to_nat n) in
      Ok (if bool_decide (r <> 0) then None else scan_04x (text ++ drop (Z.to_nat n) buf)).

Definition adb_connect (cfg : config) (service : bytes) (c : client) : res ((fdio + Z) * client) :=
  let* ' (v, c) := connect_to_server cfg (lit "host:version") c in
  let check version c :=
    if bool_decide (version <> ADB_SERVER_VERSION) then
      let* ' (_, c) := connect_to_server cfg (lit "host:kill") c in start_server cfg service c
    else connect_service cfg service c in
  match v with
  | inl f =>
      let* version := read_version f in
      match version with Some version => check version c | None => Ok (inr (-1), c) end
  | inr r =>
      if bool_decide (r = -2) then
        if cf_remote cfg then Ok (inr r, c) else start_server cfg service c
      else if bool_decide (cl_error c <> lit "unknown host service") then Ok (inr r, c)
      else check (ADB_SERVER_VERSION - 1) c
  end.

(** The descriptor that [adb_connect] returned, unless it failed. *)
Definition opened (cfg : config) (f : fdio + Z) : option fdio :=
  match f with
  | inl f => Some f
  | inr r => if bool_decide (r < 0) then None else Some (cf_stdin cfg)
  end.

Definition adb_command (cfg : config) (service : bytes) (c : client) : res (Z * client) :=
  let* ' (f, c) := adb_connect cfg service c in
  match opened cfg f with
  | None => Ok (-1, c)
  | Some f => let* ' (r, _, c) := adb_status f c in Ok (if bool_decide (r <> 0) then -1 else 0, c)
  end.

Definition adb_query (cfg : config) (service : bytes) (c : client) : res (option bytes * client) :=
  let* ' (f, c) := adb_connect cfg service c in
  match opened cfg f with
  | None => Ok (None, c)
  | Some f =>
      let* ' (r, buf, f) := readx f 4 in
      if bool_decide (r <> 0) then Ok (None, c)
      else
        let n := strtoul16 buf in
        if bool_decide (n > 1024) then Ok (None, c)
        else
          let* ' (r, text, f) := readx f (Z.to_nat n) in
          Ok (if bool_decide (r <> 0) then None else Some text, c)
  end.

(** The lines of a listing that name an emulator: none or one, or [None] when
    there are more. *)
Fixpoint find_emulator (fuel : nat) (p : bytes) (serial : option bytes) : option (option bytes) :=
  match fuel, p with
  | O, _ | _, [] => Some serial
  | S fuel, p =>
      let '(line, q) := match strchr p Byte.x0a with Some (l, r) => (l, r) | None => (p, []) end in
      if starts_with LOCAL_CLIENT_PREFIX line then
        match serial with Some _ => None | None => find_emulator fuel q (Some line) end
      else find_emulator fuel q serial
  end.

(** [strtol(s, NULL, 10)] *)
Definition strtol10 (s : bytes) : Z :=
  let '(neg, s) := take_sign (drop_spaces s) in
  let '(acc, _, _) := strtoul_loop 10 0 0 false s in clamp neg acc.

(** The serial that is found in the listing is read after the listing is freed. *)
Definition adb_get_emulator_console_port (cfg : config) (c : client) : res (Z * client) :=
  match cf_serial cfg with
  | None =>
      let* ' (tmp, c) := adb_query cfg (lit "host:devices") c in
      match tmp with
      | None => Ok (-1, c)
      | Some tmp =>
          match find_emulator (length tmp) tmp None with
          | None => Ok (-2, c)
          | Some None => Ok (-1, c)
          | Some (Some _) => Ub
          end
      end
  | Some serial =>
      if starts_with LOCAL_CLIENT_PREFIX serial then Ok (strtol10 (drop (length LOCAL_CLIENT_PREFIX) serial), c) else Ok (-1, c)
  end.

(** * Theorems *)

(** ** Reading answers *)

Lemma readx_answer f bs rest : io_in f = bs ++ rest -> (length bs <= willing (io_evs f))%nat ->
  exists f', readx f (length bs) = Ok (0, bs, f') /\ moved f f' bs [] /\ io_in f' = rest.
Proof.
  intros Hin Hw. destruct (readx_complete f (length bs)) as (f' & E1 & Hm); [rewrite Hin, length_app; lia|done|].
  rewrite Hin, take_app_length in E1, Hm. exists f'. split; [done|]. split; [done|]. destruct Hm as [Hi _ _]. rewrite Hin in Hi. by apply app_inv_head in Hi.
Qed.

Lemma moved_willing f f' i o n : moved f f' i o -> (n + length i + length o <= willing (io_evs f))%nat -> (n <= willing (io_evs f'))%nat.
Proof. intros [_ _ H] Hn. lia. Qed.

Lemma status_okay f c rest : io_in f = lit "OKAY" ++ rest -> (4 <= willing (io_evs f))%nat ->
  exists f', adb_status f c = Ok (0, f', c) /\ moved f f' (lit "OKAY") [] /\ io_in f' = rest.
Proof.
  intros Hin Hw. destruct (readx_answer f (lit "OKAY") rest Hin Hw) as (f' & E1 & Hm). exists f'. unfold adb_status.
  change 4%nat with (length (lit "OKAY")). rewrite E1. cbn [res_bind]. change (bool_decide (0 <> 0)) with false. cbv iota. rewrite bool_decide_true by done. done.
Qed.

Lemma before_nul_all s : Byte.x00 ∉ s -> before_nul s = s.
Proof.
  induction s as [|b s IH]; [done|]. intros Hn. apply not_elem_of_cons in Hn as [Hb Hn]. cbn. rewrite IH by done. by destruct b.
Qed.

(** A failure that fits the buffer for errors. *)
Lemma status_fail f c reason rest : io_in f = lit "FAIL" ++ hex4 (Z.of_nat (length reason)) ++ reason ++ rest -> (length reason <= 255)%nat ->
  Byte.x00 ∉ reason -> (8 + length reason <= willing (io_evs f))%nat ->
  exists f', adb_status f c = Ok (-1, f', set_error reason c).
Proof.
  intros Hin Hl Hn Hw. destruct (readx_answer f (lit "FAIL") _ Hin ltac:(cbn; lia)) as (f1 & E1 & Hm1 & Hi1).
  destruct (readx_answer f1 (hex4 (Z.of_nat (length reason))) _ Hi1) as (f2 & E2 & Hm2 & Hi2); [eapply moved_willing; [exact Hm1|cbn; lia]|].
  assert (length reason <= willing (io_evs f2))%nat as Hw2.
  { eapply moved_willing; [exact Hm2|]. cbn [length hex4]. eapply moved_willing; [exact Hm1|]. cbn. lia. }
  destruct (readx_answer f2 reason _ Hi2 Hw2) as (f3 & E3 & _). exists f3. unfold adb_status.
  change 4%nat with (length (lit "FAIL")) at 1. rewrite E1. cbn [res_bind]. change (bool_decide (0 <> 0)) with false. cbv iota. rewrite bool_decide_false by done. rewrite bool_decide_false by (intros H; by apply H).
  change 4%nat with (length (hex4 (Z.of_nat (length reason)))). rewrite E2. cbn [res_bind]. change (bool_decide (0 <> 0)) with false. cbv iota. rewrite strtoul16_hex4 by lia.
  cbv zeta. rewrite Z.min_l, Nat2Z.id, E3 by lia. cbn [res_bind]. change (bool_decide (0 <> 0)) with false. cbv iota. by rewrite before_nul_all.
Qed.

(** ** Asking for a service *)

Lemma hex04_small n : 0 <= n <= 1024 -> take 4 (hex04 n) = hex4 n.
Proof. intros H. unfold hex04. by rewrite bool_decide_true by lia. Qed.

Lemma write_service_ok f service : (length service <= 1024)%nat -> (4 + length service <= willing (io_evs f))%nat ->
  exists f', write_service f service = Ok (true, f') /\ moved f f' [] (hex4 (Z.of_nat (length service)) ++ service).
Proof.
  intros Hl Hw. unfold write_service. rewrite hex04_small by lia. set (h := hex4 _). assert (length h = 4%nat) as Hh by done.
  destruct (writex_complete f h) as (f1 & E1 & Hm1); [lia|]. rewrite E1. cbn [res_bind]. change (bool_decide (0 <> 0)) with false. cbv iota.
  assert (length service <= willing (io_evs f1))%nat as Hw1 by (eapply moved_willing; [exact Hm1|cbn [length]; lia]).
  destruct (writex_complete f1 service Hw1) as (f2 & E2 & Hm2). rewrite E2. cbn [res_bind]. exists f2. split; [done|].
  pose proof (moved_trans _ _ _ _ _ _ _ Hm1 Hm2) as H. exact H.
Qed.

(** What a command writes to a server is a request that the smart socket of the
    server takes for the service, and the connection is the one that it gets
    when the server accepts. *)
Lemma connect_accepted cfg service c f conns rest : starts_with (lit "host") service = true -> (1 <= length service <= 1024)%nat ->
  cl_connections c = Some f :: conns -> io_in f = lit "OKAY" ++ rest -> (8 + length service <= willing (io_evs f))%nat ->
  exists f', connect_to_server cfg service c = Ok (inl f', Client (cl_error c) conns)
  /\ moved f f' (lit "OKAY") (hex4 (Z.of_nat (length service)) ++ service) /\ io_in f' = rest.
Proof.
  intros Hs Hl Hc Hin Hw. unfold connect_to_server. rewrite bool_decide_false by lia. rewrite Hc, Hs. cbn [res_bind].
  destruct (write_service_ok f service) as (f1 & E1 & Hm1); [lia|lia|]. rewrite E1. cbn [res_bind negb].
  assert (io_in f1 = lit "OKAY" ++ rest) as Hin1 by (destruct Hm1 as [H _ _]; by rewrite <-Hin).
  assert (4 <= willing (io_evs f1))%nat as Hw1 by (eapply moved_willing; [exact Hm1|rewrite length_app; cbn [length hex4]; lia]).
  destruct (status_okay f1 (Client (cl_error c) conns) rest Hin1 Hw1) as (f2 & E2 & Hm2 & Hi2). rewrite E2. cbn [res_bind]. change (bool_decide (0 <> 0)) with false. cbv iota.
  exists f2. split; [done|]. split; [|done]. pose proof (moved_trans _ _ _ _ _ _ _ Hm1 Hm2) as H. by rewrite app_nil_r in H.
Qed.

(** The connection on which a server of this version gives its version. *)
Definition version_given (v : fdio) : Prop := io_in v = okay_text (hex04 ADB_SERVER_VERSION) /\ (28 <= willing (io_evs v))%nat.

Lemma read_version_ok f : io_in f = hex4 4 ++ hex04 ADB_SERVER_VERSION -> (8 <= willing (io_evs f))%nat -> read_version f = Ok (Some ADB_SERVER_VERSION).
Proof.
  intros Hin Hw. destruct (readx_answer f (hex4 4) _ Hin ltac:(cbn; lia)) as (f1 & E1 & Hm1 & Hi1). unfold read_version.
  change 4%nat with (length (hex4 4)). rewrite E1. cbn [res_bind]. change (bool_decide (0 <> 0)) with false. cbv iota zeta.
  rewrite strtoul16_hex4 by lia. rewrite bool_decide_false by lia. rewrite <-(app_nil_r (hex04 _)) in Hi1.
  assert (4 <= willing (io_evs f1))%nat as Hw1 by (eapply moved_willing; [exact Hm1|cbn; lia]).
  destruct (readx_answer f1 (hex04 ADB_SERVER_VERSION) [] Hi1 Hw1) as (f2 & E2 & _).
  change (Z.to_nat 4) with (length (hex04 ADB_SERVER_VERSION)). rewrite E2. vm_compute. reflexivity.
Qed.

Lemma adb_connect_ok cfg service v c conns : version_given v -> cl_connections c = Some v :: conns ->
  adb_connect cfg service c = connect_service cfg service (Client (cl_error c) conns).
Proof.
  intros [Hv Hw] Hc. destruct (connect_accepted cfg (lit "host:version") c v conns (hex4 4 ++ hex04 ADB_SERVER_VERSION)) as (f & E1 & Hm & Hi);
    [reflexivity|cbn; lia|done|rewrite Hv; reflexivity|cbn; lia|].
  unfold adb_connect. rewrite E1. cbn [res_bind]. rewrite read_version_ok; [|done|eapply moved_willing; [exact Hm|cbn; lia]].
  cbn [res_bind]. by rewrite bool_decide_false by (intros H; by apply H).
Qed.

(** A request for a service, as the client writes it. *)
Definition request_text (service : bytes) : bytes := hex4 (Z.of_nat (length service)) ++ service.

Lemma request_names service : Byte.x00 ∉ service -> (1 <= length service <= 1024)%nat -> names (request_text service) service.
Proof.
  intros Hnul Hl. unfold request_text.
  assert (unhex (hex4 (Z.of_nat (length service)) ++ service) 4 = Ok (Z.of_nat (length service))) as Hh by (apply unhex_hex4; lia).
  assert (length (hex4 (Z.of_nat (length service))) = 4%nat) as H4 by done. revert Hh H4. generalize (hex4 (Z.of_nat (length service))). intros h Hh H4.
  exists (Z.of_nat (length service)). split; [done|]. split; [lia|]. split; [rewrite length_app, H4; lia|].
  rewrite Nat2Z.id, <-H4, drop_app_length, take_ge by lia. by apply c_string_snoc.
Qed.

(** A query for a service of the server itself: on the connection that follows
    the one for the version, the client writes the request for exactly this
    service, and the text that it returns is the one that the server answers
    with, for every answer of at most 1024 bytes; it is refused beyond. *)
Theorem query_agrees cfg service text v q c conns : starts_with (lit "host") service = true -> service <> lit "host:start-server" -> Byte.x00 ∉ service -> (1 <= length service <= 1024)%nat ->
  cl_connections c = Some v :: Some q :: conns -> version_given v -> io_in q = okay_text text -> (length text <= 4087)%nat ->
  (12 + length service + length text <= willing (io_evs q))%nat ->
  adb_query cfg service c = Ok (if decide (length text <= 1024)%nat then Some text else None, Client (cl_error c) conns)
  /\ exists f, connect_to_server cfg service (Client (cl_error c) (Some q :: conns)) = Ok (inl f, Client (cl_error c) conns)
     /\ io_out f = io_out q ++ request_text service /\ names (request_text service) service.
Proof.
  intros Hs Hne Hnul Hl Hc Hv Hq Ht Hw. assert (okay_text text = lit "OKAY" ++ hex4 (Z.of_nat (length text)) ++ text) as Htext.
  { unfold okay_text. apply take_ge. rewrite !length_app. cbn. lia. }
  rewrite Htext in Hq. destruct (connect_accepted cfg service (Client (cl_error c) (Some q :: conns)) q conns _ Hs Hl eq_refl Hq ltac:(lia)) as (f & E1 & Hm & Hi). cbn [cl_error] in E1.
  split.
  - unfold adb_query. rewrite (adb_connect_ok _ _ _ _ _ Hv Hc). unfold connect_service. rewrite bool_decide_false by done. rewrite E1. cbn [res_bind opened].
    assert (4 + length text <= willing (io_evs f))%nat as Hwf by (eapply moved_willing; [exact Hm|rewrite length_app; cbn [length hex4]; change (length (lit "OKAY")) with 4%nat; lia]).
    assert (length (hex4 (Z.of_nat (length text))) = 4%nat) as H4 by done.
    destruct (readx_answer f (hex4 (Z.of_nat (length text))) _ Hi) as (f1 & E2 & Hm1 & Hi1); [lia|].
    rewrite H4 in E2. rewrite E2. cbn [res_bind]. change (bool_decide (0 <> 0)) with false. cbv iota zeta.
    rewrite strtoul16_hex4 by lia. case_decide as Hlt; [rewrite bool_decide_false by lia|by rewrite bool_decide_true by lia].
    rewrite <-(app_nil_r text) in Hi1. destruct (readx_answer f1 text [] Hi1) as (f2 & E3 & _); [eapply moved_willing; [exact Hm1|cbn [length hex4]; lia]|].
    rewrite Nat2Z.id, E3. cbn [res_bind]. done.
  - exists f. split; [done|]. destruct Hm as [_ Ho _]. split; [done|].
    apply request_names; (done || lia).
Qed.

(** What the client asks first, for a service on a device. *)
Definition switch_service (cfg : config) : option bytes :=
  match cf_serial cfg, cf_transport cfg with
  | Some serial, _ => Some (lit "host:transport:" ++ serial)
  | None, kTransportUsb => Some (lit "host:transport-usb")
  | None, kTransportLocal => Some (lit "host:transport-local")
  | None, kTransportAny => Some (lit "host:transport-any")
  | None, kTransportHost => None
  end.

Lemma switch_ok cfg f c switch rest : switch_service cfg = Some switch -> (length switch <= 63)%nat -> io_in f = lit "OKAY" ++ rest ->
  (8 + length switch <= willing (io_evs f))%nat ->
  exists f', switch_socket_transport cfg f c = Ok (inl f', c) /\ moved f f' (lit "OKAY") (request_text switch) /\ io_in f' = rest.
Proof.
  intros Hs Hl Hin Hw. destruct (write_service_ok f switch) as (f1 & E1 & Hm1); [lia|lia|].
  assert (io_in f1 = lit "OKAY" ++ rest) as Hin1 by (destruct Hm1 as [H _ _]; by rewrite <-Hin).
  assert (4 <= willing (io_evs f1))%nat as Hw1 by (eapply moved_willing; [exact Hm1|rewrite length_app; cbn [length hex4]; lia]).
  destruct (status_okay f1 c rest Hin1 Hw1) as (f2 & E2 & Hm2 & Hi2). exists f2. split; [|split; [|done]].
  - unfold switch_socket_transport. unfold switch_service in Hs. destruct (cf_serial cfg); [|destruct (cf_transport cfg)]; simplify_eq;
      rewrite take_ge by done; rewrite E1; cbn [res_bind negb]; rewrite E2; cbn [res_bind]; reflexivity.
  - pose proof (moved_trans _ _ _ _ _ _ _ Hm1 Hm2) as H. by rewrite app_nil_r in H.
Qed.

(** A service on a device: the client asks the server for the device first, by
    its serial if it was given one, and for the service when that is accepted;
    the smart socket of the server reads both requests as they were meant.
    This needs a serial of at most 48 characters. *)
Theorem device_service cfg service switch q c conns rest : starts_with (lit "host") service = false -> (1 <= length service <= 1024)%nat -> Byte.x00 ∉ service ->
  switch_service cfg = Some switch -> (length switch <= 63)%nat -> Byte.x00 ∉ switch ->
  cl_connections c = Some q :: conns -> io_in q = lit "OKAYOKAY" ++ rest -> (16 + length switch + length service <= willing (io_evs q))%nat ->
  exists f, connect_to_server cfg service c = Ok (inl f, Client (cl_error c) conns) /\ io_in f = rest
  /\ io_out f = io_out q ++ request_text switch ++ request_text service /\ names (request_text switch) switch /\ names (request_text service) service.
Proof.
  intros Hs Hl Hnul Hsw Hsl Hsn Hc Hin Hw. unfold connect_to_server. rewrite bool_decide_false by lia. rewrite Hc, Hs.
  assert (1 <= length switch)%nat as Hs1 by (unfold switch_service in Hsw; destruct (cf_serial cfg); [|destruct (cf_transport cfg)]; simplify_eq; cbn; lia).
  destruct (switch_ok cfg q (Client (cl_error c) conns) switch (lit "OKAY" ++ rest) Hsw Hsl Hin) as (f & E1 & Hm & Hi); [lia|].
  rewrite E1. cbn [res_bind]. destruct (write_service_ok f service) as (f1 & E2 & Hm1); [lia| |].
  { eapply moved_willing; [exact Hm|]. unfold request_text. rewrite length_app. cbn [length hex4]. change (length (lit "OKAY")) with 4%nat. lia. }
  rewrite E2. cbn [res_bind negb]. pose proof (moved_trans _ _ _ _ _ _ _ Hm Hm1) as Hm2.
  assert (io_in f1 = lit "OKAY" ++ rest) as Hin1 by (destruct Hm1 as [H _ _]; by rewrite <-Hi).
  destruct (status_okay f1 (Client (cl_error c) conns) rest Hin1) as (f2 & E3 & Hm3 & Hi3).
  { eapply moved_willing; [exact Hm2|]. unfold request_text. rewrite !length_app. cbn [length hex4]. change (length (lit "OKAY")) with 4%nat. lia. }
  rewrite E3. cbn [res_bind]. exists f2. split; [done|]. split; [done|].
  split; [destruct (moved_trans _ _ _ _ _ _ _ Hm2 Hm3) as [_ Ho _]; by rewrite app_nil_r in Ho|]. split; apply request_names; (done || lia).
Qed.

(** A request that the server refuses is given up with its reason. *)
Theorem refusal_reported cfg service c q conns reason rest : starts_with (lit "host") service = true -> (1 <= length service <= 1024)%nat ->
  cl_connections c = Some q :: conns -> io_in q = lit "FAIL" ++ hex4 (Z.of_nat (length reason)) ++ reason ++ rest -> (length reason <= 255)%nat -> Byte.x00 ∉ reason ->
  (12 + length service + length reason <= willing (io_evs q))%nat ->
  connect_to_server cfg service c = Ok (inr (-1), Client reason conns).
Proof.
  intros Hs Hl Hc Hin Hr Hnul Hw. unfold connect_to_server. rewrite bool_decide_false by lia. rewrite Hc, Hs. cbn [res_bind].
  destruct (write_service_ok q service) as (f1 & E1 & Hm1); [lia|lia|]. rewrite E1. cbn [res_bind negb].
  destruct (status_fail f1 (Client (cl_error c) conns) reason rest) as (f2 & E2); [|done..| |].
  - destruct Hm1 as [H _ _]. by rewrite <-Hin.
  - eapply moved_willing; [exact Hm1|]. rewrite length_app. cbn [length hex4]. lia.
  - rewrite E2. done.
Qed.

(** The connection [n] of a command: it brings [text] and takes all writes. *)
Definition a_connection (text : bytes) : fdio := Fdio text [] (replicate 100 (Xfer 4096)) [].
Definition a_config : config := Config kTransportAny None false true (a_connection []).
Definition version_answer : bytes := okay_text (hex04 ADB_SERVER_VERSION).
Definition a_listing : bytes := lit "emulator-5554" ++ [Byte.x09] ++ lit "device" ++ [Byte.x0a].
Definition a_client (text : bytes) : client := Client [] [Some (a_connection version_answer); Some (a_connection text)].

Lemma query_agrees_witness :
  adb_query a_config (lit "host:devices") (a_client (okay_text a_listing)) = Ok (Some a_listing, Client [] [])
  /\ exists f, connect_to_server a_config (lit "host:devices") (Client [] [Some (a_connection (okay_text a_listing))]) = Ok (inl f, Client [] [])
     /\ io_out f = request_text (lit "host:devices") /\ names (request_text (lit "host:devices")) (lit "host:devices").
Proof.
  apply (query_agrees a_config (lit "host:devices") a_listing (a_connection version_answer) (a_connection (okay_text a_listing)) (a_client (okay_text a_listing)) []);
    try reflexivity; first [done|by (vm_compute; set_solver)|split; [reflexivity|vm_compute; lia]|vm_compute; lia].
Defined.

(** What [adb_connect] asks of a server that is out of date, that does not know
    the request for its version, and that does not run. *)
Definition old_answer : bytes := okay_text (hex04 30).

Example old_server_replaced :
  (let* ' (f, c) := adb_connect a_config (lit "host:devices") (Client [] [Some (a_connection old_answer); None; Some (a_connection (lit "OKAY"))]) in
   Ok (match f with inl f => io_out f | inr _ => [] end, cl_connections c)) = Ok (hex4 12 ++ lit "host:devices", []).
Proof. vm_compute. reflexivity. Qed.

Example server_started :
  (let* ' (f, c) := adb_connect a_config (lit "host:devices") (Client [] [None; Some (a_connection (lit "OKAY"))]) in
   Ok (match f with inl f => io_out f | inr _ => [] end, cl_connections c)) = Ok (hex4 12 ++ lit "host:devices", []).
Proof. vm_compute. reflexivity. Qed.

(** The device of a service, named by its serial. *)
Definition a_serial : bytes := lit "10.0.0.2:5555".
Definition on_device (serial : bytes) : config := Config kTransportAny (Some serial) false true (a_connection []).

Lemma device_service_witness : exists f, connect_to_server (on_device a_serial) (lit "shell:ls") (Client [] [Some (a_connection (lit "OKAYOKAYdata"))]) = Ok (inl f, Client [] [])
  /\ io_in f = lit "data" /\ io_out f = request_text (lit "host:transport:" ++ a_serial) ++ request_text (lit "shell:ls")
  /\ names (request_text (lit "host:transport:" ++ a_serial)) (lit "host:transport:" ++ a_serial) /\ names (request_text (lit "shell:ls")) (lit "shell:ls").
Proof.
  apply (device_service (on_device a_serial) (lit "shell:ls") (lit "host:transport:" ++ a_serial) (a_connection (lit "OKAYOKAYdata"))
    (Client [] [Some (a_connection (lit "OKAYOKAYdata"))]) [] (lit "data")); try reflexivity; first [vm_compute; lia|vm_compute; set_solver].
Defined.

Lemma refusal_reported_witness : connect_to_server a_config (lit "host:get-state") (Client [] [Some (a_connection (lit "FAIL0010device not found"))])
  = Ok (inr (-1), Client (lit "device not found") []).
Proof.
  apply (refusal_reported a_config (lit "host:get-state") (Client [] [Some (a_connection (lit "FAIL0010device not found"))]) (a_connection (lit "FAIL0010device not found"))
    [] (lit "device not found") []); try reflexivity; first [vm_compute; lia|vm_compute; set_solver].
Defined.

(** A serial of more than 48 characters is cut: the client asks for another device. *)
Theorem long_serial_cut : let serial := replicate 49 Byte.x61 in
  exists f c, switch_socket_transport (on_device serial) (a_connection (lit "OKAY")) (Client [] []) = Ok (inl f, c)
  /\ names (io_out f) (lit "host:transport:" ++ replicate 48 Byte.x61).
Proof.
  eexists _, _. split; [vm_compute; reflexivity|]. exists 63. split; [vm_compute; reflexivity|]. split; [lia|]. split; [vm_compute; discriminate|vm_compute; reflexivity].
Qed.

(** ** The console of an emulator *)

(** The console port of an emulator that is named by its serial. *)
Theorem console_port_read cfg c p : 0 <= p < 2 ^ 31 -> cf_serial cfg = Some (LOCAL_CLIENT_PREFIX ++ print_int p) -> adb_get_emulator_console_port cfg c = Ok (p, c).
Proof.
  intros Hp Hs. unfold adb_get_emulator_console_port. rewrite Hs, starts_with_app, drop_app_length. do 2 f_equal.
  pose proof (scan_print p Hp) as Hscan. unfold scan_d in Hscan. unfold strtol10. destruct (drop_spaces (print_int p)) as [|b s]; [done|].
  destruct (take_sign (b :: s)) as [neg t]. destruct (strtoul_loop 10 0 0 false t) as [[acc any] e]. case_bool_decide; [done|]. congruence.
Qed.

Lemma console_port_read_witness : adb_get_emulator_console_port (on_device (lit "emulator-5554")) (Client [] []) = Ok (5554, Client [] []).
Proof. apply (console_port_read (on_device (lit "emulator-5554")) (Client [] []) 5554); [lia|reflexivity]. Defined.

(** The only emulator of the listing: its serial is read from freed memory. *)
Theorem console_port_after_free : adb_get_emulator_console_port a_config (a_client (okay_text a_listing)) = Ub.
Proof. vm_compute. reflexivity. Qed.
