(* ===== verification/Commands.v ===== *)
(** * The command line (commandline.c)

    What [adb] does with its arguments: the options, the requests that a command
    sends to the server or to a service of the device, and the files that it
    pushes.  A call of another component, or of the system, is a [call]; the
    environment answers it from everything that was called before, and each call
    is kept with the device and the server that it goes to ([target]).  The
    theorems are in CommandLines.v. *)

From S2P Require Import Prelude Cstr Numbers World Connect HostRequest.

(** ** Strings *)

(** The characters that [dupAndQuote] escapes: space, quote, backslash and the
    parentheses. *)
Definition escaped (b : byte) : bool :=
  bool_decide (b = Byte.x20 \/ b = Byte.x22 \/ b = Byte.x5c \/ b = Byte.x28 \/ b = Byte.x29).

(** Its first loop, and its second. *)
Fixpoint alloc_len (s : bytes) : nat :=
  match s with
  | [] => 0
  | b :: s => if escaped b then S (S (alloc_len s)) else S (alloc_len s)
  end.
Fixpoint quote_loop (s : bytes) : bytes :=
  match s with
  | [] => []
  | b :: s => if escaped b then Byte.x5c :: b :: quote_loop s else b :: quote_loop s
  end.

(** [room] bytes are allocated for the string and its NUL. *)
Definition stored (room : nat) (s : bytes) : res bytes := if bool_decide (length s < room)%nat then Ok s else Ub.

Definition dupAndQuote (s : bytes) : res bytes := stored (alloc_len s + 1) (quote_loop s).

(** [snprintf(buf, room, "%s", s)] *)
Definition printed (room : nat) (s : bytes) : bytes := take (room - 1) s.

(** [strncat(buf, s, n)] and [strcat(buf, s)] in an array of [room] bytes. *)
Definition strncat (room : nat) (buf s : bytes) (n : nat) : res bytes := stored room (buf ++ take n s).
Definition strcat (room : nat) (buf s : bytes) : res bytes := stored room (buf ++ s).

(** [sizeof(buf)] *)
Definition BUF : nat := 4096.
Definition PATH_MAX : nat := 4096.
Definition slash : byte := Byte.x2f.

(** ** The environment *)

(** Where the requests go: [adb_set_transport], [adb_set_tcp_specifics] and
    [adb_set_tcp_name]. *)
Record target := Target {
  t_type : transport_type;
  t_serial : option bytes;
  t_port : Z;
  t_host : option bytes
}.

Inductive call :=
  | AdbConnect (service : bytes)
  | ServerConnect (service : bytes)
  | AdbQuery (request : bytes)
  | AdbCommand (request : bytes)
  | ReadAndDump (fd : Z)
  | CopyToFile (inFd outFd : Z)
  | StdinThread (fd : Z)
  | AdbClose (fd : Z)
  | SleepMs (ms : Z)
  | SyncLs (path : bytes)
  | SyncPush (lpath rpath : bytes) (verifyApk : bool)
  | SyncPull (rpath lpath : bytes)
  | SyncSync (lpath rpath : bytes) (listonly : bool)
  | Download (service fn : bytes)
  | EmulatorCommand (args : list bytes)
  | Stat (path : bytes)
  | Access (path : bytes)
  | Getcwd
  | GetMyPath
  | Unlink (path : bytes)
  | Mkdir (path : bytes)
  | Creat (path : bytes)
  | OpenRead (path : bytes)
  | Fork
  | Exec (args : list bytes)
  | AdbMain (is_daemon : bool) (port : Z)
  | LaunchServer (port : Z)
  | PrintText (s : bytes).

(** [answer] and [text] are the results of the last call of a history. *)
Record environment := Environment {
  getenv : bytes -> option bytes;
  answer : list (target * call) -> Z;
  text : list (target * call) -> option bytes
}.

(** The globals: the target, [gProductOutPath] and [gListenAll]. *)
Record state := State {
  s_target : target;
  s_product : option bytes;
  s_all : bool;
  s_log : list (target * call)
}.
Definition with_target (t : target) (s : state) : state := State t (s_product s) (s_all s) (s_log s).
Definition with_product (p : option bytes) (s : state) : state := State (s_target s) p (s_all s) (s_log s).
Definition with_all (s : state) : state := State (s_target s) (s_product s) true (s_log s).
Definition log (c : call) (s : state) : state := State (s_target s) (s_product s) (s_all s) (s_log s ++ [(s_target s, c)]).

Section Commands.
Context (E : environment).

Definition perform (c : call) (s : state) : Z * state := let s := log c s in (answer E (s_log s), s).
Definition perform_text (c : call) (s : state) : option bytes * state := let s := log c s in (text E (s_log s), s).

(** [return usage();] *)
Definition usage (s : state) : res (Z * state) := Ok (1, s).

(** ** The directory of the product *)

Definition is_absolute (path : bytes) : bool := match path with b :: _ => bool_decide (b = slash) | [] => false end.

Definition top_works (top : bytes) (s : state) : bool * state :=
  if is_absolute top then
    let '(r, s) := perform (Access (printed PATH_MAX (top ++ lit "/config/envsetup.make"))) s in
    (bool_decide (r = 0), s)
  else (false, s).

(** A path loses a directory in every iteration. *)
Fixpoint find_top_loop (fuel : nat) (path : bytes) (s : state) : res (option bytes * state) :=
  match fuel with
  | O => Blocked
  | S fuel =>
      let '(ok, s) := top_works path s in
      if ok then Ok (Some path, s)
      else
        match strrchr path slash with
        | Some (path, _) => find_top_loop fuel path s
        | None => Ok (None, s)
        end
  end.

Definition find_top_from (indir : option bytes) (s : state) : res (option bytes * state) :=
  let* indir := access indir in
  let* path := stored PATH_MAX indir in
  find_top_loop (S (length path)) path s.

(** A variable that is set and not empty. *)
Definition getenv_set (name : bytes) : option bytes :=
  match getenv E name with Some (b :: v) => Some (b :: v) | _ => None end.

Definition find_top (s : state) : res (option bytes * state) :=
  match (match getenv_set (lit "ANDROID_BUILD_TOP") with Some top => Some top | None => getenv_set (lit "TOP") end) with
  | Some top =>
      let '(ok, s) := top_works top s in
      if ok then let* top := stored PATH_MAX top in Ok (Some top, s) else Ok (None, s)
  | None =>
      let '(cwd, s) := perform_text Getcwd s in
      let* ' (top, s) := find_top_from cwd s in
      match top with
      | Some top => Ok (Some top, s)
      | None => let '(dir, s) := perform_text GetMyPath s in find_top_from dir s
      end
  end.

Definition find_product_out_path (hint : bytes) (s : state) : res (option bytes * state) :=
  if bool_decide (hint = []) then Ok (None, s)
  else if is_absolute hint then let* path := stored PATH_MAX hint in Ok (Some path, s)
  else
    match strchr hint slash with
    | Some _ =>
        let '(cwd, s) := perform_text Getcwd s in
        match cwd with
        | None => Ok (None, s)
        | Some cwd =>
            if bool_decide (PATH_MAX <= length cwd + 1 + length hint)%nat then Ok (None, s)
            else
              let* path := strcat PATH_MAX cwd [slash] in
              let* path := strcat PATH_MAX path hint in
              Ok (Some path, s)
        end
    | None =>
        let* ' (top, s) := find_top s in
        match top with
        | None => Ok (None, s)
        | Some top =>
            let path := printed PATH_MAX (top ++ lit "/out/target/product/" ++ hint) in
            let '(r, s) := perform (Access path) s in
            Ok (if bool_decide (r < 0) then None else Some path, s)
        end
    end.

Definition product_file (extra : bytes) (s : state) : res bytes :=
  match s_product s with
  | None => Exit
  | Some p => let n := (length p + length extra + 2)%nat in Ok (printed n (p ++ slash :: extra))
  end.

(** The two directories of [find_sync_dirs]; [None] is its return of 1. *)
Definition find_sync_dirs (srcarg : option bytes) (s : state) : res (option (option bytes * option bytes)) :=
  match srcarg with
  | None =>
      let* a := product_file (lit "system") s in
      let* d := product_file (lit "data") s in
      Ok (Some (Some a, Some d))
  | Some arg =>
      if bool_decide (arg = lit "system") then let* a := product_file (lit "system") s in Ok (Some (Some a, None))
      else if bool_decide (arg = lit "data") then let* d := product_file (lit "data") s in Ok (Some (None, Some d))
      else Ok None
  end.

(** ** Commands of a shell on the device *)

Fixpoint append_quoted (buf : bytes) (args : list bytes) : res bytes :=
  match args with
  | [] => Ok buf
  | a :: args =>
      let* quoted := dupAndQuote a in
      let* buf := strncat BUF buf (lit " ") (BUF - 1) in
      let* buf := strncat BUF buf quoted (BUF - 1) in
      append_quoted buf args
  end.

(** The buffers of [pm_command], [delete_file] and [logcat]. *)
Definition pm_line (args : list bytes) : res bytes := append_quoted (printed BUF (lit "shell:pm")) args.

Definition delete_line (filename : bytes) : res bytes :=
  let* quoted := dupAndQuote filename in strncat BUF (printed BUF (lit "shell:rm ")) quoted (BUF - 1).

Definition logcat_line (args : list bytes) : res bytes :=
  let* quoted_log_tags := dupAndQuote (default [] (getenv E (lit "ANDROID_LOG_TAGS"))) in
  let buf := printed BUF (lit "shell:export ANDROID_LOG_TAGS=" ++ [Byte.x22] ++ quoted_log_tags ++ [Byte.x22] ++ lit " ; exec logcat") in
  match args with
  | [] => Ub
  | a :: args =>
      let* buf := if bool_decide (a = lit "longcat") then strncat BUF buf (lit " -v long") (BUF - 1) else Ok buf in
      append_quoted buf args
  end.

(** The arguments of [adb shell]: a quote around those that are empty or have a
    space. *)
Fixpoint shell_arguments (buf : bytes) (args : list bytes) : res bytes :=
  match args with
  | [] => Ok buf
  | a :: args =>
      let quote := bool_decide (a = []) || match strchr a Byte.x20 with Some _ => true | None => false end in
      let* buf := strcat BUF buf (lit " ") in
      let* buf := if quote then strcat BUF buf [Byte.x22] else Ok buf in
      let* buf := strcat BUF buf a in
      let* buf := if quote then strcat BUF buf [Byte.x22] else Ok buf in
      shell_arguments buf args
  end.

Definition shell_line (first : bytes) (args : list bytes) : res bytes :=
  shell_arguments (printed BUF (lit "shell:" ++ first)) args.

(** *** Calls of the command line by itself *)

(** [adb_commandline], and how often somebody who waits for a device looks. *)
Context (commandline : list bytes -> state -> res (Z * state)) (patience : nat).

Definition do_cmd (ttype : transport_type) (serial : option bytes) (cmd : list bytes) (s : state) : res (Z * state) :=
  commandline (match serial, ttype with
               | Some serial, _ => [lit "-s"; serial]
               | None, kTransportUsb => [lit "-d"]
               | None, kTransportLocal => [lit "-e"]
               | None, _ => []
               end ++ cmd) s.

Fixpoint connect_loop (fuel : nat) (ttype : transport_type) (serial : option bytes) (buf : bytes) (s : state) : res (Z * state) :=
  match fuel with
  | O => Blocked
  | S fuel =>
      let '(fd, s) := perform (AdbConnect buf) s in
      if bool_decide (0 <= fd) then Ok (fd, s)
      else
        let '(_, s) := perform (SleepMs 1000) s in
        let* ' (_, s) := do_cmd ttype serial [lit "wait-for-device"] s in
        connect_loop fuel ttype serial buf s
  end.

Definition send_shellcommand (ttype : transport_type) (serial : option bytes) (buf : bytes) (s : state) : res (Z * state) :=
  let* ' (fd, s) := connect_loop patience ttype serial buf s in
  let '(_, s) := perform (ReadAndDump fd) s in
  Ok (perform (AdbClose fd) s).

Definition pm_command (ttype : transport_type) (serial : option bytes) (args : list bytes) (s : state) : res (Z * state) :=
  let* buf := pm_line args in
  let* ' (_, s) := send_shellcommand ttype serial buf s in Ok (0, s).

Definition delete_file (ttype : transport_type) (serial : option bytes) (filename : bytes) (s : state) : res (Z * state) :=
  let* buf := delete_line filename in
  let* ' (_, s) := send_shellcommand ttype serial buf s in Ok (0, s).

Definition logcat (ttype : transport_type) (serial : option bytes) (args : list bytes) (s : state) : res (Z * state) :=
  let* buf := logcat_line args in
  let* ' (_, s) := send_shellcommand ttype serial buf s in Ok (0, s).

Definition uninstall_app (ttype : transport_type) (serial : option bytes) (args : list bytes) (s : state) : res (Z * state) :=
  match args with
  | [_; k; _] => if bool_decide (k = lit "-k") then Ok (-1, s) else pm_command ttype serial args s
  | _ => pm_command ttype serial args s
  end.

(** ** Installing a package *)

Definition get_basename (filename : bytes) : bytes :=
  match strrchr filename slash with Some (_, name) => name | None => filename end.

(** [true] is its return of 1: there is no such file, or it is none. *)
Definition check_file (filename : option bytes) (s : state) : bool * state :=
  match filename with
  | None => (false, s)
  | Some path => let '(r, s) := perform (Stat path) s in (negb (bool_decide (r = 0)), s)
  end.

(** The loop over the arguments from [i] on: the index of the first that is no
    option or value of one, whether [-s] was given, and [verify_apk]. *)
Fixpoint scan_options (args : list bytes) (i : nat) (sd verify_apk : bool) : option nat * bool * bool :=
  match args with
  | [] => (None, sd, verify_apk)
  | a :: args =>
      let skip sd verify_apk := match args with [] => (None, sd, verify_apk) | _ :: args => scan_options args (i + 2) sd verify_apk end in
      if negb (starts_with (lit "-") a) then (Some i, sd, verify_apk)
      else if bool_decide (a = lit "-i") then skip sd verify_apk
      else if bool_decide (a = lit "-s") then scan_options args (i + 1) true verify_apk
      else if bool_decide (a = lit "--algo" \/ a = lit "--iv" \/ a = lit "--key") then skip sd false
      else scan_options args (i + 1) sd verify_apk
  end.

Definition where_to (sd : bool) (name : bytes) : bytes :=
  printed PATH_MAX ((if sd then lit "/sdcard/tmp/" else lit "/data/local/tmp/") ++ name).

(** [cleanup_apk:] *)
Definition cleanup_apk (ttype : transport_type) (serial : option bytes) (verification_dest : option bytes) (apk_dest : bytes) (err : Z) (s : state) : res (Z * state) :=
  let cleanup s := let* ' (_, s) := delete_file ttype serial apk_dest s in Ok (err, s) in
  match verification_dest with
  | Some dest => let* ' (_, s) := delete_file ttype serial dest s in cleanup s
  | None => cleanup s
  end.

(** After the checks: the two pushes, and [pm] with the destinations. *)
Definition push_and_install (ttype : transport_type) (serial : option bytes) (args : list bytes) (file_arg : nat) (verify_apk : bool)
    (apk_file : bytes) (verification_file : option bytes) (apk_dest : bytes) (verification_dest : option bytes) (s : state) : res (Z * state) :=
  let '(err, s) := perform (SyncPush apk_file apk_dest verify_apk) s in
  if bool_decide (err <> 0) then cleanup_apk ttype serial verification_dest apk_dest err s
  else
    let args := <[file_arg := apk_dest]> args in
    match verification_file, verification_dest with
    | Some file, Some dest =>
        let '(err, s) := perform (SyncPush file dest false) s in
        if bool_decide (err <> 0) then cleanup_apk ttype serial verification_dest apk_dest err s
        else
          let* ' (_, s) := pm_command ttype serial (<[(file_arg + 1)%nat := dest]> args) s in
          cleanup_apk ttype serial verification_dest apk_dest err s
    | _, _ =>
        let* ' (_, s) := pm_command ttype serial args s in
        cleanup_apk ttype serial verification_dest apk_dest err s
    end.

Definition install_app (ttype : transport_type) (serial : option bytes) (args : list bytes) (s : state) : res (Z * state) :=
  let '(file_arg, sd, verify_apk) := scan_options (drop 1 args) 1 false true in
  match file_arg with
  | None => Ok (1, s)
  | Some file_arg =>
      if bool_decide (file_arg + 2 < length args)%nat then Ok (1, s)
      else
        let* apk_file := access (args !! file_arg) in
        let verification_file := args !! (file_arg + 1)%nat in
        let '(bad, s) := check_file (Some apk_file) s in
        if bad then Ok (1, s)
        else
          let '(bad, s) := check_file verification_file s in
          if bad then Ok (1, s)
          else
            let apk_dest := where_to sd (get_basename apk_file) in
            let verification_dest := (fun f => where_to sd (get_basename f)) <$> verification_file in
            if bool_decide (verification_dest = Some apk_dest) then Ok (1, s)
            else push_and_install ttype serial args file_arg verify_apk apk_file verification_file apk_dest verification_dest s
  end.

(** ** Other commands *)

(** A query whose answer is printed. *)
Definition print_query (request : bytes) (s : state) : res (Z * state) :=
  let '(tmp, s) := perform_text (AdbQuery request) s in
  match tmp with
  | Some tmp => let '(_, s) := perform (PrintText tmp) s in Ok (0, s)
  | None => Ok (1, s)
  end.

(** A service whose output is printed; [failed] is returned without a
    connection. *)
Definition dump_service (service : bytes) (failed : Z) (s : state) : res (Z * state) :=
  let '(fd, s) := perform (AdbConnect service) s in
  if bool_decide (0 <= fd) then
    let '(_, s) := perform (ReadAndDump fd) s in
    let '(_, s) := perform (AdbClose fd) s in Ok (0, s)
  else Ok (failed, s).

Definition interactive_shell (s : state) : res (Z * state) :=
  let '(fd, s) := perform (AdbConnect (lit "shell:")) s in
  if bool_decide (fd < 0) then Ok (1, s)
  else
    let '(_, s) := perform (StdinThread fd) s in
    let '(_, s) := perform (ReadAndDump fd) s in Ok (0, s).

(** With [persist] it only ends with the process. *)
Fixpoint shell_loop (fuel : nat) (persist : bool) (ttype : transport_type) (serial : option bytes) (buf : bytes) (s : state) : res (Z * state) :=
  match fuel with
  | O => Blocked
  | S fuel =>
      let* ' (r, s) := dump_service buf (-1) s in
      if persist then
        let '(_, s) := perform (SleepMs 1000) s in
        let* ' (_, s) := do_cmd ttype serial [lit "wait-for-device"] s in
        shell_loop fuel persist ttype serial buf s
      else Ok (r, s)
  end.

(** Queries for ever. *)
Fixpoint status_loop (fuel : nat) (command : bytes) (s : state) : res (Z * state) :=
  match fuel with
  | O => Blocked
  | S fuel =>
      let '(_, s) := perform (SleepMs 250) s in
      let '(_, s) := perform_text (AdbQuery command) s in
      status_loop fuel command s
  end.
Definition status_window (ttype : transport_type) (serial : option bytes) (s : state) : res (Z * state) :=
  status_loop patience (format_host_command BUF (lit "get-state") ttype serial) s.

Definition ppp (args : list bytes) (s : state) : res (Z * state) :=
  match args with
  | _ :: service :: opts =>
      let '(fd, s) := perform (AdbConnect service) s in
      if bool_decide (fd < 0) then Ok (1, s)
      else
        let '(pid, s) := perform Fork s in
        if bool_decide (pid < 0) then Ok (1, s)
        else if bool_decide (pid = 0) then let '(_, s) := perform (Exec (lit "pppd" :: opts)) s in Exit
        else let '(_, s) := perform (AdbClose fd) s in Ok (0, s)
  | _ => Ok (1, s)
  end.

(** A directory for every slash behind the first character, which an empty path
    does not have; the answer 1 is a directory that exists. *)
Fixpoint mkdirs_from (done rest : bytes) (s : state) : Z * state :=
  match rest with
  | [] => (0, s)
  | b :: rest =>
      if bool_decide (b = slash) then
        let '(ret, s) := perform (Mkdir done) s in
        if bool_decide (ret < 0) then (ret, s) else mkdirs_from (done ++ [b]) rest s
      else mkdirs_from (done ++ [b]) rest s
  end.
Definition mkdirs (path : bytes) (s : state) : res (Z * state) :=
  match path with [] => Ub | b :: rest => Ok (mkdirs_from [b] rest s) end.

(** The loop that takes [-f] out of the arguments of [adb backup], behind the
    name of the command; [None] returns the usage. *)
Fixpoint take_f (args : list bytes) : option (option bytes * list bytes) :=
  match args with
  | [] => Some (None, [])
  | a :: args =>
      if bool_decide (a = lit "-f") then
        match args with [] => None | filename :: args => Some (Some filename, args) end
      else match take_f args with Some (f, args) => Some (f, a :: args) | None => None end
  end.

Fixpoint backup_arguments (buf : bytes) (args : list bytes) : res bytes :=
  match args with
  | [] => Ok buf
  | a :: args =>
      let* buf := strncat BUF buf (lit ":") (BUF - length buf - 1) in
      let* buf := strncat BUF buf a (BUF - length buf - 1) in
      backup_arguments buf args
  end.
Definition backup_line (args : list bytes) : res bytes := backup_arguments (lit "backup") args.

Definition backup (args : list bytes) (s : state) : res (Z * state) :=
  match take_f (drop 1 args) with
  | None => usage s
  | Some (f, args) =>
      if bool_decide (args = []) then usage s
      else
        let filename := default (lit "./backup.ab") f in
        let '(_, s) := perform (Unlink filename) s in
        let* ' (_, s) := mkdirs filename s in
        let '(outFd, s) := perform (Creat filename) s in
        if bool_decide (outFd < 0) then Ok (-1, s)
        else
          let* buf := backup_line args in
          let '(fd, s) := perform (AdbConnect buf) s in
          if bool_decide (fd < 0) then let '(_, s) := perform (AdbClose outFd) s in Ok (-1, s)
          else
            let '(_, s) := perform (CopyToFile fd outFd) s in
            let '(_, s) := perform (AdbClose fd) s in
            let '(_, s) := perform (AdbClose outFd) s in Ok (0, s)
  end.

Definition restore (args : list bytes) (s : state) : res (Z * state) :=
  match args with
  | [_; filename] =>
      let '(tarFd, s) := perform (OpenRead filename) s in
      if bool_decide (tarFd < 0) then Ok (-1, s)
      else
        let '(fd, s) := perform (AdbConnect (lit "restore:")) s in
        if bool_decide (fd < 0) then let '(_, s) := perform (AdbClose tarFd) s in Ok (-1, s)
        else
          let '(_, s) := perform (CopyToFile tarFd fd) s in
          let '(_, s) := perform (AdbClose fd) s in
          let '(_, s) := perform (AdbClose tarFd) s in Ok (0, s)
  | _ => usage s
  end.

(** *** Forwards *)

Record forward_options := ForwardOptions { f_list : bool; f_remove : bool; f_remove_all : bool; f_no_rebind : bool }.

Fixpoint scan_forward (args : list bytes) (o : forward_options) : option (forward_options * list bytes) :=
  match args with
  | a :: rest =>
      if starts_with (lit "-") a then
        if bool_decide (a = lit "--list") then scan_forward rest (ForwardOptions true (f_remove o) (f_remove_all o) (f_no_rebind o))
        else if bool_decide (a = lit "--remove") then scan_forward rest (ForwardOptions (f_list o) true (f_remove_all o) (f_no_rebind o))
        else if bool_decide (a = lit "--remove-all") then scan_forward rest (ForwardOptions (f_list o) (f_remove o) true (f_no_rebind o))
        else if bool_decide (a = lit "--no-rebind") then scan_forward rest (ForwardOptions (f_list o) (f_remove o) (f_remove_all o) true)
        else None
      else Some (o, args)
  | [] => Some (o, [])
  end.

Definition host_prefix (ttype : transport_type) (serial : option bytes) : bytes :=
  printed 64 match serial, ttype with
             | Some serial, _ => lit "host-serial:" ++ serial
             | None, kTransportUsb => lit "host-usb"
             | None, kTransportLocal => lit "host-local"
             | None, _ => lit "host"
             end.

(** The request of [adb forward] with the options [o] and the arguments behind
    them; [None] returns the usage, and [--list] is a query. *)
Definition forward_request (o : forward_options) (prefix : bytes) (args : list bytes) : option (bool * bytes) :=
  let count := length (filter (fun b => b = true) [f_list o; f_remove o; f_remove_all o; f_no_rebind o]) in
  if bool_decide (1 < count)%nat then None
  else if f_list o then
    match args with [] => Some (true, printed BUF (prefix ++ lit ":list-forward")) | _ => None end
  else if f_remove_all o then
    match args with [] => Some (false, printed BUF (prefix ++ lit ":killforward-all")) | _ => None end
  else if f_remove o then
    match args with [local] => Some (false, printed BUF (prefix ++ lit ":killforward:" ++ local)) | _ => None end
  else
    match args with
    | [local; remote] =>
        let command := if f_no_rebind o then lit "forward:norebind:" else lit "forward" in
        Some (false, printed BUF (prefix ++ colon :: command ++ colon :: local ++ Byte.x3b :: remote))
    | _ => None
    end.

Definition forward (ttype : transport_type) (serial : option bytes) (args : list bytes) (s : state) : res (Z * state) :=
  match scan_forward (drop 1 args) (ForwardOptions false false false false) with
  | None => usage s
  | Some (o, args) =>
      match forward_request o (host_prefix ttype serial) args with
      | None => usage s
      | Some (true, request) => print_query request s
      | Some (false, request) =>
          let '(r, s) := perform (AdbCommand request) s in Ok (if bool_decide (r = 0) then 0 else 1, s)
      end
  end.

(** [adb sync]; a product that is not known ends the process. *)
Definition sync_command (args : list bytes) (s : state) : res (Z * state) :=
  let choice :=
    match drop 1 args with
    | [] => Some (None, false)
    | [a] => if bool_decide (a = lit "-l") then Some (None, true) else Some (Some a, false)
    | a :: b :: rest =>
        if bool_decide (a = lit "-l") then Some (if bool_decide (rest = []) then Some b else None, true) else None
    end in
  match choice with
  | None => usage s
  | Some (srcarg, listonly) =>
      let* dirs := find_sync_dirs srcarg s in
      match dirs with
      | None => usage s
      | Some (android_srcpath, data_srcpath) =>
          let '(ret, s) := match android_srcpath with
                           | Some p => perform (SyncSync p (lit "/system") listonly) s
                           | None => (0, s)
                           end in
          match data_srcpath with
          | Some p => if bool_decide (ret = 0) then Ok (perform (SyncSync p (lit "/data") listonly) s) else Ok (ret, s)
          | None => Ok (ret, s)
          end
      end
  end.

(** ** Options *)

Record options := Options {
  o_server : bool;
  o_no_daemon : bool;
  o_daemon : bool;
  o_persist : bool;
  o_type : transport_type;
  o_serial : option bytes;
  o_port : Z
}.
Definition set_server (o : options) : options :=
  Options true (o_no_daemon o) (o_daemon o) (o_persist o) (o_type o) (o_serial o) (o_port o).
Definition set_no_daemon (o : options) : options :=
  Options (o_server o) true (o_daemon o) (o_persist o) (o_type o) (o_serial o) (o_port o).
Definition set_daemon (o : options) : options :=
  Options (o_server o) (o_no_daemon o) true (o_persist o) (o_type o) (o_serial o) (o_port o).
Definition set_persist (o : options) : options :=
  Options (o_server o) (o_no_daemon o) (o_daemon o) true (o_type o) (o_serial o) (o_port o).
Definition set_type (t : transport_type) (o : options) : options :=
  Options (o_server o) (o_no_daemon o) (o_daemon o) (o_persist o) t (o_serial o) (o_port o).
Definition set_serial (serial : bytes) (o : options) : options :=
  Options (o_server o) (o_no_daemon o) (o_daemon o) (o_persist o) (o_type o) (Some serial) (o_port o).
Definition set_port (port : Z) (o : options) : options :=
  Options (o_server o) (o_no_daemon o) (o_daemon o) (o_persist o) (o_type o) (o_serial o) port.

Definition adb_set_tcp_name (hostname : bytes) (s : state) : state :=
  with_target (Target (t_type (s_target s)) (t_serial (s_target s)) (t_port (s_target s)) (Some hostname)) s.
Definition adb_set_transport (ttype : transport_type) (serial : option bytes) (s : state) : state :=
  with_target (Target ttype serial (t_port (s_target s)) (t_host (s_target s))) s.
Definition adb_set_tcp_specifics (port : Z) (s : state) : state :=
  with_target (Target (t_type (s_target s)) (t_serial (s_target s)) port (t_host (s_target s))) s.

Definition DEFAULT_ADB_PORT : Z := 7777.

(** A port that is given as text. *)
Definition server_port (s : bytes) : option Z :=
  let port := strtol0 s in if bool_decide (port <= 0 \/ port > 65535) then None else Some port.

Definition is_digit_char (b : byte) : bool := bool_decide (48 <= ub b <= 57).

(** [-p]: the product, or the usage. *)
Definition set_product (product : bytes) (s : state) : res (bool * state) :=
  let* ' (path, s) := find_product_out_path product s in
  let s := with_product path s in
  Ok (match path with Some _ => true | None => false end, s).

(** An option with a value of [n] characters behind it, or in the next
    argument. *)
Definition option_value (n : nat) (a : bytes) (rest : list bytes) : option (bytes * bool) :=
  match drop n a, rest with
  | [], [] => None
  | [], v :: _ => Some (v, true)
  | v, _ => Some (v, false)
  end.

(** The loop over the options; [None] returns the usage. *)
Fixpoint parse_options (args : list bytes) (o : options) (s : state) : res (option (options * list bytes) * state) :=
  match args with
  | [] => Ok (Some (o, []), s)
  | a :: rest =>
      let behind taken o s :=
        match taken, rest with true, _ :: rest => parse_options rest o s | _, _ => parse_options rest o s end in
      if bool_decide (a = lit "server") then parse_options rest (set_server o) s
      else if bool_decide (a = lit "nodaemon") then parse_options rest (set_no_daemon o) s
      else if bool_decide (a = lit "fork-server") then parse_options rest (set_daemon o) s
      else if bool_decide (a = lit "persist") then parse_options rest (set_persist o) s
      else if starts_with (lit "-p") a then
        match option_value 2 a rest with
        | None => Ok (None, s)
        | Some (product, taken) =>
            let* ' (ok, s) := set_product product s in
            if ok then behind taken o s else Ok (None, s)
        end
      else if starts_with (lit "-s") a then
        match drop 2 a with
        | b :: _ => if is_digit_char b then parse_options rest (set_serial (drop 2 a) o) s else Ok (None, s)
        | [] => match rest with [] => Ok (None, s) | serial :: rest => parse_options rest (set_serial serial o) s end
        end
      else if bool_decide (a = lit "-d") then parse_options rest (set_type kTransportUsb o) s
      else if bool_decide (a = lit "-e") then parse_options rest (set_type kTransportLocal o) s
      else if bool_decide (a = lit "-a") then parse_options rest o (with_all s)
      else if starts_with (lit "-H") a then
        match option_value 2 a rest with
        | None => Ok (None, s)
        | Some (hostname, taken) => behind taken o (adb_set_tcp_name hostname s)
        end
      else if starts_with (lit "-P") a then
        match option_value 2 a rest with
        | None => Ok (None, s)
        | Some (port, taken) =>
            if bool_decide (port = []) then Ok (None, s)
            else match server_port port with Some port => behind taken (set_port port o) s | None => Ok (None, s) end
        end
      else Ok (Some (o, args), s)
  end.

(** ** The commands *)

(** What [wait-for-device] stands for. *)
Definition wait_service (ttype : transport_type) (service : bytes) : bytes :=
  if starts_with (lit "wait-for-device") service then
    match ttype with
    | kTransportUsb => lit "wait-for-usb"
    | kTransportLocal => lit "wait-for-local"
    | _ => lit "wait-for-any"
    end
  else service.

(** The services without arguments, or with one. *)
Definition service_command (name : bytes) (rest : list bytes) : bytes :=
  printed 100
    (if bool_decide (name = lit "reboot-bootloader") then lit "reboot:bootloader"
     else match rest with arg :: _ => name ++ colon :: arg | [] => name ++ [colon] end).

(** The commands other than [wait-for-*], in groups; [None] is left to the next
    group. *)
Definition server_queries (name : bytes) (rest : list bytes) (s : state) : option (res (Z * state)) :=
  let named n := bool_decide (name = n) in
  let query request := print_query (printed BUF request) s in
  if named (lit "devices") then
    Some match rest with
         | [] => query (lit "host:devices")
         | [l] => if bool_decide (l = lit "-l") then query (lit "host:devices-l") else Ok (1, s)
         | _ => Ok (1, s)
         end
  else if named (lit "connect") then Some match rest with [host] => query (lit "host:connect:" ++ host) | _ => Ok (1, s) end
  else if named (lit "btconnect") then Some match rest with [host] => query (lit "host:btconnect:" ++ host) | _ => Ok (1, s) end
  else if named (lit "disconnect") then
    Some match rest with
         | [] => query (lit "host:disconnect:")
         | [host] => query (lit "host:disconnect:" ++ host)
         | _ => Ok (1, s)
         end
  else if named (lit "emu") then Some (Ok (perform (EmulatorCommand (name :: rest)) s))
  else None.

Definition shell_command (persist : bool) (ttype : transport_type) (serial : option bytes) (rest : list bytes) (s : state) : res (Z * state) :=
  match rest with
  | [] => interactive_shell s
  | first :: more => let* buf := shell_line first more in shell_loop patience persist ttype serial buf s
  end.

Definition device_services (persist : bool) (ttype : transport_type) (serial : option bytes) (name : bytes) (rest : list bytes) (s : state) : option (res (Z * state)) :=
  let named n := bool_decide (name = n) in
  if named (lit "shell") || named (lit "hell") then Some (shell_command persist ttype serial rest s)
  else if named (lit "kill-server") then
    let '(fd, s) := perform (ServerConnect (lit "host:kill")) s in Some (Ok (if bool_decide (fd = -1) then 1 else 0, s))
  else if named (lit "sideload") then
    Some match rest with
         | [file] => let '(r, s) := perform (Download (lit "sideload") file) s in Ok (if bool_decide (r = 0) then 0 else 1, s)
         | _ => usage s
         end
  else if named (lit "remount") || named (lit "reboot") || named (lit "reboot-bootloader") || named (lit "tcpip") || named (lit "usb") || named (lit "root") then
    Some (dump_service (service_command name rest) 1 s)
  else if named (lit "bugreport") then
    Some match rest with [] => let* ' (_, s) := do_cmd ttype serial [lit "shell"; lit "bugreport"] s in Ok (0, s) | _ => usage s end
  else None.

Definition file_commands (ttype : transport_type) (serial : option bytes) (name : bytes) (rest : list bytes) (s : state) : option (res (Z * state)) :=
  let named n := bool_decide (name = n) in
  let args := name :: rest in
  if named (lit "forward") then Some (forward ttype serial args s)
  else if named (lit "ls") then Some match rest with [path] => Ok (perform (SyncLs path) s) | _ => usage s end
  else if named (lit "push") then Some match rest with [l; r] => Ok (perform (SyncPush l r false) s) | _ => usage s end
  else if named (lit "pull") then
    Some match rest with
         | [r] => Ok (perform (SyncPull r (lit ".")) s)
         | [r; l] => Ok (perform (SyncPull r l) s)
         | _ => usage s
         end
  else if named (lit "install") then Some match rest with [] => usage s | _ => install_app ttype serial args s end
  else if named (lit "uninstall") then Some match rest with [] => usage s | _ => uninstall_app ttype serial args s end
  else if named (lit "sync") then Some (sync_command args s)
  else None.

Definition other_commands (ttype : transport_type) (serial : option bytes) (name : bytes) (rest : list bytes) (s : state) : res (Z * state) :=
  let named n := bool_decide (name = n) in
  let args := name :: rest in
  if named (lit "get-state") || named (lit "get-serialno") || named (lit "get-devpath") then
    print_query (format_host_command BUF name ttype serial) s
  else if named (lit "status-window") then status_window ttype serial s
  else if named (lit "logcat") || named (lit "lolcat") || named (lit "longcat") then logcat ttype serial args s
  else if named (lit "ppp") then ppp args s
  else if named (lit "start-server") then Ok (perform (AdbConnect (lit "host:start-server")) s)
  else if named (lit "backup") then backup args s
  else if named (lit "restore") then restore args s
  else if named (lit "jdwp") then dump_service (lit "jdwp") (-1) s
  else if named (lit "help") || named (lit "/?") || named (lit "version") then Ok (0, s)
  else Ok (1, s).

Definition run_command (persist : bool) (ttype : transport_type) (serial : option bytes) (name : bytes) (rest : list bytes) (s : state) : res (Z * state) :=
  match server_queries name rest s with
  | Some r => r
  | None =>
      match device_services persist ttype serial name rest s with
      | Some r => r
      | None =>
          match file_commands ttype serial name rest s with
          | Some r => r
          | None => other_commands ttype serial name rest s
          end
      end
  end.

(** [top:], where a command may follow [wait-for-device]. *)
Fixpoint top (persist : bool) (ttype : transport_type) (serial : option bytes) (args : list bytes) (s : state) : res (Z * state) :=
  match args with
  | name :: rest =>
      if starts_with (lit "wait-for-") name then
        let '(r, s) := perform (AdbCommand (format_host_command BUF (wait_service ttype name) ttype serial)) s in
        if bool_decide (r <> 0) then Ok (1, s)
        else match rest with [] => Ok (0, s) | _ => top persist ttype serial rest s end
      else run_command persist ttype serial name rest s
  | [] => usage s
  end.

(** The port of the environment, which may be empty. *)
Definition environment_port : option Z :=
  match getenv_set (lit "ANDROID_ADB_SERVER_PORT") with
  | Some v => server_port v
  | None => Some DEFAULT_ADB_PORT
  end.

Definition adb_commandline (args : list bytes) (s : state) : res (Z * state) :=
  let s := with_product (getenv_set (lit "ANDROID_PRODUCT_OUT")) s in
  match environment_port with
  | None => usage s
  | Some port =>
      let* ' (parsed, s) := parse_options args (Options false false false false kTransportAny (getenv E (lit "ANDROID_SERIAL")) port) s in
      match parsed with
      | None => usage s
      | Some (o, args) =>
          let s := adb_set_tcp_specifics (o_port o) (adb_set_transport (o_type o) (o_serial o) s) in
          if o_server o then
            if o_no_daemon o || o_daemon o then Ok (perform (AdbMain (o_daemon o) (o_port o)) s)
            else Ok (perform (LaunchServer (o_port o)) s)
          else top (o_persist o) (o_type o) (o_serial o) args s
      end
  end.
End Commands.

(** [adb_commandline] calls itself through [do_cmd]. *)
Fixpoint commandline_at (E : environment) (patience depth : nat) (args : list bytes) (s : state) : res (Z * state) :=
  match depth with
  | O => Blocked
  | S depth => adb_commandline E (commandline_at E patience depth) patience args s
  end.
