(* ===== verification/CommandLines.v ===== *)
(** * What the device is asked for (commandline.c)

    The command lines of Commands.v against the words that the shell of the
    device reads in them, the forwards against the requests of the server, and
    what an installation leaves on the device. *)

From S2P Require Import Connect DeviceServices.
From S2P Require Import Prelude Cstr Rwx Packet Fdevent World Transport Sockets SocketsInv SocketsClose SocketsData SocketsSmart SocketsEvents SocketsOpen Listeners HostRequest Commands.

(** ** Words of a shell

    The words of a simple command by sections 2.2 and 2.3 of the shell language
    of POSIX; [None] for a command in which a character has another meaning than
    itself, a blank, or a quote. *)

Definition plain (b : byte) : bool :=
  bool_decide (48 <= ub b <= 57 \/ 65 <= ub b <= 90 \/ 97 <= ub b <= 122 \/ 128 <= ub b
    \/ b ∈ lit "_-./:=+,@%^").

Definition add (word : option bytes) (s : bytes) : option bytes := Some (default [] word ++ s).
Definition word_list (word : option bytes) : list bytes := match word with Some w => [w] | None => [] end.

(** Inside of double quotes a backslash only quotes these. *)
Definition quotable (b : byte) : bool := bool_decide (b ∈ [Byte.x24; Byte.x60; Byte.x22; Byte.x5c]).
Definition expands (b : byte) : bool := bool_decide (b ∈ [Byte.x24; Byte.x60]).

Fixpoint read_words (s : bytes) (quoted : bool) (word : option bytes) : option (list bytes) :=
  match s with
  | [] => if quoted then None else Some (word_list word)
  | b :: s =>
      if bool_decide (b = Byte.x5c) then
        match s with
        | [] => None
        | c :: s =>
            if bool_decide (c = Byte.x0a) then None
            else read_words s quoted (add word (if quoted && negb (quotable c) then [b; c] else [c]))
        end
      else if bool_decide (b = Byte.x22) then read_words s (negb quoted) (add word [])
      else if quoted then if expands b then None else read_words s quoted (add word [b])
      else if bool_decide (b = Byte.x20) then app (word_list word) <$> read_words s false None
      else if plain b then read_words s false (add word [b])
      else None
  end.

Definition sh_words (s : bytes) : option (list bytes) := read_words s false None.

(** ** Quoting *)

Lemma quote_loop_length s : length (quote_loop s) = alloc_len s.
Proof. induction s as [|b s IH]; cbn; [done|]. destruct (escaped b); cbn; by rewrite IH. Qed.

Lemma dupAndQuote_ok s : dupAndQuote s = Ok (quote_loop s).
Proof. unfold dupAndQuote, stored. by rewrite quote_loop_length, bool_decide_true by lia. Qed.

(** A character that is escaped, or stands for itself. *)
Definition readable (b : byte) : Prop := plain b = true \/ escaped b = true.

Lemma escaped_spec b : escaped b = true <-> b = Byte.x20 \/ b = Byte.x22 \/ b = Byte.x5c \/ b = Byte.x28 \/ b = Byte.x29.
Proof. apply bool_decide_eq_true. Qed.

Lemma plain_spec b : plain b = true -> b <> Byte.x5c /\ b <> Byte.x22 /\ b <> Byte.x20.
Proof. intros H. split_and!; intros ->; by vm_compute in H. Qed.

Lemma read_plain b s word : plain b = true -> read_words (b :: s) false word = read_words s false (add word [b]).
Proof. intros H. destruct (plain_spec b H) as (H1 & H2 & H3). cbn [read_words]. by rewrite !bool_decide_false, H by done. Qed.

Lemma read_escape c s word : c <> Byte.x0a -> read_words (Byte.x5c :: c :: s) false word = read_words s false (add word [c]).
Proof. intros H. cbn [read_words]. by rewrite bool_decide_true, bool_decide_false by done. Qed.

Lemma add_app word a b : add (add word a) b = add word (a ++ b).
Proof. unfold add. cbn. by rewrite app_assoc. Qed.

(** What [dupAndQuote] makes of a string is read as that string. *)
Lemma read_quoted a s word : Forall readable a -> a <> [] -> read_words (quote_loop a ++ s) false word = read_words s false (add word a).
Proof.
  revert word. induction a as [|b a IH]; intros word Ha Hn; [done|]. apply Forall_cons in Ha as [Hb Ha].
  assert (Hs : read_words (quote_loop (b :: a) ++ s) false word = read_words (quote_loop a ++ s) false (add word [b])).
  { cbn [quote_loop]. destruct (escaped b) eqn:Eb; cbn [app].
    - apply read_escape. apply escaped_spec in Eb. intros ->. naive_solver.
    - apply read_plain. by destruct Hb as [|Hb]; [|congruence]. }
  rewrite Hs. destruct a as [|b' a]; [done|]. rewrite IH, add_app by done. done.
Qed.

(** A command that ends outside of quotes, and what follows behind a blank. *)
Lemma read_blank s : forall quoted word ws t, read_words s quoted word = Some ws ->
  read_words (s ++ Byte.x20 :: t) quoted word = app ws <$> sh_words t.
Proof.
  assert (H : forall n s, (length s <= n)%nat -> forall quoted word ws t, read_words s quoted word = Some ws ->
    read_words (s ++ Byte.x20 :: t) quoted word = app ws <$> sh_words t); [|by eauto].
  clear s. induction n as [|n IH]; intros [|b s] Hl quoted word ws t E; cbn [length] in Hl; try lia.
  - cbn in E. destruct quoted; [done|]. by simplify_eq.
  - cbn in E. destruct quoted; [done|]. by simplify_eq.
  - cbn [read_words app] in E |- *. destruct (bool_decide (b = Byte.x5c)) eqn:E1.
    { destruct s as [|c s]; [done|]. cbn [app length] in *. case_bool_decide; [done|]. apply IH; [lia|done]. }
    destruct (bool_decide (b = Byte.x22)); [apply IH; [lia|done]|].
    destruct quoted; [destruct (expands b); [done|]; apply IH; [lia|done]|].
    case_bool_decide; [|destruct (plain b); [apply IH; [lia|done]|done]].
    destruct (read_words s false None) as [ws'|] eqn:Es; [|done]. cbn in E. simplify_eq.
    rewrite (IH s ltac:(lia) false None ws' t Es). destruct (sh_words t); [|done]. cbn. by rewrite app_assoc.
Qed.

(** ** Buffers *)

Lemma stored_more (room : nat) a b : stored room a = Ub -> stored room (a ++ b) = Ub.
Proof. unfold stored. intros H. case_bool_decide; [done|]. rewrite bool_decide_false; [done|]. rewrite length_app. lia. Qed.

(** A buffer that grows piece by piece. *)
Lemma stored_chain (room : nat) a b k : (forall buf, buf = a -> (length buf < room)%nat -> k buf = stored room (buf ++ b)) ->
  (let* buf := stored room a in k buf) = stored room (a ++ b).
Proof.
  intros Hk. unfold stored at 1. case_bool_decide as H; cbn [res_bind]; [by apply Hk|].
  symmetry. apply stored_more. unfold stored. by rewrite bool_decide_false.
Qed.

Lemma stored_fits (room : nat) a : (length a < room)%nat -> stored room a = Ok a.
Proof. intros H. unfold stored. by rewrite bool_decide_true. Qed.

Lemma stored_ok (room : nat) a b : stored room a = Ok b -> b = a /\ (length a < room)%nat.
Proof. unfold stored. case_bool_decide; [|done]. by intros [= ->]. Qed.

Lemma strncat_all (room : nat) buf s n : buf <> [] -> (room - 1 <= n)%nat -> strncat room buf s n = stored room (buf ++ s).
Proof.
  intros Hb Hn. assert (0 < length buf)%nat by (destruct buf; cbn; [done|lia]). unfold strncat. destruct (decide (length s <= n)%nat); [by rewrite take_ge by lia|].
  unfold stored. rewrite !bool_decide_false; [done| |]; rewrite !length_app, ?length_take; lia.
Qed.

(** The buffer of quoted arguments is the whole line, or it overflows. *)
Definition quoted_line (args : list bytes) : bytes := concat (map (fun a => Byte.x20 :: quote_loop a) args).

Lemma append_quoted_exact args : forall buf, buf <> [] -> (length buf < BUF)%nat -> append_quoted buf args = stored BUF (buf ++ quoted_line args).
Proof.
  induction args as [|a args IH]; intros buf Hn Hb; cbn [append_quoted].
  - change (quoted_line []) with (@nil byte). by rewrite app_nil_r, stored_fits.
  - rewrite dupAndQuote_ok. cbn [res_bind]. rewrite strncat_all by done.
    change (quoted_line (a :: args)) with (lit " " ++ quote_loop a ++ quoted_line args).
    rewrite (app_assoc buf). apply stored_chain. intros buf1 -> Hb1. rewrite strncat_all by (done || by destruct buf).
    rewrite (app_assoc _ (quote_loop a)). apply stored_chain. intros buf2 -> Hb2. apply IH; [by destruct buf|done].
Qed.

Lemma pm_line_exact args : pm_line args = stored BUF (lit "shell:" ++ lit "pm" ++ quoted_line args).
Proof. unfold pm_line. rewrite append_quoted_exact by (done || by apply Nat.ltb_lt). done. Qed.

Lemma delete_line_exact f : delete_line f = stored BUF (lit "shell:" ++ lit "rm " ++ quote_loop f).
Proof. unfold delete_line. rewrite dupAndQuote_ok. cbn [res_bind]. by rewrite strncat_all. Qed.

(** The arguments of a command are read back. *)
Definition argument (a : bytes) : Prop := a <> [] /\ Forall readable a.

Lemma read_arguments args : forall cmd ws, Forall argument args -> sh_words cmd = Some ws -> sh_words (cmd ++ quoted_line args) = Some (ws ++ args).
Proof.
  induction args as [|a args IH]; intros cmd ws Ha E.
  - change (quoted_line []) with (@nil byte). by rewrite !app_nil_r.
  - apply Forall_cons in Ha as [[Hn Ha] Hs]. change (quoted_line (a :: args)) with ((Byte.x20 :: quote_loop a) ++ quoted_line args).
    rewrite app_assoc, (cons_middle a), app_assoc. apply IH; [done|].
    unfold sh_words at 1. rewrite (read_blank _ _ _ _ _ E).
    rewrite <-(app_nil_r (quote_loop a)). unfold sh_words. by rewrite read_quoted.
Qed.

(** *** [adb shell] *)

Definition shell_quotes (a : bytes) : bool := bool_decide (a = []) || match strchr a Byte.x20 with Some _ => true | None => false end.
Definition shell_item (a : bytes) : bytes := if shell_quotes a then Byte.x22 :: a ++ [Byte.x22] else a.
Definition shell_items (args : list bytes) : bytes := concat (map (fun a => Byte.x20 :: shell_item a) args).

Lemma shell_arguments_exact args : forall buf, (length buf < BUF)%nat -> shell_arguments buf args = stored BUF (buf ++ shell_items args).
Proof.
  induction args as [|a args IH]; intros buf Hb; cbn [shell_arguments].
  - change (shell_items []) with (@nil byte). by rewrite app_nil_r, stored_fits.
  - change (shell_items (a :: args)) with (lit " " ++ shell_item a ++ shell_items args).
    rewrite (app_assoc buf). apply stored_chain. intros buf1 -> Hb1. fold (shell_quotes a). unfold shell_item. destruct (shell_quotes a).
    + change ((Byte.x22 :: a ++ [Byte.x22]) ++ shell_items args) with ([Byte.x22] ++ (a ++ [Byte.x22]) ++ shell_items args).
      rewrite <-(app_assoc a), (app_assoc _ [Byte.x22]). apply stored_chain. intros buf2 -> Hb2.
      rewrite (app_assoc _ a). apply stored_chain. intros buf3 -> Hb3.
      rewrite (app_assoc _ [Byte.x22]). apply stored_chain. intros buf4 -> Hb4. by apply IH.
    + cbn [res_bind]. rewrite (app_assoc _ a). apply stored_chain. intros buf2 -> Hb2. by apply IH.
Qed.

(** Characters that are read as themselves, or blanks. *)
Definition blank_or_plain (b : byte) : Prop := plain b = true \/ b = Byte.x20.

Lemma read_within a t : forall word, Forall blank_or_plain a ->
  read_words (a ++ Byte.x22 :: t) true word = read_words t false (add word a).
Proof.
  induction a as [|b a IH]; intros word Ha; cbn [app].
  - done.
  - apply Forall_cons in Ha as [Hb Ha]. assert (H : b <> Byte.x5c /\ b <> Byte.x22 /\ expands b = false).
    { destruct Hb as [Hb| ->]; [|by vm_compute]. destruct (plain_spec b Hb) as (? & ? & _). split_and!; [done..|].
      destruct (expands b) eqn:Ex; [|done]. apply bool_decide_eq_true in Ex. rewrite !elem_of_cons in Ex.
      destruct Ex as [-> |[-> |Ex]]; [by vm_compute in Hb..|]. by apply elem_of_nil in Ex. }
    destruct H as (H1 & H2 & H3). cbn [read_words]. rewrite !bool_decide_false, H3 by done. by rewrite IH, add_app.
Qed.

Lemma strchr_blank a : Forall blank_or_plain a -> strchr a Byte.x20 = None -> Forall (fun b => plain b = true) a.
Proof.
  induction a as [|b a IH]; intros Ha E; [by apply Forall_nil_2|]. apply Forall_cons in Ha as [Hb Ha]. cbn in E. case_bool_decide; [done|].
  destruct (strchr a Byte.x20) as [[]|] eqn:Ea; [done|]. apply Forall_cons. split; [by destruct Hb|by apply IH].
Qed.

Lemma read_plains a t : forall word, Forall (fun b => plain b = true) a -> a <> [] -> read_words (a ++ t) false word = read_words t false (add word a).
Proof.
  induction a as [|b a IH]; intros word Ha Hn; [done|]. apply Forall_cons in Ha as [Hb Ha]. cbn [app]. rewrite read_plain by done.
  destruct a as [|b' a]; [done|]. by rewrite IH, add_app.
Qed.

Lemma read_item a : Forall blank_or_plain a -> sh_words (shell_item a) = Some [a].
Proof.
  intros Ha. unfold sh_words, shell_item. destruct (shell_quotes a) eqn:Eq.
  - change (read_words (Byte.x22 :: a ++ [Byte.x22]) false None) with (read_words (a ++ [Byte.x22]) true (Some [])).
    by rewrite read_within.
  - apply orb_false_iff in Eq as [En Es]. apply bool_decide_eq_false in En.
    rewrite <-(app_nil_r a) at 1. rewrite read_plains; [done| |done]. apply strchr_blank; [done|]. by destruct (strchr a Byte.x20).
Qed.

Lemma read_items args : forall cmd ws, Forall (Forall blank_or_plain) args -> sh_words cmd = Some ws -> sh_words (cmd ++ shell_items args) = Some (ws ++ args).
Proof.
  induction args as [|a args IH]; intros cmd ws Ha E.
  - change (shell_items []) with (@nil byte). by rewrite !app_nil_r.
  - apply Forall_cons in Ha as [Ha Hs]. change (shell_items (a :: args)) with ((Byte.x20 :: shell_item a) ++ shell_items args).
    rewrite app_assoc, (cons_middle a), app_assoc. apply IH; [done|].
    unfold sh_words at 1. rewrite (read_blank _ _ _ _ _ E), read_item by done. done.
Qed.

(** ** What reaches the device

    The files that are pushed, and the services whose output was read: one that
    could not be connected has not run. *)

Fixpoint reached (last : option bytes) (h : list (target * call)) : list call :=
  match h with
  | [] => []
  | (_, c) :: h =>
      match c with
      | AdbConnect b => reached (Some b) h
      | ReadAndDump _ => match last with Some b => AdbConnect b :: reached None h | None => reached None h end
      | AdbClose _ => reached None h
      | SyncPush _ _ _ => c :: reached None h
      | _ => reached last h
      end
  end.

(** The calls [k], before any others, are [l] on the device. *)
Definition does (k : list (target * call)) (l : list call) : Prop := forall h, reached None (k ++ h) = l ++ reached None h.

Lemma does_nil : does [] [].
Proof. by intros h. Qed.

Lemma does_app k l k' l' : does k l -> does k' l' -> does (k ++ k') (l ++ l').
Proof. intros H H' h. by rewrite <-!app_assoc, H, H'. Qed.

Lemma does_reached k l : does k l -> reached None k = l.
Proof. intros H. specialize (H []). by rewrite !app_nil_r in H. Qed.

Lemma does_stat t path : does [(t, Stat path)] [].
Proof. by intros h. Qed.

Lemma does_push t l r v : does [(t, SyncPush l r v)] [SyncPush l r v].
Proof. by intros h. Qed.

(** What happens while a command waits for the device. *)
Definition waiting (buf : bytes) (x : target * call) : Prop :=
  match x.2 with AdbConnect b => b = buf | SleepMs _ | AdbCommand _ => True | _ => False end.

Lemma does_shell buf w t t' t'' fd fd' : Forall (waiting buf) w ->
  does (w ++ [(t, AdbConnect buf); (t', ReadAndDump fd); (t'', AdbClose fd')]) [AdbConnect buf].
Proof.
  intros Hw h. assert (H : forall last, reached last ((w ++ [(t, AdbConnect buf); (t', ReadAndDump fd); (t'', AdbClose fd')]) ++ h)
    = AdbConnect buf :: reached None h); [|by rewrite H].
  induction Hw as [|[t0 c] w Hc Hw IH]; intros last; [done|]. cbn [app reached]. cbn in Hc. destruct c; try done; cbn [app] in IH; apply IH.
Qed.

(** ** Commands that wait for the device *)

Section Wait.
Context (E : environment) (patience depth : nat).
Let cmdline := commandline_at E patience (S depth).

(** A command that extends the history. *)
Definition extends {A} (P : list (target * call) -> A -> Prop) (s : state) (x : A * state) : Prop :=
  exists k, s_log x.2 = s_log s ++ k /\ P k x.1.

Lemma do_cmd_options ttype serial cmd o s : starts_with (lit "-") cmd = false -> cmd <> lit "server" -> cmd <> lit "nodaemon" -> cmd <> lit "fork-server" -> cmd <> lit "persist" ->
  exists o', parse_options E (match serial, ttype with
               | Some serial, _ => [lit "-s"; serial]
               | None, kTransportUsb => [lit "-d"]
               | None, kTransportLocal => [lit "-e"]
               | None, _ => []
               end ++ [cmd]) o s = Ok (Some (o', [cmd]), s) /\ o_server o' = o_server o /\ o_persist o' = o_persist o.
Proof.
  intros Hd H1 H2 H3 H4. assert (Hcmd : forall o, parse_options E [cmd] o s = Ok (Some (o, [cmd]), s)).
  { assert (Hn : forall l, starts_with (lit "-") l = true -> cmd <> l) by congruence.
    assert (Hs : forall l, starts_with (lit "-") l = true -> starts_with l cmd = false).
    { intros [|c l] Hl; [done|]. destruct cmd as [|b cmd]; [done|]. cbn in Hd, Hl |- *. by repeat case_bool_decide; simplify_eq. }
    intros o0. cbn [parse_options]. rewrite !(bool_decide_false (cmd = _)) by (done || by apply Hn). by rewrite !Hs by done. }
  destruct serial as [serial|]; [exists (set_serial serial o)|destruct ttype; eexists]; (split; [cbn [app]|]).
  - change (parse_options E (lit "-s" :: serial :: [cmd]) o s) with (parse_options E [cmd] (set_serial serial o) s). by rewrite Hcmd.
  - done.
  - change (parse_options E (lit "-d" :: [cmd]) o s) with (parse_options E [cmd] (set_type kTransportUsb o) s). by rewrite Hcmd.
  - done.
  - change (parse_options E (lit "-e" :: [cmd]) o s) with (parse_options E [cmd] (set_type kTransportLocal o) s). by rewrite Hcmd.
  - done.
  - by rewrite Hcmd.
  - done.
  - by rewrite Hcmd.
  - done.
Qed.

Lemma wait_for_device ttype serial s buf :
  returns (do_cmd cmdline ttype serial [lit "wait-for-device"] s) (extends (fun k _ => Forall (waiting buf) k) s).
Proof.
  unfold do_cmd, cmdline. cbn [commandline_at]. unfold adb_commandline.
  destruct (environment_port E) as [port|]; [|eexists; split; [done|]; exists []; cbn; rewrite app_nil_r; split; [done|by apply Forall_nil_2]].
  destruct (do_cmd_options ttype serial (lit "wait-for-device") (Options false false false false kTransportAny (getenv E (lit "ANDROID_SERIAL")) port)
    (with_product (getenv_set E (lit "ANDROID_PRODUCT_OUT")) s)) as (o & -> & Hs & Hp); [by vm_compute..|].
  cbn [res_bind]. rewrite Hs. cbn [o_server].
  cbn [top]. change (starts_with (lit "wait-for-") (lit "wait-for-device")) with true. cbv beta iota zeta.
  destruct (perform E (AdbCommand _) _) as [r s'] eqn:Ep. unfold perform in Ep. injection Ep as Er Es.
  assert (H : extends (fun k (_ : Z) => Forall (waiting buf) k) s (r, s')).
  { eexists. subst s'. cbn. split; [done|]. by apply Forall_singleton. }
  case_bool_decide; (eexists; split; [done|exact H]).
Qed.

(** A service of the device was run. *)
Definition ran (buf : bytes) (k : list (target * call)) : Prop := does k [AdbConnect buf].

Lemma connect_waits fuel ttype serial buf : forall s, onwards (connect_loop E cmdline fuel ttype serial buf s)
  (extends (fun k _ => exists w t, k = w ++ [(t, AdbConnect buf)] /\ Forall (waiting buf) w) s).
Proof.
  induction fuel as [|fuel IH]; intros s; [done|]. cbn [connect_loop]. unfold perform. case_bool_decide.
  - cbn [onwards]. eexists. split; [done|]. exists [], (s_target s). by split; [|apply Forall_nil_2].
  - destruct (wait_for_device ttype serial (log (SleepMs 1000) (log (AdbConnect buf) s)) buf) as ([r s'] & -> & k & Hk & Hw). cbn [res_bind].
    eapply onwards_mono; [apply IH|]. intros [fd s''] (k' & Hk' & w & t & -> & Hw'). cbn in *.
    exists ([(s_target s, AdbConnect buf); (s_target s, SleepMs 1000)] ++ k ++ w ++ [(t, AdbConnect buf)]). split.
    + cbn. rewrite Hk', Hk. cbn. by rewrite <-!app_assoc.
    + eexists _, t. rewrite (app_assoc k), app_assoc. split; [done|]. rewrite !Forall_app. split_and!; [|done|done].
      by repeat (apply Forall_cons; split; [done|]).
Qed.

Lemma shellcommand_runs ttype serial buf s : onwards (send_shellcommand E cmdline patience ttype serial buf s) (extends (fun k _ => ran buf k) s).
Proof.
  unfold send_shellcommand. eapply onwards_bind, onwards_mono; [apply connect_waits|]. intros [fd s'] (k & Hk & w & t & -> & Hw). cbn.
  eexists. cbn in *. rewrite Hk, <-!app_assoc. split; [done|]. by apply (does_shell buf w).
Qed.

(** The commands that are run with a buffer, or not at all. *)
Definition runs_line (line : res bytes) (m : res (Z * state)) (s : state) : Prop :=
  onwards m (extends (fun k r => r = 0 /\ exists buf, line = Ok buf /\ ran buf k) s).

Lemma line_runs line ttype serial s :
  runs_line line (let* buf := line in let* ' (_, s) := send_shellcommand E cmdline patience ttype serial buf s in Ok (0, s)) s.
Proof.
  unfold runs_line. destruct line as [buf| | |]; try done. cbn [res_bind]. eapply onwards_bind, onwards_mono; [apply shellcommand_runs|].
  intros [r s'] (k & Hk & Hr). exists k. split; [done|]. split; [done|]. by exists buf.
Qed.

Lemma pm_runs ttype serial args s : runs_line (pm_line args) (pm_command E cmdline patience ttype serial args s) s.
Proof. apply line_runs. Qed.

Lemma delete_runs ttype serial f s : runs_line (delete_line f) (delete_file E cmdline patience ttype serial f s) s.
Proof. apply line_runs. Qed.

(** *** While the device is there *)

Context (present : forall h t buf, 0 <= answer E (h ++ [(t, AdbConnect buf)])) (patient : (0 < patience)%nat).

Lemma shellcommand_returns ttype serial buf s : returns (send_shellcommand E cmdline patience ttype serial buf s) (fun _ => True).
Proof.
  unfold send_shellcommand. destruct patience as [|n]; [lia|]. cbn [connect_loop]. unfold perform. rewrite bool_decide_true by apply present. by eexists.
Qed.

Lemma line_returns line ttype serial s buf : line = Ok buf ->
  returns (let* buf := line in let* ' (_, s) := send_shellcommand E cmdline patience ttype serial buf s in Ok (0, s)) (fun _ => True).
Proof.
  intros ->. cbn [res_bind]. destruct (shellcommand_returns ttype serial buf s) as ([r s'] & -> & _). by eexists.
Qed.
End Wait.

(** ** Lengths *)

Lemma quote_length a : (length (quote_loop a) <= 2 * length a)%nat.
Proof. induction a as [|b a IH]; cbn; [lia|]. destruct (escaped b); cbn; lia. Qed.

Lemma quoted_line_length args : (length (quoted_line args) <= 2 * length (concat args) + length args)%nat.
Proof.
  induction args as [|a args IH]; [done|]. change (quoted_line (a :: args)) with ((Byte.x20 :: quote_loop a) ++ quoted_line args).
  cbn [concat length]. rewrite !length_app. cbn [length]. pose proof (quote_length a). lia.
Qed.

Lemma length_concat_in {A} (l : list (list A)) i x : l !! i = Some x -> (length x <= length (concat l))%nat.
Proof.
  revert i. induction l as [|y l IH]; intros [|i] E; cbn in *; simplify_eq; rewrite length_app; [lia|]. apply IH in E. lia.
Qed.

Lemma length_concat_insert {A} (l : list (list A)) i x y : l !! i = Some y ->
  (length (concat (<[i := x]> l)) + length y = length (concat l) + length x)%nat.
Proof.
  revert i. induction l as [|z l IH]; intros [|i] E; cbn in E; simplify_eq.
  - change (<[0%nat := x]> (y :: l)) with (x :: l). cbn [concat]. rewrite !length_app. lia.
  - change (<[S i := x]> (z :: l)) with (z :: <[i := x]> l). cbn [concat]. rewrite !length_app. specialize (IH i E). lia.
Qed.

Lemma strrchr_shorter s c l r : strrchr s c = Some (l, r) -> (length l + length r < length s)%nat.
Proof.
  revert l r. induction s as [|b s IH]; intros l r E; [done|]. cbn in E. destruct (strrchr s c) as [[l' r']|].
  - simplify_eq. specialize (IH _ _ eq_refl). cbn. lia.
  - case_bool_decide; simplify_eq. cbn. lia.
Qed.

(** ** Installations *)

Definition destination (sd : bool) (file : bytes) : bytes := where_to sd (get_basename file).
Definition pushed (x : bytes * bytes) (c : call) : Prop := exists v, c = SyncPush x.1 x.2 v.
Definition removed (dest : bytes) (c : call) : Prop := exists buf, delete_line dest = Ok buf /\ c = AdbConnect buf.

Lemma destination_length sd f : (length (destination sd f) <= 16 + length f)%nat.
Proof.
  unfold destination, where_to, printed. rewrite length_take, length_app.
  assert (length (get_basename f) <= length f)%nat.
  { unfold get_basename. destruct (strrchr f slash) as [[l r]|] eqn:E; [|lia]. apply strrchr_shorter in E. lia. }
  assert (length (if sd then lit "/sdcard/tmp/" else lit "/data/local/tmp/") <= 16)%nat by (destruct sd; by apply Nat.leb_le). lia.
Qed.

(** The calls of an installation of [files], with the options [opts] before
    them, that returns [r]. *)
Record installs (opts files : list bytes) (sd : bool) (r : Z) (l : list call) : Prop := Installs {
  in_files : files <> [] /\ (length files <= 2)%nat /\ NoDup (map (destination sd) files);
  in_calls : exists n pushes pm rms, l = pushes ++ pm ++ rms
    /\ Forall2 pushed (take n (zip files (map (destination sd) files))) pushes
    /\ Forall2 removed (reverse (map (destination sd) files)) rms
    /\ (r = 0 /\ (length files <= n)%nat /\ (exists buf, pm_line (opts ++ map (destination sd) files) = Ok buf /\ pm = [AdbConnect buf])
        \/ r <> 0 /\ (0 < n)%nat /\ pm = [])
}.

Lemma scan_options_index args : forall i sd v j sd' v', scan_options args i sd v = (Some j, sd', v') -> (i <= j < i + length args)%nat.
Proof.
  assert (H : forall n args, (length args <= n)%nat -> forall i sd v j sd' v', scan_options args i sd v = (Some j, sd', v') -> (i <= j < i + length args)%nat); [|by eauto].
  clear args. induction n as [|n IH]; intros [|a args] Hl i sd v j sd' v' E; cbn [length] in *; try lia; try done.
  cbn [scan_options] in E. destruct (negb _); [simplify_eq; lia|].
  assert (Hs : forall sd v, match args with [] => (None, sd, v) | _ :: args0 => scan_options args0 (i + 2) sd v end = (Some j, sd', v') -> (i <= j < i + S (length args))%nat).
  { intros sd0 v0 E0. destruct args as [|b args]; [done|]. cbn [length] in *. apply IH in E0; lia. }
  repeat case_bool_decide; try (by eapply Hs); (apply IH in E; lia).
Qed.

Section Install.
Context (E : environment) (patience depth : nat).
Let cmdline := commandline_at E patience (S depth).

(** A command that extends the history, and then another one. *)
Lemma extends_then {A B} (m : res (A * state)) (k : A * state -> res (B * state)) (P : list (target * call) -> A -> Prop) (Q : list (target * call) -> B -> Prop) s :
  onwards m (extends P s) ->
  (forall k1 a s', P k1 a -> onwards (k (a, s')) (extends (fun k2 b => Q (k1 ++ k2) b) s')) ->
  onwards (res_bind m k) (extends Q s).
Proof.
  intros Hm Hk. eapply onwards_bind, onwards_mono; [exact Hm|]. intros [a s'] (k1 & H1 & HP).
  eapply onwards_mono; [by apply Hk|]. intros [b s''] (k2 & H2 & HQ). exists (k1 ++ k2). cbn in *. by rewrite H2, H1, app_assoc.
Qed.

Lemma extends_here {A} (P : list (target * call) -> A -> Prop) s a : P [] a -> extends P s (a, s).
Proof. intros H. exists []. by rewrite app_nil_r. Qed.

Lemma onwards_log {A} c (P : list (target * call) -> A -> Prop) m s :
  onwards m (extends (fun k a => P ((s_target s, c) :: k) a) (log c s)) -> onwards m (extends P s).
Proof. intros H. eapply onwards_mono; [exact H|]. intros x (k & Hk & Hx). eexists. cbn in Hk. rewrite Hk, <-app_assoc. by split. Qed.

Lemma cleanup_runs ttype serial ver dest err s : onwards (cleanup_apk E cmdline patience ttype serial ver dest err s)
  (extends (fun k r => r = err /\ exists l, Forall2 removed (option_list ver ++ [dest]) l /\ does k l) s).
Proof.
  assert (H : forall s k0 l0, does k0 l0 -> onwards (let* ' (_, s) := delete_file E cmdline patience ttype serial dest s in Ok (err, s))
    (extends (fun k r => r = err /\ exists c, removed dest c /\ does (k0 ++ k) (l0 ++ [c])) s)).
  { intros s0 k0 l0 H0. eapply extends_then; [apply delete_runs|]. intros k r s' (-> & buf & Hb & Hr). apply extends_here. rewrite app_nil_r.
    split; [done|]. exists (AdbConnect buf). split; [by exists buf|by apply does_app]. }
  unfold cleanup_apk. destruct ver as [v|].
  - eapply extends_then; [apply delete_runs|]. intros k r s' (-> & buf & Hb & Hr).
    eapply onwards_mono; [by apply (H s' k [AdbConnect buf])|]. intros x (k2 & Hk & Hx & c & Hc & Hd). exists k2. split; [done|]. split; [done|].
    exists [AdbConnect buf; c]. split; [|done]. constructor; [by exists buf|]. by constructor.
  - eapply onwards_mono; [by apply (H s [] []), does_nil|]. intros x (k2 & Hk & Hx & c & Hc & Hd). exists k2. split; [done|]. split; [done|].
    exists [c]. split; [by constructor|done].
Qed.

Lemma push_and_install_runs ttype serial opts files sd v s apk ver :
  files = apk :: option_list ver -> NoDup (map (destination sd) files) ->
  onwards (push_and_install E cmdline patience ttype serial (opts ++ files) (length opts) v apk ver (destination sd apk) (destination sd <$> ver) s)
    (extends (fun k r => exists l, installs opts files sd r l /\ does k l) s).
Proof.
  intros Hf Hd. assert (Hok : files <> [] /\ (length files <= 2)%nat /\ NoDup (map (destination sd) files)).
  { subst files. split_and!; [done| |done]. by destruct ver; cbn; lia. }
  assert (Hr : reverse (map (destination sd) files) = option_list (destination sd <$> ver) ++ [destination sd apk]) by (subst files; by destruct ver).
  assert (Hclean : forall r s0 n pushes pm k0 l0, does k0 l0 -> l0 = pushes ++ pm -> Forall2 pushed (take n (zip files (map (destination sd) files))) pushes ->
    (r = 0 /\ (length files <= n)%nat /\ (exists buf, pm_line (opts ++ map (destination sd) files) = Ok buf /\ pm = [AdbConnect buf])
        \/ r <> 0 /\ (0 < n)%nat /\ pm = []) ->
    onwards (cleanup_apk E cmdline patience ttype serial (destination sd <$> ver) (destination sd apk) r s0)
      (extends (fun k r => exists l, installs opts files sd r l /\ does (k0 ++ k) l) s0)).
  { intros r s0 n pushes pm k0 l0 H0 -> Hp Hcase. eapply onwards_mono; [apply cleanup_runs|]. intros [r' s'] (k & Hk & Hx & l & Hl & Hdo). cbn in Hk, Hx. subst r'.
    exists k. split; [done|]. exists ((pushes ++ pm) ++ l). split; [|by apply does_app]. split; [done|].
    exists n, pushes, pm, l. rewrite <-app_assoc, Hr. by split_and!. }
  subst files. unfold push_and_install, perform. case_bool_decide as E1.
  - apply (onwards_log (SyncPush apk (destination sd apk) v)), (Hclean _ _ 1%nat [SyncPush apk (destination sd apk) v] [] [(s_target s, SyncPush apk (destination sd apk) v)] _ (does_push _ _ _ _));
      [done| |right; split_and!; [done|lia|done]].
    cbn. constructor; [by exists v|]. constructor.
  - assert (Hi : forall d f, <[length opts := d]> (opts ++ apk :: f) = opts ++ d :: f).
    { intros d f. rewrite <-(Nat.add_0_r (length opts)). by rewrite insert_app_r. }
    rewrite Hi. apply (onwards_log (SyncPush apk (destination sd apk) v)). destruct ver as [f|]; cbn [fmap option_fmap option_map option_list] in *.
    + case_bool_decide as E2; apply (onwards_log (SyncPush f (destination sd f) false)).
      * assert (H2 : does [(s_target s, SyncPush apk (destination sd apk) v); (s_target s, SyncPush f (destination sd f) false)]
            [SyncPush apk (destination sd apk) v; SyncPush f (destination sd f) false]) by (by intros h).
        apply (Hclean _ _ 2%nat [SyncPush apk (destination sd apk) v; SyncPush f (destination sd f) false] [] _ _ H2); [done| |right; split_and!; [done|lia|done]].
        cbn. constructor; [by exists v|]. constructor; [by exists false|]. constructor.
      * eapply extends_then; [apply pm_runs|]. intros k r s' (-> & buf & Hb & Hrun). rewrite insert_app_r in Hb. cbn in Hb.
        eapply onwards_mono; [apply (Hclean _ s' 2%nat [SyncPush apk (destination sd apk) v; SyncPush f (destination sd f) false] [AdbConnect buf]
          ([(s_target s, SyncPush apk (destination sd apk) v)] ++ [(s_target s, SyncPush f (destination sd f) false)] ++ k) _
          (does_app _ _ _ _ (does_push _ _ _ _) (does_app _ _ _ _ (does_push _ _ _ _) Hrun)))|by intros x Hx].
        -- done.
        -- cbn. constructor; [by exists v|]. constructor; [by exists false|]. constructor.
        -- left. split_and!; [by destruct (decide (answer E (s_log (log (SyncPush f (destination sd f) false) (log (SyncPush apk (destination sd apk) v) s))) = 0))|done|by exists buf].
    + eapply extends_then; [apply pm_runs|]. intros k r s' (-> & buf & Hb & Hrun).
      eapply onwards_mono; [apply (Hclean _ s' 1%nat [SyncPush apk (destination sd apk) v] [AdbConnect buf]
        ([(s_target s, SyncPush apk (destination sd apk) v)] ++ k) _ (does_app _ _ _ _ (does_push _ _ _ _) Hrun))|by intros x Hx].
      * done.
      * cbn. constructor; [by exists v|]. constructor.
      * left. split_and!; [by destruct (decide (answer E (s_log (log (SyncPush apk (destination sd apk) v) s)) = 0))|done|by exists buf].
Qed.

(** What an installation may be: refused, with nothing on the device, or tried. *)
Definition installation (args : list bytes) (k : list (target * call)) (r : Z) : Prop :=
  (reached None k = [] /\ r = 1) \/ exists opts files sd, args = opts ++ files /\ installs opts files sd r (reached None k).

Lemma install_runs ttype serial args s : onwards (install_app E cmdline patience ttype serial args s) (extends (installation args) s).
Proof.
  assert (H1 : forall s', does [] [] -> forall k0, does k0 [] -> extends (fun k r => installation args (k0 ++ k) r) s' (1, s')).
  { intros s' _ k0 H0. apply extends_here. rewrite app_nil_r. left. by split; [apply does_reached|]. }
  unfold install_app. destruct (scan_options (drop 1 args) 1 false true) as [[[i|] sd] v] eqn:Es; [|apply (H1 s does_nil []), does_nil].
  apply scan_options_index in Es. rewrite length_drop in Es. case_bool_decide as Hlen; [apply (H1 s does_nil []), does_nil|].
  destruct (args !! i) as [apk|] eqn:Ei; [|done]. cbn [access res_bind check_file]. unfold perform.
  apply (onwards_log (Stat apk)). destruct (negb _); [by apply (H1 _ does_nil [_]), does_stat|].
  assert (Hargs : exists opts, args = opts ++ apk :: option_list (args !! (i + 1)%nat) /\ length opts = i).
  { exists (take i args). split; [|rewrite length_take; lia]. rewrite <-(take_drop_middle _ _ _ Ei) at 1. do 2 f_equal.
    destruct (args !! (i + 1)%nat) as [f|] eqn:Ef; cbn [option_list].
    - rewrite <-(take_drop_middle _ _ _ Ef) at 1. rewrite drop_app_ge, length_take by (rewrite length_take; lia).
      replace (S i - (i + 1) `min` length args)%nat with 0%nat by lia. cbn [drop]. by rewrite drop_ge by lia.
    - apply lookup_ge_None in Ef. by rewrite drop_ge by lia. }
  destruct Hargs as (opts & Hargs & <-). set (ver := args !! (length opts + 1)%nat) in *. clearbody ver. subst args.
  assert (Hmore : forall s' k0, does k0 [] -> onwards (if bool_decide (((fun f => where_to sd (get_basename f)) <$> ver) = Some (where_to sd (get_basename apk))) then Ok (1, s')
      else push_and_install E cmdline patience ttype serial (opts ++ apk :: option_list ver) (length opts) v apk ver (destination sd apk) (destination sd <$> ver) s')
      (extends (fun k r => installation (opts ++ apk :: option_list ver) (k0 ++ k) r) s')).
  { intros s' k0 H0. case_bool_decide as Hd; [by apply (H1 s' does_nil k0)|].
    eapply onwards_mono; [apply (push_and_install_runs ttype serial opts (apk :: option_list ver) sd v s' apk ver eq_refl)|].
    - destruct ver as [f|]; cbn [option_list map]; [|apply NoDup_singleton]. apply NoDup_cons. split; [|apply NoDup_singleton].
      intros Hin%list_elem_of_singleton. apply Hd. cbn [fmap option_fmap option_map]. f_equal. symmetry. exact Hin.
    - intros x (k & Hk & l & Hl & Hdo). exists k. split; [done|]. right. exists opts, (apk :: option_list ver), sd. split; [done|].
      by rewrite (does_reached _ l) by (by apply (does_app _ []); [|]). }
  destruct ver as [f|]; cbn [check_file].
  - unfold perform. apply (onwards_log (Stat f)). destruct (negb _); [by apply (H1 _ does_nil [_; _]), (does_app [_] [] [_] []); apply does_stat|].
    apply (Hmore _ [_; _]). apply (does_app [_] [] [_] []); apply does_stat.
  - apply (Hmore _ [_]), does_stat.
Qed.

(** *** While the device is there *)

Context (present : forall h t buf, 0 <= answer E (h ++ [(t, AdbConnect buf)])) (patient : (0 < patience)%nat).

Lemma pm_returns ttype serial args s : (8 + 2 * length (concat args) + length args < BUF)%nat ->
  returns (pm_command E cmdline patience ttype serial args s) (fun _ => True).
Proof.
  intros H. eapply line_returns; [done|done|]. rewrite pm_line_exact. apply stored_fits. rewrite !length_app. cbn.
  pose proof (quoted_line_length args). lia.
Qed.

Lemma delete_returns ttype serial f s : (9 + 2 * length f < BUF)%nat -> returns (delete_file E cmdline patience ttype serial f s) (fun _ => True).
Proof.
  intros H. eapply line_returns; [done|done|]. rewrite delete_line_exact. apply stored_fits. rewrite !length_app. cbn.
  pose proof (quote_length f). lia.
Qed.

Lemma cleanup_returns ttype serial ver dest err s : (9 + 2 * length dest < BUF)%nat -> (9 + 2 * length (default [] ver) < BUF)%nat ->
  returns (cleanup_apk E cmdline patience ttype serial ver dest err s) (fun _ => True).
Proof.
  intros Hd Hv. assert (H : forall s, returns (let* ' (_, s) := delete_file E cmdline patience ttype serial dest s in Ok (err, s)) (fun _ => True)).
  { intros s0. eapply returns_bind; [by apply delete_returns|]. intros [] _. by eexists. }
  unfold cleanup_apk. destruct ver as [v|]; [|done]. eapply returns_bind; [by apply delete_returns|]. by intros [] _.
Qed.

Lemma install_returns ttype serial args s : (2 * length (concat args) + length args + 72 < BUF)%nat ->
  returns (install_app E cmdline patience ttype serial args s) (fun _ => True).
Proof.
  intros Hs. unfold install_app. destruct (scan_options (drop 1 args) 1 false true) as [[[i|] sd] v] eqn:Es; [|by eexists].
  apply scan_options_index in Es. rewrite length_drop in Es. case_bool_decide; [by eexists|].
  destruct (args !! i) as [apk|] eqn:Ei; [|apply lookup_ge_None in Ei; lia]. cbn [access res_bind].
  destruct (check_file E (Some apk) s) as [[] s1]; [by eexists|]. destruct (check_file E (args !! (i + 1)%nat) s1) as [[] s2]; [by eexists|].
  case_bool_decide; [by eexists|]. fold (destination sd apk).
  assert (Hlen : forall j f, args !! j = Some f -> (length (destination sd f) <= 16 + length (concat args))%nat).
  { intros j f Hj. pose proof (destination_length sd f). pose proof (length_concat_in args j f Hj). lia. }
  assert (Hc : forall ver err s, (length (default [] ver) <= 16 + length (concat args))%nat ->
    returns (cleanup_apk E cmdline patience ttype serial ver (destination sd apk) err s) (fun _ => True)).
  { intros ver err s0 Hd. pose proof (Hlen i apk Ei). apply cleanup_returns; lia. }
  pose proof (length_concat_insert args i (destination sd apk) apk Ei) as Ha. pose proof (destination_length sd apk) as Hapk.
  unfold push_and_install, perform. destruct (args !! (i + 1)%nat) as [f|] eqn:Ef; cbn [fmap option_fmap option_map].
  - assert (Hf : forall err s, returns (cleanup_apk E cmdline patience ttype serial (Some (destination sd f)) (destination sd apk) err s) (fun _ => True)).
    { intros err s0. apply Hc. cbn. by apply (Hlen (i + 1)%nat). }
    case_bool_decide; [apply Hf|]. case_bool_decide; [apply Hf|]. eapply returns_bind; [apply pm_returns|intros [] _; apply Hf].
    rewrite !length_insert. pose proof (destination_length sd f).
    pose proof (length_concat_insert (<[i := destination sd apk]> args) (i + 1) (destination sd f) f) as Hb.
    rewrite list_lookup_insert_ne in Hb by lia. specialize (Hb Ef). unfold destination in *. lia.
  - case_bool_decide; [apply Hc; cbn; lia|]. eapply returns_bind; [apply pm_returns|intros [] _; apply Hc; cbn; lia].
    rewrite length_insert. lia.
Qed.
End Install.

(** ** Backups *)

Definition joined (args : list bytes) : bytes := concat (map (fun a => colon :: a) args).

Lemma backup_arguments_fit args : forall buf, (length (buf ++ joined args) < BUF)%nat -> backup_arguments buf args = Ok (buf ++ joined args).
Proof.
  induction args as [|a args IH]; intros buf Hl; cbn [backup_arguments].
  - change (joined []) with (@nil byte). by rewrite app_nil_r.
  - change (joined (a :: args)) with ([colon] ++ a ++ joined args) in *. rewrite !length_app in Hl. cbn [length] in Hl.
    unfold strncat. change (lit ":") with [colon]. rewrite (take_ge [colon]) by (cbn [length]; lia).
    rewrite stored_fits by (rewrite length_app; cbn [length]; lia). cbn [res_bind].
    rewrite take_ge by (rewrite length_app; cbn [length]; lia). rewrite stored_fits by (rewrite !length_app; cbn [length]; lia). cbn [res_bind].
    rewrite IH by (rewrite !length_app; cbn [length]; lia). by rewrite <-!app_assoc.
Qed.

Lemma bu_parts_run a : forall cur s, colon ∉ a -> bu_parts cur (a ++ s) = bu_parts (cur ++ a) s.
Proof.
  induction a as [|b a IH]; intros cur s Ha; [by rewrite app_nil_r|]. apply not_elem_of_cons in Ha as [Hb Ha].
  cbn [app bu_parts]. rewrite bool_decide_false by (by apply not_eq_sym). by rewrite IH, <-app_assoc.
Qed.

(** The device takes the arguments apart that the client put together. *)
Lemma bu_parts_joined a args : Forall (fun a => a <> [] /\ colon ∉ a) (a :: args) -> bu_parts [] (a ++ joined args) = a :: args.
Proof.
  revert a. induction args as [|b args IH]; intros a Ha; apply Forall_cons in Ha as [[Hn Hc] Ha].
  - rewrite bu_parts_run by done. cbn. by rewrite bool_decide_false.
  - rewrite bu_parts_run by done. change (joined (b :: args)) with (colon :: b ++ joined args). cbn [bu_parts app]. rewrite bool_decide_true by done.
    by rewrite IH.
Qed.

(** ** Forwards *)

(** A forward is asked for as a command of a client with the same options. *)
Definition forward_service (no_rebind : bool) (local remote : bytes) : bytes :=
  lit "forward:" ++ (if no_rebind then lit "norebind::" else []) ++ local ++ Byte.x3b :: remote.

Lemma forward_request_formats no_rebind ttype serial local remote : (length (default [] serial) <= 51)%nat ->
  forward_request (ForwardOptions false false false no_rebind) (host_prefix ttype serial) [local; remote]
  = Some (false, format_host_command BUF (forward_service no_rebind local remote) ttype serial).
Proof.
  intros Hs. assert (Hp : host_prefix ttype serial ++ [colon] ++ forward_service no_rebind local remote =
    match serial with
    | Some serial => lit "host-serial:" ++ serial ++ colon :: forward_service no_rebind local remote
    | None => match ttype with kTransportUsb => lit "host-usb" | kTransportLocal => lit "host-local" | _ => lit "host" end ++ colon :: forward_service no_rebind local remote
    end).
  { unfold host_prefix, printed. destruct serial as [serial|]; [|by destruct ttype]. cbn in Hs. rewrite take_ge; [by rewrite <-app_assoc|].
    rewrite length_app. change (length (lit "host-serial:")) with 12%nat. lia. }
  unfold forward_request. cbn [f_list f_remove f_remove_all f_no_rebind]. rewrite bool_decide_false by (destruct no_rebind; vm_compute; lia).
  unfold format_host_command. rewrite <-Hp. by destruct no_rebind.
Qed.

Section Forward.
Context {E E' : Type} {I : FdEvents E fd_func} {L : FdEventsLaws E fd_func I}.
Context {I' : FdEvents E' listener_func} {L' : FdEventsLaws E' listener_func I'}.
Context (adb_port : addr -> Z) (any loopback : Z -> Z) (local_server : bytes -> socket_namespace -> Z) (gListenAll : Z) (new : addr).
Let bind := local_name_to_fd any loopback local_server gListenAll.
Implicit Type h : host (E := E) (E' := E').

Lemma refused fd msg h : exists h' v, (let* h := fail fd msg h in Ok (0, h)) = Ok (0, h') /\ h_listeners h' = h_listeners h
  /\ sendfailmsg (h_world h) fd msg = Ok (v, h_world h').
Proof. unfold fail. destruct (sendfailmsg_ok (h_world h) fd msg) as (v & m & ->). eexists _, v. by split_and!. Qed.

(** A name with a colon before it is not bound. *)
Lemma colon_unbound name : bind (colon :: name) = -1.
Proof. done. Qed.

Lemma norebind_fails local remote ttype serial fd h : host_ok h -> new_ok bind new h ->
  exists h' msg v, request_forward bind new (lit "norebind:" ++ colon :: local ++ Byte.x3b :: remote) ttype serial fd h = Ok (0, h')
  /\ table (h_listeners h') = table (h_listeners h) /\ sendfailmsg (h_world h) fd msg = Ok (v, h_world h').
Proof.
  intros H Hn. assert (Hfail : forall msg h0, h_world h0 = h_world h -> table (h_listeners h0) = table (h_listeners h) ->
    exists h' msg' v, (let* h := fail fd msg h0 in Ok (0, h)) = Ok (0, h') /\ table (h_listeners h') = table (h_listeners h) /\ sendfailmsg (h_world h) fd msg' = Ok (v, h_world h')).
  { intros msg h0 Hw Ht. destruct (refused fd msg h0) as (h' & v & E1 & E2 & E3). exists h', msg, v. by rewrite E2, <-Hw. }
  unfold request_forward. rewrite starts_with_app. change 9%nat with (length (lit "norebind:")). rewrite drop_app_length.
  destruct (strchr (colon :: local ++ Byte.x3b :: remote) Byte.x3b) as [[l r]|] eqn:Es; [|by apply Hfail].
  assert (Hl : exists l', l = colon :: l').
  { cbn [strchr] in Es. rewrite bool_decide_false in Es by done. destruct (strchr (local ++ _) _) as [[]|]; [|done]. simplify_eq. by eexists. }
  destruct Hl as (l' & ->). destruct (bool_decide _ || starred r) eqn:Eb; [by apply Hfail|]. apply orb_false_iff in Eb as [_ Hstar].
  destruct (acquire_ok ttype serial h) as (a & -> & Ha). cbn [res_bind]. destruct a as [[t x]|err]; [|by apply Hfail].
  assert (is_Some (w_trans (h_world h) !! t)) as Ht by (eexists; by eapply Ha).
  destruct (forward_install_ok bind new h (colon :: l') r t true H Hn Ht Hstar) as (code & ls & -> & _ & Hstep). cbn [res_bind].
  assert (code <> 0 /\ table ls = table (h_listeners h)) as [Hc Htab].
  { cbn [table_step] in Hstep. rewrite colon_unbound in Hstep. destruct (head _) as [f|]; [destruct (starred (f_to f))|rewrite decide_True in Hstep by lia]; by injection Hstep as <- <-. }
  rewrite bool_decide_false by done. by apply Hfail.
Qed.
End Forward.

(** * Properties *)

(** C19: The commands that are sent to the shell of the device are read by it as they
    were given: the arguments of [pm] and [rm] with their spaces, quotes,
    backslashes and parentheses, and those of [adb shell] with their blanks.
    The line is sent whole, unless it does not fit its 4096 bytes, which it then
    overruns. *)
Theorem shell_commands args f first ws shell_args : Forall argument args -> argument f ->
  sh_words first = Some ws -> Forall (Forall blank_or_plain) shell_args -> (length (lit "shell:" ++ first) < BUF)%nat ->
  (exists line, sh_words line = Some (lit "pm" :: args) /\ pm_line args = stored BUF (lit "shell:" ++ line))
  /\ (exists line, sh_words line = Some [lit "rm"; f] /\ delete_line f = stored BUF (lit "shell:" ++ line))
  /\ (exists line, sh_words line = Some (ws ++ shell_args) /\ shell_line first shell_args = stored BUF (lit "shell:" ++ line)).
Proof.
  intros Ha Hf Hws Hs Hfirst. split_and!; eexists; (split; [|]).
  - by apply (read_arguments args (lit "pm") [lit "pm"]).
  - apply pm_line_exact.
  - by apply (read_arguments [f] (lit "rm") [lit "rm"]); [apply Forall_singleton|].
  - rewrite delete_line_exact. change (quoted_line [f]) with (Byte.x20 :: quote_loop f ++ []). by rewrite app_nil_r.
  - by apply (read_items shell_args first ws).
  - unfold shell_line, printed. rewrite take_ge by lia. rewrite shell_arguments_exact by done. by rewrite <-app_assoc.
Qed.

Lemma shell_commands_witness :
  (exists line, sh_words line = Some [lit "pm"; lit "install"; lit "My App (1).apk"] /\ pm_line [lit "install"; lit "My App (1).apk"] = stored BUF (lit "shell:" ++ line))
  /\ shell_line (lit "ls -l") [lit "a b"] = Ok (lit "shell:ls -l " ++ [Byte.x22] ++ lit "a b" ++ [Byte.x22]).
Proof.
  split; [|by vm_compute].
  apply (shell_commands [lit "install"; lit "My App (1).apk"] (lit "x") (lit "ls -l") [lit "ls"; lit "-l"] [lit "a b"]);
    repeat first [apply Forall_nil_2 | apply Forall_cons; split | split | discriminate | left; reflexivity | right; reflexivity | reflexivity | apply Nat.ltb_lt; reflexivity].
Defined.

(** C18: Whatever the environment answers: an installation is refused with nothing on
    the device, or it pushes its one or two files to different places, removes
    all of them again, also when a push fails, and runs [pm] on them in between
    exactly when both pushes succeeded, which it reports.  It comes to an end
    while the device is there and the names are short enough for the buffers. *)
Theorem install_cleans E patience depth ttype serial args s :
  let m := install_app E (commandline_at E patience (S depth)) patience ttype serial args s in
  onwards m (extends (installation args) s)
  /\ ((forall h t buf, 0 <= answer E (h ++ [(t, AdbConnect buf)])) -> (0 < patience)%nat ->
      (2 * length (concat args) + length args + 72 < BUF)%nat -> returns m (fun _ => True)).
Proof. intros m. split; [apply install_runs|]. intros. by apply install_returns. Qed.

(** A server and a device: every call succeeds, but the push of the second
    file. *)
Definition a_target : target := Target kTransportAny None 7777 None.
Definition at_home : environment := Environment (fun _ => None)
  (fun h => match last h with Some (_, AdbConnect _) => 3 | Some (_, SyncPush l _ _) => if bool_decide (l = lit "sig") then 1 else 0 | _ => 0 end)
  (fun _ => None).
Definition a_state : state := State a_target None false [].

Definition device_log (m : res (Z * state)) : option (Z * list call) :=
  match m with Ok (r, s) => Some (r, reached None (s_log s)) | _ => None end.
Definition two_files : list bytes := [lit "install"; lit "-r"; lit "out/a.apk"; lit "sig"].

Lemma install_cleans_witness :
  let m := install_app at_home (commandline_at at_home 1 1) 1 kTransportAny None two_files a_state in
  returns m (fun _ => True)
  /\ device_log m = Some (1, [SyncPush (lit "out/a.apk") (lit "/data/local/tmp/a.apk") true; SyncPush (lit "sig") (lit "/data/local/tmp/sig") false;
      AdbConnect (lit "shell:rm /data/local/tmp/sig"); AdbConnect (lit "shell:rm /data/local/tmp/a.apk")]).
Proof.
  cbv zeta. split; [|by vm_compute].
  refine (proj2 (install_cleans at_home 1 0 kTransportAny None two_files a_state) _ _ _).
  - intros h t buf. unfold answer, at_home. rewrite last_snoc. lia.
  - lia.
  - by apply Nat.ltb_lt.
Defined.

(** What compilers do: a block for [alloca] is a whole number of words. *)
Definition whole_words (alloca : nat -> nat) : Prop :=
  forall n, (n <= alloca n)%nat /\ (alloca n mod sizeof_ptr = 0)%nat.

Lemma whole_words_room al n : whole_words al -> ((n + 1) * sizeof_ptr <= al (n * sizeof_ptr + 1))%nat.
Proof.
  intros H. destruct (H (n * sizeof_ptr + 1)%nat) as [H1 H2]. apply Nat.Lcm0.mod_divide in H2 as [k Hk].
  rewrite Hk in *. unfold sizeof_ptr in *. lia.
Qed.

(** C31: The arguments of [adb backup], if none is empty or has a colon and they
    fit the buffer, arrive on the device: the child that its service forks
    executes [bu] with the number of its socket, [backup] and these arguments,
    when the compiler rounds the array of the arguments, which is short of its
    last word, up to whole words. *)
Theorem backup_arguments_arrive a args K d : Forall (fun a => a <> [] /\ colon ∉ a) (a :: args) ->
  (length (lit "backup" ++ joined (a :: args)) < BUF)%nat -> whole_words (alloca K) ->
  exists text, backup_line (a :: args) = Ok (lit "backup:" ++ text) /\
  (fails K (d_log d ++ [Socketpair]) = false -> exists s0 s1 d1, adb_socketpair K d = (Some (s0, s1), d1)
     /\ DeviceServices.Fork (Ok (lit "bu" :: take 15 (print_int s1) :: lit "backup" :: a :: args))
          ∈ d_log (service_to_fd K (lit "backup:" ++ text) d).2).
Proof.
  intros Ha Hl Hw. exists (a ++ joined args).
  split; [by apply (backup_arguments_fit (a :: args) (lit "backup"))|]. intros Hp.
  change (service_to_fd K (lit "backup:" ++ a ++ joined args) d) with (backup_service K BACKUP (Some (a ++ joined args)) d).
  unfold backup_service. destruct (adb_socketpair K d) as [[[s0 s1]|] d1] eqn:Es.
  2:{ unfold adb_socketpair, tries in Es. cbn [d_log logged] in Es. rewrite Hp in Es. done. }
  exists s0, s1, d1. split; [done|]. unfold bu_args. cbn [default id]. rewrite bu_parts_joined by done.
  rewrite bool_decide_true by (by apply whole_words_room). unfold tries.
  assert (forall (x : syscall) l, x ∈ l ++ [x]) as Hin by (intros; apply elem_of_app; right; by left).
  repeat (destruct (negb _); cbn [d_log logged snd with_open adb_close give]); repeat first [apply Hin|apply elem_of_app; left].
Qed.

Definition round_up (n : nat) : nat := (sizeof_ptr * ((n + (sizeof_ptr - 1)) / sizeof_ptr))%nat.
Definition rounding : kernel := Kernel (fun _ => false) (fun _ => 77) 0 round_up.

Lemma rounding_whole : whole_words round_up.
Proof.
  intros n. unfold round_up, sizeof_ptr. pose proof (Nat.div_mod_eq (n + 3) 4). pose proof (Nat.mod_upper_bound (n + 3) 4).
  split; [cbn [Nat.sub]; lia|]. rewrite Nat.mul_comm. by apply Nat.Div0.mod_mul.
Qed.

Lemma backup_arguments_arrive_witness : exists text, backup_line [lit "-all"; lit "-apk"] = Ok (lit "backup:" ++ text)
  /\ exists s0 s1 d1, adb_socketpair rounding started = (Some (s0, s1), d1)
  /\ DeviceServices.Fork (Ok [lit "bu"; take 15 (print_int s1); lit "backup"; lit "-all"; lit "-apk"])
       ∈ d_log (service_to_fd rounding (lit "backup:" ++ text) started).2.
Proof.
  destruct (backup_arguments_arrive (lit "-all") [lit "-apk"] rounding started) as (text & H1 & H2).
  - repeat (apply Forall_cons; split; [split; [discriminate|vm_compute; set_solver]|]). apply Forall_nil_2.
  - by apply Nat.ltb_lt.
  - exact rounding_whole.
  - exists text. exact (conj H1 (H2 eq_refl)).
Defined.

(** C32: No forward is made with [--no-rebind]: the request has a second colon, which
    becomes a part of the local name, and the server refuses it, whatever the
    names, the device and the forwards are. *)
Theorem norebind_refused {E E' : Type} {I : FdEvents E fd_func} {L : FdEventsLaws E fd_func I}
    {I' : FdEvents E' listener_func} {L' : FdEventsLaws E' listener_func I'} adb_port any loopback local_server gListenAll new
    local remote ttype serial fd s (h : host (E := E) (E' := E')) :
  let bind := local_name_to_fd any loopback local_server gListenAll in
  (length (default [] serial) <= 51)%nat -> host_ok h -> new_ok bind new h ->
  forward_request (ForwardOptions false false false true) (host_prefix ttype serial) [local; remote]
    = Some (false, format_host_command BUF (forward_service true local remote) ttype serial)
  /\ exists h' msg v, handle_host_request adb_port bind new (forward_service true local remote) ttype serial fd s h = Ok (0, h')
     /\ table (h_listeners h') = table (h_listeners h) /\ sendfailmsg (h_world h) fd msg = Ok (v, h_world h').
Proof.
  intros bind Hs H Hn. split; [by apply forward_request_formats|]. unfold forward_service. rewrite forward_dispatch.
  by apply norebind_fails.
Qed.

(** ** What goes wrong *)

(** A character that the shell gives a meaning to is not escaped. *)
Example semicolon_passes : pm_line [lit "uninstall"; lit "a;reboot"] = Ok (lit "shell:pm uninstall a;reboot").
Proof. by vm_compute. Qed.

(** The tags of the log are escaped inside of double quotes, where the shell of
    the device keeps the backslash before a space. *)
Example log_tags_escaped :
  sh_words (Byte.x22 :: quote_loop (lit "A:I B:D") ++ [Byte.x22]) = Some [lit "A:I\ B:D"].
Proof. by vm_compute. Qed.

(** An argument of a backup with a colon is two, and an empty one at the end is
    none. *)
Example backup_argument_split : bu_parts [] (lit "a" ++ joined [lit "b:c"; []]) = [lit "a"; lit "b"; lit "c"].
Proof. by vm_compute. Qed.

(** An empty argument of [pm] disappears. *)
Example empty_argument_lost : sh_words (lit "pm" ++ quoted_line [lit "a"; []; lit "b"]) = Some [lit "pm"; lit "a"; lit "b"].
Proof. by vm_compute. Qed.

(** The arguments behind the first are appended to a buffer that it may have
    filled. *)
Example shell_overruns : shell_line (repeat Byte.x61 4096) [lit "b"] = Ub.
Proof. by vm_compute. Qed.

(** The third option gives another port; waiting for the device forgets it. *)
Definition away_first : environment := Environment (fun _ => None)
  (fun h => match last h with Some (_, AdbConnect _) => if bool_decide (length h < 2)%nat then -1 else 3 | _ => 0 end) (fun _ => None).

Example port_forgotten :
  match commandline_at away_first 2 2 [lit "-P"; lit "6000"; lit "uninstall"; lit "a"] a_state with
  | Ok (_, s) => map (fun x => (t_port x.1, x.2)) (s_log s)
  | _ => []
  end = [(6000, AdbConnect (lit "shell:pm uninstall a")); (6000, SleepMs 1000); (7777, AdbCommand (lit "host:wait-for-any"));
    (7777, AdbConnect (lit "shell:pm uninstall a")); (7777, ReadAndDump 3); (7777, AdbClose 3)].
Proof. by vm_compute. Qed.
