(* ===== verification/AuthGate.v ===== *)
(** * Nothing before authentication

    With authentication enabled, a remote whose signatures do not verify gets
    nothing but authentication requests: no service is opened for it, no socket
    and no other transport is touched, and its transport stays offline. *)

From S2P Require Import Prelude Cstr Rwx Packet Fdevent World Transport Sockets SocketsInv SocketsClose SocketsData.
From S2P Require Import SocketsSmart SocketsEvents SocketsOpen SocketsEnd HandlePacket PacketSafe.

(** ** The banner *)

Lemma parse_prop_of y key v : Byte.x3d ∉ key ->
  parse_prop y (key ++ lit "=" ++ v) =
    if bool_decide (key = lit "ro.product.name") then with_quals (qual_overwrite v) (t_model y) (t_device y) y
    else if bool_decide (key = lit "ro.product.model") then with_quals (t_product y) (qual_overwrite v) (t_device y) y
    else if bool_decide (key = lit "ro.product.device") then with_quals (t_product y) (t_model y) (qual_overwrite v) y
    else y.
Proof. intros Hk. unfold parse_prop. by rewrite (strchr_found key v Byte.x3d Hk : strchr (key ++ lit "=" ++ v) _ = _). Qed.

(** One property of a banner, as a token. *)
Lemma banner_token key v s : key <> [] -> Byte.x3b ∉ key -> Byte.x3b ∉ v ->
  strtok_r ((key ++ lit "=" ++ v ++ lit ";") ++ s) Byte.x3b = (key ++ lit "=" ++ v) :: strtok_r s Byte.x3b.
Proof.
  intros Hne Hk Hv.
  assert ((key ++ lit "=" ++ v ++ lit ";") ++ s = (key ++ lit "=" ++ v) ++ Byte.x3b :: s) as ->.
  { rewrite <-!app_assoc. done. }
  apply strtok_cons; [by destruct key|]. rewrite !elem_of_app. intros [?|[H|?]]; [done| |done].
  apply list_elem_of_singleton in H. discriminate H.
Qed.

(** C39: What a device says of itself is what its peer records: the banner that
    [fill_connect_data] writes fits, is a C string, and [parse_banner] reads
    from it the kind of device and the three properties, for properties
    without semicolons. *)
Theorem banner_roundtrip banner get y more : (length banner <= 64)%nat -> Byte.x3a ∉ banner -> Byte.x00 ∉ banner ->
  (forall key, (length (get key) <= 91)%nat /\ Byte.x00 ∉ get key /\ Byte.x3b ∉ get key) ->
  exists text, fill_connect_data banner get MAX_PAYLOAD = Ok (text, Z.of_nat (length text) + 1)
    /\ c_string ((text ++ [Byte.x00]) ++ more) = Ok text
    /\ parse_banner text y = with_connection_state (state_of_type banner)
         (with_quals (qual_overwrite (get (lit "ro.product.name"))) (qual_overwrite (get (lit "ro.product.model")))
            (qual_overwrite (get (lit "ro.product.device"))) y).
Proof.
  intros Hlen Hcol Hnul Hg. exists (banner_text banner get).
  pose proof (banner_length banner get Hlen (fun key => proj1 (Hg key))) as Hl. split_and!.
  - apply fill_connect_data_ok. unfold MAX_PAYLOAD. lia.
  - rewrite <-app_assoc. apply c_string_snoc. unfold banner_text, cnxn_props. cbn [map concat].
    pose proof (fun key => proj1 (proj2 (Hg key))) as Hz. rewrite !elem_of_app.
    assert (forall str, bool_decide (Byte.x00 ∈ lit str) = false -> Byte.x00 ∉ lit str) as Hlit
      by (intros str; apply bool_decide_eq_false).
    pose proof (Hz (lit "ro.product.name")). pose proof (Hz (lit "ro.product.model")).
    pose proof (Hz (lit "ro.product.device")).
    pose proof (Hlit "::"%string eq_refl). pose proof (Hlit "="%string eq_refl). pose proof (Hlit ";"%string eq_refl).
    pose proof (Hlit "ro.product.name"%string eq_refl). pose proof (Hlit "ro.product.model"%string eq_refl).
    pose proof (Hlit "ro.product.device"%string eq_refl). pose proof (not_elem_of_nil (A := byte) Byte.x00). tauto.
  - unfold banner_text, parse_banner.
    rewrite (strchr_found banner (Byte.x3a :: concat (map (fun key => key ++ lit "=" ++ get key ++ lit ";") cnxn_props))
      Byte.x3a Hcol : strchr (banner ++ lit "::" ++ _) Byte.x3a = _).
    cbn [strchr]. rewrite bool_decide_true by done. unfold cnxn_props. cbn [map concat].
    rewrite !banner_token by (by apply Hg || by apply (bool_decide_eq_false _)).
    change (strtok_r [] Byte.x3b) with (@nil bytes). cbn [fold_left].
    rewrite !parse_prop_of by (by apply (bool_decide_eq_false _)).
    repeat (rewrite bool_decide_true by done || rewrite bool_decide_false by done). by destruct y.
Qed.

Section Gate.
Context {E : Type} {I : FdEvents E fd_func}.
Implicit Types (w : world E) (t : addr) (p : apacket) (k : bytes) (tok : option bytes).

(** A packet as [remote_read] delivers it. *)
Definition arrives p : Prop :=
  0 <= data_length (msg p) <= MAX_PAYLOAD /\ data_length (msg p) <= Z.of_nat (length (p_data p))
  /\ Z.of_nat (length (p_data p)) <= MAX_PAYLOAD.

(** The signature that a packet answers with, and whether it offers a key. *)
Definition is_auth (what : Z) p : bool := bool_decide (command (msg p) = A_AUTH /\ arg0 (msg p) = what).
Definition signature p : bytes := take (Z.to_nat (data_length (msg p))) (p_data p).
Definition offers p : bool := is_auth ADB_AUTH_RSAPUBLICKEY p.

(** The token to sign after a message: a connection, or a signature that is
    refused, is answered with a new one, if one can be generated. *)
Definition next_challenge k (x : option bytes * apacket) : bytes :=
  if bool_decide (command (msg x.2) = A_CNXN) || is_auth ADB_AUTH_SIGNATURE x.2 then default k x.1 else k.

(** The remote does not authenticate: no signature verifies for the token that
    it is asked to sign at that time. *)
Fixpoint unauthenticated (S : platform E) k (xs : list (option bytes * apacket)) : Prop :=
  match xs with
  | [] => True
  | x :: xs => (is_auth ADB_AUTH_SIGNATURE x.2 = true -> adb_auth_verify S k (signature x.2) = false)
      /\ unauthenticated S (next_challenge k x) xs
  end.

(** Showing a key to the user concerns the events only; adb_auth_client.c keeps
    the rest, the callback for the disconnection included, in statics of its
    own (AuthClient.v). *)
Definition asks_user (S : platform E) : Prop := forall key t w,
  onwards (adb_auth_confirm_key S key t w) (fun w' => exists e, w' = with_ev e w).

(** Only the transport [t] changed: it is still offline and without sockets, is
    asked to sign [k], and was sent requests for it. *)
Definition locked k w t : Prop := exists y, w_trans w !! t = Some y /\ t_online y = false /\ t_disconnects y = [] /\ t_token y = k.

Definition harmless p : Prop := command (msg p) = A_AUTH /\ arg0 (msg p) = ADB_AUTH_TOKEN \/ command (msg p) = A_SYNC.

Record untouched k (offered : bool) w t w' : Prop := Untouched {
  un_socks : w_socks w' = w_socks w;
  un_lists : w_locals w' = w_locals w /\ w_closing w' = w_closing w;
  un_ev : offered = false -> w_ev w' = w_ev w;
  un_io : w_io w' = w_io w;
  un_others : forall u, u <> t -> w_trans w' !! u = w_trans w !! u;
  un_locked : locked k w' t;
  un_sent : exists l, outs w' t = (fun o => o ++ l) <$> outs w t /\ Forall harmless l
}.

(** A call that meets [Q], or is undefined if it may be. *)
Definition upto (may : bool) {A} (m : res A) (Q : A -> Prop) : Prop :=
  match m with Ok a => Q a | Exit => True | Ub | Blocked => may = true end.

(** * Theorems *)

Lemma upto_ensures may {A} (m : res A) (Q : A -> Prop) : ensures m Q -> upto may m Q.
Proof. by destruct m. Qed.
Lemma upto_bind may {A B} (m : res A) (f : A -> res B) (P : A -> Prop) Q :
  upto may m P -> (forall a, P a -> upto may (f a) Q) -> upto may (res_bind m f) Q.
Proof. destruct m; cbn; auto. Qed.
Lemma upto_mono may {A} (m : res A) (P Q : A -> Prop) : upto may m P -> (forall a, P a -> Q a) -> upto may m Q.
Proof. destruct m; cbn; auto. Qed.

Lemma upto_onwards {A} (m : res A) (Q : A -> Prop) : upto true m Q -> onwards m Q.
Proof. by destruct m. Qed.
Lemma upto_defined {A} (m : res A) (Q : A -> Prop) : upto false m Q -> ensures m Q.
Proof. by destruct m. Qed.

Lemma untouched_refl k o w t : locked k w t -> untouched k o w t w.
Proof.
  intros H. split; try done. exists []. split; [|constructor].
  destruct (outs w t); cbn; [by rewrite app_nil_r|done].
Qed.

Lemma untouched_trans k1 k2 o1 o2 w1 w2 w3 t : untouched k1 o1 w1 t w2 -> untouched k2 o2 w2 t w3 ->
  untouched k2 (o1 || o2) w1 t w3.
Proof.
  intros [S1 [L1 C1] E1 I1 O1 K1 (l1 & H1 & F1)] [S2 [L2 C2] E2 I2 O2 K2 (l2 & H2 & F2)].
  split; try congruence; [split; congruence| | |].
  - intros [-> ->]%orb_false_iff. rewrite E2, E1 by done. done.
  - intros u Hu. by rewrite O2, O1.
  - exists (l1 ++ l2). split; [|by apply Forall_app]. rewrite H2, H1. destruct (outs w1 t); cbn; [by rewrite app_assoc|done].
Qed.

Lemma update_untouched k k' w t f : locked k w t ->
  (forall y, t_online y = false -> t_online (f y) = false) -> (forall y, t_disconnects (f y) = t_disconnects y) ->
  (forall y, t_out (f y) = t_out y) -> (forall y, t_token y = k -> t_token (f y) = k') ->
  ensures (update_trans w t f) (untouched k' false w t).
Proof.
  intros (y & Hy & Ho & Hd & Hk) F1 F2 F3 F4. unfold update_trans, get_trans. rewrite Hy. cbn [access res_bind ensures].
  split; try done.
  - intros u Hu. wcbn. by rewrite lookup_insert_ne by (by apply not_eq_sym).
  - exists (f y). split; [wcbn; apply lookup_insert_eq|]. split; [by apply F1|]. split; [by rewrite F2|by apply F4].
  - exists []. split; [|constructor]. rewrite (outs_put_trans t y) by done. rewrite decide_True by done.
    unfold outs. rewrite Hy. cbn. by rewrite F3, app_nil_r.
Qed.

Lemma send_untouched k w p t : locked k w t -> sealable p -> harmless p -> ensures (send_to w p (Some t)) (untouched k false w t).
Proof.
  intros (y & Hy & Ho & Hd & Hk) Hs Hc. unfold send_to. destruct (seal_ok p Hs) as [q Hq]. rewrite Hq. cbn [res_bind].
  unfold get_trans. rewrite Hy. cbn [access res_bind]. destruct (t_broken y); [done|]. cbn [ensures].
  split; try done.
  - intros u Hu. wcbn. by rewrite lookup_insert_ne by (by apply not_eq_sym).
  - eexists. split; [wcbn; apply lookup_insert_eq|]. done.
  - exists [q]. split.
    + rewrite (outs_put_trans t y) by done. rewrite decide_True by done. unfold outs. by rewrite Hy.
    + constructor; [|done]. unfold seal in Hq. inv_ok. by subst q.
Qed.

(** Two steps that keep to themselves. *)
Lemma then_untouched k1 k2 w t (m : res (world E)) (f : world E -> res (world E)) : ensures m (untouched k1 false w t) ->
  (forall w1, locked k1 w1 t -> ensures (f w1) (untouched k2 false w1 t)) -> ensures (res_bind m f) (untouched k2 false w t).
Proof.
  intros Hm Hf. apply ensures_bind. eapply ensures_mono; [|exact Hm]. intros w1 U1.
  eapply ensures_mono; [|apply Hf, U1]. intros w2 U2. exact (untouched_trans _ _ false false _ _ _ _ U1 U2).
Qed.

Lemma auth_request_untouched k w tok t : locked k w t -> (forall k', tok = Some k' -> length k' = TOKEN_SIZE) ->
  ensures (send_auth_request w tok t) (untouched (default k tok) false w t).
Proof.
  intros K Hk. destruct tok as [k'|]; cbn [send_auth_request default]; [|by apply untouched_refl].
  eapply then_untouched; [by apply (update_untouched k k' w t (with_token k'))|]. intros w1 K1.
  specialize (Hk k' eq_refl). unfold TOKEN_SIZE in Hk. apply send_untouched; [done| |by left].
  apply sealable_data; [|lia]. rewrite Hk. unfold MAX_PAYLOAD. lia.
Qed.

Lemma offline_untouched k w t : locked k w t -> ensures (handle_offline w t) (untouched k false w t).
Proof.
  intros K. unfold handle_offline. eapply then_untouched; [by apply (update_untouched k k w t (with_online false))|].
  intros w1 K1. destruct K1 as (y1 & Hy1 & Ho & Hd1 & Hk). unfold run_transport_disconnects, get_trans.
  rewrite Hy1. cbn [access res_bind]. rewrite Hd1. cbn. apply untouched_refl. by exists y1.
Qed.

Lemma drop_untouched k w t : locked k w t ->
  ensures (let* w := update_trans w t (with_connection_state CS_OFFLINE) in handle_offline w t) (untouched k false w t).
Proof.
  intros K. eapply then_untouched; [by apply (update_untouched k k w t (with_connection_state CS_OFFLINE))|].
  intros w1 K1. by apply offline_untouched.
Qed.

Lemma parse_prop_untouched y key : t_online (parse_prop y key) = t_online y /\ t_out (parse_prop y key) = t_out y
  /\ t_token (parse_prop y key) = t_token y.
Proof. unfold parse_prop. destruct (strchr _ _) as [[? ?]|]; [|done]. by repeat case_bool_decide. Qed.

Lemma parse_banner_untouched banner y : t_online (parse_banner banner y) = t_online y
  /\ t_out (parse_banner banner y) = t_out y /\ t_token (parse_banner banner y) = t_token y.
Proof.
  unfold parse_banner. destruct (strchr banner _) as [[? cp]|]; [|done]. destruct (strchr cp _) as [[? props]|]; [|done].
  cbn. generalize (strtok_r props Byte.x3b). intros ks. revert y. induction ks as [|k ks IH]; intros y; [done|].
  cbn [fold_left]. destruct (IH (parse_prop y k)) as (-> & -> & ->). apply parse_prop_untouched.
Qed.

Lemma arrives_prefix p : arrives p -> data_prefix p (data_length (msg p)) = Ok (signature p).
Proof. intros (H1 & H2 & _). unfold data_prefix. by rewrite bool_decide_true by lia. Qed.

(** The messages of one kind each. *)
Lemma cnxn_untouched may S k tok p t w : auth_enabled S = true -> locked k w t ->
  (forall k', tok = Some k' -> length k' = TOKEN_SIZE) -> (may = false -> Byte.x00 ∈ p_data p) ->
  upto may (handle_cnxn S tok p t w) (untouched (default k tok) false w t).
Proof.
  intros Hauth K Hk Hnul. pose proof K as (y & Hy & _). unfold handle_cnxn, get_trans. rewrite Hy. cbn [access res_bind].
  apply (upto_bind _ _ _ (untouched k false w t)).
  { apply upto_ensures. case_bool_decide; [by apply drop_untouched|by apply untouched_refl]. }
  intros w1 U1. destruct (c_string (p_data p)) as [banner| | |] eqn:Hc; cbn [res_bind].
  - apply upto_ensures. eapply ensures_mono; [intros w2 U2; exact (untouched_trans _ _ false false _ _ _ _ U1 U2)|].
    apply (then_untouched k (default k tok)).
    + apply (update_untouched k k w1 t (parse_banner banner)); [apply U1| | | |]; intros y1;
        destruct (parse_banner_untouched banner y1) as (Q1 & Q2 & Q3); [by rewrite Q1|apply parse_banner_disconnects|done|by rewrite Q3].
    + intros w2 K2. rewrite Hauth. by apply auth_request_untouched.
  - destruct may; [done|]. destruct (c_string_in _ (Hnul eq_refl)) as (b & Hb). congruence.
  - done.
  - destruct may; [done|]. destruct (c_string_in _ (Hnul eq_refl)) as (b & Hb). congruence.
Qed.

Lemma auth_untouched may S k tok p t w : asks_user S -> locked k w t -> arrives p -> command (msg p) = A_AUTH ->
  (forall k', tok = Some k' -> length k' = TOKEN_SIZE) -> (may = false -> offers p = false) ->
  (is_auth ADB_AUTH_SIGNATURE p = true -> adb_auth_verify S k (signature p) = false) ->
  upto may (handle_auth S tok p t w) (untouched (next_challenge k (tok, p)) (offers p) w t).
Proof.
  intros Hask K Hp Hc Hk Hmay Hver. pose proof K as (y & Hy & _ & _ & Hyk).
  assert (forall what, is_auth what p = bool_decide (arg0 (msg p) = what)) as His.
  { intros what. unfold is_auth. apply bool_decide_ext. tauto. }
  unfold handle_auth, next_challenge, offers in *. cbn [fst snd]. rewrite !His in *.
  rewrite (bool_decide_false (command (msg p) = A_CNXN)) by (by rewrite Hc). cbn [orb].
  destruct (decide (arg0 (msg p) = ADB_AUTH_TOKEN)) as [H0|H0]; [|rewrite (bool_decide_false (_ = ADB_AUTH_TOKEN)) by done;
    destruct (decide (arg0 (msg p) = ADB_AUTH_SIGNATURE)) as [H1|H1]; [|rewrite (bool_decide_false (_ = ADB_AUTH_SIGNATURE)) by done;
    destruct (decide (arg0 (msg p) = ADB_AUTH_RSAPUBLICKEY)) as [H2|H2]]].
  - rewrite H0. apply upto_ensures. by apply (update_untouched k k w t (with_connection_state CS_UNAUTHORIZED)).
  - rewrite H1 in *. apply upto_ensures.
    unfold get_trans. rewrite Hy. cbn [access res_bind]. rewrite (arrives_prefix p Hp). cbn [res_bind].
    change (bool_decide (ADB_AUTH_SIGNATURE = ADB_AUTH_SIGNATURE)) with true in *. cbn [default].
    rewrite Hyk, Hver by done. apply (then_untouched k (default k tok)).
    + by apply (update_untouched k k w t (with_failed (t_failed_auth_attempts y + 1))).
    + intros w1 K1. by apply auth_request_untouched.
  - rewrite H2 in *.
    destruct may; [|by discriminate (Hmay eq_refl)].
    rewrite (arrives_prefix p Hp). cbn [res_bind]. specialize (Hask (signature p) t w).
    destruct (adb_auth_confirm_key S (signature p) t w) as [w'| | |]; try done.
    destruct Hask as [e ->]. cbn [upto]. split; try done.
    exists []. split; [|constructor]. unfold outs. cbn. destruct (w_trans w !! t); cbn; [by rewrite app_nil_r|done].
  - rewrite (bool_decide_false (_ = ADB_AUTH_RSAPUBLICKEY)) by done. apply upto_ensures. by apply untouched_refl.
Qed.

(** One message. *)
Lemma stranger_step may S k tok p t w : auth_enabled S = true -> asks_user S -> locked k w t -> arrives p ->
  (forall k', tok = Some k' -> length k' = TOKEN_SIZE) ->
  (may = false -> offers p = false /\ (command (msg p) = A_CNXN -> Byte.x00 ∈ p_data p)) ->
  (is_auth ADB_AUTH_SIGNATURE p = true -> adb_auth_verify S k (signature p) = false) ->
  upto may (handle_packet S tok p t w) (untouched (next_challenge k (tok, p)) (offers p) w t).
Proof.
  intros Hauth Hask K Hp Hk Hmay Hver. pose proof Hp as (Hl1 & Hl2 & Hl3). pose proof K as (y & Hy & Ho & Hd & _).
  unfold handle_packet, get_trans. rewrite Hy. cbn [access res_bind]. rewrite Ho.
  assert (sealable p) as Hs by (by split).
  assert (command (msg p) <> A_AUTH -> offers p = false /\ is_auth ADB_AUTH_SIGNATURE p = false) as Hno.
  { intros H. unfold offers, is_auth. by rewrite !bool_decide_false by (by intros [? _]). }
  case_bool_decide as Hc1; [|case_bool_decide as Hc2; [|case_bool_decide as Hc3]].
  - destruct Hno as [-> Hsig]; [by rewrite Hc1|]. unfold next_challenge. cbn [fst snd]. rewrite Hsig, bool_decide_false by (by rewrite Hc1).
    cbn [orb]. apply upto_ensures. unfold handle_sync. case_bool_decide; [apply send_untouched; [done..|by right]|].
    eapply then_untouched; [by apply (update_untouched k k w t (with_connection_state CS_OFFLINE))|]. intros w1 K1.
    eapply then_untouched; [by apply offline_untouched|]. intros w2 K2. apply send_untouched; [done..|by right].
  - destruct Hno as [-> Hsig]; [by rewrite Hc2|]. unfold next_challenge. cbn [fst snd]. rewrite Hsig, bool_decide_true by done. cbn [orb].
    apply cnxn_untouched; [done..|]. intros Hm. by apply Hmay.
  - apply auth_untouched; try done. intros Hm. by apply Hmay.
  - destruct Hno as [-> Hsig]; [done|]. unfold next_challenge. cbn [fst snd]. rewrite Hsig, (bool_decide_false (command (msg p) = A_CNXN)) by done. cbn [orb].
    apply upto_ensures. repeat case_bool_decide; by apply untouched_refl.
Qed.

Lemma stranger_steps may S t xs : auth_enabled S = true -> asks_user S ->
  Forall (fun x => arrives x.2 /\ (forall k', x.1 = Some k' -> length k' = TOKEN_SIZE)
    /\ (may = false -> offers x.2 = false /\ (command (msg x.2) = A_CNXN -> Byte.x00 ∈ p_data x.2))) xs ->
  forall k w, unauthenticated S k xs -> locked k w t ->
  upto may (handle_packets S xs t w) (untouched (fold_left next_challenge xs k) (existsb (fun x => offers x.2) xs) w t).
Proof.
  intros Hauth Hask Hxs. induction Hxs as [|[tok p] xs (Hp & Hk & Hmay) _ IH]; intros k w Hun K; cbn [handle_packets fold_left existsb].
  { by apply untouched_refl. }
  destruct Hun as [Hver Hun]. eapply upto_bind; [by apply stranger_step|]. intros w1 U1.
  eapply upto_mono; [apply (IH _ _ Hun), U1|]. intros w2 U2. exact (untouched_trans _ _ _ _ _ _ _ _ U1 U2).
Qed.


End Gate.
