(* ===== verification/Streams.v ===== *)
(** * What the messages of streams do

    The functional behaviour of [OPEN], [WRTE], [CLSE] and of a local request:
    what is answered, what reaches the descriptor, and in which order. *)

From S2P Require Import Prelude Cstr Rwx Packet Fdevent World Transport Sockets SocketsInv SocketsClose SocketsData.
From S2P Require Import SocketsSmart SocketsEvents SocketsOpen SocketsEnd HandlePacket PacketSafe.

Section Streams.
Context {E : Type} {I : FdEvents E fd_func} {L : FdEventsLaws E fd_func I}.
Implicit Types (w : world E) (a b t : addr) (s : asocket) (p : apacket).

(** * Theorems *)

(** Where the messages go. *)
Lemma dispatch_wrte S tok p t w y : w_trans w !! t = Some y -> t_online y = true -> command (msg p) = A_WRTE ->
  handle_packet S tok p t w = handle_wrte p t w.
Proof. intros Hy Ho Hc. unfold handle_packet, get_trans. by rewrite Hy, Hc; cbn [access res_bind]; rewrite Ho. Qed.
Lemma dispatch_open S tok p t w y : w_trans w !! t = Some y -> t_online y = true -> command (msg p) = A_OPEN ->
  handle_packet S tok p t w = handle_open S p t w.
Proof. intros Hy Ho Hc. unfold handle_packet, get_trans. by rewrite Hy, Hc; cbn [access res_bind]; rewrite Ho. Qed.
Lemma dispatch_clse S tok p t w y : w_trans w !! t = Some y -> t_online y = true -> command (msg p) = A_CLSE ->
  handle_packet S tok p t w = handle_clse p w.
Proof. intros Hy Ho Hc. unfold handle_packet, get_trans. by rewrite Hy, Hc; cbn [access res_bind]; rewrite Ho. Qed.

Lemma rest_payload p : 0 <= data_length (msg p) <= Z.of_nat (length (p_data p)) ->
  rest (set_ptr 0 (set_len (data_length (msg p)) p)) = take (Z.to_nat (data_length (msg p))) (p_data p).
Proof. done. Qed.

(** C6: Data for a stream reaches its descriptor in order: the payload is written,
    or waits behind what waited before, and the remote is told to go on
    exactly when everything was written; or the descriptor failed, and both
    ends of the stream are closed. *)
Theorem wrte_in_order S tok p t w y a s b sb : wf_world w -> w_trans w !! t = Some y -> t_online y = true ->
  command (msg p) = A_WRTE -> packet_in p ->
  find_local_socket w (arg1 (msg p)) = Ok (Some a) -> pair w a s b sb -> sk_enqueue sb = remote_enqueue ->
  ensures (handle_packet S tok p t w) (fun w' =>
    (delivered w a s (take (Z.to_nat (data_length (msg p))) (p_data p)) w' /\ exists s', w_socks w' !! a = Some s'
       /\ sent (Some t) (if bool_decide (sk_pkts s' = []) then [header_packet A_OKAY (sk_id s) (arg0 (msg p))] else []) w w')
    \/ (closed w' a /\ closed w' b /\ sent (sk_transport sb) (goodbye 0 sb) w w')).
Proof.
  intros W Hy Hon Hc (Hl1 & Hl2 & _) Hf P Hkb. pose proof P as [Ha Hb _ Hab _ Hkk _ _].
  assert (sk_enqueue s = local_enqueue) as Hk by (apply Hkk; congruence).
  destruct (find_local_ok w (arg1 (msg p)) W) as (o & Hf' & Ho). rewrite Hf in Hf'. injection Hf' as <-.
  destruct Ho as (s0 & _ & Ha0 & _ & Hopen & _). assert (s0 = s) as -> by congruence.
  rewrite (dispatch_wrte S tok p t w y) by done. unfold handle_wrte. rewrite Hf. cbn [res_bind].
  assert (pkt_ok (set_ptr 0 (set_len (data_length (msg p)) p))) as Hpk by (split; cbn; lia).
  apply ensures_bind. eapply ensures_mono; [|exact (stream_enqueue_wf w a s _ b sb W Ha Hk Hopen Hab Hb Hkb Hpk)].
  intros [v w'] (W' & Htr & [(D & Ht & Hv)|(Hv & C)]); cbn [fst snd] in *.
  - pose proof D as (s' & Ha' & He & _). specialize (Hv s' Ha').
    case_bool_decide as Hempty; subst v; cbn [bool_decide].
    + rewrite bool_decide_true by done. rewrite (get_sock_ok _ _ _ Ha'). cbn [res_bind].
      assert (sk_id s' = sk_id s) as -> by (by rewrite He).
      eapply ensures_mono; [|apply (send_header_ok [] w' A_OKAY (sk_id s) (arg0 (msg p)) t); [apply W'|by apply Htr; exists y]].
      intros w2 (B2 & F2 & Hs2 & Hio & _ & S2). left. split.
      * destruct D as (s2 & Ha2 & He2 & D). exists s2. rewrite Hs2. split_and!; [done..|]. intros Hi.
        destruct (D Hi) as [Hi' Hw]. unfold written. rewrite Hio. by split.
      * exists s'. rewrite Hs2. split; [done|]. rewrite bool_decide_true by done.
        apply (sent_after _ _ w w'); [|exact S2]. apply sent_quiet. intros u. unfold outs. by rewrite Ht.
    + rewrite bool_decide_false by done. cbn [ensures]. left. split; [done|]. exists s'. split; [done|].
      rewrite bool_decide_false by done. apply sent_quiet. intros u. unfold outs. by rewrite Ht.
  - subst v. rewrite bool_decide_false by done. cbn [ensures]. right. destruct C as [B' F' C' S'].
    assert (family a s = [a; b]) as Hfam by (unfold family; by rewrite Hab).
    rewrite Hfam, Forall_cons, Forall_singleton in C'. destruct C' as [Ca Cb].
    unfold last_words in S'. rewrite Hab, Hb in S'. unfold farewell in S'. rewrite Hk in S'. done.
Qed.

(** The name of the service that an [OPEN] asks for. *)
Definition open_name p (name : bytes) : Prop :=
  c_string (take (Z.to_nat (data_length (msg p) - 1)) (p_data p) ++ [Byte.x00]) = Ok name.

Lemma open_name_read p name : packet_in p -> open_name p name ->
  let last := if bool_decide (data_length (msg p) > 0) then data_length (msg p) - 1 else 0 in
  exists q, store_data (Z.to_nat last) [Byte.x00] p = Ok q /\ c_string (p_data q) = Ok name.
Proof.
  intros (Hl1 & Hl2 & Hl3 & _) Hn last.
  assert (0 <= last < MAX_PAYLOAD /\ last <= Z.of_nat (length (p_data p))) as [Hr1 Hr2].
  { unfold last, MAX_PAYLOAD in *. case_bool_decide; lia. }
  assert (take (Z.to_nat last) (p_data p) = take (Z.to_nat (data_length (msg p) - 1)) (p_data p)) as Ht.
  { unfold last. case_bool_decide; [done|]. f_equal. lia. }
  unfold store_data. rewrite bool_decide_true by (cbn [length]; lia). eexists. split; [done|].
  cbn [p_data app]. unfold open_name in Hn. rewrite <-Ht in Hn.
  destruct (c_string_nul (take (Z.to_nat last) (p_data p))) as (str & _ & Hstr).
  rewrite (Hstr []) in Hn. injection Hn as ->. apply Hstr.
Qed.

(** The socket of a service that opened a descriptor. *)
Lemma service_socket_ok S name fd w w1 : name <> lit "jdwp" -> name <> lit "track-jdwp" ->
  service_to_fd S name w = Ok (fd, w1) -> wf_world w1 -> 0 <= fd < FD_SETSIZE ->
  ev_free_fd (F := fd_func) (w_ev w1) fd ->
  exists w3 s, create_local_service_socket S name w = Ok (Some (w_brk w1), w3) /\ wf_world w3
    /\ w_socks w3 !! w_brk w1 = Some s /\ sk_id s = w_next_id w1 /\ sk_fd s = fd /\ sk_enqueue s = local_enqueue
    /\ sk_peer s = None /\ sk_closing s = false /\ w_trans w3 = w_trans w1.
Proof.
  intros Hj1 Hj2 Hsv W1 Hfd Hfree. unfold create_local_service_socket. rewrite !bool_decide_false, Hsv by done.
  cbn [res_bind]. rewrite bool_decide_false by lia.
  destruct (create_local_ok w1 fd W1) as (e & -> & W2); [lia|done|]. cbn [res_bind].
  assert (w_socks (with_local w1 fd e) !! w_brk w1 = Some (fresh_local (w_next_id w1) fd)) as Ha
    by (unfold with_local; wcbn; apply lookup_insert_eq).
  destruct (_ || _); [|by eexists _, _].
  rewrite (update_sock_ok _ _ _ _ Ha). eexists _, (with_exit_on_close true (fresh_local (w_next_id w1) fd)).
  split; [done|]. split; [by eapply exit_on_close_wf|]. split; [wcbn; apply lookup_insert_eq|done].
Qed.

(** The remote socket, the answer, and the first reading. *)
Lemma open_link_ok w a s id t : wf_world w -> w_socks w !! a = Some s -> sk_enqueue s = local_enqueue ->
  sk_peer s = None -> sk_closing s = false -> is_Some (w_trans w !! t) ->
  ensures (let* w := attach_remote w a id t in
           let* s := get_sock w a in
           let* r := peer_of s in
           let* sr := get_sock w r in
           let* w := send_ready w (sk_id s) (sk_id sr) t in
           let* ' (_, w) := run (CReady a) w in Ok w)
    (fun w' => sent (Some t) [header_packet A_OKAY (sk_id s) id] w w' /\ wf_world w'
      /\ w_socks w' !! a = Some (with_fns local_ready local_close (with_peer (Some (w_brk w)) s))
      /\ w_socks w' !! w_brk w = Some (fresh_remote id t (Some a))
      /\ exists i, ev_interest (F := fd_func) (w_ev w') a = Some i /\ has i FDE_READ = true).
Proof.
  intros W Ha Hk Hp Ho Ht.
  destruct (attach_remote_ok w a s id t W Ha Hk Hp Ho Ht) as (w4 & -> & K & Hs4 & Hout & Htr4 & _). cbn [res_bind].
  set (b := w_brk w) in *. set (s4 := with_peer (Some b) s) in *.
  assert (b <> a) as Hba. { destruct (brk_free [] w (proj1 W)) as (Hnone & _). intros Hx. fold b in Hnone. congruence. }
  assert (w_socks w4 !! b = Some (fresh_remote id t (Some a))) as Hb4
    by (by rewrite Hs4, lookup_insert_ne, lookup_insert_eq by (by apply not_eq_sym)).
  rewrite (get_sock_ok w4 a s4) by apply K. cbn [res_bind s4 with_peer sk_peer peer_of access].
  rewrite (get_sock_ok _ _ _ Hb4). cbn [res_bind]. apply ensures_bind.
  pose proof (Htr4 t Ht) as Ht4.
  eapply ensures_mono; [|exact (ensures_and _ _ _ (linked_send w4 a s4 A_OKAY (sk_id s4) id t K Ht4)
    (send_header_ok [a] w4 A_OKAY (sk_id s4) id t (lk_base _ _ _ K) Ht4))].
  intros w5 [K5 (_ & _ & Hs5 & _ & _ & S5)]. apply ensures_bind.
  eapply ensures_mono; [|exact (linked_ready 6 w5 a s4 K5)]. intros [v w6] (W6 & Hs6 & Ht6 & Hi).
  cbn [ensures fst snd] in *. split; [|split; [done|split; [|split; [|done]]]].
  - apply (sent_before _ _ w w5); [|apply sent_quiet; intros u; unfold outs; by rewrite Ht6].
    by apply (sent_after _ _ w w4); [apply sent_quiet|].
  - by rewrite Hs6, lookup_insert_eq.
  - rewrite Hs6, Hs5, lookup_insert_ne by (by apply not_eq_sym). exact Hb4.
Qed.

(** C26: [OPEN] runs the service it names: if there is none, the remote is told so
    with a [CLSE] from 0; otherwise it is told the id of a new local socket
    on the descriptor of the service, which is linked to a remote socket with
    the id that the remote chose, and reads. *)
Theorem open_connects S tok p t w y name fd w1 : w_trans w !! t = Some y -> t_online y = true ->
  command (msg p) = A_OPEN -> packet_in p -> open_name p name -> name <> lit "jdwp" -> name <> lit "track-jdwp" ->
  service_to_fd S name w = Ok (fd, w1) -> wf_world w1 -> is_Some (w_trans w1 !! t) ->
  (0 <= fd -> fd < FD_SETSIZE /\ ev_free_fd (F := fd_func) (w_ev w1) fd) ->
  ensures (handle_packet S tok p t w) (fun w' =>
    if bool_decide (fd < 0) then sent (Some t) [header_packet A_CLSE 0 (arg0 (msg p))] w1 w' /\ w_socks w' = w_socks w1
    else sent (Some t) [header_packet A_OKAY (w_next_id w1) (arg0 (msg p))] w1 w'
      /\ exists a b s sb, w_socks w' !! a = Some s /\ w_socks w' !! b = Some sb
        /\ sk_peer s = Some b /\ sk_peer sb = Some a /\ sk_id s = w_next_id w1 /\ sk_fd s = fd
        /\ sk_id sb = arg0 (msg p) /\ sk_transport sb = Some t
        /\ exists i, ev_interest (F := fd_func) (w_ev w') a = Some i /\ has i FDE_READ = true).
Proof.
  intros Hy Hon Hc Hp Hn Hj1 Hj2 Hsv W1 Ht Hfd. rewrite (dispatch_open S tok p t w y) by done. unfold handle_open.
  destruct (open_name_read p name Hp Hn) as (q & -> & Hq). cbn [res_bind]. rewrite Hq. cbn [res_bind].
  case_bool_decide as Hneg.
  { unfold create_local_service_socket. rewrite !(bool_decide_false (name = _)), Hsv by done. cbn [res_bind].
    rewrite bool_decide_true by done. cbn [res_bind].
    eapply ensures_mono; [|by apply (send_header_ok [] w1 A_CLSE 0 (arg0 (msg p)) t); [apply W1|]].
    intros w2 (_ & _ & Hs & _ & _ & S2). done. }
  destruct Hfd as [Hle Hfree]; [lia|].
  destruct (service_socket_ok S name fd w w1) as (w3 & s & -> & W3 & Ha & Hid & Hsfd & Hk & Hpe & Ho & Htr); [done..|lia|done|].
  cbn [res_bind]. rewrite <-Htr in Ht.
  eapply ensures_mono; [|by apply (open_link_ok w3 (w_brk w1) s (arg0 (msg p)) t)].
  intros w' (S' & _ & Ha' & Hb' & Hi). split.
  - rewrite <-Hid. apply (sent_after _ _ w1 w3); [|done]. apply sent_quiet. intros u. unfold outs. by rewrite Htr.
  - eexists (w_brk w1), (w_brk w3), _, _. split; [exact Ha'|]. split; [exact Hb'|]. done.
Qed.

(** ** Requests *)

(** C27: A smart socket is indifferent to how its request is cut into packets: it
    keeps what came so far until the four digits and the announced number of
    characters are there; then the name they spell, and nothing else, is asked
    of its transport, or of the one that there is, under the id of the client.
    Both sockets are closed exactly when the request does not fit a packet, when
    the number is not between 1 and 1024, or when a complete request has no
    transport, or one that is offline.  (The requests that a server answers
    itself are recognised first, by their prefix: HostRequest.) *)
Theorem request_collected w a s b sb p : wf_world w -> pair w a s b sb -> sk_enqueue s = smart_enqueue ->
  holds p (p_data p) ->
  ensures (run (CEnqueue a p) w) (fun r => let req := request s ++ p_data p in
    if bool_decide (Z.of_nat (length req) > MAX_PAYLOAD) then refused w a b r else answered w a s b sb req r).
Proof.
  intros W P Hk Hh. pose proof P as [Ha Hb _ _ Hba _ _ _]. unfold run, exec_depth. cbn [exec dispatch].
  rewrite (get_sock_ok _ _ _ Ha). cbn [res_bind]. rewrite Hk.
  assert (sk_enqueue sb = local_enqueue) as Hkb.
  { pose proof (proj2 (pr_kind _ _ _ _ _ P)) as Hx. rewrite Hk in Hx.
    destruct (sk_enqueue sb); [done|by discriminate (Hx ltac:(done))..]. }
  destruct (peer_kinds w b sb W Hb Hkb) as [(a' & s' & Ha' & Q & Hr)|Hsm].
  - assert (a' = a) as -> by congruence. pose proof (pr_b _ _ _ _ _ Q). congruence.
  - destruct (Hsm a Hba) as (s' & _ & _ & Hq & Ho). by apply (smart_enqueue_ok 3 w a s b sb p).
Qed.

End Streams.
