(* ===== verification/Demo.v ===== *)
(** * The theorems at work

    Worlds of the daemon on the event loop of Fdevent.v: the hypotheses of the
    theorems on sockets and messages hold in them. *)

From S2P Require Import Listeners HostRequest Pump Sends DaemonPump Commands CommandLines.
From S2P Require Import Prelude Cstr Rwx Packet Fdevent World Transport Sockets SocketsInv SocketsClose SocketsData.
From S2P Require Import SocketsSmart SocketsEvents SocketsOpen SocketsEnd HandlePacket PacketSafe AuthGate Streams.

Abbreviation E := (fdstate fd_func).
#[local] Existing Instance fdevents.

(** A transport that is online, and a descriptor that gives [hello]. *)
Definition peer_device (online : bool) : atransport :=
  ATransport [] false CS_HOST online kTransportLocal (Some (lit "host")) None None None None false [] [] 0.
Definition hello_fd : fdio := Fdio (lit "hello") [] [Xfer 99; Fail EAGAIN; Xfer 1; Fail EAGAIN] [].

Definition boot (online : bool) (f : fdio) : world E :=
  World ∅ {[1%nat := peer_device online]} [1%nat] [] [] 1 fd_start {[10 := f]} 2%nat.

(** A local socket at 2. *)
Definition listening (f : fdio) : world E := (ok_or (0%nat, boot true f) (create_local_socket (boot true f) 10)).2.

(** Linked to a remote socket at 3, with the id 7. *)
Definition stream_of (f : fdio) : world E :=
  ok_or (boot true f) (let* w := attach_remote (listening f) 2 7 1 in let* ' (_, w) := run (CReady 2) w in Ok w).
Definition stream : world E := stream_of hello_fd.

(** Linked to a smart socket at 3. *)
Definition client : world E := (ok_or (0, boot true hello_fd) (connect_to_smartsocket run (listening hello_fd) 2)).2.

(** * Theorems *)

Lemma boot_wf online f : wf_world (boot online f).
Proof.
  assert (forall a, w_socks (boot online f) !! a = None) as Hs by (intros a; apply lookup_empty).
  assert (forall a, ev_interest (F := fd_func) (w_ev (boot online f)) a = None) as Hi by done.
  split; [split|]; try done.
  - exact start_wf.
  - constructor.
  - intros a [Ha|[Ha|Ha]]; [rewrite Hs in Ha; by destruct Ha| |rewrite Hi in Ha; by destruct Ha].
    cbn in Ha. destruct (decide (1%nat = a)) as [<-|Hne]; [cbn; lia|]. rewrite lookup_singleton_ne in Ha by done.
    by destruct Ha.
  - intros a. split; [by intros ?%elem_of_nil|]. intros (s & Ha & _). by rewrite Hs in Ha.
  - intros a Ha. rewrite Hi in Ha. by destruct Ha.
  - intros a Ha%elem_of_nil. done.
  - intros a Ha. rewrite Hs in Ha. by destruct Ha.
  - intros t y Hy. cbn in Hy. destruct (decide (1%nat = t)) as [<-|Hne].
    + rewrite lookup_singleton_eq in Hy. injection Hy as <-. split; [constructor|]. intros a.
      split; [by intros ?%elem_of_nil|]. intros (s & Ha & _). by rewrite Hs in Ha.
    + by rewrite lookup_singleton_ne in Hy.
Qed.

Lemma listening_ok f : wf_world (listening f) /\ w_socks (listening f) !! 2%nat = Some (fresh_local 1 10).
Proof.
  destruct (create_local_ok (boot true f) 10 (boot_wf true f)) as (e & He & W); [by split|split; [lia|by intros b]|].
  unfold listening. rewrite He. split; [exact W|]. apply lookup_insert_eq.
Qed.

Lemma stream_ok f : wf_world (stream_of f).
Proof.
  destruct (listening_ok f) as [W Ha]. unfold stream_of.
  destruct (attach_remote_ok (listening f) 2%nat _ 7 1%nat W Ha) as (w & -> & K & _); [done..|by eexists|].
  cbn [res_bind]. pose proof (linked_ready 6 w 2%nat _ K) as H.
  unfold run, exec_depth. destruct (exec 8 (CReady 2%nat) w) as [[v w']| | |]; [apply H|apply boot_wf..].
Qed.

Lemma client_ok : wf_world client.
Proof.
  destruct (listening_ok hello_fd) as [W Ha]. unfold client.
  pose proof (connect_to_smartsocket_ok 6 (listening hello_fd) 2%nat _ W Ha eq_refl eq_refl eq_refl) as H.
  unfold run, exec_depth. destruct (connect_to_smartsocket _ _ _) as [[v w']| | |]; [apply H|apply boot_wf..].
Qed.

(** The two ends of the stream. *)
Definition stream_local (f : fdio) : asocket := default (fresh_local 1 10) (w_socks (stream_of f) !! 2%nat).
Definition stream_remote (f : fdio) : asocket := default (fresh_local 1 10) (w_socks (stream_of f) !! 3%nat).

Lemma stream_pair : pair stream 2%nat (stream_local hello_fd) 3%nat (stream_remote hello_fd).
Proof. apply wf_pair_of; [apply stream_ok|vm_compute; reflexivity..]. Qed.

Lemma close_safe_witness : wf_world stream /\ ensures (run (CClose 2%nat) stream) (fun r =>
  wf_world r.2 /\ Forall (closed r.2) [2%nat; 3%nat]).
Proof.
  split; [exact (stream_ok hello_fd)|].
  eapply ensures_mono; [|exact (close_safe stream 2%nat (stream_local hello_fd) (stream_ok hello_fd)
    ltac:(vm_compute; reflexivity))].
  intros r (H & _ & C & _). split; [exact H|exact C].
Defined.


(** ** Events *)

Lemma read_asked : exists i, ev_interest (F := fd_func) (w_ev stream) 2%nat = Some i /\ has i FDE_READ = true.
Proof. eexists. split; vm_compute; reflexivity. Qed.

Lemma event_forwards_witness : ensures (socket_event 10 FDE_READ 2 stream)
  (forwarded stream 2 (stream_local hello_fd) 3 (stream_remote hello_fd)).
Proof.
  exact (event_forwards stream 2 (stream_local hello_fd) 3 (stream_remote hello_fd) (stream_ok hello_fd) stream_pair
    ltac:(vm_compute; reflexivity) ltac:(vm_compute; reflexivity)).
Defined.

(** The five bytes are sent as one message. *)
Example hello_forwarded : match socket_event 10 FDE_READ 2 stream with
  | Ok w => map (fun p => (command (msg p), arg0 (msg p), arg1 (msg p), p_data p)) (default [] (outs w 1)) = [(A_WRTE, 1, 7, lit "hello")]
  | _ => False
  end.
Proof. vm_compute. reflexivity. Qed.

(** A descriptor that takes nothing, and data for it. *)
Definition full_fd : fdio := Fdio [] [] [] [].
Definition data_packet : apacket :=
  set_data (lit "abc") (set_data_length 3 (set_header A_WRTE 7 1 get_apacket)).
Definition blocked : world E := ok_or (stream_of full_fd) (handle_wrte data_packet 1 (stream_of full_fd)).

Lemma data_packet_in : packet_in data_packet.
Proof. split_and!; [vm_compute; discriminate..|]. intros H. discriminate H. Qed.

Lemma data_expected f : expected (stream_of f) data_packet.
Proof.
  intros _ a s Ha Hin Hid. destruct (stream_ok f) as [B P].
  destruct (decide (a = 2%nat)) as [->|Hne].
  - exists 3%nat, (stream_remote f). assert (s = stream_local f) as -> by (unfold stream_local; by rewrite Ha).
    split_and!; vm_compute; reflexivity.
  - exfalso. assert (w_locals (stream_of f) = [2%nat]) as Hl by (vm_compute; reflexivity).
    rewrite Hl in Hin. apply list_elem_of_singleton in Hin. done.
Qed.

Lemma blocked_ok : wf_world blocked.
Proof.
  pose proof (handle_wrte_wf (stream_of full_fd) data_packet 1%nat (stream_ok full_fd)) as H. unfold blocked.
  destruct (handle_wrte data_packet 1%nat (stream_of full_fd)) as [w| | |]; [|apply stream_ok..].
  apply H; [vm_compute; by eexists|apply data_packet_in|done|apply data_expected].
Qed.

Definition blocked_local : asocket := default (fresh_local 1 10) (w_socks blocked !! 2%nat).
Definition blocked_remote : asocket := default (fresh_local 1 10) (w_socks blocked !! 3%nat).

Lemma event_writes_witness : waiting blocked_local = lit "abc" /\ ensures (socket_event 10 FDE_WRITE 2 blocked) (fun w' =>
    (delivered blocked 2 blocked_local [] w' /\ exists s', w_socks w' !! 2%nat = Some s'
       /\ sent (Some 1%nat) (if bool_decide (sk_pkts s' = []) then [header_packet A_OKAY 1 7] else []) blocked w')
    \/ (closed w' 2 /\ closed w' 3 /\ sent (Some 1%nat) [header_packet A_CLSE 0 7] blocked w')).
Proof.
  split; [vm_compute; reflexivity|].
  exact (event_writes blocked 2 blocked_local 3 blocked_remote blocked_ok
    (wf_pair_of blocked 2 blocked_local 3 blocked_remote blocked_ok ltac:(vm_compute; reflexivity)
      ltac:(vm_compute; reflexivity) ltac:(vm_compute; reflexivity))
    ltac:(vm_compute; reflexivity) ltac:(vm_compute; discriminate)).
Defined.

Lemma event_safe_witness : has (FDE_READ + FDE_WRITE) FDE_WRITE = true
  /\ ensures (socket_event 10 (FDE_READ + FDE_WRITE) 2 blocked) wf_world.
Proof.
  split; [reflexivity|].
  exact (event_safe blocked 2 blocked_local (FDE_READ + FDE_WRITE) blocked_ok ltac:(vm_compute; reflexivity)
    ltac:(vm_compute; reflexivity) (fun _ => ex_intro _ 3 (conj (eq_refl (Some 3)) eq_refl))).
Defined.

(** ** The end of a transport *)

Lemma close_all_ends_witness : ensures (close_all_sockets stream 1) (fun w' => wf_world w' /\
  forall a, a ∈ w_locals w' -> on_transport w' 1 a = Ok false).
Proof. exact (close_all_ends stream 1 (stream_ok hello_fd)). Defined.

Definition stream_transport : atransport := default (peer_device true) (w_trans stream !! 1%nat).

Lemma disconnects_end_witness : remote_of stream 1 3 /\ ensures (run_transport_disconnects run stream 1) (fun w' =>
  wf_world w' /\ forall a, ~ remote_of w' 1 a).
Proof.
  split; [eexists; vm_compute; done|].
  eapply ensures_mono; [|exact (disconnects_end stream 1 stream_transport
    (stream_ok hello_fd) ltac:(vm_compute; reflexivity))].
  intros w' (H1 & H2 & _). split; assumption.
Defined.

(** A connection to a forward of the transport 1. *)
Lemma forward_opens_witness : exists w', listener_event (AListener 5 (lit "tcp:80") (lit "tcp:8080") (Some 1%nat)) FDE_READ 10 (boot true hello_fd) = Ok w'
  /\ wf_world w' /\ exists s q, w_socks w' !! 2%nat = Some s /\ sk_id s = 1 /\ sk_fd s = 10 /\ sk_transport s = Some 1%nat /\ sk_peer s = None
  /\ seal (open_packet 1 (lit "tcp:8080")) = Ok q /\ sent (Some 1%nat) [q] (boot true hello_fd) w'.
Proof.
  pose proof (forward_opens (AListener 5 (lit "tcp:80") (lit "tcp:8080") (Some 1%nat)) FDE_READ 10 (boot true hello_fd) 1 (boot_wf true hello_fd)
    eq_refl ltac:(by split) ltac:(split; [lia|by intros b]) eq_refl ltac:(by eexists) ltac:(vm_compute; discriminate)) as H.
  unfold ensures in H. destruct (listener_event _ _ _ _) as [w'| | |] eqn:E1; [exists w'; split; [reflexivity|exact H]| |destruct H|];
    exfalso; vm_compute in E1; discriminate.
Defined.

(** ** Requests to the server *)

(** A server with a client at the smart socket 3, and a port for it. *)
Definition server : host (E := E) (E' := fdstate listener_func) := Host client (run_op smart no_listeners) [].
Definition ports (name : bytes) : Z := if bool_decide (name = lit "tcp:80") then 11 else -1.

Lemma server_ok : host_ok server.
Proof.
  split; [exact client_ok|exact smart_wf| |].
  - intros t x Ht. destruct (decide (t = 1%nat)) as [->|Hne].
    + assert (w_trans (h_world server) !! 1%nat = Some (peer_device true)) as E1 by (vm_compute; reflexivity). rewrite E1 in Ht. injection Ht as <-. by eexists.
    + exfalso. assert (forallb (fun y => bool_decide (y.1 = 1%nat)) (map_to_list (w_trans (h_world server))) = true) as Hall by (vm_compute; reflexivity).
      rewrite forallb_forall in Hall. specialize (Hall (t, x)). apply Hne. eapply bool_decide_eq_true_1, Hall. by apply list_elem_of_In, elem_of_map_to_list.
  - intros f t Hf Hft. assert (table (h_listeners server) = [Forward (lit "tcp:7777") (lit "*smartsocket*") None]) as E1 by (vm_compute; reflexivity).
    rewrite E1 in Hf. apply list_elem_of_singleton in Hf as ->. done.
Qed.

Lemma server_new : new_ok ports 5 server.
Proof.
  split; [vm_compute; reflexivity|]. split; [vm_compute; reflexivity|]. intros n Hn. unfold ports in *. case_bool_decide; [|lia].
  split; [unfold FD_SETSIZE; lia|]. split; [unfold FD_SETSIZE; lia|]. intros b. vm_compute. discriminate.
Qed.

Lemma request_safe_witness : ensures (handle_host_request (fun _ => 0) ports 5 (lit "devices-l") kTransportAny None 10 3 server) (fun r => host_ok r.2).
Proof.
  apply (request_safe (fun _ => 0) ports 5 (lit "devices-l") kTransportAny None 10 3%nat (default (fresh_local 1 10) (w_socks client !! 3%nat)) server);
    [exact server_ok|exact server_new|vm_compute; reflexivity|vm_compute; reflexivity|]. intros _. vm_compute. reflexivity.
Defined.

Lemma forward_answered_witness : exists h' v, handle_host_request (fun _ => 0) ports 5 (lit "forward:tcp:80;tcp:8080") kTransportAny None 10 3 server = Ok (0, h')
  /\ host_ok h' /\ table (h_listeners h') = [Forward (lit "tcp:7777") (lit "*smartsocket*") None; Forward (lit "tcp:80") (lit "tcp:8080") (Some 1%nat)]
  /\ fd_writex client 10 (lit "OKAYOKAY") = Ok (v, h_world h').
Proof.
  pose proof (forward_answered (fun _ => 0) ports 5 false (lit "tcp:80") (lit "tcp:8080") kTransportAny None 10 3%nat server 1%nat (peer_device true) server_ok server_new) as H.
  assert (table_step (Install (lit "tcp:80") (lit "tcp:8080") (Some 1%nat) false 5%nat (ports (lit "tcp:80"))) (table (h_listeners server)) =
    (0, [Forward (lit "tcp:7777") (lit "*smartsocket*") None; Forward (lit "tcp:80") (lit "tcp:8080") (Some 1%nat)])) as E1 by (vm_compute; reflexivity).
  rewrite E1 in H. apply H; [vm_compute; set_solver|done|done|done|done|vm_compute; reflexivity].
Defined.

(** The server of the local names, of which one can be bound. *)
Definition one_port (port : Z) : Z := if bool_decide (port = 80) then 11 else -1.
Definition local_ports : bytes -> Z := local_name_to_fd one_port one_port (fun _ _ => -1) 0.

Lemma local_ports_new : new_ok local_ports 5 server.
Proof.
  split; [vm_compute; reflexivity|]. split; [vm_compute; reflexivity|]. intros n Hn. assert (local_ports n = 11) as ->.
  { unfold local_ports, local_name_to_fd, one_port in *. change (bool_decide (0 > 0)) with false in *.
    destruct (starts_with (lit "tcp:") n); [by case_bool_decide|]. repeat (destruct (starts_with _ n); [lia|]). lia. }
  split; [unfold FD_SETSIZE; lia|]. split; [unfold FD_SETSIZE; lia|]. intros b. vm_compute. discriminate.
Qed.

Lemma norebind_refused_witness : exists h' msg v,
  handle_host_request (fun _ => 0) local_ports 5 (lit "forward:norebind::tcp:80;tcp:8080") kTransportAny None 10 3 server = Ok (0, h')
  /\ table (h_listeners h') = table (h_listeners server) /\ sendfailmsg (h_world server) 10 msg = Ok (v, h_world h').
Proof.
  exact (proj2 (norebind_refused (fun _ => 0) one_port one_port (fun _ _ => -1) 0 5 (lit "tcp:80") (lit "tcp:8080") kTransportAny None 10 3%nat server
    ltac:(by apply Nat.leb_le) server_ok local_ports_new)).
Defined.

(** ** Messages *)

(** A daemon with one service, [shell:], on descriptor 11 unless it is watched,
    which asks the user for nothing and accepts the signature [good]. *)
Definition demo_service (name : bytes) (w : world E) : res (Z * world E) :=
  match fs_table (w_ev w) !! 11%nat with
  | Some (Ptr _) => Ok (-1, w)
  | _ => Ok (if bool_decide (name = lit "shell:") then 11 else -1, w)
  end.
Definition demo (auth : bool) : platform E :=
  Platform auth 0 (lit "device") (fun _ => lit "x") demo_service (fun w => Ok (None, w)) (fun w => Ok (None, w))
    (fun _ sig => bool_decide (sig = lit "good")) (fun _ _ w => Ok w).

Lemma demo_ok auth : platform_ok (demo auth).
Proof.
  split; [vm_compute; lia|intros key; vm_compute; lia| |intros w W; split; [done|]; split; [by intros u|done]..|done].
  intros name w W. cbn [demo service_to_fd]. unfold demo_service.
  assert (forall fd, (forall c, fs_table (w_ev w) !! 11%nat <> Some (Ptr c)) -> (fd = 11 \/ fd = -1) ->
    wf_world w /\ keeps_trans w w /\ (0 <= fd -> fd < FD_SETSIZE /\ fde_free_fd (w_ev w) fd)) as Hfree.
  { intros fd Hc Hfd. split; [done|]. split; [by intros u|]. intros H0. assert (fd = 11) as -> by lia.
    split; [unfold FD_SETSIZE; lia|]. split; [lia|exact Hc]. }
  destruct (fs_table (w_ev w) !! 11%nat) as [[|c|]|] eqn:Ht; cbn [ensures fst snd];
    try (apply Hfree; [congruence|case_bool_decide; auto]).
  split; [done|]. split; [by intros u|lia].
Qed.


(** *** Authentication *)

Definition answer (sig : bytes) : apacket :=
  set_data sig (set_data_length (Z.of_nat (length sig)) (set_header A_AUTH ADB_AUTH_SIGNATURE 0 get_apacket)).
Definition open_request : apacket :=
  set_data (lit "shell:" ++ [Byte.x00]) (set_data_length 7 (set_header A_OPEN 5 0 get_apacket)).
Definition a_token : bytes := repeat Byte.x41 TOKEN_SIZE.

(** A connection, which is asked to sign a token, a signature that does not
    verify, and a request that is ignored. *)
Definition unsigned : list (option bytes * apacket) :=
  [(Some a_token, set_data (lit "host::" ++ [Byte.x00]) (set_data_length 7 (set_header A_CNXN A_VERSION MAX_PAYLOAD get_apacket)));
   (None, answer (lit "bad")); (None, open_request)].


Lemma banner_roundtrip_witness : exists text,
  fill_connect_data (lit "device") (fun _ => lit "x") MAX_PAYLOAD = Ok (text, Z.of_nat (length text) + 1).
Proof.
  destruct (banner_roundtrip (lit "device") (fun _ => lit "x") (peer_device false) [] ltac:(vm_compute; lia)
    ltac:(apply (bool_decide_eq_false _); vm_compute; reflexivity)
    ltac:(apply (bool_decide_eq_false _); vm_compute; reflexivity)) as (text & Ht & _); [|by exists text].
  intros key. split; [vm_compute; lia|]. split; apply (bool_decide_eq_false _); vm_compute; reflexivity.
Defined.

(** *** Streams *)

Lemma wrte_in_order_witness : exists l, l = lit "abc" /\
  ensures (handle_packet (demo false) None data_packet 1 stream) (fun w' =>
    (delivered stream 2 (stream_local hello_fd) l w' /\ exists s', w_socks w' !! 2%nat = Some s'
       /\ sent (Some 1%nat) (if bool_decide (sk_pkts s' = []) then [header_packet A_OKAY 1 7] else []) stream w')
    \/ (closed w' 2 /\ closed w' 3 /\ sent (Some 1%nat) (goodbye 0 (stream_remote hello_fd)) stream w')).
Proof.
  eexists. split; [|exact (wrte_in_order (demo false) None data_packet 1 stream stream_transport 2 (stream_local hello_fd) 3
    (stream_remote hello_fd) (stream_ok hello_fd) ltac:(vm_compute; reflexivity) ltac:(vm_compute; reflexivity)
    ltac:(reflexivity) data_packet_in ltac:(vm_compute; reflexivity) stream_pair ltac:(vm_compute; reflexivity))].
  vm_compute. reflexivity.
Defined.

Lemma shell_fd_free : ev_free_fd (F := fd_func) (w_ev stream) 11.
Proof. split; [lia|]. intros c. vm_compute. discriminate. Qed.

Lemma open_connects_witness : w_next_id stream = 2 /\
  ensures (handle_packet (demo false) None open_request 1 stream) (fun w' =>
    if bool_decide (11 < 0) then sent (Some 1%nat) [header_packet A_CLSE 0 (arg0 (msg open_request))] stream w' /\ w_socks w' = w_socks stream
    else sent (Some 1%nat) [header_packet A_OKAY (w_next_id stream) (arg0 (msg open_request))] stream w'
      /\ exists a b s sb, w_socks w' !! a = Some s /\ w_socks w' !! b = Some sb
        /\ sk_peer s = Some b /\ sk_peer sb = Some a /\ sk_id s = w_next_id stream /\ sk_fd s = 11
        /\ sk_id sb = arg0 (msg open_request) /\ sk_transport sb = Some 1%nat
        /\ exists i, ev_interest (F := fd_func) (w_ev w') a = Some i /\ has i FDE_READ = true).
Proof.
  split; [vm_compute; reflexivity|].
  exact (open_connects (demo false) None open_request 1 stream stream_transport (lit "shell:") 11 stream
    ltac:(vm_compute; reflexivity) ltac:(vm_compute; reflexivity) ltac:(reflexivity)
    ltac:(split_and!; [vm_compute; discriminate..|intros H; discriminate H])
    ltac:(vm_compute; reflexivity) ltac:(vm_compute; discriminate) ltac:(vm_compute; discriminate)
    ltac:(vm_compute; reflexivity) (stream_ok hello_fd) ltac:(vm_compute; by eexists)
    (fun _ => conj (eq_refl : 11 < FD_SETSIZE) shell_fd_free)).
Defined.

(** A client that asks for [shell:] in two pieces. *)
Definition client_local : asocket := default (fresh_local 1 10) (w_socks client !! 2%nat).
Definition client_smart : asocket := default (fresh_local 1 10) (w_socks client !! 3%nat).
Definition half_request : apacket := set_len 6 (set_data (lit "0006sh") get_apacket).

Lemma request_collected_witness : exists req, req = lit "0006sh" /\
  ensures (run (CEnqueue 3 half_request) client) (fun r =>
    if bool_decide (Z.of_nat (length req) > MAX_PAYLOAD) then refused client 3 2 r
    else answered client 3 client_smart 2 client_local req r).
Proof.
  exists (request client_smart ++ p_data half_request). split; [vm_compute; reflexivity|].
  exact (request_collected client 3 client_smart 2 client_local half_request client_ok
    (wf_pair_of client 3 client_smart 2 client_local client_ok ltac:(vm_compute; reflexivity)
      ltac:(vm_compute; reflexivity) ltac:(vm_compute; reflexivity))
    ltac:(vm_compute; reflexivity) ltac:(split_and!; vm_compute; (reflexivity || discriminate))).
Defined.

(** ** What the conditions exclude *)

Definition busy_fd : fdio := Fdio [] [] [Fail EAGAIN; Xfer 9] [].

(** Data for a stream that is not connected yet is queued when the descriptor
    takes nothing; once it does, the event function follows the null pointer
    to the peer. *)
Example stray_write_crashes : let w := listening busy_fd in
  (let* w := handle_packet (demo false) None data_packet 1 w in socket_event 10 FDE_WRITE 2 w) = Ub.
Proof. vm_compute. reflexivity. Qed.

(** Two local sockets that are peers, the second on a descriptor that fails. *)
Definition local_pair : world E :=
  ok_or (boot true hello_fd)
    (let* ' (_, w) := create_local_socket (with_io (<[11 := bad_fd]> (w_io (listening hello_fd))) (listening hello_fd)) 11 in
     let* w := update_sock w 2 (with_peer (Some 3%nat)) in
     let* w := update_sock w 3 (with_peer (Some 2%nat)) in Ok w).

(** Of two local sockets that are peers, as a build with [ADB_HOST] makes them,
    when the descriptor of the second fails, the first is freed while its event
    function goes on with it. *)
Example local_peers_uaf : is_Some (w_socks local_pair !! 2%nat) /\ socket_event 10 FDE_READ 2 local_pair = Ub.
Proof. split; [vm_compute; by eexists|]. vm_compute. reflexivity. Qed.

(** ** The threads of a transport *)

#[local] Instance demo_daemon : Dispatcher (world E) daemon_event := daemon (demo false) 1%nat.

Lemma demo_grows auth : platform_grows (demo auth).
Proof.
  split; cbn [demo service_to_fd create_jdwp_service_socket create_jdwp_tracker_service_socket adb_auth_confirm_key]; intros; try done.
  unfold demo_service. by destruct (fs_table _ !! _) as [[]|].
Qed.

#[local] Instance demo_laws : DispatcherLaws demo_daemon := daemon_laws (demo false) 1%nat (demo_grows false).

(** The connection starts, three bytes come for the stream, the remote goes. *)
Definition connection : list (Pump.action daemon_event) :=
  [Output; Main None; Input; Remote (Some data_packet); Output; Main None; Input; Remote None; Output; Output; Output; Output;
   Main None; Input; Input; Input; Input].
Definition first_world : world E := stream_of (Fdio [] [] [Xfer 99] []).
Definition ended (acts : list (Pump.action daemon_event)) : pump (world E) :=
  ok_or (begin 1 first_world) (Pump.run acts (begin 1 first_world)).

Definition heads (l : list apacket) : list (Z * Z * Z) := map (fun p => (command (msg p), arg0 (msg p), arg1 (msg p))) l.

Lemma first_quiet : Forall not_sync (d_out first_world).
Proof. apply Forall_forall. intros p Hp. assert (E : d_out first_world = []) by (vm_compute; reflexivity). rewrite E in Hp. by apply elem_of_nil in Hp. Qed.

Lemma connection_quiet : Forall quiet_action connection.
Proof. unfold connection. repeat (apply Forall_cons; split; [by vm_compute|]). by apply Forall_nil_2. Qed.

(** The acknowledgement of the three bytes is all that the remote is sent. *)
Lemma pump_streams_witness : heads (p_written (ended connection)) = [(A_OKAY, 1, 7)] /\ streams 2 (ended connection).
Proof.
  split; [vm_compute; reflexivity|].
  exact (pump_streams 1 first_world connection (ended connection) first_quiet connection_quiet ltac:(vm_compute; reflexivity)).
Defined.

Lemma pump_ends_witness : all_wait (ended connection) /\ p_input (ended connection) = IGone /\
  (all_wait (ended connection) -> (p_output (ended connection) = OReads /\ exists a, p_input (ended connection) = IReads a)
    \/ (p_output (ended connection) = OGone /\ p_input (ended connection) = IGone /\ p_kicks (ended connection) = 1%nat /\ p_refs (ended connection) = 0
        /\ p_handled (ended connection) = sync_packet 1 2 :: p_read (ended connection) ++ [sync_packet 0 0])).
Proof.
  split; [split_and!; [vm_compute; reflexivity|left; vm_compute; reflexivity|left; vm_compute; reflexivity]|].
  split; [vm_compute; reflexivity|].
  exact (proj2 (pump_ends 1 first_world connection (ended connection) first_quiet connection_quiet ltac:(vm_compute; reflexivity))).
Defined.

(** The remote can send an [A_SYNC] itself: it is handled like one of the output
    thread, and ends the connection while the device is still there. *)
Definition from_the_wire : list (Pump.action daemon_event) :=
  [Output; Main None; Input; Remote (Some (sync_packet 0 0)); Output; Main None; Input; Input; Input; Input].

Lemma wire_sync_ends : p_input (ended from_the_wire) = IGone /\ p_output (ended from_the_wire) = OReads /\ p_kicks (ended from_the_wire) = 1%nat
  /\ p_remote (ended from_the_wire) = [].
Proof. vm_compute. auto. Qed.
